(* ===== verification/_CoqProject ===== *)
-Q . S2P
Prelude.v
Regex.v
Errors.v
Redaction.v
Model.v
Ports.v
History.v
Worker.v
BatchDispatcher.v
Store.v
PgxRepo.v
OutboxSafety.v
PgxSpec.v
GormRepo.v
System.v
Refinement.v
BatchRefinement.v
Draining.v
Dispatcher.v
LifeRace.v
SqsRouter.v
SqsPublisher.v
Consumer.v
ConsumerPool.v
Inbox.v
Handlers.v
Pipeline.v
Fleet.v
FleetDelivery.v
Settled.v
DispatchTasks.v
Crew.v
CrewRefines.v
Whole.v
Config.v
Schema.v
AppStore.v
AppTx.v
Services.v
Api.v
Shop.v
CallsEnd.v
ShopCases.v
Wiring.v
Metrics.v
PgMetrics.v
MetricsLog.v
Programs.v
Benchmark.v
BenchReport.v
