(* ===== verification/Prelude.v ===== *)
(** * o4x: transactional outbox and SQS delivery, modelled and verified

    o4x is a Go library.  An application inserts messages into an [outbox]
    table in its own transaction; dispatchers fetch them, publish them to SQS
    and record the outcome; a consumer service receives them and hands them to
    handlers, which use an [inbox] table to handle each event once.  The
    repository has an example application, a small shop, built on the library.
    This development translates the library and the example into Rocq
    functions and proves what makes the delivery correct.

    ** How the program is modelled

    A Go call is a function [GoM W A]: it takes the world [W] and gives a new
    world and a value, or a panic.  A panic keeps the reason, not the text Go
    would print.  A pair (value, error) is a [result]; a lone error is an
    [option error].  Integers and durations are [Z] with [wrap64] where the
    code can leave 64 bits; durations are nanoseconds, database times
    microseconds.  Log statements and [defer cancel()] are left out: they
    change nothing the program reads.

    What a part needs of another is a type class (the repository, the
    publisher, the SQS client, the queue router, the inbox), as in the source;
    the parts are proved against the classes, for every instance, and the
    implementations are instances.

    Where goroutines, processes or transactions interleave, the code is a
    program of calls or statements, or a step function, and a run is an explicit
    list of events: System (repository calls of many dispatchers), SqsPublisher
    (steps of goroutines with a mutex and a wait group), ConsumerPool (calls of a message's goroutine), Crew
    (calls of the dispatcher workers), Handlers and AppTx (statements of
    transactions), Metrics (atomic operations).

    ** Files of the library

    - Prelude: integers, Go calls, automation.
    - Regex: regular expressions with the leftmost-first search of Go's
      [regexp], used by Errors and Model, and the languages they match.
    - Errors: core/errors.go.  Error trees with [errors.Is] and [errors.As],
      the retry classification, redaction and [TruncateErrorMessage].
    - Redaction: what a secret is, described without the patterns, and the text
      that replacing the first pattern makes.
    - Model: core/model.go, core/clock.go, core/health.go.
    - Ports: core/repository.go, core/publisher.go, core/hooks.go and
      [createCleanupContext]: the interfaces.
    - History: worlds that record calls.  Their answers are an arbitrary
      function ([Oracle]) of what was called before, so a theorem for every
      oracle is one for every environment.
    - Worker: core/worker.go.  [processOne], [handlePublishFailure], [Run].
    - BatchDispatcher: core/batch_dispatcher.go, the worker part.
    - Store: the outbox table of schema/schema.go as a finite map, the SQL
      statement forms, and the environment of a statement: the readings of the
      server's clock, [random()], the rows others have locked, the order of
      rows, the failure of the call before or after it took effect.
    - PgxRepo: contrib/pgx/repo.go and config.go, query by query and method by
      method.  A statement is atomic; FOR UPDATE SKIP LOCKED appears as the set
      of locked rows.
    - OutboxSafety: the status machine and the invariant every call keeps.
    - PgxSpec: what each call selects, writes and answers.
    - GormRepo: contrib/gorm/repo.go and its equivalence with pgx.
    - System: any number of workers, the requeue worker, recovery, cleanup and
      inserting applications interleaved call by call ([sys_step]), with
      crashes and lost answers; the invariants of reachable states.
    - Refinement, BatchRefinement: [processOne] and [processBatch] run on the
      pgx repository do what the events of System do.
    - Draining: recovery and rounds of requeue and [processBatch] after a crash.
    - Dispatcher: core/dispatcher.go, the rest of core/batch_dispatcher.go and
      core/shutdown.go: configuration, life cycle, graceful shutdown, requeue.
    - LifeRace: the calls of Start and Stop of any number of goroutines, step by
      step ([race_step]), with the goroutines of the wait group, and the recovery,
      which is outside of it and runs under the context given to Start.
    - SqsRouter, SqsPublisher: contrib/sqs/publisher.go.  The goroutines of the
      multi-queue batch and its own goroutine take turns ([turn_step]): locking,
      unlocking, counting down and waiting are steps, on a mutex and a wait group
      that can block for ever or panic; both batch publishers are instances of the interface, with its laws.
    - Consumer: contrib/sqs/consumer, the sequential loop.
    - ConsumerPool: its parallel loop, goroutine by goroutine, and [Stop].
    - Inbox: core/inbox_repository.go and its two implementations.
    - Config: contrib/gorm/config.go and the constructors of all repositories.
    - Schema: schema/schema.go and cmd/o4x-schema: the texts of the DDL through
      [fmt.Sprintf], and the objects they name.

    ** Files of the example application

    - Handlers: the two handlers of examples/app/internal/consumer that use the
      inbox, as programs of statements on a database at READ COMMITTED, whose
      effects tables refuse what does not fit their columns ([refused]).
    - Pipeline: the dispatchers of System, the queue, and the handlers of Handlers
      in one system, from the row of the outbox to its effect.
    - Fleet, FleetDelivery: the consumer services on that system, worker by worker
      and call by call ([fleet_step]), and what an undisturbed worker does.
    - Settled: which calls leave a message PUBLISHING.
    - DispatchTasks: [processOne] and [processBatch] call by call, as tasks that
      run alone are those functions.
    - Crew, CrewRefines: any number of such goroutines on the pgx repository
      ([crew_step]), with what a turn may do ([lawful]) and the simulation by
      System.
    - Whole: crews of dispatchers, the queue, and the consumer services of Fleet
      ([whole_step]); no part between a row and its effect is abstracted.
    - AppStore: internal/domain, internal/repository and the migration: every
      query as a function of the rows its transaction sees ([Query]), every
      repository method as a program of queries ([Prog]).
    - AppTx: any number of such programs interleaved query by query
      ([app_step]) with the dispatchers' calls, on READ COMMITTED with row and
      key locks, a bounded pool, failing queries, lost commit answers and dying
      processes; [valid], the proof rule for a program under interference.
    - Services: internal/service, and the invariant of the shop.
    - Api: internal/handler, the routes of cmd/api, and the handlers of
      internal/consumer that call a service or an external system.
    - Shop: the theorems about the whole, for every run.
    - CallsEnd: every call is answered.
    - ShopCases: the witnesses of the two, and runs that go wrong.
    - Wiring: cmd/dispatcher, cmd/consumer and cmd/api put together.
    - Metrics: internal/instrumentation, the shared collector and the wrappers.
    - PgMetrics: its PostgreSQL metrics, and cmd/dispatcher-bench.
    - MetricsLog: what both log, [LogStats] among it.
    - Programs: the main functions of examples/app/cmd as sequences of actions
      on the outside ([Action]), with their exits and deferred calls.
    - Benchmark, BenchReport: examples/app/benchmark, the load generator and its
      report.

    ** What is shown

    - Delivery (System to Draining): a PUBLISHED message was
      accepted by the broker; publishes are bounded; DEAD has a reason; final
      rows stay; with a recovery threshold longer than any publish no message is
      lost between the states, and without it one can be; after a crash every
      message is brought to its end, and later messages do not starve it, as long as
      no row has a limit of attempts whose backoff is out of the range of SQL.
    - Dispatchers at work (Settled to CrewRefines): goroutines that run the code
      of the workers call by call do what System allows and never get stuck, so
      its theorems hold of them; and a graceful stop leaves no message
      PUBLISHING.
    - Calls (OutboxSafety, PgxSpec, GormRepo): the invariant, the exact effect of
      every call, also where SQL arithmetic fails, and the equivalence of the two repositories.
    - Workers (Worker, BatchDispatcher): one status update for each message,
      under a context that survives the shutdown; bounded polling.
    - Publishing (SqsRouter, SqsPublisher): longest-prefix routing against a
      reference; one result per message under every interleaving; termination.
    - Consuming (Consumer, ConsumerPool, Inbox, Handlers): when a message is
      deleted, sequentially and in parallel; bounded parallelism; the loop can
      always return; parsing undoes encoding, one effect per event, and the key
      the effects table needs for it.  An effect that does not fit its columns
      fails at every delivery; what is said of deliveries that succeed is for those
      that fit ([fits]).
    - End to end (Pipeline, Fleet, FleetDelivery): an event has at most one effect, which agrees with
      its row, and what is PUBLISHED has its effect, was given up by a handler that
      failed on a delivery at least the [MaxAttempts]-th, or can still take effect; consumer services with any number of
      workers do nothing else, and after a restart an undisturbed worker delivers;
      Whole says it for the code of both sides together.
    - Life cycle (Dispatcher, LifeRace, Config, Programs): validated configuration
      and table names, shutdown within the force timeout, workers and requeue loops
      that can all end however Start and Stop are called, what a Start during a Stop
      breaks, and a recovery that outlives Stop; programs that fail early, and end
      what they started, the workers last, before they close the pool.
    - Texts (Errors, Redaction, Model, Schema): redaction, bounded valid UTF-8, table names,
      the names of the schema's objects, and the overflow of
      [CalculateNextRetryAt].
    - The shop (Services to Wiring): a committed order, user or notification has
      its message and every message has its rows; the stock balances and is not
      promised twice; an answer stays true; every call ends; every event of the
      services reaches the handler meant for it.
    - Metrics: concurrent recording of positive durations loses nothing and ends, the wrappers
      change no answer, and the logged lines of the workers add up.
    - Load generator: the count mode ends with every request counted once, the
      statistics are in order, the timed mode can deadlock, and the CSV reads back.

    ** Parameters

    JSONB input ([jsonb]), JSON decoding of request and event bodies
    ([RequestDecoding], [EventDecoding]), the rendering of events
    ([EventEncoding]), JSON and RFC 3339 of the benchmark's report, [uuid.Parse], UUID generation, [time.ParseDuration], the
    simulated failures of the external senders, the SQS client and the float
    conversion of out-of-range values are code outside the repository, or
    chance: arguments of the definitions, with documented behaviour as
    hypotheses ([env_ok], [SQSClientLaws], [BatchPublisherLaws]).  The properties
    with hypotheses are applied to concrete inputs in the lemmas named
    [..._witness].

    ** Bounds and fuel

    Loops over a [select] take the sequence of its outcomes.  The replacement
    loop of Regex and [valid_from] of Errors have the length of the text as fuel:
    every turn consumes a byte, and the lemmas show that more changes nothing.
    Schedules are arbitrary lists; termination is proved for every schedule that
    comes round to all goroutines as often as there are steps ([all_steps]: nine for
    each and one, SqsPublisher), for every schedule of
    N * (4 * N + 11) steps (Metrics, where a compare-and-swap can be repeated),
    after ten own steps of a call of the shop (CallsEnd), and after as many rounds
    as the rows have attempts left (Draining).

    ** Not modelled

    - Log statements (but those of the metrics), the catalogue queries of pg_metrics.go (their
      rows are arguments), and the help text of o4x-schema.
    - What the actions of Programs do outside of the program (connections, HTTP
      servers and clients, signals), and the parsing of flags.
    - When a worker begins its next turn: the polling loops (Worker,
      BatchDispatcher) only delay turns, and in Crew a turn can begin whenever the
      last is over.  A worker of Crew always has hooks, which may panic; a nil
      hook does what one that returns does.  A turn that dies, by a kill of its
      process or by the panic of a [PublishBatch] that breaks its contract, is a
      crash event.
    - The anomalies inside one statement at READ COMMITTED (a row that changes
      between the snapshot and its lock), and how SQS orders, delays and expires
      messages: in Pipeline an accepted message can be delivered at any time.
    - In the theorems of Shop no cleanup runs beside the application: a deleted
      message has no row to speak of; ShopCases shows what a cleanup changes. *)

From Stdlib Require Import ZArith Lia Ascii.
From stdpp Require Import base option list strings gmap fin_maps.

Set Default Goal Selector "!".

(** ** Go integers *)

Section Int64.
Local Open Scope Z_scope.

(** Two's complement wrap-around of a Go [int], [int64] or
    [time.Duration] on a 64-bit target. *)
Definition wrap64 (z : Z) : Z := (z + 2 ^ 63) mod 2 ^ 64 - 2 ^ 63.

Definition in_int64 (z : Z) : Prop := - 2 ^ 63 <= z < 2 ^ 63.

Lemma wrap64_id (z : Z) : in_int64 z -> wrap64 z = z.
Proof.
  unfold in_int64, wrap64; intros Hz.
  rewrite Z.mod_small; lia.
Qed.

Lemma wrap64_range (z : Z) : in_int64 (wrap64 z).
Proof.
  unfold in_int64, wrap64.
  pose proof (Z.mod_pos_bound (z + 2 ^ 63) (2 ^ 64)); lia.
Qed.

Lemma wrap64_idemp (z : Z) : wrap64 (wrap64 z) = wrap64 z.
Proof. apply wrap64_id, wrap64_range. Qed.
End Int64.

(** Two characters that a string literal does not hold well. *)
Definition newline : string := String (Ascii.ascii_of_nat 10) EmptyString.
Definition quote : string := String (Ascii.ascii_of_nat 34) EmptyString.

(** Durations are nanoseconds ([time.Duration]). *)
Definition Millisecond : Z := 1000000.
Definition Second : Z := 1000000000.
Definition Minute : Z := (60 * Second)%Z.
Definition Hour : Z := (3600 * Second)%Z.

(** ** Go computations

    [GoM W A] is a Go call that reads and writes the world [W] and either
    returns an [A] or panics; the world a panicking call reached is kept,
    since a deferred [recover] resumes from it. *)

Inductive outcome (A : Type) : Type :=
| Ret (a : A)
| Panic (why : string).
Arguments Ret {A} a.
Arguments Panic {A} why.

Definition GoM (W A : Type) : Type := W -> W * outcome A.

#[export] Instance GoM_ret {W} : MRet (GoM W) := fun A a w => (w, Ret a).
#[export] Instance GoM_bind {W} : MBind (GoM W) := fun A B k m w =>
  match m w with
  | (w', Ret a) => k a w'
  | (w', Panic why) => (w', Panic why)
  end.

Definition go_panic {W A} (why : string) : GoM W A := fun w => (w, Panic why).

(** [defer func() { if r := recover(); r != nil { log } }()] around a call
    without results. *)
Definition go_recover {W} (m : GoM W unit) : GoM W unit := fun w =>
  match m w with
  | (w', _) => (w', Ret tt)
  end.

(** [x, err := f()]: the pair a Go function with an error result returns
    carries the value or the error. *)
Inductive result (E A : Type) : Type :=
| Ok (a : A)
| Err (e : E).
Arguments Ok {E A} a.
Arguments Err {E A} e.

Declare Scope o4x_scope.
Delimit Scope o4x_scope with o4x.
Open Scope o4x_scope.

Section GoLaws.
Context {W A B : Type}.
Implicit Types (m : GoM W A) (k : A -> GoM W B) (w : W).

Lemma go_bind_ret m k w w' a :
  m w = (w', Ret a) -> (m ≫= k) w = k a w'.
Proof. unfold mbind, GoM_bind; intros ->; reflexivity. Qed.

Lemma go_bind_panic m k w w' why :
  m w = (w', Panic why) -> (m ≫= k) w = (w', Panic why).
Proof. unfold mbind, GoM_bind; intros ->; reflexivity. Qed.

Lemma go_bind_inv m k w w' b :
  (m ≫= k) w = (w', Ret b) ->
  exists w1 a, m w = (w1, Ret a) /\ k a w1 = (w', Ret b).
Proof.
  unfold mbind, GoM_bind; destruct (m w) as [w1 [a|why]] eqn:Em; [eauto|].
  discriminate.
Qed.
End GoLaws.

Lemma go_ret_run {W A} (a : A) (w : W) : (mret a : GoM W A) w = (w, Ret a).
Proof. reflexivity. Qed.

Lemma go_recover_run {W} (m : GoM W unit) (w : W) :
  go_recover m w = (fst (m w), Ret tt).
Proof. unfold go_recover; destruct (m w); reflexivity. Qed.

(** ** Automation *)

Create HintDb o4x discriminated.
#[export] Hint Constants Transparent : o4x.
#[export] Hint Resolve wrap64_range : o4x.
Create Rewrite HintDb go_run.
#[export] Hint Rewrite @go_ret_run @go_recover_run : go_run.

(** Split the [match]es and [if]s of the goal or of a hypothesis. *)
Ltac break_goal :=
  match goal with
  | |- context [match ?x with _ => _ end] =>
      lazymatch x with context [match _ with _ => _ end] => fail | _ => idtac end;
      destruct x eqn:?
  end.
(** A bind in the option monad that has a result. *)
Ltac bind_hyp H x E :=
  match type of H with
  | (?o ≫= _) = Some _ => destruct o as [x|] eqn:E; [cbn [mbind option_bind] in H|discriminate]
  end.

Ltac break_hyp H :=
  match type of H with
  | context [match ?x with _ => _ end] =>
      lazymatch x with context [match _ with _ => _ end] => fail | _ => idtac end;
      destruct x eqn:?
  end.

(** Boolean comparisons of the code into the propositions they decide. *)
Ltac bool_to_prop :=
  repeat match goal with
  | H : andb _ _ = true |- _ => apply andb_true_iff in H; destruct H
  | H : orb _ _ = false |- _ => apply orb_false_iff in H; destruct H
  | H : negb _ = true |- _ => apply negb_true_iff in H
  | H : negb _ = false |- _ => apply negb_false_iff in H
  | H : Z.ltb _ _ = true |- _ => apply Z.ltb_lt in H
  | H : Z.ltb _ _ = false |- _ => apply Z.ltb_ge in H
  | H : Z.leb _ _ = true |- _ => apply Z.leb_le in H
  | H : Z.leb _ _ = false |- _ => apply Z.leb_gt in H
  | H : Z.eqb _ _ = true |- _ => apply Z.eqb_eq in H
  | H : Z.eqb _ _ = false |- _ => apply Z.eqb_neq in H
  | H : bool_decide _ = true |- _ => apply bool_decide_eq_true in H
  | H : bool_decide _ = false |- _ => apply bool_decide_eq_false in H
  end.
