(* ===== verification/Regex.v ===== *)
(** * Regular expressions of Go's [regexp] package, as the source uses them

    [core/model.go] and [core/errors.go] compile six patterns with
    [regexp.MustCompile] and call [MatchString], [ReplaceAllString] and
    [NumSubexp] on them.  This file gives those calls a meaning: a syntax of
    patterns, a leftmost-first backtracking matcher on bytes, and the
    replacement loop.  The relation [Match] is the specification of the
    matcher; [run_spec] proves that the matcher explores exactly the matches
    of the relation.

    Go matches runes, this file bytes.  The two agree on the patterns of the
    source: every class they use is either a set of ASCII characters or the
    complement of one, and the two non-ASCII runes that case folding adds
    (the Kelvin sign and the long s) are written as their UTF-8 bytes. *)

From Stdlib Require Import ZArith Lia Ascii.
From stdpp Require Import base option list strings sets.
From S2P Require Import Prelude.

Set Default Goal Selector "!".

Abbreviation bytes := (list Ascii.ascii).

(** ** Patterns *)

Inductive re : Type :=
| REps
| RCls (p : Ascii.ascii -> bool)
| RSeq (a b : re)
| RAlt (a b : re)
| RStar (a : re)
| RGrp (n : nat) (a : re)
| RBeg
| REnd
| RWordB.

Definition RPlus (a : re) : re := RSeq a (RStar a).
Definition ROpt (a : re) : re := RAlt a REps.

(** [NumSubexp]: the number of parenthesised subexpressions. *)
Fixpoint NumSubexp (r : re) : nat :=
  match r with
  | RSeq a b | RAlt a b => NumSubexp a + NumSubexp b
  | RStar a => NumSubexp a
  | RGrp _ a => S (NumSubexp a)
  | _ => 0
  end.

(** A position of the matcher: the byte before it, the bytes after it and
    the text of the groups closed so far, most recent first. *)
Record pos : Type := Pos {
  prev : option Ascii.ascii;
  rest : bytes;
  caps : list (nat * bytes)
}.

(** The word characters of [\b]. *)
Definition in_range (lo hi c : Ascii.ascii) : bool :=
  (Ascii.nat_of_ascii lo <=? Ascii.nat_of_ascii c)%nat
  && (Ascii.nat_of_ascii c <=? Ascii.nat_of_ascii hi)%nat.
Definition is_alpha (c : Ascii.ascii) : bool :=
  in_range "a"%char "z"%char c || in_range "A"%char "Z"%char c.
Definition is_digit (c : Ascii.ascii) : bool := in_range "0"%char "9"%char c.
Definition is_word (c : Ascii.ascii) : bool :=
  is_alpha c || is_digit c || Ascii.eqb c "_"%char.
Definition opt_word (o : option Ascii.ascii) : bool :=
  match o with Some c => is_word c | None => false end.

Definition step_byte (c : Ascii.ascii) (s' : bytes) (s : pos) : pos :=
  Pos (Some c) s' (caps s).

(** The text consumed between two positions of one match. *)
Definition consumed (s s' : pos) : bytes :=
  take (length (rest s) - length (rest s')) (rest s).

Definition close_group (n : nat) (s s' : pos) : pos :=
  Pos (prev s') (rest s') ((n, consumed s s') :: caps s').

Definition shorter (s' s : pos) : bool := (length (rest s') <? length (rest s))%nat.

(** The successes of a pattern at a position, in the order of preference of
    a backtracking (leftmost-first, greedy) search.  An iteration of a star
    has to consume a byte, so the bytes left are fuel enough. *)
Fixpoint run (r : re) (s : pos) : list pos :=
  match r with
  | REps => [s]
  | RCls p =>
      match rest s with
      | c :: s' => if p c then [step_byte c s' s] else []
      | [] => []
      end
  | RSeq a b => run a s ≫= run b
  | RAlt a b => run a s ++ run b s
  | RStar a =>
      (fix loop (fuel : nat) (s : pos) : list pos :=
         match fuel with
         | O => [s]
         | S fuel' =>
             (run a s ≫= fun s1 => if shorter s1 s then loop fuel' s1 else []) ++ [s]
         end) (length (rest s)) s
  | RGrp n a => close_group n s <$> run a s
  | RBeg => match prev s with None => [s] | Some _ => [] end
  | REnd => match rest s with [] => [s] | _ => [] end
  | RWordB => if xorb (opt_word (prev s)) (opt_word (head (rest s))) then [s] else []
  end.

(** [loop] of [run], named so that lemmas can speak of it. *)
Fixpoint star_loop (a : re) (fuel : nat) (s : pos) : list pos :=
  match fuel with
  | O => [s]
  | S fuel' =>
      (run a s ≫= fun s1 => if shorter s1 s then star_loop a fuel' s1 else []) ++ [s]
  end.

Lemma run_seq (a b : re) (s : pos) : run (RSeq a b) s = run a s ≫= run b.
Proof. reflexivity. Qed.
Lemma run_grp (n : nat) (a : re) (s : pos) : run (RGrp n a) s = close_group n s <$> run a s.
Proof. reflexivity. Qed.

Lemma run_star (a : re) (s : pos) : run (RStar a) s = star_loop a (length (rest s)) s.
Proof.
  simpl. generalize (length (rest s)) as n. intros n; revert s.
  induction n as [|n IH]; intros s; [reflexivity|]. simpl.
  f_equal. apply list_bind_ext; [|reflexivity].
  intros s1. destruct (shorter s1 s); [apply IH|reflexivity].
Qed.

(** ** Specification: which positions a match may end at *)

Inductive Match : re -> pos -> pos -> Prop :=
| MEps s : Match REps s s
| MCls p c s' s : rest s = c :: s' -> p c = true -> Match (RCls p) s (step_byte c s' s)
| MSeq a b s s1 s2 : Match a s s1 -> Match b s1 s2 -> Match (RSeq a b) s s2
| MAltL a b s s1 : Match a s s1 -> Match (RAlt a b) s s1
| MAltR a b s s1 : Match b s s1 -> Match (RAlt a b) s s1
| MStarNil a s : Match (RStar a) s s
| MStarCons a s s1 s2 :
    Match a s s1 -> shorter s1 s = true -> Match (RStar a) s1 s2 ->
    Match (RStar a) s s2
| MGrp n a s s1 : Match a s s1 -> Match (RGrp n a) s (close_group n s s1)
| MBeg s : prev s = None -> Match RBeg s s
| MEnd s : rest s = [] -> Match REnd s s
| MWordB s : xorb (opt_word (prev s)) (opt_word (head (rest s))) = true -> Match RWordB s s.

#[export] Hint Constructors Match : o4x.

Lemma star_loop_sound (a : re) :
  (forall s s', s' ∈ run a s -> Match a s s') ->
  forall fuel s s', s' ∈ star_loop a fuel s -> Match (RStar a) s s'.
Proof.
  intros Ha fuel; induction fuel as [|fuel IH]; intros s s'; simpl.
  - rewrite list_elem_of_singleton; intros ->; constructor.
  - rewrite elem_of_app, list_elem_of_bind, list_elem_of_singleton.
    intros [(s1 & H1 & H2)| ->]; [|constructor].
    destruct (shorter s1 s) eqn:Hs; [|by apply not_elem_of_nil in H1].
    eapply MStarCons; eauto.
Qed.

Lemma star_loop_complete (a : re) :
  (forall s s', Match a s s' -> s' ∈ run a s) ->
  forall s s', Match (RStar a) s s' ->
  forall fuel, length (rest s) <= fuel -> s' ∈ star_loop a fuel s.
Proof.
  intros Ha s s' Hm. remember (RStar a) as r eqn:Er.
  induction Hm as [| | | | |a' s|a' s s1 s2 H1 _ Hlt H2 IH| | | |];
    try discriminate; injection Er as ->; intros fuel Hf.
  - destruct fuel; simpl; [set_solver|]. rewrite elem_of_app; right; set_solver.
  - unfold shorter in Hlt; apply Nat.ltb_lt in Hlt.
    destruct fuel as [|fuel]; [lia|]. simpl.
    rewrite elem_of_app, list_elem_of_bind; left.
    exists s1; split; [|by apply Ha].
    replace (shorter s1 s) with true
      by (symmetry; unfold shorter; apply Nat.ltb_lt; lia).
    apply IH; [reflexivity|lia].
Qed.

(** The matcher explores exactly the matches of the specification. *)
Lemma run_spec (r : re) : forall s s', s' ∈ run r s <-> Match r s s'.
Proof.
  induction r as [|p|a IHa b IHb|a IHa b IHb|a IHa|n a IHa| | |]; intros s s'.
  - simpl; rewrite list_elem_of_singleton; split; [intros ->; constructor|].
    by inversion 1.
  - simpl; split.
    + destruct (rest s) as [|c t] eqn:Er; [by intros ?%not_elem_of_nil|].
      destruct (p c) eqn:Ep; [|by intros ?%not_elem_of_nil].
      rewrite list_elem_of_singleton; intros ->; by constructor.
    + inversion 1 as [|? c t ? Er Ep| | | | | | | | |]; subst. rewrite Er, Ep. set_solver.
  - simpl; rewrite list_elem_of_bind; split.
    + intros (s1 & H1 & H2); econstructor; [by apply IHa|by apply IHb].
    + inversion 1; subst. eexists; split; [by apply IHb|by apply IHa].
  - simpl; rewrite elem_of_app, IHa, IHb; split.
    + intros [?|?]; eauto with o4x.
    + inversion 1; subst; auto.
  - rewrite run_star; split.
    + apply star_loop_sound. intros; by apply IHa.
    + intros Hm; eapply star_loop_complete; [|exact Hm|reflexivity].
      intros; by apply IHa.
  - simpl; rewrite list_elem_of_fmap; split.
    + intros (s1 & -> & H1); constructor; by apply IHa.
    + inversion 1; subst. eexists; split; [reflexivity|by apply IHa].
  - simpl; split.
    + destruct (prev s) eqn:Ep; [by intros ?%not_elem_of_nil|].
      rewrite list_elem_of_singleton; intros ->; by constructor.
    + inversion 1 as [| | | | | | | |? Hp| |]; subst. rewrite Hp; set_solver.
  - simpl; split.
    + destruct (rest s) eqn:Ep; [|by intros ?%not_elem_of_nil].
      rewrite list_elem_of_singleton; intros ->; by constructor.
    + inversion 1 as [| | | | | | | | |? Hp|]; subst. rewrite Hp; set_solver.
  - simpl; split.
    + destruct (xorb _ _) eqn:Ep; [|by intros ?%not_elem_of_nil].
      rewrite list_elem_of_singleton; intros ->; by constructor.
    + inversion 1 as [| | | | | | | | | |? Hp]; subst. rewrite Hp; set_solver.
Qed.

(** A match consumes a prefix of the bytes at its start. *)
Lemma Match_suffix (r : re) (s s' : pos) :
  Match r s s' -> exists t, rest s = t ++ rest s'.
Proof.
  induction 1 as [| ? c t s E|? ? ? ? ? _ [t1 E1] _ [t2 E2]| | | |? ? ? ? _ [t1 E1] _ _ [t2 E2]
                 | | | |]; try (by exists []); auto.
  - exists [c]; exact E.
  - exists (t1 ++ t2). by rewrite <- app_assoc, <- E2.
  - exists (t1 ++ t2). by rewrite <- app_assoc, <- E2.
Qed.

(** ** Searching and replacing *)

(** The preferred match at a position. *)
Definition match_at (r : re) (p : option Ascii.ascii) (s : bytes) : option pos :=
  head (run r (Pos p s [])).

(** The leftmost match: the bytes before it, the byte before it, the bytes it
    starts at and where it ends. *)
Fixpoint find (r : re) (p : option Ascii.ascii) (s : bytes)
    : option (bytes * bytes * pos) :=
  match match_at r p s with
  | Some e => Some ([], s, e)
  | None =>
      match s with
      | [] => None
      | c :: s' =>
          match find r (Some c) s' with
          | Some (before, start, e) => Some (c :: before, start, e)
          | None => None
          end
      end
  end.

Definition MatchBytes (r : re) (s : bytes) : bool :=
  match find r None s with Some _ => true | None => false end.

Definition bytes_of (s : string) : bytes := String.list_ascii_of_string s.
Definition string_of (b : bytes) : string := String.string_of_list_ascii b.

Definition MatchString (r : re) (s : string) : bool := MatchBytes r (bytes_of s).

(** A replacement template: literal text and group references. *)
Definition template := list (nat + bytes).

Fixpoint group_text (n : nat) (cs : list (nat * bytes)) : bytes :=
  match cs with
  | [] => []
  | (m, t) :: cs' => if (m =? n)%nat then t else group_text n cs'
  end.

Definition expand (t : template) (e : pos) : bytes :=
  t ≫= fun x => match x with inl n => group_text n (caps e) | inr lit => lit end.

(** The last byte of a non-empty text, or the byte before it. *)
Definition last_byte (p : option Ascii.ascii) (s : bytes) : option Ascii.ascii :=
  match last s with Some c => Some c | None => p end.

(** [ReplaceAll] on the bytes still to scan; [after] says that a match has
    just ended here, where Go does not insert the replacement of an empty
    match.  A match of the empty text moves the search on by one byte, and
    every other match consumes at least one: the length of the text is fuel
    enough. *)
Fixpoint replace_from (fuel : nat) (r : re) (t : template) (after : bool)
    (p : option Ascii.ascii) (s : bytes) : bytes :=
  match fuel with
  | O => s
  | S fuel' =>
      match find r p s with
      | None => s
      | Some (before, start, e) =>
          match take (length start - length (rest e)) start with
          | [] =>
              before ++
              (if after && bool_decide (before = []) then [] else expand t e) ++
              match start with
              | [] => []
              | c :: start' => c :: replace_from fuel' r t false (Some c) start'
              end
          | _ => before ++ expand t e ++ replace_from fuel' r t true (prev e) (rest e)
          end
      end
  end.

Definition ReplaceAllBytes (r : re) (s : bytes) (t : template) : bytes :=
  replace_from (S (length s)) r t false None s.

Definition ReplaceAllString (r : re) (s : string) (t : template) : string :=
  string_of (ReplaceAllBytes r (bytes_of s) t).

(** *** Laws of the search *)

Lemma match_at_None (r : re) p s :
  match_at r p s = None <-> forall e, ~ Match r (Pos p s []) e.
Proof.
  unfold match_at. rewrite head_None. split.
  - intros E e He. apply run_spec in He. rewrite E in He.
    by apply not_elem_of_nil in He.
  - intros Hno. destruct (run r (Pos p s [])) as [|e l] eqn:E; [done|].
    exfalso; apply (Hno e), run_spec. rewrite E; set_solver.
Qed.

Lemma match_at_Some (r : re) p s e :
  match_at r p s = Some e -> Match r (Pos p s []) e.
Proof.
  unfold match_at. intros H. apply run_spec.
  destruct (run r (Pos p s [])); [done|]. injection H as ->. set_solver.
Qed.

(** The search returns a match, and no match starts before it. *)
Lemma find_Some (r : re) : forall s p before start e,
  find r p s = Some (before, start, e) ->
  s = before ++ start
  /\ Match r (Pos (last_byte p before) start []) e
  /\ forall b1 b2, s = b1 ++ b2 -> length b1 < length before ->
       forall e', ~ Match r (Pos (last_byte p b1) b2 []) e'.
Proof.
  induction s as [|c s IH]; intros p before start e; simpl;
    destruct (match_at r p _) as [e0|] eqn:Em.
  1,3: injection 1 as <- <- <-; repeat split;
         [by apply match_at_Some|intros ? ? _ Hl; simpl in Hl; lia].
  { discriminate. }
  destruct (find r (Some c) s) as [[[b st] e1]|] eqn:Ef; [|discriminate].
  injection 1 as <- <- <-.
  destruct (IH _ _ _ _ Ef) as (-> & Hm & Hfirst).
  assert (Hlast : forall b', last_byte p (c :: b') = last_byte (Some c) b').
  { intros b'. unfold last_byte. rewrite last_cons. by destruct (last b'). }
  repeat split; [by rewrite Hlast|].
  intros [|c' b1] b2 E Hl e'.
  - simpl in E; subst b2. by apply match_at_None.
  - simpl in E; injection E as <- E. rewrite Hlast.
    apply Hfirst; [done|simpl in Hl; lia].
Qed.

Lemma find_None (r : re) : forall s p,
  find r p s = None <->
  forall b1 b2 e, s = b1 ++ b2 -> ~ Match r (Pos (last_byte p b1) b2 []) e.
Proof.
  assert (Hlast : forall p c b', last_byte p (c :: b') = last_byte (Some c) b').
  { intros p c b'. unfold last_byte. rewrite last_cons. by destruct (last b'). }
  induction s as [|c s IH]; intros p; simpl;
    destruct (match_at r p _) as [e0|] eqn:Em.
  - split; [discriminate|]. intros Hno.
    by destruct (Hno [] [] e0 eq_refl); apply match_at_Some.
  - split; [|done]. intros _ b1 b2 e E.
    symmetry in E; apply app_eq_nil in E as [-> ->]. by apply match_at_None.
  - split; [discriminate|]. intros Hno.
    by destruct (Hno [] (c :: s) e0 eq_refl); apply match_at_Some.
  - split.
    + destruct (find r (Some c) s) as [[[? ?] ?]|] eqn:Ef; [discriminate|].
      intros _ [|c' b1] b2 e E; simpl in E.
      * subst b2. by apply match_at_None.
      * injection E as <- E. rewrite Hlast. by apply IH.
    + intros Hno. assert (find r (Some c) s = None) as ->; [|done].
      apply IH. intros b1 b2 e E. rewrite <- (Hlast p).
      apply Hno. simpl; by rewrite E.
Qed.

(** Text without a match is left as it is. *)
Lemma replace_none (r : re) (s : bytes) (t : template) :
  find r None s = None -> ReplaceAllBytes r s t = s.
Proof. intros E. unfold ReplaceAllBytes; simpl. by rewrite E. Qed.

Lemma string_of_bytes_of (s : string) : string_of (bytes_of s) = s.
Proof. apply String.string_of_list_ascii_of_string. Qed.
Lemma bytes_of_string_of (b : bytes) : bytes_of (string_of b) = b.
Proof. apply String.list_ascii_of_string_of_list_ascii. Qed.
#[export] Hint Rewrite string_of_bytes_of bytes_of_string_of : go_run.

Lemma length_bytes_of (s : string) : length (bytes_of s) = String.length s.
Proof. induction s; simpl; congruence. Qed.

(** *** The text a greedy class repetition leaves *)

(** The next byte is not in the class, or there is none. *)
Definition stops (p : Ascii.ascii -> bool) (s : pos) : Prop :=
  match rest s with c :: _ => p c = false | [] => True end.

Lemma head_bind_Some {A B} (f : A -> list B) (l : list A) (b : B) :
  head (l ≫= f) = Some b -> exists a, a ∈ l /\ head (f a) = Some b.
Proof.
  induction l as [|a l IH]; simpl; [done|].
  destruct (f a) as [|b' fa] eqn:E; simpl.
  - intros H; destruct (IH H) as (a' & Ha' & Hb). exists a'; split; [by right|done].
  - intros [= ->]. exists a; split; [by left|by rewrite E].
Qed.

Lemma star_class_stops (p : Ascii.ascii -> bool) :
  forall fuel s e, length (rest s) <= fuel ->
  head (star_loop (RCls p) fuel s) = Some e -> stops p e.
Proof.
  induction fuel as [|fuel IH]; intros s e Hf; simpl.
  - intros [= <-]. unfold stops. destruct (rest s); simpl in *; [done|lia].
  - destruct (rest s) as [|c t] eqn:Er; simpl.
    + intros [= <-]. unfold stops; by rewrite Er.
    + destruct (p c) eqn:Ep; simpl.
      * rewrite app_nil_r. unfold shorter; rewrite Er; simpl.
        replace (length t <? S (length t)) with true by (symmetry; apply Nat.ltb_lt; lia).
        destruct (star_loop (RCls p) fuel (step_byte c t s)) as [|e' l] eqn:El; simpl.
        -- destruct fuel; simpl in El; [discriminate|].
           by apply app_eq_nil in El as [_ ?].
        -- intros [= <-]. apply (IH (step_byte c t s)); [simpl in *; lia|by rewrite El].
      * intros [= <-]. unfold stops; by rewrite Er.
Qed.

(** A pattern that ends with a captured greedy repetition of a class takes
    all the bytes of the class: the match stops before another byte. *)
Lemma match_at_class_stops (a : re) (n : nat) (p : Ascii.ascii -> bool) q s e :
  match_at (RSeq a (RGrp n (RPlus (RCls p)))) q s = Some e -> stops p e.
Proof.
  unfold match_at. rewrite run_seq. intros H.
  apply head_bind_Some in H as (s1 & _ & H). rewrite run_grp in H.
  destruct (run (RPlus (RCls p)) s1) as [|e1 l1] eqn:E1; [done|].
  injection H as <-.
  apply (f_equal head) in E1. unfold RPlus in E1. rewrite run_seq in E1.
  apply head_bind_Some in E1 as (s2 & _ & E2).
  rewrite run_star in E2.
  apply star_class_stops in E2; [exact E2|reflexivity].
Qed.

Lemma find_match_at (r : re) : forall s p before start e,
  find r p s = Some (before, start, e) -> exists q, match_at r q start = Some e.
Proof.
  induction s as [|c s IH]; intros p before start e; simpl;
    destruct (match_at r p _) as [e0|] eqn:Em.
  1,3: injection 1 as <- <- <-; eauto.
  { discriminate. }
  destruct (find r (Some c) s) as [[[b st] e1]|] eqn:Ef; [|discriminate].
  injection 1 as <- <- <-. eauto.
Qed.

(** *** Denotations of the simple patterns *)

(** The position after the bytes [t]. *)
Definition advance (t : bytes) (s' : bytes) (s : pos) : pos :=
  Pos (last_byte (prev s) t) s' (caps s).

Lemma advance_nil s : advance [] (rest s) s = s.
Proof. by destruct s. Qed.

Lemma last_byte_cons p c t : last_byte p (c :: t) = last_byte (Some c) t.
Proof. unfold last_byte. rewrite last_cons. by destruct (last t). Qed.

Lemma last_byte_app p u t : last_byte p (u ++ t) = last_byte (last_byte p u) t.
Proof. unfold last_byte. rewrite last_app. by destruct (last t), (last u). Qed.

Lemma advance_advance t u s' s'' s :
  advance t s'' (advance u s' s) = advance (u ++ t) s'' s.
Proof. unfold advance; simpl. by rewrite last_byte_app. Qed.

Lemma Match_class_iff (p : Ascii.ascii -> bool) s e :
  Match (RCls p) s e <->
  exists c s', rest s = c :: s' /\ p c = true /\ e = advance [c] s' s.
Proof.
  split.
  - inversion 1; subst; eauto 6.
  - intros (c & s' & E & Hp & ->). by apply MCls.
Qed.

Lemma Match_star_class_iff (p : Ascii.ascii -> bool) s e :
  Match (RStar (RCls p)) s e <->
  exists t s', rest s = t ++ s' /\ forallb p t = true /\ e = advance t s' s.
Proof.
  split.
  - remember (RStar (RCls p)) as r eqn:Er. induction 1; try discriminate.
    + exists [], (rest s). split; [done|]. split; [done|]. by rewrite advance_nil.
    + injection Er as ->.
      match goal with H : Match (RCls p) _ _ |- _ => apply Match_class_iff in H end.
      destruct H as (c & s' & E & Hp & ->).
      destruct IHMatch2 as (t & s'' & E' & Ht & ->); [done|]. simpl in E'.
      exists (c :: t), s''. rewrite E, E'. split; [done|]. split; [simpl; by rewrite Hp|].
      by rewrite advance_advance.
  - intros (t & s' & E & Ht & ->). revert s E Ht.
    induction t as [|c t IH]; intros s E Ht; simpl in *.
    + subst s'. rewrite advance_nil. apply MStarNil.
    + apply andb_true_iff in Ht as [Hc Ht].
      eapply MStarCons; [by apply (MCls p c (t ++ s'))| |].
      * unfold shorter; rewrite E; simpl. apply Nat.ltb_lt; lia.
      * replace (advance (c :: t) s' s) with (advance t s' (step_byte c (t ++ s') s)).
        -- by apply IH.
        -- unfold advance; simpl. by rewrite last_byte_cons.
Qed.

Lemma MatchBytes_iff (r : re) (s : bytes) :
  MatchBytes r s = true <->
  exists b1 b2 e, s = b1 ++ b2 /\ Match r (Pos (last_byte None b1) b2 []) e.
Proof.
  unfold MatchBytes. destruct (find r None s) as [[[b1 b2] e]|] eqn:E.
  - split; [|done]. intros _. apply find_Some in E as (-> & Hm & _). eauto.
  - split; [done|]. intros (b1 & b2 & e & Es & Hm).
    destruct (proj1 (find_None r s None) E b1 b2 e Es Hm).
Qed.

(** A pattern that starts with [^] is tried at the start of the text only. *)
Lemma MatchBytes_anchored (r : re) (s : bytes) :
  MatchBytes (RSeq RBeg r) s = true <-> exists e, Match r (Pos None s []) e.
Proof.
  rewrite MatchBytes_iff. split.
  - intros (b1 & b2 & e & -> & Hm).
    inversion Hm as [| |? ? ? s1 ? Hb Hr| | | | | | | |]; subst.
    inversion Hb as [| | | | | | | |? Hp| |]; subst. simpl in Hp.
    unfold last_byte in *. destruct (last b1) eqn:El; [done|].
    apply last_None in El as ->. eauto.
  - intros [e Hm]. exists [], s, e. split; [done|].
    eapply MSeq; [by apply MBeg|exact Hm].
Qed.

(** ** The language of a pattern without anchors *)

Inductive Lang : re -> bytes -> Prop :=
| LEps : Lang REps []
| LCls p c : p c = true -> Lang (RCls p) [c]
| LSeq a b x y : Lang a x -> Lang b y -> Lang (RSeq a b) (x ++ y)
| LAltL a b x : Lang a x -> Lang (RAlt a b) x
| LAltR a b x : Lang b x -> Lang (RAlt a b) x
| LStarNil a : Lang (RStar a) []
| LStarCons a x y : Lang a x -> x <> [] -> Lang (RStar a) y -> Lang (RStar a) (x ++ y)
| LGrp n a x : Lang a x -> Lang (RGrp n a) x.

Fixpoint plain (r : re) : bool :=
  match r with
  | REps | RCls _ => true
  | RSeq a b | RAlt a b => plain a && plain b
  | RStar a | RGrp _ a => plain a
  | RBeg | REnd | RWordB => false
  end.

Lemma Match_Lang r s e :
  Match r s e -> plain r = true -> exists x, rest s = x ++ rest e /\ Lang r x.
Proof.
  induction 1 as [s|p c s' s E Hp|a b s s1 s2 _ IH1 _ IH2|a b s s1 _ IH|a b s s1 _ IH|a s
                 |a s s1 s2 _ IH1 Hlt _ IH2|n a s s1 _ IH| | |]; cbn [plain]; intros Hpl; try done.
  - exists []. split; [done|constructor].
  - exists [c]. split; [done|by constructor].
  - apply andb_true_iff in Hpl as [Ha Hb].
    destruct (IH1 Ha) as (x & E1 & Hx), (IH2 Hb) as (y & E2 & Hy).
    exists (x ++ y). split; [by rewrite E1, E2, app_assoc|by constructor].
  - apply andb_true_iff in Hpl as [Ha _]. destruct (IH Ha) as (x & E & Hx).
    exists x. split; [done|by apply LAltL].
  - apply andb_true_iff in Hpl as [_ Hb]. destruct (IH Hb) as (x & E & Hx).
    exists x. split; [done|by apply LAltR].
  - exists []. split; [done|constructor].
  - destruct (IH1 Hpl) as (x & E1 & Hx), (IH2 Hpl) as (y & E2 & Hy).
    exists (x ++ y). split; [by rewrite E1, E2, app_assoc|]. constructor; [done| |done].
    intros ->. unfold shorter in Hlt. apply Nat.ltb_lt in Hlt. rewrite E1 in Hlt. cbn in Hlt. lia.
  - destruct (IH Hpl) as (x & E & Hx). exists x. split; [done|by constructor].
Qed.

Lemma Lang_Match r x :
  Lang r x -> forall p t cs, exists q cs', Match r (Pos p (x ++ t) cs) (Pos q t cs').
Proof.
  induction 1 as [|f c Hf|a b x y _ IH1 _ IH2|a b x _ IH|a b x _ IH|a|a x y _ IH1 Hne _ IH2|n a x _ IH];
    intros p t cs.
  - exists p, cs. constructor.
  - exists (Some c), cs. by apply (MCls f c t (Pos p (c :: t) cs)).
  - destruct (IH1 p (y ++ t) cs) as (q & cs1 & H1), (IH2 q t cs1) as (q2 & cs2 & H2).
    exists q2, cs2. rewrite <- app_assoc. by econstructor.
  - destruct (IH p t cs) as (q & cs' & H). exists q, cs'. by apply MAltL.
  - destruct (IH p t cs) as (q & cs' & H). exists q, cs'. by apply MAltR.
  - exists p, cs. constructor.
  - destruct (IH1 p (y ++ t) cs) as (q & cs1 & H1), (IH2 q t cs1) as (q2 & cs2 & H2).
    exists q2, cs2. rewrite <- app_assoc. econstructor; [exact H1| |exact H2].
    unfold shorter. cbn. apply Nat.ltb_lt. rewrite !length_app. destruct x; [done|cbn; lia].
  - destruct (IH p t cs) as (q & cs' & H). eexists q, _. by apply (MGrp n a _ (Pos q t cs')).
Qed.

(** A pattern without groups captures nothing. *)
Lemma Match_caps r s e : Match r s e -> NumSubexp r = 0 -> caps e = caps s.
Proof.
  induction 1 as [| |a b s s1 s2 _ IH1 _ IH2|a b s s1 _ IH|a b s s1 _ IH| |a s s1 s2 _ IH1 _ _ IH2
                 | | | |]; cbn [NumSubexp] in *; intros Hn; try done.
  - rewrite IH2 by lia. apply IH1. lia.
  - apply IH. lia.
  - apply IH. lia.
  - rewrite IH2 by done. by apply IH1.
Qed.

Lemma Lang_seq a b n : Lang (RSeq a b) n <-> exists x y, n = x ++ y /\ Lang a x /\ Lang b y.
Proof.
  split; [inversion 1; subst; eauto 6|]. intros (x & y & -> & Hx & Hy). by constructor.
Qed.
Lemma Lang_alt a b n : Lang (RAlt a b) n <-> Lang a n \/ Lang b n.
Proof. split; [inversion 1; subst; auto|]. intros [|]; [by apply LAltL|by apply LAltR]. Qed.
Lemma Lang_cls p n : Lang (RCls p) n <-> exists c, n = [c] /\ p c = true.
Proof. split; [inversion 1; subst; eauto|]. intros (c & -> & H). by constructor. Qed.
Lemma Lang_eps n : Lang REps n <-> n = [].
Proof. split; [by inversion 1|]. intros ->. constructor. Qed.
Lemma Lang_opt a n : Lang (ROpt a) n <-> Lang a n \/ n = [].
Proof. unfold ROpt. by rewrite Lang_alt, Lang_eps. Qed.
Lemma Lang_grp i a n : Lang (RGrp i a) n <-> Lang a n.
Proof. split; [by inversion 1|by constructor]. Qed.
Lemma Lang_star_cls p n : Lang (RStar (RCls p)) n <-> Forall (fun c => p c = true) n.
Proof.
  split.
  - remember (RStar (RCls p)) as r eqn:Er. induction 1 as [| | | | | |a x y Hx _ _ _ IH|]; try done.
    injection Er as ->. apply Lang_cls in Hx as (c & -> & Hc). constructor; [done|by apply IH].
  - induction 1 as [|c n Hc _ IH]; [constructor|]. change (c :: n) with ([c] ++ n).
    constructor; [by constructor|done|done].
Qed.
Lemma Lang_plus_cls p n : Lang (RPlus (RCls p)) n <-> n <> [] /\ Forall (fun c => p c = true) n.
Proof.
  unfold RPlus. rewrite Lang_seq. split.
  - intros (x & y & -> & Hx & Hy). apply Lang_cls in Hx as (c & -> & Hc).
    apply Lang_star_cls in Hy. split; [done|by constructor].
  - intros [Hne H]. destruct n as [|c n]; [done|]. apply Forall_cons in H as [Hc Hn].
    exists [c], n. split; [done|]. split; [by constructor|by apply Lang_star_cls].
Qed.
