(* ===== verification/Errors.v ===== *)
(** * Error values of core/errors.go

    The error values the program builds and inspects, [errors.Is] and
    [errors.As] over them, the retry classification, the redaction of
    sensitive text and the truncation of messages stored in the database. *)

From Stdlib Require Import ZArith Lia Ascii.
From stdpp Require Import base option list strings sets.
From S2P Require Import Prelude Regex.

Set Default Goal Selector "!".
Set Warnings "-register-all".
Open Scope string_scope.
Open Scope list_scope.

(** ** Error values *)

(** Errors compared by identity: the variables of core/errors.go, the
    [ErrUnknownEventType] of the consumer, and the two values of the database
    drivers the repositories compare with. *)
Inductive Sentinel : Type :=
| ErrNoMessage
| ErrAlreadyExists
| ErrPublishFailed
| ErrMaxRetriesExceeded
| ErrInvalidStatus
| ErrNotFound
| ErrAlreadyRunning
| ErrInvalidTableName
| ErrPayloadTooLarge
| ErrInvalidConfig
| ErrUnknownEventType
| PgxErrNoRows
| GormErrRecordNotFound.

#[export] Instance Sentinel_eq_dec : EqDecision Sentinel.
Proof. solve_decision. Defined.

Definition sentinel_text (s : Sentinel) : string :=
  match s with
  | ErrNoMessage => "no message available"
  | ErrAlreadyExists => "message already exists"
  | ErrPublishFailed => "publish failed"
  | ErrMaxRetriesExceeded => "max retries exceeded"
  | ErrInvalidStatus => "invalid status"
  | ErrNotFound => "not found"
  | ErrAlreadyRunning => "dispatcher already running"
  | ErrInvalidTableName => "invalid table name: must contain only alphanumeric characters and underscores"
  | ErrPayloadTooLarge => "payload too large"
  | ErrInvalidConfig => "invalid configuration"
  | ErrUnknownEventType => "unknown event_type"
  | PgxErrNoRows => "no rows in result set"
  | GormErrRecordNotFound => "record not found"
  end.

(** A non-nil [error].  [EWrapf] is the result of [fmt.Errorf], already
    formatted, with the errors its [%w] verbs wrap; [EUser] is any other
    error, with the answer of its [IsRetryable] method when it has one and
    the errors its [Unwrap] method gives; [PgError] is a [*pgconn.PgError] with its
    code and its printed text.  A [Cause] field may be nil. *)
Inductive error : Type :=
| ESentinel (s : Sentinel)
| PermanentError (Cause : option error)
| TransientError (Cause : option error)
| PublishError (OutboxID EventType : string) (Cause : option error)
| EWrapf (text : string) (wrapped : list error)
| PgError (Code text : string)
| EUser (text : string) (retry : option bool) (wrapped : list error).

Definition NewPermanentError (cause : option error) : error := PermanentError cause.
Definition NewTransientError (cause : option error) : error := TransientError cause.

(** The [Error] methods.  [%v] prints a nil error as [<nil>]. *)
Fixpoint error_text (e : error) : string :=
  let cause_text c := match c with Some e' => error_text e' | None => "<nil>" end in
  match e with
  | ESentinel s => sentinel_text s
  | PermanentError c => "permanent error: " +:+ cause_text c
  | TransientError c => "transient error: " +:+ cause_text c
  | PublishError id ty c =>
      "publish error for outbox " +:+ id +:+ " event_type " +:+ ty +:+ ": " +:+ cause_text c
  | EWrapf text _ => text
  | PgError _ text => text
  | EUser text _ _ => text
  end.

(** [fmt.Errorf("%w: " ++ detail, s)] of a sentinel [s]. *)
Definition errorf_sentinel (s : Sentinel) (detail : string) : error :=
  EWrapf (sentinel_text s +:+ ": " +:+ detail) [ESentinel s].

(** [fmt.Errorf(prefix ++ ": %w", e)]. *)
Definition errorf_wrap (prefix : string) (e : error) : error :=
  EWrapf (prefix +:+ ": " +:+ error_text e) [e].

(** The [Unwrap] methods. *)
Definition Unwrap (e : error) : list error :=
  match e with
  | PermanentError c | TransientError c | PublishError _ _ c =>
      match c with Some e' => [e'] | None => [] end
  | EWrapf _ ws => ws
  | EUser _ _ ws => ws
  | ESentinel _ | PgError _ _ => []
  end.

(** ** [errors.Is] and [errors.As] *)

(** [errors.Is(err, s)]: some error of the tree, in preorder, is [s]. *)
Fixpoint errors_Is (e : error) (s : Sentinel) : bool :=
  let cause c := match c with Some e' => errors_Is e' s | None => false end in
  match e with
  | ESentinel s' => bool_decide (s' = s)
  | PermanentError c | TransientError c | PublishError _ _ c => cause c
  | EWrapf _ ws | EUser _ _ ws => existsb (fun e' => errors_Is e' s) ws
  | PgError _ _ => false
  end.

Definition first_some {A B} (f : A -> option B) : list A -> option B :=
  fix go l := match l with
              | [] => None
              | x :: l' => match f x with Some b => Some b | None => go l' end
              end.

(** [errors.As(err, &pgErr)]: the [Code] of the first [*pgconn.PgError] of
    the tree. *)
Fixpoint errors_As_PgError (e : error) : option string :=
  let cause c := match c with Some e' => errors_As_PgError e' | None => None end in
  match e with
  | PgError code _ => Some code
  | PermanentError c | TransientError c | PublishError _ _ c => cause c
  | EWrapf _ ws | EUser _ _ ws => first_some errors_As_PgError ws
  | ESentinel _ => None
  end.

(** Does the error itself implement [RetryableError]? *)
Definition implements_Retryable (e : error) : bool :=
  match e with
  | PermanentError _ | TransientError _ | PublishError _ _ _ => true
  | EUser _ (Some _) _ => true
  | _ => false
  end.

(** [errors.As(err, &retryable)]: the first error of the tree, in preorder,
    that implements [RetryableError]. *)
Fixpoint errors_As_Retryable (e : error) : option error :=
  match e with
  | PermanentError _ | TransientError _ | PublishError _ _ _ => Some e
  | EUser _ (Some _) _ => Some e
  | EUser _ None ws | EWrapf _ ws => first_some errors_As_Retryable ws
  | ESentinel _ | PgError _ _ => None
  end.

(** [IsRetryable] of the error [errors.As] finds, computed along the way:
    the [IsRetryable] method of a [PublishError] calls the function again on
    its cause, so search and method are one recursion. *)
Fixpoint retryable_found (e : error) : option bool :=
  match e with
  | PermanentError _ => Some false
  | TransientError _ => Some true
  | PublishError _ _ None => Some false
  | PublishError _ _ (Some c) =>
      Some (match retryable_found c with Some b => b | None => true end)
  | EUser _ (Some b) _ => Some b
  | EUser _ None ws | EWrapf _ ws => first_some retryable_found ws
  | ESentinel _ | PgError _ _ => None
  end.

Definition IsRetryable (err : option error) : bool :=
  match err with
  | None => false
  | Some e => match retryable_found e with Some b => b | None => true end
  end.

(** The [IsRetryable] methods of errors.go. *)
Definition method_IsRetryable (e : error) : bool :=
  match e with
  | PermanentError _ => false
  | TransientError _ => true
  | PublishError _ _ c => IsRetryable c
  | EUser _ (Some b) _ => b
  | _ => true
  end.

Section ErrorInd.
Variable P : error -> Prop.
Hypothesis Hsent : forall s, P (ESentinel s).
Hypothesis Hperm : forall c, (forall e, c = Some e -> P e) -> P (PermanentError c).
Hypothesis Htrans : forall c, (forall e, c = Some e -> P e) -> P (TransientError c).
Hypothesis Hpub : forall i t c, (forall e, c = Some e -> P e) -> P (PublishError i t c).
Hypothesis Hwrap : forall t ws, Forall P ws -> P (EWrapf t ws).
Hypothesis Hpg : forall c m, P (PgError c m).
Hypothesis Huser : forall t r ws, Forall P ws -> P (EUser t r ws).

(** Induction on the tree of an error. *)
Fixpoint error_tree_ind (e : error) : P e :=
  let opt (c : option error) : forall e', c = Some e' -> P e' :=
    match c with
    | Some e0 => fun e' E => eq_ind e0 P (error_tree_ind e0) e' (f_equal (default e0) E)
    | None => fun e' E => ltac:(discriminate E)
    end in
  let many := fix many (ws : list error) : Forall P ws :=
    match ws with
    | [] => Forall_nil_2 P
    | w :: ws' => Forall_cons_2 P w ws' (error_tree_ind w) (many ws')
    end in
  match e with
  | ESentinel s => Hsent s
  | PermanentError c => Hperm c (opt c)
  | TransientError c => Htrans c (opt c)
  | PublishError i t c => Hpub i t c (opt c)
  | EWrapf t ws => Hwrap t ws (many ws)
  | PgError c m => Hpg c m
  | EUser t r ws => Huser t r ws (many ws)
  end.
End ErrorInd.

(** *** Laws *)

Lemma first_some_ext {A B} (f g : A -> option B) (l : list A) :
  Forall (fun x => f x = g x) l -> first_some f l = first_some g l.
Proof. induction 1 as [|x l Hx _ IH]; simpl; [done|]. by rewrite Hx, IH. Qed.

Lemma first_some_bind {A B C} (f : A -> option B) (g : B -> C) (l : list A) :
  g <$> first_some f l = first_some (fun x => g <$> f x) l.
Proof. induction l as [|x l IH]; simpl; [done|]. by destruct (f x); simpl. Qed.

(** The one-pass search agrees with [errors.As] followed by the method. *)
Lemma retryable_found_As (e : error) :
  retryable_found e = method_IsRetryable <$> errors_As_Retryable e.
Proof.
  induction e using error_tree_ind; simpl; try done.
  - by destruct c.
  - rewrite first_some_bind. by apply first_some_ext.
  - destruct r; [done|]. rewrite first_some_bind. by apply first_some_ext.
Qed.

(** ** Redaction of sensitive text *)

Section Patterns.
Local Open Scope char_scope.

Definition chr (c : Ascii.ascii) : re := RCls (Ascii.eqb c).

(** A letter under [(?i)]: both cases, and for [k] and [s] the runes
    U+212A (E2 84 AA) and U+017F (C5 BF) that fold to them. *)
Definition code (n : nat) : re := chr (Ascii.ascii_of_nat n).
Definition swap_case (c : Ascii.ascii) : Ascii.ascii :=
  if in_range "a" "z" c then Ascii.ascii_of_nat (Ascii.nat_of_ascii c - 32) else c.
Definition fold (c : Ascii.ascii) : re :=
  let both := RCls (fun x => Ascii.eqb x c || Ascii.eqb x (swap_case c)) in
  if Ascii.eqb c "k" then RAlt both (RSeq (code 226) (RSeq (code 132) (code 170)))
  else if Ascii.eqb c "s" then RAlt both (RSeq (code 197) (code 191))
  else both.

Fixpoint seq_of (f : Ascii.ascii -> re) (s : bytes) : re :=
  match s with
  | [] => REps
  | [c] => f c
  | c :: s' => RSeq (f c) (seq_of f s')
  end.
Definition lit (s : string) : re := seq_of chr (bytes_of s).
Definition lit_i (s : string) : re := seq_of fold (bytes_of s).

(** [\s] *)
Definition is_space (c : Ascii.ascii) : bool :=
  let n := Ascii.nat_of_ascii c in
  (n =? 9)%nat || (n =? 10)%nat || (n =? 12)%nat || (n =? 13)%nat || (n =? 32)%nat.
(** [[_-]?] *)
Definition sep : re := ROpt (RCls (fun c => Ascii.eqb c "_" || Ascii.eqb c "-")).
(** A single or a double quote. *)
Definition is_quote (c : Ascii.ascii) : bool := Ascii.eqb c "'" || Ascii.eqb c "034".
(** Not white space, a quote, a comma or a closing brace. *)
Definition is_value_byte (c : Ascii.ascii) : bool :=
  negb (is_space c || is_quote c || Ascii.eqb c "," || Ascii.eqb c "}").
(** White space, a colon or an equals sign, white space, maybe a quote. *)
Definition assign_op : re :=
  RSeq (RStar (RCls is_space))
    (RSeq (RCls (fun c => Ascii.eqb c ":" || Ascii.eqb c "="))
      (RSeq (RStar (RCls is_space)) (ROpt (RCls is_quote)))).

(** [(?i)(api[_-]?key|...|bearer)] *)
Definition secret_names : re :=
  RAlt (RSeq (lit_i "api") (RSeq sep (lit_i "key")))
  (RAlt (RSeq (lit_i "secret") (RSeq sep (lit_i "key")))
  (RAlt (lit_i "password")
  (RAlt (lit_i "token")
  (RAlt (RSeq (lit_i "auth") (RSeq sep (lit_i "token")))
  (RAlt (RSeq (lit_i "access") (RSeq sep (lit_i "token")))
        (lit_i "bearer")))))).

(** What comes before the value of the first pattern. *)
Definition secret_prefix : re := RSeq (RGrp 1 secret_names) assign_op.
Definition secret_pattern : re := RSeq secret_prefix (RGrp 2 (RPlus (RCls is_value_byte))).

(** [[A-Za-z0-9/+=]{40}] under [(?i)]. *)
Definition aws_byte : re :=
  RAlt (RCls (fun c => is_alpha c || is_digit c || Ascii.eqb c "/" || Ascii.eqb c "+"
                       || Ascii.eqb c "="))
    (RAlt (RSeq (code 226) (RSeq (code 132) (code 170))) (RSeq (code 197) (code 191))).
Fixpoint repeat_re (n : nat) (r : re) : re :=
  match n with O => REps | S n' => RSeq r (repeat_re n' r) end.
Definition aws_pattern : re :=
  RSeq (RGrp 1 (RAlt
      (RSeq (lit_i "aws") (RSeq sep (RSeq (lit_i "secret")
        (RSeq sep (RSeq (lit_i "access") (RSeq sep (lit_i "key")))))))
      (RSeq (lit_i "secret") (RSeq sep (RSeq (lit_i "access") (RSeq sep (lit_i "key")))))))
    (RSeq assign_op (RGrp 2 (repeat_re 40 aws_byte))).

(** [\b(eyJ[A-Za-z0-9_-]+\.eyJ[A-Za-z0-9_-]+\.[A-Za-z0-9_-]+)] *)
Definition is_b64url (c : Ascii.ascii) : bool := is_word c || Ascii.eqb c "-".
Definition jwt_pattern : re :=
  RSeq RWordB (RGrp 1 (RSeq (lit "eyJ") (RSeq (RPlus (RCls is_b64url)) (RSeq (lit ".eyJ")
    (RSeq (RPlus (RCls is_b64url)) (RSeq (lit ".") (RPlus (RCls is_b64url)))))))).

(** [(?i)(postgres|mysql|mongodb)://([^:]+):([^@]+)@] *)
Definition dsn_pattern : re :=
  RSeq (RGrp 1 (RAlt (lit_i "postgres") (RAlt (lit_i "mysql") (lit_i "mongodb"))))
    (RSeq (lit "://") (RSeq (RGrp 2 (RPlus (RCls (fun c => negb (Ascii.eqb c ":")))))
      (RSeq (lit ":") (RSeq (RGrp 3 (RPlus (RCls (fun c => negb (Ascii.eqb c "@")))))
        (lit "@"))))).

(** [(?i)authorization:\s*bearer\s+(\S+)] *)
Definition auth_prefix : re :=
  RSeq (lit_i "authorization:") (RSeq (RStar (RCls is_space)) (RSeq (lit_i "bearer")
    (RPlus (RCls is_space)))).
Definition auth_pattern : re :=
  RSeq auth_prefix (RGrp 1 (RPlus (RCls (fun c => negb (is_space c))))).
End Patterns.

Definition sensitivePatterns : list re :=
  [secret_pattern; aws_pattern; jwt_pattern; dsn_pattern; auth_pattern].

Definition redact_value : template := [inl 1; inr (bytes_of "=***REDACTED***")].
Definition redact_all : template := [inr (bytes_of "***REDACTED***")].

Definition redaction (pattern : re) : template :=
  if (NumSubexp pattern =? 2)%nat then redact_value else redact_all.

Definition sanitizeSensitiveInfo (msg : string) : string :=
  fold_left (fun result pattern => ReplaceAllString pattern result (redaction pattern))
    sensitivePatterns msg.

Example sanitize_api_key :
  sanitizeSensitiveInfo "error: api_key=my_secret_value" = "error: api_key=***REDACTED***".
Proof. vm_compute. reflexivity. Qed.
Example sanitize_jwt :
  sanitizeSensitiveInfo "bad eyJhbGci.eyJzdWIi.sig-1_x!" = "bad ***REDACTED***!".
Proof. vm_compute. reflexivity. Qed.
Example sanitize_dsn :
  sanitizeSensitiveInfo "dial postgres://u:pw@db:5432/x" = "dial ***REDACTED***db:5432/x".
Proof. vm_compute. reflexivity. Qed.
Example sanitize_auth :
  sanitizeSensitiveInfo "Authorization: Bearer abc, def" = "***REDACTED*** def".
Proof. vm_compute. reflexivity. Qed.

(** ** UTF-8 *)

(** The length in bytes of the valid encoding at the start of a text: the
    table of accepted ranges of [unicode/utf8]. *)
Definition byte_in (lo hi : nat) (c : Ascii.ascii) : bool :=
  (lo <=? Ascii.nat_of_ascii c)%nat && (Ascii.nat_of_ascii c <=? hi)%nat.
Definition is_cont : Ascii.ascii -> bool := byte_in 128 191.

Definition rune_width (s : bytes) : option nat :=
  match s with
  | c0 :: s1 =>
      if byte_in 0 127 c0 then Some 1%nat
      else match s1 with
      | c1 :: s2 =>
          if byte_in 194 223 c0 && is_cont c1 then Some 2%nat
          else match s2 with
          | c2 :: s3 =>
              if is_cont c2 &&
                 ((byte_in 224 224 c0 && byte_in 160 191 c1)
                  || (byte_in 225 236 c0 && is_cont c1)
                  || (byte_in 237 237 c0 && byte_in 128 159 c1)
                  || (byte_in 238 239 c0 && is_cont c1)) then Some 3%nat
              else match s3 with
              | c3 :: _ =>
                  if is_cont c2 && is_cont c3 &&
                     ((byte_in 240 240 c0 && byte_in 144 191 c1)
                      || (byte_in 241 243 c0 && is_cont c1)
                      || (byte_in 244 244 c0 && byte_in 128 143 c1)) then Some 4%nat
                  else None
              | [] => None
              end
          | [] => None
          end
      | [] => None
      end
  | [] => None
  end.

(** [utf8.ValidString]; every encoding takes at least a byte, so the length
    of the text is fuel enough. *)
Fixpoint valid_from (fuel : nat) (s : bytes) : bool :=
  match s, fuel with
  | [], _ => true
  | _, O => false
  | _, S fuel' =>
      match rune_width s with
      | Some w => valid_from fuel' (drop w s)
      | None => false
      end
  end.
Definition ValidString (s : bytes) : bool := valid_from (length s) s.

Lemma rune_width_bounds s w :
  rune_width s = Some w -> (1 <= w <= 4)%nat /\ (w <= length s)%nat.
Proof.
  unfold rune_width. intros H.
  repeat (break_hyp H; try discriminate); injection H as <-; simpl; lia.
Qed.

(** Only the bytes of the encoding matter. *)
Lemma rune_width_local s t w :
  rune_width s = Some w -> rune_width (take w s ++ t) = Some w.
Proof.
  unfold rune_width at 1. intros H.
  destruct s as [|c0 s1]; [discriminate|].
  destruct (byte_in 0 127 c0) eqn:B0.
  { injection H as <-. simpl. by rewrite B0. }
  destruct s1 as [|c1 s2]; [discriminate|].
  destruct (byte_in 194 223 c0 && is_cont c1) eqn:B1.
  { injection H as <-. simpl. by rewrite B0, B1. }
  destruct s2 as [|c2 s3]; [discriminate|].
  match type of H with (if ?b then _ else _) = _ => destruct b eqn:B2 end.
  { injection H as <-. simpl. by rewrite B0, B1, B2. }
  destruct s3 as [|c3 s4]; [discriminate|].
  match type of H with (if ?b then _ else _) = _ => destruct b eqn:B3 end; [|discriminate].
  injection H as <-. simpl. by rewrite B0, B1, B2, B3.
Qed.

Lemma rune_width_app s t w : rune_width s = Some w -> rune_width (s ++ t) = Some w.
Proof.
  intros H. rewrite <- (take_drop w s), <- app_assoc. by apply rune_width_local.
Qed.

Lemma rune_width_prefix s w n :
  rune_width s = Some w -> (w <= n)%nat -> rune_width (take n s) = Some w.
Proof.
  intros H Hn. rewrite <- (take_drop w (take n s)), take_take.
  replace (w `min` n)%nat with w by lia. by apply rune_width_local.
Qed.

Lemma valid_from_fuel : forall f1 f2 s,
  (length s <= f1)%nat -> (length s <= f2)%nat -> valid_from f1 s = valid_from f2 s.
Proof.
  induction f1 as [|f1 IH]; intros [|f2] s H1 H2; destruct s as [|c s];
    cbn [valid_from length] in *; try lia; try done.
  destruct (rune_width (c :: s)) as [w|] eqn:E; [|done].
  apply rune_width_bounds in E. simpl in E.
  apply IH; rewrite length_drop; simpl; lia.
Qed.

Lemma ValidString_nil : ValidString [] = true.
Proof. reflexivity. Qed.

Lemma ValidString_step s w :
  rune_width s = Some w -> ValidString s = ValidString (drop w s).
Proof.
  intros E. pose proof (rune_width_bounds _ _ E) as [Hw Hl].
  destruct s as [|c s]; [discriminate|].
  unfold ValidString at 1. simpl length. cbn [valid_from]. rewrite E.
  apply valid_from_fuel; rewrite length_drop; simpl in *; lia.
Qed.

Lemma ValidString_rune s :
  s <> [] -> ValidString s = true -> exists w, rune_width s = Some w.
Proof.
  destruct s as [|c s]; [done|]. intros _. unfold ValidString. simpl length.
  cbn [valid_from]. destruct (rune_width (c :: s)); [eauto|discriminate].
Qed.

(** Every prefix of a valid text is at most three bytes longer than a valid
    one. *)
Lemma valid_prefix_near : forall s n,
  ValidString s = true -> (n <= length s)%nat ->
  exists k, (k <= 3)%nat /\ (k <= n)%nat /\ ValidString (take (n - k) s) = true.
Proof.
  intros s; remember (length s) as len eqn:El; revert s El.
  induction len as [len IH] using (well_founded_induction lt_wf); intros s -> n Hv Hn.
  destruct n as [|n]; [exists 0%nat; repeat split; lia|].
  destruct (ValidString_rune s) as [w Ew]; [intros ->; simpl in Hn; lia|done|].
  pose proof (rune_width_bounds _ _ Ew) as [Hw Hl].
  destruct (decide (w <= S n)%nat) as [Hle|Hgt].
  - destruct (IH (length (drop w s))) with (s := drop w s) (n := (S n - w)%nat)
      as (k & Hk3 & Hk & Hvk).
    + rewrite length_drop; lia.
    + done.
    + by rewrite <- (ValidString_step _ _ Ew).
    + rewrite length_drop; lia.
    + exists k. split; [done|]. split; [lia|].
      rewrite (ValidString_step _ w).
      * rewrite skipn_firstn_comm. by replace (S n - k - w)%nat with (S n - w - k)%nat by lia.
      * apply rune_width_prefix; [done|lia].
  - exists (S n). split; [lia|]. split; [lia|]. by rewrite Nat.sub_diag.
Qed.

(** ** TruncateErrorMessage *)

Definition MaxErrorMessageLength : nat := 4000.
Definition truncated_suffix : bytes := bytes_of "... (truncated)".

(** [for truncated != "" && !utf8.ValidString(truncated)]: drop the last
    byte.  Every turn shortens the text, so its length is fuel enough. *)
Fixpoint trim_invalid (fuel : nat) (s : bytes) : bytes :=
  match fuel with
  | O => s
  | S fuel' =>
      if bool_decide (s <> []) && negb (ValidString s)
      then trim_invalid fuel' (take (length s - 1) s)
      else s
  end.

Definition truncate_bytes (msg : bytes) : bytes :=
  if (length msg <=? MaxErrorMessageLength)%nat then msg
  else
    let maxContentBytes := (MaxErrorMessageLength - length truncated_suffix)%nat in
    trim_invalid maxContentBytes (take maxContentBytes msg) ++ truncated_suffix.

Definition TruncateErrorMessage (msg : string) : string :=
  string_of (truncate_bytes (bytes_of (sanitizeSensitiveInfo msg))).

(** The loop stops at the longest valid prefix. *)
Lemma trim_invalid_spec : forall fuel s,
  (length s <= fuel)%nat ->
  exists n, (n <= length s)%nat /\ trim_invalid fuel s = take n s
    /\ ValidString (take n s) = true
    /\ forall m, (n < m <= length s)%nat -> ValidString (take m s) = false.
Proof.
  induction fuel as [|fuel IH]; intros s Hf.
  - destruct s; [|simpl in Hf; lia]. exists 0%nat. repeat split; [lia|]. simpl. intros; lia.
  - simpl. destruct (bool_decide (s <> []) && negb (ValidString s)) eqn:Eb.
    + bool_to_prop. destruct (IH (take (length s - 1) s)) as (n & Hn & E & Hv & Hmax).
      * rewrite length_take. lia.
      * rewrite length_take in Hn. exists n. split; [lia|].
        rewrite E, take_take. replace (n `min` (length s - 1))%nat with n by lia.
        split; [done|]. split.
        -- rewrite take_take in Hv. by replace (n `min` (length s - 1))%nat with n in Hv by lia.
        -- intros m Hm. destruct (decide (m = length s)) as [->|Hne].
           ++ by rewrite firstn_all.
           ++ specialize (Hmax m). rewrite length_take, take_take in Hmax.
              replace (m `min` (length s - 1))%nat with m in Hmax by lia. apply Hmax; lia.
    + exists (length s). rewrite firstn_all. repeat split; [done| |intros; lia].
      apply andb_false_iff in Eb as [Eb|Eb]; bool_to_prop; [|done].
      destruct s; [done|]. by destruct Eb.
Qed.

Lemma truncated_suffix_length : length truncated_suffix = 15%nat.
Proof. reflexivity. Qed.

Lemma ValidString_app_suffix s :
  ValidString s = true -> ValidString (s ++ truncated_suffix) = true.
Proof.
  remember (length s) as len eqn:El; revert s El.
  induction len as [len IH] using (well_founded_induction lt_wf); intros s -> Hv.
  destruct (decide (s = [])) as [->|Hne]; [reflexivity|].
  destruct (ValidString_rune s Hne Hv) as [w Ew].
  pose proof (rune_width_bounds _ _ Ew) as [Hw Hl].
  rewrite (ValidString_step _ w) by (by apply rune_width_app).
  rewrite drop_app_le by lia.
  apply (IH (length (drop w s))); [rewrite length_drop; lia|done|].
  by rewrite <- (ValidString_step _ _ Ew).
Qed.

(** ** Properties *)

Lemma truncate_bytes_long msg :
  (MaxErrorMessageLength < length msg)%nat ->
  exists n, (n <= 3985)%nat
    /\ truncate_bytes msg = take n msg ++ truncated_suffix
    /\ ValidString (take n msg) = true
    /\ forall m, (n < m <= 3985)%nat -> ValidString (take m msg) = false.
Proof.
  intros Hlen. unfold truncate_bytes.
  replace (length msg <=? MaxErrorMessageLength)%nat with false
    by (symmetry; apply Nat.leb_gt; lia).
  rewrite truncated_suffix_length.
  change (MaxErrorMessageLength - 15)%nat with 3985%nat.
  unfold MaxErrorMessageLength in Hlen.
  destruct (trim_invalid_spec 3985 (take 3985 msg)) as (n & Hn & -> & Hv & Hmax).
  { rewrite length_take. lia. }
  rewrite length_take in Hn, Hmax. rewrite take_take in Hv |- *.
  replace (n `min` 3985)%nat with n in * by lia.
  exists n. split; [lia|]. split; [done|]. split; [done|].
  intros m Hm. specialize (Hmax m ltac:(lia)).
  rewrite take_take in Hmax. by replace (m `min` 3985)%nat with m in Hmax by lia.
Qed.

Lemma length_string_of b : String.length (string_of b) = length b.
Proof. by rewrite <- length_bytes_of, bytes_of_string_of. Qed.

(** An error message stored in the database never takes more than
    [MaxErrorMessageLength] bytes, the marker of a truncation included,
    whatever the text of the error. *)
Theorem TruncateErrorMessage_bound (msg : string) :
  (String.length (TruncateErrorMessage msg) <= MaxErrorMessageLength)%nat.
Proof.
  unfold TruncateErrorMessage. rewrite length_string_of.
  set (s := bytes_of _).
  destruct (decide (length s <= MaxErrorMessageLength)%nat) as [Hle|Hgt].
  - unfold truncate_bytes. by rewrite (proj2 (Nat.leb_le _ _) Hle).
  - destruct (truncate_bytes_long s) as (n & Hn & -> & _); [lia|].
    rewrite length_app, length_take, truncated_suffix_length.
    unfold MaxErrorMessageLength. lia.
Qed.

(** C35: when the redacted text is valid UTF-8, so is the stored message; a
    text within the limit is stored unchanged, and a longer one keeps all of
    its first 3985 bytes but at most three, the start of the rune that was
    cut, before the marker. *)
Theorem TruncateErrorMessage_utf8 (msg : string)
  (Hvalid : ValidString (bytes_of (sanitizeSensitiveInfo msg)) = true) :
  ValidString (bytes_of (TruncateErrorMessage msg)) = true
  /\ ((String.length (sanitizeSensitiveInfo msg) <= MaxErrorMessageLength)%nat ->
        TruncateErrorMessage msg = sanitizeSensitiveInfo msg)
  /\ ((MaxErrorMessageLength < String.length (sanitizeSensitiveInfo msg))%nat ->
        exists k, (k <= 3)%nat
          /\ bytes_of (TruncateErrorMessage msg)
             = take (3985 - k) (bytes_of (sanitizeSensitiveInfo msg)) ++ truncated_suffix).
Proof.
  rewrite <- length_bytes_of. unfold TruncateErrorMessage.
  set (s := sanitizeSensitiveInfo msg) in *.
  rewrite bytes_of_string_of.
  destruct (decide (length (bytes_of s) <= MaxErrorMessageLength)%nat) as [Hle|Hgt].
  - assert (truncate_bytes (bytes_of s) = bytes_of s) as ->.
    { unfold truncate_bytes. by rewrite (proj2 (Nat.leb_le _ _) Hle). }
    rewrite string_of_bytes_of. repeat split; [done|lia].
  - destruct (truncate_bytes_long (bytes_of s)) as (n & Hn & -> & Hv & Hmax); [lia|].
    split; [by apply ValidString_app_suffix|]. split; [lia|]. intros _.
    unfold MaxErrorMessageLength in Hgt.
    destruct (valid_prefix_near (bytes_of s) 3985 Hvalid) as (k & Hk3 & _ & Hvk); [lia|].
    exists (3985 - n)%nat.
    assert (3985 - k <= n)%nat.
    { destruct (decide (3985 - k <= n)%nat); [done|].
      rewrite Hmax in Hvk; [discriminate|lia]. }
    split; [lia|]. by replace (3985 - (3985 - n))%nat with n by lia.
Qed.

(** The retry classification of an error is the answer of the first error
    of its tree, outermost first, that implements [RetryableError]; an error
    without one is retryable, and nil is not. *)
Theorem IsRetryable_spec (err : option error) :
  IsRetryable err
  = match err with
    | None => false
    | Some e =>
        match errors_As_Retryable e with
        | Some r => method_IsRetryable r
        | None => true
        end
    end.
Proof.
  destruct err as [e|]; [|done]. unfold IsRetryable.
  rewrite retryable_found_As. by destruct (errors_As_Retryable e).
Qed.

(** The shape of the collapse below: no prefix but the empty one is valid. *)
Lemma invalid_head_prefix s :
  rune_width s = None -> forall m, (0 < m)%nat -> (m <= length s)%nat ->
  ValidString (take m s) = false.
Proof.
  intros Hw m Hm Hl. destruct (ValidString (take m s)) eqn:Ev; [|done].
  destruct (ValidString_rune (take m s)) as [w Ew]; [|done|].
  - destruct s; [simpl in Hl; lia|]. destruct m; [lia|done].
  - apply (rune_width_app _ (drop m s)) in Ew. rewrite take_drop in Ew. congruence.
Qed.

(** A long message whose redacted text starts with a byte that begins no
    UTF-8 encoding loses its whole content: the loop that looks for a rune
    boundary removes all of the 3985 bytes and only the marker is stored. *)
Theorem TruncateErrorMessage_invalid_start (msg : string)
  (Hlong : (MaxErrorMessageLength < String.length (sanitizeSensitiveInfo msg))%nat)
  (Hstart : rune_width (bytes_of (sanitizeSensitiveInfo msg)) = None) :
  TruncateErrorMessage msg = "... (truncated)".
Proof.
  rewrite <- length_bytes_of in Hlong. unfold TruncateErrorMessage.
  destruct (truncate_bytes_long _ Hlong) as (n & Hn & -> & Hv & _).
  unfold MaxErrorMessageLength in Hlong.
  destruct n as [|n]; [reflexivity|].
  rewrite invalid_head_prefix in Hv; [discriminate|done|lia|lia].
Qed.
Lemma TruncateErrorMessage_utf8_witness :
  TruncateErrorMessage "connection refused" = "connection refused".
Proof.
  refine (proj1 (proj2 (TruncateErrorMessage_utf8 "connection refused" _)) _).
  - vm_compute. reflexivity.
  - vm_compute. repeat constructor.
Defined.
