(* ===== verification/Redaction.v ===== *)
(** * What redaction does to the secrets of an error text

    The first of the patterns of core/errors.go, for names followed by a value, and
    its replacement: an independent description of what a secret is, and of the
    text that [ReplaceAllString] makes of any text. *)

From Stdlib Require Import ZArith Lia Ascii.
From stdpp Require Import base option list strings.
From S2P Require Import Prelude Regex Errors.

Set Default Goal Selector "!".
Open Scope string_scope.
Open Scope list_scope.

(** ** A secret: a name, an assignment and a value *)

(** Two words, together or with a separator between them. *)
Definition two_words (a b : string) : list string := [a +:+ b; a +:+ "_" +:+ b; a +:+ "-" +:+ b].
Definition secret_words : list string :=
  two_words "api" "key" ++ two_words "secret" "key" ++ ["password"; "token"]
  ++ two_words "auth" "token" ++ two_words "access" "token" ++ ["bearer"].

(** How a letter may be written: in either case, [k] also as the Kelvin sign and
    [s] as the long s. *)
Definition kelvin : bytes := Ascii.ascii_of_nat <$> [226; 132; 170].
Definition long_s : bytes := Ascii.ascii_of_nat <$> [197; 191].
Definition letter (c : Ascii.ascii) : list bytes :=
  [[c]; [swap_case c]]
  ++ (if Ascii.eqb c "k" then [kelvin] else if Ascii.eqb c "s" then [long_s] else []).

Definition Spelled (w : string) (n : bytes) : Prop :=
  exists xs, Forall2 (fun c x => x ∈ letter c) (bytes_of w) xs /\ n = concat xs.
Definition SecretName (n : bytes) : Prop := exists w, w ∈ secret_words /\ Spelled w n.

(** White space, a colon or an equals sign, white space, maybe a quote. *)
Definition Assignment (op : bytes) : Prop :=
  exists w1 c w2 q, op = w1 ++ [c] ++ w2 ++ q
    /\ Forall (fun c => is_space c = true) w1 /\ (c = ":" \/ c = "=")%char
    /\ Forall (fun c => is_space c = true) w2
    /\ (q = [] \/ exists d, q = [d] /\ is_quote d = true).

(** Not empty, without white space, quotes, commas and closing braces. *)
Definition Value (v : bytes) : Prop := v <> [] /\ Forall (fun c => is_value_byte c = true) v.

Definition starts_secret (s : bytes) : Prop :=
  exists n op v t, s = n ++ op ++ v ++ t /\ SecretName n /\ Assignment op /\ Value v.
(** No secret starts in [b], before the text [t]. *)
Definition secret_free (b t : bytes) : Prop :=
  forall b1 b2, b = b1 ++ b2 -> b2 <> [] -> ~ starts_secret (b2 ++ t).
Definition ends_value (t : bytes) : Prop :=
  match t with c :: _ => is_value_byte c = false | [] => True end.

(** The text, and what is left of it: every secret, from left to right, keeps its
    name and nothing else. *)
Inductive Redacted : bytes -> bytes -> Prop :=
| Redacted_free t : secret_free t [] -> Redacted t t
| Redacted_secret b n op v t t' :
    secret_free b (n ++ op ++ v ++ t) -> SecretName n -> Assignment op -> Value v -> ends_value t ->
    Redacted t t' ->
    Redacted (b ++ n ++ op ++ v ++ t) (b ++ n ++ bytes_of "=***REDACTED***" ++ t').

(** ** The language of the pattern *)

Lemma bytes_of_app a b : bytes_of (a +:+ b) = bytes_of a ++ bytes_of b.
Proof. unfold bytes_of. induction a as [|c a IH]; simpl; [done|]. by rewrite IH. Qed.

Lemma Spelled_app a b n :
  Spelled (a +:+ b) n <-> exists x y, n = x ++ y /\ Spelled a x /\ Spelled b y.
Proof.
  unfold Spelled. rewrite bytes_of_app. split.
  - intros (xs & H & ->). apply Forall2_app_inv_l in H as (xs1 & xs2 & H1 & H2 & ->).
    exists (concat xs1), (concat xs2). rewrite concat_app. eauto 10.
  - intros (x & y & -> & (xs & H1 & ->) & ys & H2 & ->). exists (xs ++ ys).
    rewrite concat_app. split; [by apply Forall2_app|done].
Qed.

Lemma Lang_code n x : Lang (code n) x <-> x = [Ascii.ascii_of_nat n].
Proof.
  unfold code, chr. rewrite Lang_cls. split.
  - intros (c & -> & H). by apply Ascii.eqb_eq in H as <-.
  - intros ->. eexists. split; [done|apply Ascii.eqb_refl].
Qed.

Lemma Lang_fold c x : Lang (fold c) x <-> x ∈ letter c.
Proof.
  assert (Hboth : Lang (RCls (fun x => Ascii.eqb x c || Ascii.eqb x (swap_case c))) x
    <-> x = [c] \/ x = [swap_case c]).
  { rewrite Lang_cls. split.
    - intros (d & -> & H). apply orb_true_iff in H as [H|H]; apply Ascii.eqb_eq in H as ->; auto.
    - intros [->| ->]; eexists; (split; [done|]); rewrite Ascii.eqb_refl; [done|apply orb_true_r]. }
  unfold fold, letter. rewrite !elem_of_app, !elem_of_cons.
  destruct (Ascii.eqb c "k"); [|destruct (Ascii.eqb c "s")]; rewrite ?Lang_alt, Hboth.
  - rewrite list_elem_of_singleton, !Lang_seq. split.
    + intros [[]|(a & b & -> & Ha & Hb)]; [by auto..|]. apply Lang_seq in Hb as (b1 & b2 & -> & Hb1 & Hb2).
      apply Lang_code in Ha as ->. apply Lang_code in Hb1 as ->. apply Lang_code in Hb2 as ->. by right.
    + intros [[|[|H]]| ->]; [by auto..|by apply not_elem_of_nil in H|right].
      eexists [_], [_; _]. split; [reflexivity|]. split; [by apply Lang_code|]. apply Lang_seq.
      eexists [_], [_]. split; [reflexivity|]. split; by apply Lang_code.
  - rewrite list_elem_of_singleton, Lang_seq. split.
    + intros [[]|(a & b & -> & Ha & Hb)]; [by auto..|].
      apply Lang_code in Ha as ->. apply Lang_code in Hb as ->. by right.
    + intros [[|[|H]]| ->]; [by auto..|by apply not_elem_of_nil in H|right].
      eexists [_], [_]. split; [reflexivity|]. split; by apply Lang_code.
  - split; [intros []; auto|]. intros [[|[|H]]|H]; auto; by apply not_elem_of_nil in H.
Qed.

Lemma Lang_lit_i w n : Lang (lit_i w) n <-> Spelled w n.
Proof.
  unfold lit_i, Spelled. generalize (bytes_of w). clear w. intros s. revert n.
  induction s as [|c s IH]; intros n.
  { cbn. rewrite Lang_eps. split; [intros ->; by exists []|].
    intros (xs & H & ->). by apply Forall2_nil_inv_l in H as ->. }
  assert (E : Lang (seq_of fold (c :: s)) n
    <-> exists x y, n = x ++ y /\ Lang (fold c) x /\ Lang (seq_of fold s) y).
  { destruct s as [|d s]; [|apply Lang_seq]. cbn. split.
    - intros H. exists n, []. rewrite app_nil_r. split; [done|]. split; [done|constructor].
    - intros (x & y & -> & H & Hy). apply Lang_eps in Hy as ->. by rewrite app_nil_r. }
  rewrite E. split.
  - intros (x & y & -> & Hx & Hy). apply IH in Hy as (xs & H & ->). exists (x :: xs).
    split; [|done]. constructor; [by apply Lang_fold|done].
  - intros (xs & H & ->). apply Forall2_cons_inv_l in H as (x & xs' & Hx & H & ->).
    exists x, (concat xs'). split; [done|]. split; [by apply Lang_fold|]. apply IH. by exists xs'.
Qed.

Lemma Spelled_separator c n :
  letter c = [[c]; [c]] -> Spelled (String c "") n <-> n = [c].
Proof.
  intros Hc. unfold Spelled. cbn [bytes_of String.list_ascii_of_string]. split.
  - intros (xs & H & ->). apply Forall2_cons_inv_l in H as (x & xs' & Hx & H & ->).
    apply Forall2_nil_inv_l in H as ->. rewrite Hc in Hx. cbn. rewrite app_nil_r.
    apply elem_of_cons in Hx as [->|Hx]; [done|]. by apply list_elem_of_singleton in Hx.
  - intros ->. exists [[c]]. split; [|done]. constructor; [rewrite Hc; by left|constructor].
Qed.

Lemma Lang_sep n : Lang sep n <-> n = [] \/ Spelled "_" n \/ Spelled "-" n.
Proof.
  unfold sep. rewrite Lang_opt, Lang_cls, !Spelled_separator by reflexivity. split.
  - intros [(c & -> & H)| ->]; [|by left]. right.
    apply orb_true_iff in H as [H|H]; apply Ascii.eqb_eq in H as ->; auto.
  - intros [->|[->| ->]]; [by right|left..]; by eexists.
Qed.

Lemma Lang_two_words a b n :
  Lang (RSeq (lit_i a) (RSeq sep (lit_i b))) n <-> exists w, w ∈ two_words a b /\ Spelled w n.
Proof.
  rewrite Lang_seq. setoid_rewrite Lang_seq. setoid_rewrite Lang_sep. setoid_rewrite Lang_lit_i.
  unfold two_words. setoid_rewrite elem_of_cons. setoid_rewrite elem_of_cons.
  setoid_rewrite list_elem_of_singleton. split.
  - intros (x & y & -> & Hx & u & z & -> & [->|[Hu|Hu]] & Hz).
    + exists (a +:+ b). split; [by left|]. apply Spelled_app. by eexists _, _.
    + exists (a +:+ "_" +:+ b). split; [by right; left|]. apply Spelled_app.
      eexists _, _. split; [done|]. split; [done|]. apply Spelled_app. by eexists _, _.
    + exists (a +:+ "-" +:+ b). split; [by right; right|]. apply Spelled_app.
      eexists _, _. split; [done|]. split; [done|]. apply Spelled_app. by eexists _, _.
  - intros (w & [->|[->| ->]] & H); apply Spelled_app in H as (x & y & -> & Hx & Hy).
    + exists x, y. split; [done|]. split; [done|]. exists [], y. auto.
    + apply Spelled_app in Hy as (u & z & -> & Hu & Hz). eexists _, _. split; [done|].
      split; [done|]. exists u, z. auto.
    + apply Spelled_app in Hy as (u & z & -> & Hu & Hz). eexists _, _. split; [done|].
      split; [done|]. exists u, z. auto.
Qed.

Definition one_of (l : list string) (n : bytes) : Prop := exists w, w ∈ l /\ Spelled w n.

Lemma one_of_app l l' n : one_of (l ++ l') n <-> one_of l n \/ one_of l' n.
Proof.
  unfold one_of. setoid_rewrite elem_of_app. split.
  - intros (w & [H|H] & Hw); [left|right]; by exists w.
  - intros [(w & H & Hw)|(w & H & Hw)]; exists w; auto.
Qed.
Lemma one_of_one w n : one_of [w] n <-> Spelled w n.
Proof.
  unfold one_of. setoid_rewrite list_elem_of_singleton. split; [by intros (? & -> & H)|eauto].
Qed.

Lemma Lang_secret_names n : Lang secret_names n <-> SecretName n.
Proof.
  change (SecretName n) with (one_of secret_words n).
  change secret_words with (two_words "api" "key" ++ two_words "secret" "key" ++ ["password"]
    ++ ["token"] ++ two_words "auth" "token" ++ two_words "access" "token" ++ ["bearer"]).
  unfold secret_names. rewrite !one_of_app, !one_of_one.
  by rewrite !Lang_alt, !Lang_two_words, !Lang_lit_i.
Qed.

Lemma Lang_assign_op op : Lang assign_op op <-> Assignment op.
Proof.
  unfold assign_op, Assignment. rewrite Lang_seq. setoid_rewrite Lang_seq. setoid_rewrite Lang_seq.
  setoid_rewrite Lang_opt. setoid_rewrite Lang_star_cls. setoid_rewrite Lang_cls. split.
  - intros (w1 & x & -> & H1 & c & y & -> & (d & -> & Hd) & w2 & q & -> & H2 & Hq).
    exists w1, d, w2, q. split; [done|]. split; [done|]. split.
    { apply orb_true_iff in Hd as [Hd|Hd]; apply Ascii.eqb_eq in Hd as ->; auto. }
    split; [done|]. destruct Hq as [(e & -> & He)| ->]; [right; by exists e|by left].
  - intros (w1 & c & w2 & q & -> & H1 & Hc & H2 & Hq). exists w1, ([c] ++ w2 ++ q).
    split; [done|]. split; [done|]. exists [c], (w2 ++ q). split; [done|].
    split; [by exists c; destruct Hc as [->| ->]|]. exists w2, q. split; [done|]. split; [done|].
    destruct Hq as [->|(e & -> & He)]; [by right|left; by exists e].
Qed.

(** ** A match of the pattern is a secret *)

Lemma consumed_prefix s s' x : rest s = x ++ rest s' -> consumed s s' = x.
Proof.
  intros E. unfold consumed. rewrite E, length_app.
  replace (length x + length (rest s') - length (rest s')) with (length x) by lia.
  apply take_app_length.
Qed.

Lemma secret_match p s e :
  Match secret_pattern (Pos p s []) e ->
  exists n op v, s = n ++ op ++ v ++ rest e /\ SecretName n /\ Assignment op /\ Value v
    /\ group_text 1 (caps e) = n.
Proof.
  intros H. unfold secret_pattern, secret_prefix in H.
  inversion H as [| |? ? ? s2 ? H12 H3| | | | | | | |]; subst.
  inversion H12 as [| |? ? ? s1 ? H1 H2| | | | | | | |]; subst.
  inversion H1 as [| | | | | | |? ? ? t1 Hn| | |]; subst.
  inversion H3 as [| | | | | | |? ? ? t3 Hv| | |]; subst.
  pose proof (Match_caps _ _ _ H2 eq_refl) as Hcaps. pose proof (Match_caps _ _ _ Hv eq_refl) as Hcaps3.
  apply Match_Lang in Hn as (n & En & Hn%Lang_secret_names); [|done]. cbn [rest] in En.
  apply Match_Lang in H2 as (op & Eop & Hop%Lang_assign_op); [|done]. cbn [close_group rest] in Eop.
  apply Match_Lang in Hv as (v & Ev & Hv%Lang_plus_cls); [|done].
  exists n, op, v. split; [by rewrite En, Eop, Ev|]. split; [done|]. split; [done|]. split; [done|].
  cbn [close_group caps group_text Nat.eqb]. rewrite Hcaps3, Hcaps. by apply consumed_prefix.
Qed.

Lemma starts_secret_iff p s : starts_secret s <-> exists e, Match secret_pattern (Pos p s []) e.
Proof.
  split.
  - intros (n & op & v & t & -> & Hn%Lang_secret_names & Hop%Lang_assign_op & Hv%Lang_plus_cls).
    assert (HL : Lang secret_pattern ((n ++ op) ++ v)) by (apply LSeq; [apply LSeq; [by apply LGrp|done]|by apply LGrp]).
    destruct (Lang_Match _ _ HL p t []) as (q & cs & Hm). exists (Pos q t cs).
    by rewrite <- !app_assoc in Hm.
  - intros [e He]. apply secret_match in He as (n & op & v & -> & Hn & Hop & Hv & _).
    by exists n, op, v, (rest e).
Qed.

(** The leftmost match is the first secret. *)
Lemma find_secret p s before start e :
  find secret_pattern p s = Some (before, start, e) ->
  exists n op v, s = before ++ n ++ op ++ v ++ rest e
    /\ secret_free before (n ++ op ++ v ++ rest e) /\ SecretName n /\ Assignment op /\ Value v
    /\ ends_value (rest e) /\ group_text 1 (caps e) = n.
Proof.
  intros Hf. pose proof (find_match_at _ _ _ _ _ _ Hf) as [q Hq%match_at_class_stops].
  apply find_Some in Hf as (-> & Hm & Hfirst).
  destruct (secret_match _ _ _ Hm) as (n & op & v & -> & Hn & Hop & Hv & Hg).
  exists n, op, v. split; [done|]. split; [|done].
  intros b1 b2 -> Hne Hs. apply (starts_secret_iff (last_byte p b1)) in Hs as [e' He'].
  apply (Hfirst b1 (b2 ++ n ++ op ++ v ++ rest e)) with (e' := e'); [by rewrite <- app_assoc| |done].
  rewrite length_app. destruct b2; [done|cbn; lia].
Qed.

Lemma find_no_secret p s : find secret_pattern p s = None -> secret_free s [].
Proof.
  intros Hf b1 b2 -> _ Hs. rewrite app_nil_r in Hs.
  apply (starts_secret_iff (last_byte p b1)) in Hs as [e He]. by apply (proj1 (find_None _ _ _) Hf b1 b2 e).
Qed.

Lemma replace_redacts fuel : forall after p s,
  length s < fuel -> Redacted s (replace_from fuel secret_pattern (redaction secret_pattern) after p s).
Proof.
  induction fuel as [|fuel IH]; intros after p s Hl; [lia|]. cbn [replace_from].
  destruct (find secret_pattern p s) as [[[before start] e]|] eqn:Hf;
    [|by apply Redacted_free, (find_no_secret p)].
  pose proof (find_secret _ _ _ _ _ Hf) as (n & op & v & E & Hfree & Hn & Hop & Hv & Hend & Hg).
  apply find_Some in Hf as (Es & _). rewrite E in Es. apply app_inv_head in Es as <-.
  assert (Hshort : length (rest e) < length s).
  { rewrite E, !length_app. destruct Hv as [Hne _]. destruct v; [done|cbn; lia]. }
  replace (take _ (n ++ op ++ v ++ rest e)) with (n ++ op ++ v).
  2: { rewrite !app_assoc, length_app.
       replace (_ + length (rest e) - length (rest e)) with (length ((n ++ op) ++ v)) by lia.
       by rewrite take_app_length. }
  destruct (n ++ op ++ v) as [|c l] eqn:Enil.
  { apply app_eq_nil in Enil as [_ [_ ->]%app_eq_nil]. by destruct Hv. }
  change (redaction secret_pattern) with redact_value. unfold expand at 1, redact_value at 1.
  cbn [mbind list_bind]. rewrite Hg, app_nil_r, <- app_assoc. rewrite E.
  apply Redacted_secret; try done. apply IH. lia.
Qed.

(** C36: the first pattern leaves of every secret its name only.  Whatever the text,
    what [ReplaceAllString] makes of it is the text in which each secret, from left
    to right, a name (one of the listed words, in any case), an assignment and a
    value up to its last byte, is replaced by the name and the placeholder; nothing
    else of the text is touched, and no secret starts in what is kept. *)
Theorem secret_value_redacted (msg : string) :
  Redacted (bytes_of msg) (bytes_of (ReplaceAllString secret_pattern msg (redaction secret_pattern))).
Proof.
  unfold ReplaceAllString, ReplaceAllBytes. rewrite bytes_of_string_of. apply replace_redacts. lia.
Qed.

Example redacts_two :
  ReplaceAllString secret_pattern "user=bob Api-Key: 'k1', TOKEN=t2}" (redaction secret_pattern)
  = "user=bob Api-Key=***REDACTED***', TOKEN=***REDACTED***}".
Proof. vm_compute. reflexivity. Qed.
