(* ===== verification/Model.v ===== *)
(** * core/model.go, core/clock.go, core/health.go: the outbox message

    The message record and its status, the retry predicates, the reference
    computation of the retry time, the validation of table names, the mock
    clock and the health status. *)

From Stdlib Require Import ZArith Lia Ascii.
From Corelib Require Import SpecFloat.
From stdpp Require Import base option list strings sets countable.
From S2P Require Import Prelude Regex Errors.

Set Default Goal Selector "!".
Open Scope string_scope.
Open Scope list_scope.

(** ** The outbox record *)

Inductive OutboxStatus : Type :=
| ENQUEUED | PUBLISHING | PUBLISHED | FAILED | DEAD.

#[export] Instance OutboxStatus_eq_dec : EqDecision OutboxStatus.
Proof. solve_decision. Defined.

Definition status_text (s : OutboxStatus) : string :=
  match s with
  | ENQUEUED => "ENQUEUED"
  | PUBLISHING => "PUBLISHING"
  | PUBLISHED => "PUBLISHED"
  | FAILED => "FAILED"
  | DEAD => "DEAD"
  end.

(** A [uuid.UUID] is written as the text [String] gives for it. *)
Definition UUID : Type := string.

(** [json.RawMessage]: nil, or the bytes. *)
Definition RawMessage : Type := option string.
Definition raw_string (r : RawMessage) : string := default "" r.
Definition raw_len (r : RawMessage) : nat := String.length (raw_string r).

(** Points in time are counted from a fixed origin: nanoseconds where Go
    computes them, microseconds where PostgreSQL does. *)
Record Outbox : Type := mkOutbox {
  ID : string;
  EventType : string;
  Payload : RawMessage;
  Metadata : RawMessage;
  IdempotencyKey : string;
  Status : OutboxStatus;
  ErrorMessage : option string;
  AttemptCount : Z;
  MaxAttempts : Z;
  NextRetryAt : option Z;
  CreatedAt : Z;
  UpdatedAt : Z
}.

#[export] Instance Outbox_eq_dec : EqDecision Outbox.
Proof. solve_decision. Defined.

Record OutboxInsertParams : Type := mkParams {
  p_EventType : string;
  p_Payload : RawMessage;
  p_Metadata : RawMessage;
  p_IdempotencyKey : string;
  p_MaxAttempts : Z
}.

Section Retry.
Local Open Scope Z_scope.

Definition CanRetry (o : Outbox) : bool := AttemptCount o <? MaxAttempts o.

Definition ShouldMarkDead (o : Outbox) : bool := MaxAttempts o <=? AttemptCount o.

Definition WillExceedMaxAttemptsAfterFailure (o : Outbox) : bool :=
  MaxAttempts o <=? wrap64 (AttemptCount o + 1).

(** *** CalculateNextRetryAt *)

(** [float64] is IEEE 754 binary64; [jitter] is one. *)
Definition f64_of_int64 (z : Z) : spec_float := binary_normalize 53 1024 z 0 false.
Definition f64_mul : spec_float -> spec_float -> spec_float := SFmul 53 1024.

(** Conversion to an integer truncates toward zero.  Go leaves the result
    open where the value has no integer part in range: [oob] is what the
    platform gives there. *)
Definition int64_of_f64 (oob : spec_float -> Z) (f : spec_float) : Z :=
  match f with
  | S754_zero _ => 0
  | S754_finite s m e =>
      let a := if 0 <=? e then Z.pos m * 2 ^ e else Z.pos m / 2 ^ (- e) in
      let z := if s then - a else a in
      if (- 2 ^ 63 <=? z) && (z <? 2 ^ 63) then z else oob f
  | _ => oob f
  end.

(** [1 << uint(n)] of an [int]: a count of 64 or more, which includes every
    negative [n] turned unsigned, shifts the bit out. *)
Definition shl1 (n : Z) : Z :=
  if (0 <=? n) && (n <? 64) then wrap64 (Z.shiftl 1 n) else 0.

(** The backoff before the jitter: the product of two durations, capped. *)
Definition retry_backoff (attemptCount baseInterval maxInterval : Z) : Z :=
  let backoff := wrap64 (baseInterval * shl1 attemptCount) in
  if maxInterval <? backoff then maxInterval else backoff.

Definition CalculateNextRetryAt (oob : spec_float -> Z)
    (now attemptCount baseInterval maxInterval : Z) (jitter : spec_float) : Z :=
  let backoff := retry_backoff attemptCount baseInterval maxInterval in
  now + int64_of_f64 oob (f64_mul (f64_of_int64 backoff) jitter).
End Retry.

(** ** ValidateTableName *)

(** [a-zA-Z_] and [a-zA-Z0-9_] *)
Definition ident_start (c : Ascii.ascii) : bool := is_alpha c || Ascii.eqb c "_".

Definition validTableNamePattern : re :=
  RSeq RBeg
    (RSeq (RCls ident_start)
      (RSeq (RStar (RCls is_word))
        (RSeq (ROpt (RGrp 1 (RSeq (chr ".") (RSeq (RCls ident_start) (RStar (RCls is_word))))))
          REnd))).

Definition ValidateTableName (name : string) : option error :=
  if bool_decide (name = "") || negb (MatchString validTableNamePattern name)
  then Some (ESentinel ErrInvalidTableName)
  else None.

(** ** MockClock and HealthStatus *)

Record MockClock : Type := mkMockClock { CurrentTime : Z }.
Definition MockClock_Now (m : MockClock) : Z := CurrentTime m.
Definition MockClock_Advance (m : MockClock) (d : Z) : MockClock :=
  mkMockClock (CurrentTime m + d).

Record HealthStatus : Type := mkHealth {
  Running : bool;
  LastProcessedAt : option Z;
  WorkerCount : Z;
  PendingShutdown : bool
}.

Definition IsHealthy (h : HealthStatus) : bool := Running h && negb (PendingShutdown h).

(** [time.Since] saturates, so the difference never wraps. *)
Definition saturate64 (z : Z) : Z := Z.max (- 2 ^ 63) (Z.min (2 ^ 63 - 1) z).
Definition IsStale (now : Z) (h : HealthStatus) (maxAge : Z) : bool :=
  match LastProcessedAt h with
  | None => false
  | Some t => Z.ltb maxAge (saturate64 (now - t))
  end.

(** ** Properties *)

(** An SQL identifier of letters, digits and underscores. *)
Definition is_ident (b : bytes) : bool :=
  match b with
  | c :: t => ident_start c && forallb is_word t
  | [] => false
  end.

Lemma Match_ident_iff (s : pos) (k : re) e :
  Match (RSeq (RCls ident_start) (RSeq (RStar (RCls is_word)) k)) s e <->
  exists t s', rest s = t ++ s' /\ is_ident t = true /\ Match k (advance t s' s) e.
Proof.
  split.
  - inversion 1 as [| |? ? ? s1 ? Hc Hr| | | | | | | |]; subst.
    inversion Hr as [| |? ? ? s2 ? Hs Hk| | | | | | | |]; subst.
    apply Match_class_iff in Hc as (c & s' & E & Hc & ->).
    apply Match_star_class_iff in Hs as (t & s'' & E' & Ht & ->). simpl in E'.
    exists (c :: t), s''. rewrite E, E'. split; [done|].
    split; [simpl; by rewrite Hc, Ht|]. by rewrite advance_advance in Hk.
  - intros (t & s' & E & Ht & Hk). destruct t as [|c t]; [discriminate|].
    simpl in Ht. apply andb_true_iff in Ht as [Hc Ht].
    eapply MSeq; [apply Match_class_iff; exists c, (t ++ s'); eauto|].
    eapply MSeq; [apply Match_star_class_iff; exists t, s'; eauto|].
    by rewrite advance_advance.
Qed.

Lemma Match_qualifier_iff (s e : pos) :
  Match (RSeq (chr ".") (RSeq (RCls ident_start) (RStar (RCls is_word)))) s e <->
  exists t s', rest s = "."%char :: t ++ s' /\ is_ident t = true
    /\ e = advance ("."%char :: t) s' s.
Proof.
  split.
  - inversion 1 as [| |? ? ? s1 ? Hd Hr| | | | | | | |]; subst.
    apply Match_class_iff in Hd as (c & s' & E & Hd & ->). apply Ascii.eqb_eq in Hd as <-.
    inversion Hr as [| |? ? ? s2 ? Hc Hs| | | | | | | |]; subst.
    apply Match_class_iff in Hc as (c & s'' & E' & Hc & ->). simpl in E'. subst s'.
    apply Match_star_class_iff in Hs as (t & s3 & E'' & Ht & ->). simpl in E''. subst s''.
    exists (c :: t), s3. split; [done|]. split; [simpl; by rewrite Hc, Ht|].
    by rewrite !advance_advance.
  - intros (t & s' & E & Ht & ->). destruct t as [|c t]; [discriminate|].
    simpl in Ht. apply andb_true_iff in Ht as [Hc Ht].
    eapply MSeq.
    { apply Match_class_iff. exists "."%char, (c :: t ++ s'). split; [done|]. split; [|done].
      by apply Ascii.eqb_eq. }
    eapply MSeq; [apply Match_class_iff; exists c, (t ++ s'); eauto|].
    apply Match_star_class_iff. exists t, s'. by rewrite !advance_advance.
Qed.

Lemma table_name_match (b : bytes) :
  MatchBytes validTableNamePattern b = true <->
  is_ident b = true
  \/ exists x y, b = x ++ "."%char :: y /\ is_ident x = true /\ is_ident y = true.
Proof.
  unfold validTableNamePattern. rewrite MatchBytes_anchored. split.
  - intros [e Hm]. apply Match_ident_iff in Hm as (x & r & E & Hx & Hm). simpl in E; subst b.
    inversion Hm as [| |? ? ? s1 ? Ho He| | | | | | | |]; subst.
    inversion He as [| | | | | | | | |? Hr|]; subst.
    inversion Ho as [| | |? ? ? ? Hg|? ? ? ? Hg| | | | | |]; subst.
    + inversion Hg as [| | | | | | |? ? ? s2 Hq| | |]; subst.
      apply Match_qualifier_iff in Hq as (y & r' & E & Hy & ->). simpl in *. subst.
      right. exists x, y. rewrite app_nil_r. auto.
    + inversion Hg; subst. simpl in Hr. subst. left. by rewrite app_nil_r.
  - intros [Hb|(x & y & -> & Hx & Hy)].
    + eexists. apply Match_ident_iff. exists b, []. rewrite app_nil_r. split; [done|].
      split; [done|]. eapply MSeq; [apply MAltR, MEps|]. by apply MEnd.
    + eexists. apply Match_ident_iff. exists x, ("."%char :: y). split; [done|].
      split; [done|]. eapply MSeq.
      * apply MAltL, MGrp, Match_qualifier_iff. exists y, []. rewrite app_nil_r. eauto.
      * by apply MEnd.
Qed.

(** A table name is accepted exactly when it is one identifier, or a schema
    and a table identifier joined by a dot; every other name, the empty one
    included, is refused with [ErrInvalidTableName]. *)
Theorem ValidateTableName_spec (name : string) :
  (ValidateTableName name = None <->
     is_ident (bytes_of name) = true
     \/ exists x y, bytes_of name = x ++ "."%char :: y
          /\ is_ident x = true /\ is_ident y = true)
  /\ (ValidateTableName name <> None ->
        ValidateTableName name = Some (ESentinel ErrInvalidTableName)).
Proof.
  unfold ValidateTableName, MatchString. split; [|by destruct (_ || _)].
  rewrite <- table_name_match. case_bool_decide as Hn; simpl.
  - subst name. split; [done|]. vm_compute. done.
  - by destruct (MatchBytes _ _).
Qed.

Section RetryProps.
Local Open Scope Z_scope.

Lemma shl1_small n : 0 <= n < 63 -> shl1 n = 2 ^ n.
Proof.
  intros Hn. unfold shl1.
  replace ((0 <=? n) && (n <? 64)) with true
    by (symmetry; apply andb_true_iff; split; [apply Z.leb_le|apply Z.ltb_lt]; lia).
  rewrite Z.shiftl_1_l. apply wrap64_id. unfold in_int64.
  pose proof (Z.pow_lt_mono_r 2 n 63). pose proof (Z.pow_nonneg 2 n). lia.
Qed.

(** As long as the product of the base interval and the power of two is a
    duration, the backoff is that product, capped at the maximum. *)
Theorem retry_backoff_capped (attemptCount baseInterval maxInterval : Z)
  (Hattempt : 0 <= attemptCount < 63) (Hbase : 0 <= baseInterval)
  (Hfit : baseInterval * 2 ^ attemptCount < 2 ^ 63) :
  retry_backoff attemptCount baseInterval maxInterval
  = Z.min (baseInterval * 2 ^ attemptCount) maxInterval.
Proof.
  unfold retry_backoff. rewrite shl1_small by done.
  pose proof (Z.pow_nonneg 2 attemptCount).
  rewrite wrap64_id by (unfold in_int64; nia).
  destruct (Z.ltb_spec maxInterval (baseInterval * 2 ^ attemptCount)); lia.
Qed.

(** Past that range the cap does not hold: with a base of one second and a
    maximum of one hour, the 34th attempt multiplies to a negative duration
    and the next retry time lies in the past, and from the 64th attempt on
    the backoff is zero. *)
Theorem CalculateNextRetryAt_overflow (oob : spec_float -> Z) (now attemptCount : Z) :
  CalculateNextRetryAt oob now 34 Second Hour (f64_of_int64 1)
    = now - 1266874889709551616
  /\ (64 <= attemptCount ->
      CalculateNextRetryAt oob now attemptCount Second Hour (f64_of_int64 1) = now).
Proof.
  split.
  - unfold CalculateNextRetryAt.
    replace (int64_of_f64 oob _) with (- 1266874889709551616) by reflexivity. lia.
  - intros Ha. unfold CalculateNextRetryAt, retry_backoff, shl1.
    replace ((0 <=? attemptCount) && (attemptCount <? 64)) with false
      by (symmetry; apply andb_false_iff; right; apply Z.ltb_ge; lia).
    replace (int64_of_f64 oob _) with 0 by reflexivity. lia.
Qed.
End RetryProps.
