(* ===== verification/Ports.v ===== *)
(** * The interfaces of core: repository, publisher, hooks, contexts

    core/repository.go, core/publisher.go, core/hooks.go and
    [createCleanupContext] of core/shutdown.go.  The operations of a
    repository and of a publisher are calls that read and write a world [W];
    the dispatchers are written against these classes, and the pgx, GORM and
    SQS files give instances of them. *)

From Stdlib Require Import ZArith Lia.
From stdpp Require Import base option list strings.
From S2P Require Import Prelude Errors Model.

Set Default Goal Selector "!".

(** ** Contexts *)

(** What the program observes of a [context.Context]: whether cancelling the
    dispatcher cancels it, the deadline, and the values it carries. *)
Record Context : Type := mkContext {
  ctx_cancelable : bool;
  ctx_deadline : option Z;
  ctx_values : list (string * string)
}.

(** [context.WithoutCancel]: neither cancelled with its parent nor bound by
    its deadline; the values stay. *)
Definition WithoutCancel (parent : Context) : Context :=
  mkContext false None (ctx_values parent).

(** [context.WithTimeout]: the earlier of the parent's deadline and
    [now + timeout]. *)
Definition WithTimeout (now : Z) (parent : Context) (timeout : Z) : Context :=
  mkContext (ctx_cancelable parent)
    (Some (match ctx_deadline parent with
           | Some d => Z.min d (now + timeout)
           | None => now + timeout
           end)%Z)
    (ctx_values parent).

Definition createCleanupContext (now : Z) (parent : Context) (timeout : Z) : Context :=
  let ctx := WithoutCancel parent in
  WithTimeout now ctx timeout.

(** ** The runtime: [time.Now] *)

Class Runtime (W : Type) : Type := { time_Now : GoM W Z }.

(** ** core/repository.go *)

Class OutboxRepository (W : Type) : Type := {
  Insert : Context -> OutboxInsertParams -> GoM W (result error Outbox);
  FetchAndLockToPublishing : Context -> GoM W (result error Outbox);
  UpdateToPublished : Context -> string -> GoM W (option error);
  UpdateToFailed : Context -> string -> string -> GoM W (option error);
  UpdateToDead : Context -> string -> string -> GoM W (option error);
  RequeueFailed : Context -> GoM W (result error Z);
  GetByID : Context -> string -> GoM W (result error Outbox);
  GetByIdempotencyKey : Context -> string -> string -> GoM W (result error Outbox)
}.

Class BatchOutboxRepository (W : Type) : Type := {
  batch_repo_base :: OutboxRepository W;
  FetchLockAndMarkPublishing : Context -> Z -> GoM W (result error (list Outbox));
  UpdateBatchToPublished : Context -> list string -> GoM W (result error Z)
}.

Class OutboxRecovery (W : Type) : Type := {
  ReviveStuckPublishing : Context -> GoM W (result error Z)
}.

Class OutboxCleaner (W : Type) : Type := {
  DeleteOlderThan : Context -> list OutboxStatus -> Z -> GoM W (result error Z)
}.

(** ** core/publisher.go *)

Class Publisher (W : Type) : Type := {
  Publish : Context -> Outbox -> GoM W (option error)
}.

Record PublishResult : Type := mkResult {
  OutboxID : string;
  MessageID : string;
  Success : bool;
  Error : option error
}.

Class BatchPublisher (W : Type) : Type := {
  batch_publisher_base :: Publisher W;
  PublishBatch : Context -> list Outbox -> GoM W (list PublishResult);
  MaxBatchSize : Z
}.

(** What [PublishBatch] documents and [processBatch] relies on: a result for
    each message, in order, that carries an error unless it succeeded, and no
    panic. *)
Definition result_ok (m : Outbox) (r : PublishResult) : Prop :=
  OutboxID r = ID m /\ (Success r = false -> Error r <> None).

Class BatchPublisherLaws (W : Type) `{BatchPublisher W} : Prop := {
  publish_batch_results : forall ctx msgs w,
    exists w' results, PublishBatch ctx msgs w = (w', Ret results)
      /\ Forall2 result_ok msgs results
}.

(** ** core/hooks.go *)

(** A nil hook is [None].  A hook is user code: it may change the world and
    it may panic. *)
Record Hooks (W : Type) : Type := mkHooks {
  OnPublishStart : option (Context -> Outbox -> GoM W unit);
  OnPublishSuccess : option (Context -> Outbox -> Z -> GoM W unit);
  OnPublishFailure : option (Context -> Outbox -> error -> Z -> bool -> GoM W unit);
  OnMessageDead : option (Context -> Outbox -> error -> GoM W unit);
  OnBatchPublishStart : option (Context -> list Outbox -> GoM W unit);
  OnBatchPublishComplete : option (Context -> Z -> Z -> Z -> GoM W unit);
  OnPartialBatchSuccess : option (Context -> Z -> Z -> Z -> GoM W unit)
}.
Arguments OnPublishStart {W}.
Arguments OnPublishSuccess {W}.
Arguments OnPublishFailure {W}.
Arguments OnMessageDead {W}.
Arguments OnBatchPublishStart {W}.
Arguments OnBatchPublishComplete {W}.
Arguments OnPartialBatchSuccess {W}.

(** [if h != nil && h.F != nil { defer recover...; h.F(...) }] *)
Definition call_hook {W H F} (h : option H) (field : H -> option F)
    (call : F -> GoM W unit) : GoM W unit :=
  match h ≫= field with
  | Some f => go_recover (call f)
  | None => mret tt
  end.

Arguments call_hook : simpl never.

Section Calls.
Context {W : Type} (h : option (Hooks W)) (ctx : Context).

Definition callOnPublishStart (msg : Outbox) : GoM W unit :=
  call_hook h OnPublishStart (fun f => f ctx msg).
Definition callOnPublishSuccess (msg : Outbox) (duration : Z) : GoM W unit :=
  call_hook h OnPublishSuccess (fun f => f ctx msg duration).
Definition callOnPublishFailure (msg : Outbox) (err : error) (duration : Z)
    (retryable : bool) : GoM W unit :=
  call_hook h OnPublishFailure (fun f => f ctx msg err duration retryable).
Definition callOnMessageDead (msg : Outbox) (err : error) : GoM W unit :=
  call_hook h OnMessageDead (fun f => f ctx msg err).
Definition callOnBatchPublishStart (msgs : list Outbox) : GoM W unit :=
  call_hook h OnBatchPublishStart (fun f => f ctx msgs).
Definition callOnBatchPublishComplete (successCount failureCount duration : Z)
    : GoM W unit :=
  call_hook h OnBatchPublishComplete (fun f => f ctx successCount failureCount duration).
Definition callOnPartialBatchSuccess (expectedCount actualCount duration : Z)
    : GoM W unit :=
  call_hook h OnPartialBatchSuccess (fun f => f ctx expectedCount actualCount duration).
End Calls.

(** ** Laws *)

(** A hook call always returns: it changes the world at most. *)
Lemma call_hook_ret {W H F} (h : option H) (field : H -> option F) (call : F -> GoM W unit) w :
  call_hook h field call w
  = (match h ≫= field with Some f => fst (call f w) | None => w end, Ret tt).
Proof.
  unfold call_hook. destruct (h ≫= field); [apply go_recover_run|done].
Qed.
#[export] Hint Rewrite @call_hook_ret : go_run.

Lemma cleanup_context_live (now timeout : Z) (parent : Context) :
  createCleanupContext now parent timeout
  = mkContext false (Some (now + timeout)%Z) (ctx_values parent).
Proof. reflexivity. Qed.
