(* ===== verification/History.v ===== *)
(** * Worlds that record calls

    The most general environment a dispatcher can meet: the world is the list
    of calls made so far, oldest first, and the answer of each call is an
    arbitrary function of that history.  A theorem for every [Oracle] holds
    for every repository, publisher, clock and set of hooks whose answers are
    determined by what the program did before, whatever they do inside, panics
    included. *)

From Stdlib Require Import ZArith Lia.
From stdpp Require Import base option list strings.
From S2P Require Import Prelude Errors Model Ports.

Set Default Goal Selector "!".

Inductive HookCall : Type :=
| HPublishStart (msg : Outbox)
| HPublishSuccess (msg : Outbox) (duration : Z)
| HPublishFailure (msg : Outbox) (err : error) (duration : Z) (retryable : bool)
| HMessageDead (msg : Outbox) (err : error)
| HBatchPublishStart (msgs : list Outbox)
| HBatchPublishComplete (successCount failureCount duration : Z)
| HPartialBatchSuccess (expectedCount actualCount duration : Z)
| HProcessed.

Inductive Call : Type :=
| CNow
| CInsert (ctx : Context) (params : OutboxInsertParams)
| CFetch (ctx : Context)
| CToPublished (ctx : Context) (id : string)
| CToFailed (ctx : Context) (id errMsg : string)
| CToDead (ctx : Context) (id errMsg : string)
| CRequeue (ctx : Context)
| CGetByID (ctx : Context) (id : string)
| CGetByKey (ctx : Context) (eventType idempotencyKey : string)
| CFetchBatch (ctx : Context) (limit : Z)
| CBatchToPublished (ctx : Context) (ids : list string)
| CRevive (ctx : Context)
| CPublish (ctx : Context) (msg : Outbox)
| CPublishBatch (ctx : Context) (msgs : list Outbox)
| CHook (ctx : Context) (h : HookCall).

Definition history := list Call.

Record Oracle : Type := mkOracle {
  o_now : history -> Z;
  o_outbox : history -> result error Outbox;
  o_fetch : history -> result error Outbox;
  o_update : history -> option error;
  o_count : history -> result error Z;
  o_fetch_batch : history -> result error (list Outbox);
  o_publish : history -> outcome (option error);
  o_publish_batch : history -> outcome (list PublishResult);
  o_max_batch : Z;
  o_hook : history -> outcome unit
}.

Section Instances.
Context (o : Oracle).

(** Record a call and answer it. *)
Definition answer {A} (c : Call) (f : history -> outcome A) : GoM history A :=
  fun h => (h ++ [c], f h).
Definition answer_ret {A} (c : Call) (f : history -> A) : GoM history A :=
  answer c (fun h => Ret (f h)).

#[export] Instance hist_runtime : Runtime history := {
  time_Now := answer_ret CNow (o_now o)
}.

#[export] Instance hist_repo : OutboxRepository history := {
  Insert ctx params := answer_ret (CInsert ctx params) (o_outbox o);
  FetchAndLockToPublishing ctx := answer_ret (CFetch ctx) (o_fetch o);
  UpdateToPublished ctx id := answer_ret (CToPublished ctx id) (o_update o);
  UpdateToFailed ctx id m := answer_ret (CToFailed ctx id m) (o_update o);
  UpdateToDead ctx id m := answer_ret (CToDead ctx id m) (o_update o);
  RequeueFailed ctx := answer_ret (CRequeue ctx) (o_count o);
  GetByID ctx id := answer_ret (CGetByID ctx id) (o_outbox o);
  GetByIdempotencyKey ctx t k := answer_ret (CGetByKey ctx t k) (o_outbox o)
}.

#[export] Instance hist_batch_repo : BatchOutboxRepository history := {
  batch_repo_base := hist_repo;
  FetchLockAndMarkPublishing ctx n := answer_ret (CFetchBatch ctx n) (o_fetch_batch o);
  UpdateBatchToPublished ctx ids := answer_ret (CBatchToPublished ctx ids) (o_count o)
}.

#[export] Instance hist_recovery : OutboxRecovery history := {
  ReviveStuckPublishing ctx := answer_ret (CRevive ctx) (o_count o)
}.

#[export] Instance hist_publisher : Publisher history := {
  Publish ctx msg := answer (CPublish ctx msg) (o_publish o)
}.

#[export] Instance hist_batch_publisher : BatchPublisher history := {
  batch_publisher_base := hist_publisher;
  PublishBatch ctx msgs := answer (CPublishBatch ctx msgs) (o_publish_batch o);
  MaxBatchSize := o_max_batch o
}.

Definition hist_hook (ctx : Context) (c : HookCall) : GoM history unit :=
  answer (CHook ctx c) (o_hook o).

Definition hist_hooks : Hooks history := {|
  OnPublishStart := Some (fun ctx m => hist_hook ctx (HPublishStart m));
  OnPublishSuccess := Some (fun ctx m d => hist_hook ctx (HPublishSuccess m d));
  OnPublishFailure := Some (fun ctx m e d r => hist_hook ctx (HPublishFailure m e d r));
  OnMessageDead := Some (fun ctx m e => hist_hook ctx (HMessageDead m e));
  OnBatchPublishStart := Some (fun ctx ms => hist_hook ctx (HBatchPublishStart ms));
  OnBatchPublishComplete :=
    Some (fun ctx s f d => hist_hook ctx (HBatchPublishComplete s f d));
  OnPartialBatchSuccess :=
    Some (fun ctx e a d => hist_hook ctx (HPartialBatchSuccess e a d))
|}.
End Instances.

(** ** Laws: how the history grows *)

Lemma run_answer_ret {A} c (f : history -> A) h : answer_ret c f h = (h ++ [c], Ret (f h)).
Proof. reflexivity. Qed.
Lemma run_answer {A} c (f : history -> outcome A) h : answer c f h = (h ++ [c], f h).
Proof. reflexivity. Qed.
Lemma run_hook o F field (sel : F) (call : F -> GoM history unit) ctx c h :
  field (hist_hooks o) = Some sel -> call sel = hist_hook o ctx c ->
  call_hook (Some (hist_hooks o)) field call h = (h ++ [CHook ctx c], Ret tt).
Proof. intros Hf Hc. rewrite call_hook_ret. simpl. by rewrite Hf, Hc. Qed.

(** The calls that write a final status of a message. *)
Definition is_update (c : Call) : bool :=
  match c with
  | CToPublished _ _ | CToFailed _ _ _ | CToDead _ _ _ | CBatchToPublished _ _ => true
  | _ => false
  end.
Definition call_ctx (c : Call) : option Context :=
  match c with
  | CNow => None
  | CInsert ctx _ | CFetch ctx | CToPublished ctx _ | CToFailed ctx _ _ | CToDead ctx _ _
  | CRequeue ctx | CGetByID ctx _ | CGetByKey ctx _ _ | CFetchBatch ctx _
  | CBatchToPublished ctx _ | CRevive ctx | CPublish ctx _ | CPublishBatch ctx _
  | CHook ctx _ => Some ctx
  end.

Definition updates (h : history) : history := List.filter is_update h.

Lemma updates_app h1 h2 : updates (h1 ++ h2) = updates h1 ++ updates h2.
Proof. apply List.filter_app. Qed.
#[export] Hint Rewrite updates_app : go_run.
