(* ===== verification/Worker.v ===== *)
(** * core/worker.go: the single-message worker

    [processOne] and [handlePublishFailure] are translated call by call
    against the interfaces of Ports.v; [Run] is the polling loop, driven by
    the sequence of its [select] outcomes.  The theorems give, for every
    environment (History.v), what a worker asks of the repository. *)

From Stdlib Require Import ZArith Lia.
From stdpp Require Import base option list strings.
From S2P Require Import Prelude Errors Model Ports History.

Set Default Goal Selector "!".
Open Scope Z_scope.

(** ** The decision of [handlePublishFailure], shared with the batch
    dispatcher: [!retryable || msg.WillExceedMaxAttemptsAfterFailure()]. *)
Definition marks_dead (msg : Outbox) (publishErr : error) : bool :=
  negb (IsRetryable (Some publishErr)) || WillExceedMaxAttemptsAfterFailure msg.

Section SingleWorker.
Context {W : Type} `{!Runtime W, !OutboxRepository W, !Publisher W}.

Record Worker : Type := mkWorker {
  w_id : Z;
  w_hooks : option (Hooks W);
  pollInterval : Z;
  maxPollInterval : Z;
  cleanupTimeout : Z;
  onMessageProcessed : option (GoM W unit)
}.

Definition NewWorker (id : Z) (hooks : option (Hooks W))
    (pollInterval maxPollInterval cleanupTimeout : Z) : Worker :=
  mkWorker id hooks pollInterval maxPollInterval cleanupTimeout None.

(** The error of a status update: nil and [ErrInvalidStatus] (the message was
    recovered or finished by another worker) go on, any other is returned. *)
Definition settle (err : option error) (k : GoM W (option error)) : GoM W (option error) :=
  match err with
  | Some e => if errors_Is e ErrInvalidStatus then k else mret (Some e)
  | None => k
  end.

(** [defer cancel()] of the cleanup context releases its timer: nothing the
    program observes. *)
Definition handlePublishFailure (w : Worker) (ctx : Context) (msg : Outbox)
    (publishErr : error) (duration : Z) : GoM W (option error) :=
  let errMsg := TruncateErrorMessage (error_text publishErr) in
  now ← time_Now;
  let cleanupCtx := createCleanupContext now ctx (cleanupTimeout w) in
  if marks_dead msg publishErr then
    err ← UpdateToDead cleanupCtx (ID msg) errMsg;
    settle err
      (_ ← callOnPublishFailure (w_hooks w) ctx msg publishErr duration false;
       _ ← callOnMessageDead (w_hooks w) ctx msg publishErr;
       mret None)
  else
    err ← UpdateToFailed cleanupCtx (ID msg) errMsg;
    settle err
      (_ ← callOnPublishFailure (w_hooks w) ctx msg publishErr duration true;
       mret None).

Definition processOne (w : Worker) (ctx : Context) : GoM W (option error) :=
  fetched ← FetchAndLockToPublishing ctx;
  match fetched with
  | Err err =>
      if errors_Is err ErrNoMessage then mret (Some (ESentinel ErrNoMessage))
      else mret (Some err)
  | Ok msg =>
      _ ← callOnPublishStart (w_hooks w) ctx msg;
      startTime ← time_Now;
      publishErr ← Publish ctx msg;
      now ← time_Now;
      let duration := saturate64 (now - startTime) in
      match publishErr with
      | Some e => handlePublishFailure w ctx msg e duration
      | None =>
          now' ← time_Now;
          let cleanupCtx := createCleanupContext now' ctx (cleanupTimeout w) in
          err ← UpdateToPublished cleanupCtx (ID msg);
          settle err
            (_ ← callOnPublishSuccess (w_hooks w) ctx msg duration;
             match onMessageProcessed w with
             | Some f => _ ← f; mret None
             | None => mret None
             end)
      end
  end.

(** ** Run *)

(** The interval after a turn of the loop: back to the base interval when a
    message was processed, doubled up to the maximum otherwise. *)
Definition next_interval (base max current : Z) (found : bool) : Z :=
  if found then base else Z.min (wrap64 (current * 2)) max.

(** The outcomes of [select]: the context is done, or the timer fired. *)
Inductive RunEvent : Type := CtxDone | TimerFired.

(** [Run] along a sequence of [select] outcomes; it returns the intervals
    the timer was set to.  A [CtxDone] ends it. *)
Fixpoint Run_from (w : Worker) (ctx : Context) (currentInterval : Z)
    (events : list RunEvent) : GoM W (list Z) :=
  match events with
  | [] | CtxDone :: _ => mret []
  | TimerFired :: events' =>
      err ← processOne w ctx;
      let next := next_interval (pollInterval w) (maxPollInterval w) currentInterval
                    (match err with None => true | Some _ => false end) in
      later ← Run_from w ctx next events';
      mret (next :: later)
  end.

Definition Run (w : Worker) (ctx : Context) (events : list RunEvent) : GoM W (list Z) :=
  later ← Run_from w ctx (pollInterval w) events;
  mret (pollInterval w :: later).
End SingleWorker.
Arguments Worker : clear implicits.

(** ** Reference: the calls of one turn, for a message and a publish outcome *)

Section Spec.
Variables (o : Oracle) (ctx : Context).

(** A worker whose hooks and health callback are recorded. *)
Definition recorded (w : Worker history) : Prop :=
  w_hooks w = Some (hist_hooks o)
  /\ onMessageProcessed w = Some (answer_ret (CHook ctx HProcessed) (fun _ => tt)).

(** The one status update a fetched message gets. *)
Definition final_update (cctx : Context) (msg : Outbox) (publishErr : option error) : Call :=
  match publishErr with
  | None => CToPublished cctx (ID msg)
  | Some e =>
      let errMsg := TruncateErrorMessage (error_text e) in
      if marks_dead msg e then CToDead cctx (ID msg) errMsg
      else CToFailed cctx (ID msg) errMsg
  end.

(** The hooks that report the outcome. *)
Definition final_hooks (msg : Outbox) (publishErr : option error) (duration : Z) : history :=
  CHook ctx <$>
  match publishErr with
  | None => [HPublishSuccess msg duration; HProcessed]
  | Some e =>
      if marks_dead msg e
      then [HPublishFailure msg e duration false; HMessageDead msg e]
      else [HPublishFailure msg e duration true]
  end.

Definition accepted (err : option error) : bool :=
  match err with Some e => errors_Is e ErrInvalidStatus | None => true end.
End Spec.

Section Theorems.
Variables (o : Oracle) (ctx : Context) (w : Worker history).
Hypothesis Hw : recorded o ctx w.

Lemma run_settle (err : option error) (k : GoM history (option error)) h :
  @settle history err k h = if accepted err then k h else (h, Ret err).
Proof. destruct err as [e|]; simpl; [|done]. by destruct (errors_Is e ErrInvalidStatus). Qed.

Lemma handlePublishFailure_run msg e d h :
  let cctx := createCleanupContext (o_now o h) ctx (cleanupTimeout w) in
  let u := final_update cctx msg (Some e) in
  @handlePublishFailure history (hist_runtime o) (hist_repo o) w ctx msg e d h
  = if accepted (o_update o (h ++ [CNow]))
    then (h ++ [CNow; u] ++ final_hooks ctx msg (Some e) d, Ret None)
    else (h ++ [CNow; u], Ret (o_update o (h ++ [CNow]))).
Proof.
  destruct Hw as [Hh _]. unfold handlePublishFailure, final_update, final_hooks.
  unfold mbind, GoM_bind. simpl.
  destruct (marks_dead msg e); simpl; rewrite run_settle; simpl;
    destruct (accepted _); rewrite ?Hh, <- ?app_assoc; try done.
  - unfold callOnPublishFailure, callOnMessageDead.
    erewrite run_hook by reflexivity. erewrite run_hook by reflexivity.
    by rewrite <- !app_assoc.
  - unfold callOnPublishFailure. erewrite run_hook by reflexivity.
    by rewrite <- !app_assoc.
Qed.

(** The history when the publisher is called, and when the status of the
    message is updated. *)
Definition at_publish (h : history) (msg : Outbox) : history :=
  h ++ [CFetch ctx; CHook ctx (HPublishStart msg); CNow].
Definition at_update (h : history) (msg : Outbox) : history :=
  at_publish h msg ++ [CPublish ctx msg; CNow; CNow].
Definition publish_duration (h : history) (msg : Outbox) : Z :=
  saturate64 (o_now o (at_publish h msg ++ [CPublish ctx msg])
              - o_now o (h ++ [CFetch ctx; CHook ctx (HPublishStart msg)])).
Definition cleanup_ctx (h : history) (msg : Outbox) : Context :=
  createCleanupContext (o_now o (at_publish h msg ++ [CPublish ctx msg; CNow])) ctx
    (cleanupTimeout w).

Lemma processOne_run h msg p :
  o_fetch o h = Ok msg -> o_publish o (at_publish h msg) = Ret p ->
  let u := final_update (cleanup_ctx h msg) msg p in
  let answer := o_update o (at_update h msg) in
  @processOne history (hist_runtime o) (hist_repo o) (hist_publisher o) w ctx h
  = if accepted answer
    then (at_update h msg ++ [u] ++ final_hooks ctx msg p (publish_duration h msg), Ret None)
    else (at_update h msg ++ [u], Ret answer).
Proof.
  intros Hf Hp. destruct Hw as [Hh Hm].
  unfold processOne, at_update, cleanup_ctx, publish_duration, at_publish in *.
  unfold mbind, GoM_bind. simpl. rewrite Hf, Hh.
  unfold callOnPublishStart. erewrite run_hook by reflexivity. simpl.
  rewrite <- !app_assoc; simpl. rewrite Hp. destruct p as [e|].
  - rewrite handlePublishFailure_run, <- ?app_assoc. simpl.
    by destruct (accepted _); rewrite <- ?app_assoc.
  - simpl. rewrite run_settle, <- ?app_assoc; simpl.
    destruct (accepted _); [|by rewrite <- ?app_assoc].
    unfold callOnPublishSuccess, mbind, GoM_bind. rewrite Hm. simpl. by rewrite <- ?app_assoc.
Qed.

Lemma updates_at_update h msg : updates (at_update h msg) = updates h.
Proof. unfold at_update, at_publish. rewrite !updates_app. simpl. by rewrite !app_nil_r. Qed.

Lemma updates_final_update cctx msg p :
  updates [final_update cctx msg p] = [final_update cctx msg p].
Proof. destruct p as [e|]; [simpl; destruct (marks_dead msg e)|]; reflexivity. Qed.

Lemma updates_final_hooks msg p d : updates (final_hooks ctx msg p d) = [].
Proof. destruct p as [e|]; [unfold final_hooks; destruct (marks_dead msg e)|]; reflexivity. Qed.
End Theorems.

(** ** Properties *)

(** C10: one turn of the worker on a fetched message.  Whatever the repository,
    the clock and the hooks answer, and whether or not hooks panic, the turn
    publishes the message once and closes it with exactly one status update:
    PUBLISHED when the publisher returned nil, DEAD when its error is not
    retryable or the attempts are used up, FAILED otherwise.  The outcome
    hooks run exactly when the update succeeded or met [ErrInvalidStatus],
    and any other error of the update is what the turn returns. *)
Theorem processOne_spec (o : Oracle) (ctx : Context) (w : Worker history) (h : history)
  (msg : Outbox) (p : option error)
  (Hw : recorded o ctx w) (Hfetch : o_fetch o h = Ok msg)
  (Hpublish : o_publish o (at_publish ctx h msg) = Ret p) :
  let u := final_update (cleanup_ctx o ctx w h msg) msg p in
  let answer := o_update o (at_update ctx h msg) in
  @processOne history (hist_runtime o) (hist_repo o) (hist_publisher o) w ctx h
  = if accepted answer
    then (at_update ctx h msg ++ [u] ++ final_hooks ctx msg p (publish_duration o ctx h msg),
          Ret None)
    else (at_update ctx h msg ++ [u], Ret answer).
Proof. by apply processOne_run. Qed.

(** C23: the status update of a turn never runs under a context the shutdown can
    cancel.  The turn makes one update, right after a reading of the clock; its
    context is not cancellable, carries the values of the worker's context, and
    expires [cleanupTimeout] after that reading, whatever the deadline of the
    worker's context. *)
Theorem processOne_update_survives_shutdown (o : Oracle) (ctx : Context)
  (w : Worker history) (h : history) (msg : Outbox) (p : option error)
  (Hw : recorded o ctx w) (Hfetch : o_fetch o h = Ok msg)
  (Hpublish : o_publish o (at_publish ctx h msg) = Ret p) :
  exists before u after,
    fst (@processOne history (hist_runtime o) (hist_repo o) (hist_publisher o) w ctx h)
    = before ++ [CNow; u] ++ after
    /\ updates before = updates h /\ updates [u] = [u] /\ updates after = []
    /\ call_ctx u
       = Some (mkContext false (Some (o_now o before + cleanupTimeout w)) (ctx_values ctx)).
Proof.
  rewrite (processOne_run o ctx w Hw h msg p Hfetch Hpublish). cbv zeta.
  set (answer := o_update _ _). set (u := final_update _ _ _).
  exists (at_publish ctx h msg ++ [CPublish ctx msg; CNow]), u,
    (if accepted answer then final_hooks ctx msg p (publish_duration o ctx h msg) else []).
  split; [|split; [|split; [|split]]].
  - unfold at_update. destruct (accepted answer); cbn [fst]; by rewrite <- ?app_assoc.
  - unfold at_publish. rewrite !updates_app. simpl. by rewrite !app_nil_r.
  - apply updates_final_update.
  - destruct (accepted answer); [apply updates_final_hooks|done].
  - unfold u. destruct p as [e|]; simpl; [destruct (marks_dead msg e)|]; reflexivity.
Qed.

(** When nothing was fetched, the turn returns at once: [ErrNoMessage] itself
    for an error that wraps it, any other error as it is; nothing is
    published and no status is written. *)
Theorem processOne_fetch_error (o : Oracle) (ctx : Context) (w : Worker history)
  (h : history) (err : error) (Hfetch : o_fetch o h = Err err) :
  @processOne history (hist_runtime o) (hist_repo o) (hist_publisher o) w ctx h
  = (h ++ [CFetch ctx],
     Ret (Some (if errors_Is err ErrNoMessage then ESentinel ErrNoMessage else err))).
Proof.
  unfold processOne, mbind, GoM_bind. simpl. rewrite Hfetch.
  by destruct (errors_Is err ErrNoMessage).
Qed.

(** *** The polling loop *)

Lemma double_in_range z : 0 <= z < 2 ^ 62 -> wrap64 (z * 2) = z * 2.
Proof. intros Hz. apply wrap64_id. unfold in_int64. lia. Qed.

Lemma next_interval_bounds base max current found :
  0 <= base < 2 ^ 62 -> 0 <= max < 2 ^ 62 ->
  Z.min base max <= current <= Z.max base max ->
  Z.min base max <= next_interval base max current found <= Z.max base max.
Proof.
  intros Hb Hm Hc. unfold next_interval. destruct found; [lia|].
  rewrite double_in_range by lia. lia.
Qed.

Section Polling.
Variables (o : Oracle) (ctx : Context) (w : Worker history).
Abbreviation step := (@processOne history (hist_runtime o) (hist_repo o) (hist_publisher o) w ctx).
Abbreviation loop := (@Run_from history (hist_runtime o) (hist_repo o) (hist_publisher o) w ctx).

Lemma Run_from_step cur events h h1 r :
  step h = (h1, Ret r) ->
  loop cur (TimerFired :: events) h
  = let next := next_interval (pollInterval w) (maxPollInterval w) cur
                  (match r with None => true | Some _ => false end) in
    match loop next events h1 with
    | (h2, Ret later) => (h2, Ret (next :: later))
    | (h2, Panic why) => (h2, Panic why)
    end.
Proof.
  intros E. cbn [Run_from]. unfold mbind at 1, GoM_bind at 1. rewrite E. reflexivity.
Qed.

Lemma idle_step h :
  (forall h', exists err, o_fetch o h' = Err err) ->
  exists err, step h = (h ++ [CFetch ctx], Ret (Some err)).
Proof.
  intros Hidle. destruct (Hidle h) as [err E].
  eexists. by apply (processOne_fetch_error o ctx w h err).
Qed.

Lemma idle_doubling (c m k : Z) :
  0 <= c -> 0 <= m -> 0 <= k -> Z.min (Z.min (c * 2) m * 2 ^ k) m = Z.min (c * 2 ^ (k + 1)) m.
Proof.
  intros Hc Hm Hk. rewrite Z.pow_add_r by lia. change (2 ^ 1) with 2.
  pose proof (Z.pow_pos_nonneg 2 k ltac:(lia) Hk).
  destruct (Z.min_spec (c * 2) m) as [[? ->]|[? ->]].
  - f_equal. ring.
  - assert (m <= c * (2 ^ k * 2)) by nia.
    rewrite !Z.min_r; [done| |]; nia.
Qed.

Lemma Run_from_idle : forall n cur h,
  (forall h', exists err, o_fetch o h' = Err err) ->
  0 <= maxPollInterval w < 2 ^ 62 -> 0 <= cur <= maxPollInterval w ->
  exists h',
    loop cur (replicate n TimerFired ++ [CtxDone]) h
    = (h', Ret ((fun k => Z.min (cur * 2 ^ (Z.of_nat k + 1)) (maxPollInterval w)) <$> seq 0 n)).
Proof.
  induction n as [|n IH]; intros cur h Hidle Hmax Hcur.
  - by exists h.
  - destruct (idle_step h Hidle) as [err E]. simpl replicate.
    destruct (IH (next_interval (pollInterval w) (maxPollInterval w) cur false)
                (h ++ [CFetch ctx]) Hidle Hmax) as [h' E'].
    { unfold next_interval. rewrite double_in_range by lia. lia. }
    exists h'. rewrite <- app_comm_cons, (Run_from_step _ _ _ _ _ E). cbv zeta. rewrite E'.
    unfold next_interval. rewrite double_in_range by lia.
    simpl seq. rewrite fmap_cons. f_equal. f_equal. f_equal.
    rewrite <- fmap_S_seq, <- list_fmap_compose.
    apply list_fmap_ext. intros i k _. unfold compose.
    rewrite Nat2Z.inj_succ, idle_doubling by lia. reflexivity.
Qed.

(** The turns a sequence of outcomes asks for. *)
Fixpoint turns (events : list RunEvent) : nat :=
  match events with
  | TimerFired :: events' => S (turns events')
  | _ => O
  end.

Lemma step_returns h :
  recorded o ctx w -> (forall h', exists p, o_publish o h' = Ret p) ->
  exists h' r, step h = (h', Ret r).
Proof.
  intros Hw Hpub. destruct (o_fetch o h) as [msg|err] eqn:Ef.
  - destruct (Hpub (at_publish ctx h msg)) as [p Ep].
    rewrite (processOne_run o ctx w Hw h msg p Ef Ep). destruct (accepted _); eauto.
  - rewrite (processOne_fetch_error o ctx w h err Ef). eauto.
Qed.

Lemma Run_from_bounds : forall events cur h,
  recorded o ctx w -> (forall h', exists p, o_publish o h' = Ret p) ->
  0 <= pollInterval w < 2 ^ 62 -> 0 <= maxPollInterval w < 2 ^ 62 ->
  let lo := Z.min (pollInterval w) (maxPollInterval w) in
  let hi := Z.max (pollInterval w) (maxPollInterval w) in
  lo <= cur <= hi ->
  exists h' l, loop cur events h = (h', Ret l) /\ length l = turns events
    /\ Forall (fun i => lo <= i <= hi) l.
Proof.
  induction events as [|[] events IH]; intros cur h Hw Hpub Hb Hm lo hi Hc;
    [by exists h, []|by exists h, []|].
  destruct (step_returns h Hw Hpub) as (h1 & r & E).
  rewrite (Run_from_step _ _ _ _ _ E). cbv zeta.
  set (next := next_interval _ _ _ _).
  assert (Hn : lo <= next <= hi) by (by apply next_interval_bounds).
  destruct (IH next h1 Hw Hpub Hb Hm Hn) as (h2 & l & E2 & Hl & Hall).
  rewrite E2. exists h2, (next :: l). split; [done|]. simpl. rewrite Hl.
  split; [done|]. by constructor.
Qed.
End Polling.

(** While no fetch gives a message, the polling interval doubles from the
    base interval and stays at the maximum once it is reached. *)
Theorem Run_idle_backoff (o : Oracle) (ctx : Context) (w : Worker history) (n : nat)
  (h : history)
  (Hidle : forall h', exists err, o_fetch o h' = Err err)
  (Hbase : 0 <= pollInterval w <= maxPollInterval w) (Hmax : maxPollInterval w < 2 ^ 62) :
  exists h',
    @Run history (hist_runtime o) (hist_repo o) (hist_publisher o) w ctx
      (replicate n TimerFired ++ [CtxDone]) h
    = (h', Ret ((fun k => Z.min (pollInterval w * 2 ^ Z.of_nat k) (maxPollInterval w))
                <$> seq 0 (S n))).
Proof.
  destruct (Run_from_idle o ctx w n (pollInterval w) h Hidle) as [h' E]; [lia|lia|].
  exists h'. unfold Run, mbind, GoM_bind. rewrite E. unfold mret, GoM_ret. f_equal. f_equal.
  simpl seq. rewrite fmap_cons. f_equal; [lia|].
  rewrite <- fmap_S_seq, <- list_fmap_compose.
  apply list_fmap_ext. intros i k _. unfold compose.
  rewrite Nat2Z.inj_succ. unfold Z.succ. done.
Qed.

(** The loop takes one turn for every timer that fires before the context
    is done and then returns, whatever the environment answers and hooks do,
    as long as the publisher does not panic; every interval it sets the timer
    to lies between the base and the maximum interval. *)
Theorem Run_intervals_bounded (o : Oracle) (ctx : Context) (w : Worker history)
  (events : list RunEvent) (h : history)
  (Hw : recorded o ctx w) (Hpub : forall h', exists p, o_publish o h' = Ret p)
  (Hbase : 0 <= pollInterval w < 2 ^ 62) (Hmax : 0 <= maxPollInterval w < 2 ^ 62) :
  exists h' l,
    @Run history (hist_runtime o) (hist_repo o) (hist_publisher o) w ctx events h
      = (h', Ret l)
    /\ length l = S (turns events)
    /\ Forall (fun i => Z.min (pollInterval w) (maxPollInterval w) <= i
                        <= Z.max (pollInterval w) (maxPollInterval w)) l.
Proof.
  destruct (Run_from_bounds o ctx w events (pollInterval w) h) as (h' & l & E & Hl & Hall);
    try done; [lia|].
  exists h', (pollInterval w :: l). unfold Run, mbind, GoM_bind. rewrite E.
  split; [done|]. split; [simpl; by rewrite Hl|]. constructor; [lia|done].
Qed.

(** ** The properties in a concrete environment

    A clock that stands still, a repository that gives [demo_msg] at every
    fetch and accepts every update, a publisher that always times out, and
    hooks that panic. *)

Definition demo_msg : Outbox :=
  mkOutbox "m1" "order.created" (Some "{}") None "k1" PUBLISHING None 1 3 None 0 0.
Definition demo_timeout : error := EUser "timeout" None [].
Definition demo_oracle : Oracle :=
  mkOracle (fun _ => 0) (fun _ => Ok demo_msg) (fun _ => Ok demo_msg) (fun _ => None)
    (fun _ => Ok 1) (fun _ => Ok [demo_msg]) (fun _ => Ret (Some demo_timeout))
    (fun _ => Ret [mkResult "m1" "" false (Some demo_timeout)]) 10
    (fun _ => Panic "hook").
Definition demo_worker : Worker history :=
  mkWorker 1 (Some (hist_hooks demo_oracle)) (100 * Millisecond) (3200 * Millisecond)
    (10 * Second) (Some (answer_ret (CHook (mkContext true None []) HProcessed) (fun _ => tt))).

Lemma demo_recorded : recorded demo_oracle (mkContext true None []) demo_worker.
Proof. by split. Qed.

Lemma processOne_spec_witness :
  let ctx := mkContext true None [] in
  snd (@processOne history (hist_runtime demo_oracle) (hist_repo demo_oracle)
         (hist_publisher demo_oracle) demo_worker ctx []) = Ret None.
Proof.
  intros ctx.
  rewrite (processOne_spec demo_oracle ctx demo_worker [] demo_msg (Some demo_timeout)
             demo_recorded eq_refl eq_refl).
  reflexivity.
Defined.

(** The dispatcher's context is about to expire; the update's is not. *)
Lemma processOne_update_survives_shutdown_witness :
  let ctx := mkContext true (Some 1) [] in
  exists w before u after,
    fst (@processOne history (hist_runtime demo_oracle) (hist_repo demo_oracle)
           (hist_publisher demo_oracle) w ctx []) = before ++ [CNow; u] ++ after
    /\ updates before = [] /\ updates [u] = [u] /\ updates after = []
    /\ call_ctx u = Some (mkContext false (Some (10 * Second)) []).
Proof.
  intros ctx.
  set (w := mkWorker 1 (Some (hist_hooks demo_oracle)) (100 * Millisecond) (3200 * Millisecond)
              (10 * Second) (Some (answer_ret (CHook ctx HProcessed) (fun _ => tt)))).
  exists w.
  exact (processOne_update_survives_shutdown demo_oracle ctx w [] demo_msg (Some demo_timeout)
           (conj eq_refl eq_refl) eq_refl eq_refl).
Defined.

Lemma Run_intervals_bounded_witness :
  let ctx := mkContext true None [] in
  exists h' l,
    @Run history (hist_runtime demo_oracle) (hist_repo demo_oracle)
      (hist_publisher demo_oracle) demo_worker ctx [TimerFired; TimerFired; CtxDone] []
    = (h', Ret l)
    /\ length l = 3%nat.
Proof.
  intros ctx.
  destruct (Run_intervals_bounded demo_oracle ctx demo_worker [TimerFired; TimerFired; CtxDone]
              [] demo_recorded (fun _ => ex_intro _ _ eq_refl)) as (h' & l & H1 & H2 & _).
  - cbn. unfold Millisecond. lia.
  - cbn. unfold Millisecond. lia.
  - by exists h', l.
Defined.
