(* ===== verification/BatchDispatcher.v ===== *)
(** * core/batch_dispatcher.go: the batch worker

    [processBatch] and the batch version of [handlePublishFailure], with the
    panics Go raises where the publisher breaks its contract made explicit:
    [msgs[i]] out of range, and [Error] called on a nil error.  The configuration
    and the life cycle of the dispatcher are in Dispatcher.v. *)

From Stdlib Require Import ZArith Lia Permutation.
From stdpp Require Import base option list strings.
From S2P Require Import Prelude Errors Model Ports History Worker.

Set Default Goal Selector "!".
Open Scope Z_scope.

Section Batch.
Context {W : Type} `{!Runtime W, !BatchOutboxRepository W, !BatchPublisher W}.

(** The fields of the dispatcher a batch worker uses; [b_store] is the store
    to [lastProcessedAt]. *)
Record BatchWorker : Type := mkBatchWorker {
  b_hooks : option (Hooks W);
  b_BatchSize : Z;
  b_PollInterval : Z;
  b_MaxPollInterval : Z;
  b_CleanupTimeout : Z;
  b_store : Z -> GoM W unit
}.

Definition batch_handlePublishFailure (d : BatchWorker) (ctx : Context) (msg : Outbox)
    (publishErr : error) (duration : Z) : GoM W unit :=
  let errMsg := TruncateErrorMessage (error_text publishErr) in
  now ← time_Now;
  let cleanupCtx := createCleanupContext now ctx (b_CleanupTimeout d) in
  if marks_dead msg publishErr then
    _ ← UpdateToDead cleanupCtx (ID msg) errMsg;
    _ ← callOnPublishFailure (b_hooks d) ctx msg publishErr duration false;
    callOnMessageDead (b_hooks d) ctx msg publishErr
  else
    _ ← UpdateToFailed cleanupCtx (ID msg) errMsg;
    callOnPublishFailure (b_hooks d) ctx msg publishErr duration true.

(** What the loop over the results accumulates. *)
Record Tally : Type := mkTally {
  successIDs : list string;
  successMsgs : list Outbox;
  failureCount : Z
}.

(** [for i, result := range results] *)
Fixpoint process_results (d : BatchWorker) (ctx : Context) (msgs : list Outbox)
    (duration : Z) (i : nat) (results : list PublishResult) (t : Tally)
    : GoM W Tally :=
  match results with
  | [] => mret t
  | result :: results' =>
      match msgs !! i with
      | None => go_panic "index out of range"
      | Some msg =>
          if Success result then
            process_results d ctx msgs duration (S i) results'
              (mkTally (successIDs t ++ [ID msg]) (successMsgs t ++ [msg]) (failureCount t))
          else
            match Error result with
            | None => go_panic "invalid memory address or nil pointer dereference"
            | Some err =>
                _ ← batch_handlePublishFailure d ctx msg err duration;
                process_results d ctx msgs duration (S i) results'
                  (mkTally (successIDs t) (successMsgs t) (failureCount t + 1))
            end
      end
  end.

Fixpoint for_each {A} (f : A -> GoM W unit) (l : list A) : GoM W unit :=
  match l with
  | [] => mret tt
  | x :: l' => _ ← f x; for_each f l'
  end.

(** The update of the messages that were published. *)
Definition update_successes (d : BatchWorker) (ctx : Context) (duration : Z) (t : Tally)
    : GoM W unit :=
  match successIDs t with
  | [] => mret tt
  | ids =>
      now ← time_Now;
      let cleanupCtx := createCleanupContext now ctx (b_CleanupTimeout d) in
      updated ← UpdateBatchToPublished cleanupCtx ids;
      match updated with
      | Err _ => mret tt
      | Ok updatedCount =>
          let n := Z.of_nat (length ids) in
          if updatedCount <? n
          then callOnPartialBatchSuccess (b_hooks d) ctx n updatedCount duration
          else for_each (fun msg => callOnPublishSuccess (b_hooks d) ctx msg duration)
                 (successMsgs t)
      end
  end.

Definition processBatch (d : BatchWorker) (ctx : Context) : GoM W Z :=
  fetched ← FetchLockAndMarkPublishing ctx (b_BatchSize d);
  match fetched with
  | Err _ => mret 0
  | Ok [] => mret 0
  | Ok msgs =>
      _ ← callOnBatchPublishStart (b_hooks d) ctx msgs;
      startTime ← time_Now;
      results ← PublishBatch ctx msgs;
      now ← time_Now;
      let duration := saturate64 (now - startTime) in
      t ← process_results d ctx msgs duration 0 results (mkTally [] [] 0);
      _ ← update_successes d ctx duration t;
      _ ← callOnBatchPublishComplete (b_hooks d) ctx
            (Z.of_nat (length (successIDs t))) (failureCount t) duration;
      now' ← time_Now;
      _ ← b_store d now';
      mret (Z.of_nat (length msgs))
  end.

(** [runBatchWorker] along a sequence of [select] outcomes. *)
Fixpoint runBatchWorker_from (d : BatchWorker) (ctx : Context) (currentInterval : Z)
    (events : list RunEvent) : GoM W (list Z) :=
  match events with
  | [] | CtxDone :: _ => mret []
  | TimerFired :: events' =>
      count ← processBatch d ctx;
      let next := next_interval (b_PollInterval d) (b_MaxPollInterval d) currentInterval
                    (0 <? count) in
      later ← runBatchWorker_from d ctx next events';
      mret (next :: later)
  end.

Definition runBatchWorker (d : BatchWorker) (ctx : Context) (events : list RunEvent)
    : GoM W (list Z) :=
  later ← runBatchWorker_from d ctx (b_PollInterval d) events;
  mret (b_PollInterval d :: later).
End Batch.
Arguments BatchWorker : clear implicits.

(** ** What the repository is asked for a batch *)

Section Spec.
Variables (o : Oracle) (ctx : Context) (d : BatchWorker history).

Definition batch_recorded : Prop :=
  b_hooks d = Some (hist_hooks o)
  /\ b_store d = (fun _ => answer_ret (CHook ctx HProcessed) (fun _ => tt)).
Hypothesis Hd : batch_recorded.

(** A cleanup context of the worker's context. *)
Definition is_cleanup (c : Context) : Prop :=
  exists t, c = mkContext false (Some (t + b_CleanupTimeout d)) (ctx_values ctx).

(** [u] is the status update of a message whose result is a failure. *)
Definition settles_failure (mr : Outbox * PublishResult) (u : Call) : Prop :=
  exists e c, Error (snd mr) = Some e /\ is_cleanup c /\ u = final_update c (fst mr) (Some e).

Definition failures (mrs : list (Outbox * PublishResult)) : list (Outbox * PublishResult) :=
  List.filter (fun mr => negb (Success (snd mr))) mrs.
Definition published (mrs : list (Outbox * PublishResult)) : list Outbox :=
  fst <$> List.filter (fun mr => Success (snd mr)) mrs.

Abbreviation fail := (@batch_handlePublishFailure history (hist_runtime o)
                        (hist_batch_repo o) d ctx).
Abbreviation tally := (@process_results history (hist_runtime o) (hist_batch_repo o) d ctx).

Lemma batch_failure_run msg e dur h :
  exists h' c, fail msg e dur h = (h', Ret tt) /\ is_cleanup c
    /\ updates h' = updates h ++ [final_update c msg (Some e)].
Proof.
  destruct Hd as [Hh _]. unfold batch_handlePublishFailure, final_update.
  unfold mbind, GoM_bind. simpl. rewrite Hh.
  set (c := createCleanupContext _ _ _).
  assert (Hc : is_cleanup c) by (eexists; reflexivity).
  destruct (marks_dead msg e); simpl;
    unfold callOnPublishFailure, callOnMessageDead;
    rewrite ?call_hook_ret; simpl; eexists _, c; (split; [reflexivity|]);
    (split; [done|]); rewrite !updates_app; simpl; by rewrite ?app_nil_r.
Qed.

Lemma process_results_run : forall results msgs i dur t h,
  Forall2 result_ok (drop i msgs) results ->
  exists h' us,
    let mrs := combine (drop i msgs) results in
    tally msgs dur i results t h
    = (h', Ret (mkTally (successIDs t ++ (ID <$> published mrs))
                        (successMsgs t ++ published mrs)
                        (failureCount t + Z.of_nat (length (failures mrs)))))
    /\ updates h' = updates h ++ us
    /\ Forall2 settles_failure (failures mrs) us.
Proof.
  induction results as [|r results IH]; intros msgs i dur t h Hok.
  - apply Forall2_nil_inv_r in Hok. rewrite Hok. exists h, [].
    simpl. rewrite !app_nil_r, Z.add_0_r. by destruct t.
  - apply Forall2_cons_inv_r in Hok as (m & ms & Hrm & Hok & Ed).
    assert (Ei : msgs !! i = Some m)
      by (rewrite <- (Nat.add_0_r i), <- lookup_drop, Ed; done).
    assert (Es : drop (S i) msgs = ms)
      by (rewrite <- Nat.add_1_r, <- drop_drop, Ed; done).
    rewrite Ed. cbn [process_results]. rewrite Ei.
    destruct Hrm as [_ Herr]. destruct (Success r) eqn:Er.
    + destruct (IH msgs (S i) dur
        (mkTally (successIDs t ++ [ID m]) (successMsgs t ++ [m]) (failureCount t)) h)
        as (h' & us & E & Hu & Hs); [by rewrite Es|].
      rewrite Es in E, Hs. exists h', us.
      unfold failures, published in *. simpl in *. rewrite Er. simpl.
      rewrite E, <- !app_assoc. done.
    + destruct (Error r) as [e|] eqn:Ee; [|by destruct Herr].
      destruct (batch_failure_run m e dur h) as (h1 & c & E1 & Hc & Hu1).
      destruct (IH msgs (S i) dur
        (mkTally (successIDs t) (successMsgs t) (failureCount t + 1)) h1)
        as (h' & us & E & Hu & Hs); [by rewrite Es|].
      rewrite Es in E, Hs. exists h', (final_update c m (Some e) :: us).
      unfold mbind, GoM_bind. rewrite E1, E.
      unfold failures, published in *. simpl in *. rewrite Er. simpl.
      split; [do 3 f_equal; lia|]. split.
      * rewrite Hu, Hu1, <- app_assoc. done.
      * constructor; [|done]. by exists e, c.
Qed.
End Spec.

Section Theorems.
Variables (o : Oracle) (ctx : Context) (d : BatchWorker history).
Hypothesis Hd : batch_recorded o ctx d.

(** A call that returns and writes no status. *)
Definition quiet {A} (m : GoM history A) (P : A -> Prop) : Prop :=
  forall h, exists h' a, m h = (h', Ret a) /\ P a /\ updates h' = updates h.

Lemma quiet_hook {F} (field : Hooks history -> option F) (call : F -> GoM history unit) :
  (forall f, field (hist_hooks o) = Some f -> exists c, call f = hist_hook o ctx c) ->
  quiet (call_hook (Some (hist_hooks o)) field call) (fun _ => True).
Proof.
  intros Hf h. rewrite call_hook_ret. simpl.
  destruct (field (hist_hooks o)) as [f|] eqn:E; [|by exists h, tt].
  destruct (Hf f eq_refl) as [c ->]. eexists _, tt. split; [reflexivity|].
  split; [done|]. simpl. rewrite updates_app. by rewrite app_nil_r.
Qed.

Lemma quiet_for_each {A} (f : A -> GoM history unit) (l : list A) :
  (forall x, quiet (f x) (fun _ => True)) -> quiet (for_each f l) (fun _ => True).
Proof.
  intros Hf. induction l as [|x l IH]; intros h; [by exists h, tt|].
  destruct (Hf x h) as (h1 & [] & E1 & _ & U1).
  destruct (IH h1) as (h2 & [] & E2 & _ & U2).
  exists h2, tt. cbn [for_each]. unfold mbind, GoM_bind. rewrite E1, E2.
  split; [done|]. split; [done|]. congruence.
Qed.

Definition batch_update (c : Context) (ids : list string) : history :=
  match ids with [] => [] | _ => [CBatchToPublished c ids] end.

Lemma update_successes_run dur t h :
  exists h' c,
    @update_successes history (hist_runtime o) (hist_batch_repo o) d ctx dur t h
    = (h', Ret tt)
    /\ is_cleanup ctx d c
    /\ updates h' = updates h ++ batch_update c (successIDs t).
Proof.
  destruct Hd as [Hh _]. unfold update_successes. destruct (successIDs t) as [|i ids].
  { exists h, (createCleanupContext 0 ctx (b_CleanupTimeout d)).
    simpl. rewrite app_nil_r. split; [done|]. split; [by eexists|done]. }
  unfold mbind at 1 2, GoM_bind at 1 2. simpl. rewrite Hh.
  set (c := createCleanupContext _ _ _). set (h2 := (_ ++ [CBatchToPublished _ _])).
  assert (Hc : is_cleanup ctx d c) by (eexists; reflexivity).
  assert (Hu2 : updates h2 = updates h ++ [CBatchToPublished c (i :: ids)]).
  { unfold h2. rewrite !updates_app. simpl. by rewrite app_nil_r. }
  destruct (o_count o _) as [n|e]; [|by exists h2, c].
  destruct (n <? _).
  - edestruct (quiet_hook (F := Context -> Z -> Z -> Z -> GoM history unit)
      OnPartialBatchSuccess) as (h' & [] & E & _ & U).
    2: { unfold callOnPartialBatchSuccess. rewrite E. exists h', c.
         by rewrite U. }
    intros f [= <-]. eauto.
  - edestruct (quiet_for_each (fun msg => callOnPublishSuccess (Some (hist_hooks o)) ctx msg dur)
      (successMsgs t)) as (h' & [] & E & _ & U).
    2: { rewrite E. exists h', c. by rewrite U. }
    intros msg. apply quiet_hook. intros f [= <-]. eauto.
Qed.

Lemma processBatch_run h msgs results :
  o_fetch_batch o h = Ok msgs -> msgs <> [] ->
  (forall h', o_publish_batch o h' = Ret results) -> Forall2 result_ok msgs results ->
  exists h' c us,
    @processBatch history (hist_runtime o) (hist_batch_repo o) (hist_batch_publisher o) d ctx h
    = (h', Ret (Z.of_nat (length msgs)))
    /\ is_cleanup ctx d c
    /\ Forall2 (settles_failure ctx d) (failures (combine msgs results)) us
    /\ updates h' = updates h ++ us
         ++ batch_update c (ID <$> published (combine msgs results)).
Proof.
  intros Hf Hne Hp Hok. destruct Hd as [Hh Hs].
  unfold processBatch, mbind, GoM_bind. simpl. rewrite Hf.
  destruct msgs as [|m msgs]; [done|]. remember (m :: msgs) as ms eqn:Ems.
  rewrite Hh. unfold callOnBatchPublishStart.
  erewrite run_hook by reflexivity. simpl. rewrite Hp.
  set (h1 := ((_ ++ [CPublishBatch _ _]) ++ [CNow])). set (dur := saturate64 _).
  assert (U1 : updates h1 = updates h).
  { unfold h1. rewrite !updates_app. simpl. by rewrite !app_nil_r. }
  destruct (process_results_run o ctx d Hd results ms 0 dur (mkTally [] [] 0) h1)
    as (h2 & us & E2 & U2 & Hsf); [done|]. cbv zeta in *.
  rewrite drop_0 in E2, Hsf. rewrite E2.
  set (t := mkTally _ _ _).
  destruct (update_successes_run dur t h2) as (h3 & c & E3 & Hc & U3).
  rewrite E3, Hs. simpl.
  eexists _, c, us. split; [reflexivity|]. split; [done|]. split; [done|].
  rewrite !updates_app. simpl. rewrite !app_nil_r, U3, U2, U1. simpl.
  by rewrite <- app_assoc.
Qed.
End Theorems.

(** The messages a status update names. *)
Definition settled_ids (u : Call) : list string :=
  match u with
  | CToPublished _ id | CToFailed _ id _ | CToDead _ id _ => [id]
  | CBatchToPublished _ ids => ids
  | _ => []
  end.

Lemma settles_failure_ids ctx d (mrs : list (Outbox * PublishResult)) us :
  Forall2 (settles_failure ctx d) mrs us ->
  us ≫= settled_ids = (fun mr => ID (fst mr)) <$> mrs.
Proof.
  induction 1 as [|mr u mrs us (e & c & _ & _ & ->) _ IH]; [done|].
  rewrite bind_cons, IH. simpl. by destruct (marks_dead (fst mr) e).
Qed.

Lemma split_results_perm (mrs : list (Outbox * PublishResult)) :
  Permutation (((fun mr => ID (fst mr)) <$> failures mrs) ++ (ID <$> published mrs))
    ((fun mr => ID (fst mr)) <$> mrs).
Proof.
  induction mrs as [|mr mrs IH]; [done|]. unfold failures, published in *. simpl.
  destruct (Success (snd mr)); simpl.
  - rewrite <- IH. symmetry. apply Permutation_middle.
  - by apply perm_skip.
Qed.

Lemma combine_fst_ids (msgs : list Outbox) (results : list PublishResult) :
  Forall2 result_ok msgs results ->
  (fun mr => ID (fst mr)) <$> combine msgs results = ID <$> msgs.
Proof.
  induction 1 as [|m r ms rs _ _ IH]; [done|]. cbn [combine]. by rewrite !fmap_cons, IH.
Qed.

(** C11: a batch whose publisher keeps its contract is settled completely and
    once: the call returns the number of messages without a panic, whatever
    the repository answers and the hooks do; every failed message, in order,
    gets one update to DEAD or FAILED by the same decision as the
    single-message worker; then one batch update names the published ones,
    if there are any; together the updates name each fetched message exactly
    once, and none runs under a context that the shutdown can cancel. *)
Theorem processBatch_settles_all (o : Oracle) (ctx : Context) (d : BatchWorker history)
  (h : history) (msgs : list Outbox) (results : list PublishResult)
  (Hd : batch_recorded o ctx d) (Hfetch : o_fetch_batch o h = Ok msgs) (Hne : msgs <> [])
  (Hpublish : forall h', o_publish_batch o h' = Ret results)
  (Hok : Forall2 result_ok msgs results) :
  exists h' c us,
    @processBatch history (hist_runtime o) (hist_batch_repo o) (hist_batch_publisher o) d ctx h
    = (h', Ret (Z.of_nat (length msgs)))
    /\ Forall2 (settles_failure ctx d) (failures (combine msgs results)) us
    /\ is_cleanup ctx d c
    /\ updates h' = updates h ++ us ++ batch_update c (ID <$> published (combine msgs results))
    /\ Permutation ((us ++ batch_update c (ID <$> published (combine msgs results)))
                      ≫= settled_ids)
         (ID <$> msgs).
Proof.
  destruct (processBatch_run o ctx d Hd h msgs results Hfetch Hne Hpublish Hok)
    as (h' & c & us & E & Hc & Hs & Hu).
  exists h', c, us. split; [done|]. split; [done|]. split; [done|]. split; [done|].
  rewrite bind_app, (settles_failure_ids ctx d _ _ Hs).
  rewrite <- (combine_fst_ids msgs results Hok).
  rewrite <- (split_results_perm (combine msgs results)).
  apply Permutation_app_head. unfold batch_update.
  destruct (ID <$> published _); simpl; by rewrite ?app_nil_r.
Qed.

(** The two ways a publisher that breaks its contract brings a batch worker
    down: a result beyond the messages, and a failure without an error. *)
Theorem processBatch_contract_needed (o : Oracle) (ctx : Context) (d : BatchWorker history)
  (h : history) (m : Outbox) (r : PublishResult) (results : list PublishResult)
  (Hd : batch_recorded o ctx d) (Hfetch : o_fetch_batch o h = Ok [m])
  (Hpublish : forall h', o_publish_batch o h' = Ret results)
  (Hbad : (results = [r] /\ Success r = false /\ Error r = None)
          \/ (exists r', results = [r; r'] /\ Success r = true)) :
  exists h' why,
    @processBatch history (hist_runtime o) (hist_batch_repo o) (hist_batch_publisher o) d ctx h
    = (h', Panic why).
Proof.
  destruct Hd as [Hh Hs]. unfold processBatch, mbind, GoM_bind. simpl. rewrite Hfetch, Hh.
  unfold callOnBatchPublishStart. erewrite run_hook by reflexivity. simpl. rewrite Hpublish.
  destruct Hbad as [(-> & Hr & He)|(r' & -> & Hr)]; simpl; rewrite Hr, ?He; eauto.
Qed.

(** ** The properties in a concrete environment *)

Definition demo_batch_worker : BatchWorker history :=
  mkBatchWorker (Some (hist_hooks demo_oracle)) 10 (100 * Millisecond) (3200 * Millisecond)
    (10 * Second) (fun _ => answer_ret (CHook (mkContext true None []) HProcessed) (fun _ => tt)).

Lemma processBatch_settles_all_witness :
  let ctx := mkContext true None [] in
  exists h' us,
    @processBatch history (hist_runtime demo_oracle) (hist_batch_repo demo_oracle)
      (hist_batch_publisher demo_oracle) demo_batch_worker ctx [] = (h', Ret 1)
    /\ updates h' = us /\ length us = 1%nat.
Proof.
  intros ctx.
  destruct (processBatch_settles_all demo_oracle ctx demo_batch_worker [] [demo_msg]
              [mkResult "m1" "" false (Some demo_timeout)] (conj eq_refl eq_refl) eq_refl
              ltac:(done) (fun _ => eq_refl)) as (h' & c & us & H1 & H2 & _ & H3 & _).
  - constructor; [by split|constructor].
  - exists h', us. split; [exact H1|]. cbn in H2, H3. rewrite app_nil_r in H3.
    split; [exact H3|]. apply Forall2_length in H2. exact (eq_sym H2).
Defined.
