(* ===== verification/Store.v ===== *)
(** * The outbox table and the SQL the repositories run on it

    The table of [OutboxDDL] (schema/schema.go) is a finite map from ids to
    rows.  The four statement forms the program uses (UPDATE with a condition,
    INSERT with the defaults and constraints of the DDL, DELETE, SELECT) are
    functions on it; a statement either fails and changes nothing or gives
    the new table and its answer.

    A statement runs in an environment: the readings of [clock_timestamp()]
    (PostgreSQL reads the clock anew for every row and use), the draw of
    [random()], the rows other transactions hold locked, the order rows come
    in where no ORDER BY fixes it, and the failure of the call, if it fails,
    before or after the statement took effect. *)

From Stdlib Require Import ZArith Lia Permutation Ascii.
From stdpp Require Import base option list strings gmap fin_maps sorting.
From S2P Require Import Prelude Errors Model.

Set Default Goal Selector "!".
Open Scope Z_scope.

Abbreviation table := (gmap string Outbox).

Record StmtEnv : Type := mkEnv {
  (** the failure of the call, and whether the statement took effect *)
  e_fault : option (error * bool);
  (** [clock_timestamp()] in a WHERE, for the row of an id *)
  e_where : string -> Z;
  (** [clock_timestamp()] for [created_at], [updated_at] *)
  e_set : string -> Z;
  (** [clock_timestamp()] for [next_retry_at] *)
  e_retry : string -> Z;
  (** an interval times [(0.5 + random() * 0.5)] *)
  e_jitter : string -> Z -> Z;
  (** ids of the rows locked by other transactions *)
  e_locked : gset string;
  (** the order of rows without ORDER BY *)
  e_scan : list Outbox -> list Outbox;
  (** [uuid.NewV7()] in [GenerateID] *)
  e_uuid : string;
  (** [time.Now()] of the application's host *)
  e_go_now : Z
}.

(** What PostgreSQL documents: [random()] lies in [0, 1), and rows come in
    some order, none lost or repeated. *)
Record env_ok (env : StmtEnv) : Prop := {
  jitter_ok : forall id i, 0 <= i -> i / 2 <= e_jitter env id i <= i;
  scan_ok : forall l, Permutation (e_scan env l) l
}.

(** ** Statement forms *)

Definition rows (t : table) : list Outbox := (map_to_list t).*2.

(** UPDATE t SET ... WHERE P: [set] is [None] where evaluating a SET
    expression raises the SQL error [code]; one such row aborts the whole
    statement. *)
Definition sql_update (P : Outbox -> bool) (set : Outbox -> option Outbox) (code : string)
    (t : table) : result error (table * Z) :=
  let hit := filter (fun kv => P kv.2 = true) t in
  if bool_decide (map_Forall (fun _ r => is_Some (set r)) hit)
  then Ok ((fun r => if P r then default r (set r) else r) <$> t, Z.of_nat (size hit))
  else Err (PgError code "numeric or interval value out of range").

Definition sql_delete (P : Outbox -> bool) (t : table) : result error (table * Z) :=
  Ok (filter (fun kv => P kv.2 = false) t,
      Z.of_nat (size (filter (fun kv => P kv.2 = true) t))).

Definition sql_select (P : Outbox -> bool) (env : StmtEnv) (t : table)
    : result error (table * list Outbox) :=
  Ok (t, e_scan env (List.filter P (rows t))).

(** Row updates: status and [updated_at], and the rest of the row kept. *)
Definition with_status (s : OutboxStatus) (now : Z) (r : Outbox) : Outbox :=
  mkOutbox (ID r) (EventType r) (Payload r) (Metadata r) (IdempotencyKey r) s
    (ErrorMessage r) (AttemptCount r) (MaxAttempts r) (NextRetryAt r) (CreatedAt r) now.

Definition with_failure (s : OutboxStatus) (errMsg : string) (attempts : Z)
    (retry : option Z) (now : Z) (r : Outbox) : Outbox :=
  mkOutbox (ID r) (EventType r) (Payload r) (Metadata r) (IdempotencyKey r) s
    (Some errMsg) attempts (MaxAttempts r) retry (CreatedAt r) now.

(** The columns a RETURNING list without [next_retry_at] gives. *)
Definition without_retry (r : Outbox) : Outbox :=
  mkOutbox (ID r) (EventType r) (Payload r) (Metadata r) (IdempotencyKey r) (Status r)
    (ErrorMessage r) (AttemptCount r) (MaxAttempts r) None (CreatedAt r) (UpdatedAt r).

Definition has_status (s : OutboxStatus) (r : Outbox) : bool := bool_decide (Status r = s).
Definition has_id (id : string) (r : Outbox) : bool := bool_decide (ID r = id).

(** ** SQL integers and intervals *)

(** [INT] is 32 bits; an addition out of range is an error. *)
Definition in_int4 (z : Z) : bool := (- 2 ^ 31 <=? z) && (z <? 2 ^ 31).

(** Intervals are 64-bit counts of microseconds; a product out of range is an
    error ("interval out of range"). *)
Definition in_interval (us : Z) : bool := (- 2 ^ 63 <=? us) && (us <? 2 ^ 63).

(** pgx does not encode an [int] outside of 32 bits for an INTEGER. *)
Definition encode_error : error := EUser "unable to encode for int4" None [].

(** LEAST((base * interval '1 second') * POWER(2, n), (max * interval '1 second')) *)
Definition backoff_interval (base_us max_us n : Z) : option Z :=
  let p := base_us * 2 ^ n in
  if in_interval p then Some (Z.min p max_us) else None.

(** A Go duration as the seconds a query gets, in microseconds. *)
Definition duration_us (d : Z) : Z := d / 1000.

(** [fmt.Sprintf("%d seconds", int64(d.Seconds()))], in microseconds. *)
Definition truncated_seconds_us (d : Z) : Z := Z.quot d Second * 1000000.
(** [fmt.Sprintf("%d microseconds", d.Microseconds())] *)
Definition microseconds (d : Z) : Z := Z.quot d 1000.

(** ** SQL text *)

(** A VARCHAR(n) counts characters: bytes that do not continue a UTF-8
    sequence. *)
Definition is_continuation (c : ascii) : bool :=
  let b := Z.of_nat (nat_of_ascii c) in Z.land b 192 =? 128.
Fixpoint char_count (s : string) : nat :=
  match s with
  | EmptyString => 0
  | String c s' => if is_continuation c then char_count s' else S (char_count s')
  end.
Definition varchar (n : nat) (s : string) : bool := (char_count s <=? n)%nat.

Definition too_long : error := PgError "22001" "value too long for type character varying".

(** ** Laws *)

Lemma lookup_update P set code t t' n :
  sql_update P set code t = Ok (t', n) ->
  forall id, t' !! id = (fun r => if P r then default r (set r) else r) <$> t !! id.
Proof.
  unfold sql_update. intros H id. case_bool_decide; [|discriminate].
  injection H as <- <-. by rewrite lookup_fmap.
Qed.

Lemma sql_update_ok P set code t :
  (forall id r, t !! id = Some r -> P r = true -> is_Some (set r)) ->
  sql_update P set code t
  = Ok ((fun r => if P r then default r (set r) else r) <$> t,
        Z.of_nat (size (filter (fun kv => P kv.2 = true) t))).
Proof.
  intros Hset. unfold sql_update. rewrite bool_decide_eq_true_2; [done|].
  intros id r [Hr HP]%map_lookup_filter_Some. by apply (Hset id).
Qed.

Lemma sql_update_total P set code t :
  (forall r, is_Some (set r)) ->
  sql_update P set code t
  = Ok ((fun r => if P r then default r (set r) else r) <$> t,
        Z.of_nat (size (filter (fun kv => P kv.2 = true) t))).
Proof. intros Hset. by apply sql_update_ok. Qed.

Lemma sql_update_poison P set code t id r :
  t !! id = Some r -> P r = true -> set r = None ->
  exists text, sql_update P set code t = Err (PgError code text).
Proof.
  intros Hr HP Hs. unfold sql_update. rewrite bool_decide_eq_false_2; [eauto|].
  intros Hall. destruct (Hall id r) as [x Hx]; [by apply map_lookup_filter_Some|].
  simpl in Hx. congruence.
Qed.

Lemma elem_of_rows t r : r ∈ rows t <-> exists id, t !! id = Some r.
Proof.
  unfold rows. rewrite list_elem_of_fmap. split.
  - intros ([id r'] & -> & Hin). exists id. by apply elem_of_map_to_list.
  - intros [id Hid]. exists (id, r). split; [done|]. by apply elem_of_map_to_list.
Qed.

(** A table is keyed by the ids of its rows. *)
Definition keyed (t : table) : Prop := map_Forall (fun id r => ID r = id) t.

Lemma keyed_update P set code t t' n :
  keyed t -> (forall r r', set r = Some r' -> ID r' = ID r) ->
  sql_update P set code t = Ok (t', n) -> keyed t'.
Proof.
  intros Hk Hs Hu id r' Hr'. rewrite (lookup_update _ _ _ _ _ _ Hu) in Hr'.
  destruct (t !! id) as [r|] eqn:E; [|discriminate]. injection Hr' as <-.
  specialize (Hk id r E). destruct (P r); [|done].
  destruct (set r) eqn:Es; simpl; [|done]. rewrite <- Hk. by eapply Hs.
Qed.

Lemma count_zero P (t : table) :
  Z.of_nat (size (filter (fun kv => P kv.2 = true) t)) = 0 <->
  forall id r, t !! id = Some r -> P r = false.
Proof.
  split.
  - intros H id r Hr. destruct (P r) eqn:E; [|done].
    assert (Hs : size (filter (fun kv : string * Outbox => P kv.2 = true) t) = 0%nat) by lia.
    apply map_size_empty_inv in Hs.
    assert (Hl : filter (fun kv : string * Outbox => P kv.2 = true) t !! id = Some r)
      by (by apply map_lookup_filter_Some).
    rewrite Hs in Hl. by rewrite lookup_empty in Hl.
  - intros H. replace (filter _ t) with (∅ : table); [by rewrite map_size_empty|].
    symmetry. apply map_empty. intros id. apply map_lookup_filter_None. right.
    intros r Hr. simpl. by rewrite (H id r Hr).
Qed.

(** ** A concrete environment

    No failures and no locks, a clock that stands at [now], the largest
    jitter; used to run the model on examples. *)
Definition calm_env (now : Z) (uuid : string) : StmtEnv :=
  mkEnv None (fun _ => now) (fun _ => now) (fun _ => now) (fun _ i => i) ∅ (fun l => l) uuid now.

Lemma calm_env_ok now uuid : env_ok (calm_env now uuid).
Proof.
  split; [|done]. intros id i Hi. simpl.
  pose proof (Z.div_le_upper_bound i 2 i). lia.
Qed.

(** Call [n] happens [n] hours after the origin. *)
Definition hourly (n : nat) : StmtEnv := calm_env (Z.of_nat n * 3600000000) "m1".
Lemma hourly_ok n : env_ok (hourly n).
Proof. apply calm_env_ok. Qed.
