(* ===== verification/PgxRepo.v ===== *)
(** * contrib/pgx/repo.go: the pgx outbox repository

    Each query constant is a function on the table (Store.v), each method the
    call that runs it and interprets its answer.  A method reads and writes a
    [DB]: the table, and the environments its successive statements meet. *)

From Stdlib Require Import ZArith Lia Permutation.
From stdpp Require Import base option list strings gmap fin_maps sorting.
From S2P Require Import Prelude Errors Model Ports Store.

Set Default Goal Selector "!".
Open Scope Z_scope.

(** ** Configuration: contrib/pgx/config.go *)

Record Config : Type := mkConfig {
  OutboxTableName : string;
  InboxTableName : string;
  RequeueBackoffBase : Z;
  RequeueBackoffMax : Z;
  StuckPublishingThreshold : Z
}.

Definition DefaultConfig : Config :=
  mkConfig "outbox" "consumer_inbox" (1 * Second) (1 * Hour) (5 * Minute).

(** An [Option] modifies the configuration; making one may panic. *)
Definition ConfigOption : Type := Config -> Config.

Definition WithOutboxTableName (name : string) : outcome ConfigOption :=
  match ValidateTableName name with
  | Some err => Panic (error_text err)
  | None => Ret (fun c => mkConfig name (InboxTableName c) (RequeueBackoffBase c)
                           (RequeueBackoffMax c) (StuckPublishingThreshold c))
  end.

Definition WithInboxTableName (name : string) : outcome ConfigOption :=
  match ValidateTableName name with
  | Some err => Panic (error_text err)
  | None => Ret (fun c => mkConfig (OutboxTableName c) name (RequeueBackoffBase c)
                           (RequeueBackoffMax c) (StuckPublishingThreshold c))
  end.

Definition WithStuckPublishingThreshold (threshold : Z) : ConfigOption :=
  fun c => mkConfig (OutboxTableName c) (InboxTableName c) (RequeueBackoffBase c)
             (RequeueBackoffMax c) threshold.

Definition applyOptions (opts : list ConfigOption) : Config :=
  fold_left (fun cfg opt => opt cfg) opts DefaultConfig.

(** ** The repository *)

(** [q]: the pool, or a transaction of the application. *)
Inductive querier : Type := QPool | QTx (tx : nat).

Record OutboxRepo : Type := mkRepo {
  r_q : querier;
  tableName : string;
  backoffBase : Z;
  backoffMax : Z;
  stuckPublishingThreshold : Z
}.

Definition NewOutboxRepository (opts : list ConfigOption) : outcome OutboxRepo :=
  let cfg := applyOptions opts in
  match ValidateTableName (OutboxTableName cfg) with
  | Some err => Panic (error_text err)
  | None => Ret (mkRepo QPool (OutboxTableName cfg) (RequeueBackoffBase cfg)
                   (RequeueBackoffMax cfg) (StuckPublishingThreshold cfg))
  end.

Definition WithTx (r : OutboxRepo) (tx : nat) : OutboxRepo :=
  mkRepo (QTx tx) (tableName r) (backoffBase r) (backoffMax r) (stuckPublishingThreshold r).

(** ** Queries *)

Section Queries.
(** What JSONB input keeps of a text, [None] for a text that is no JSON. *)
Variable jsonb : string -> option string.

(** A nullable JSONB column. *)
Definition jsonb_column (m : RawMessage) : option RawMessage :=
  match m with
  | None => Some None
  | Some text => Some <$> jsonb text
  end.

Definition queryInsert (env : StmtEnv) (id : string) (p : OutboxInsertParams) (t : table)
    : result error (table * list Outbox) :=
  match p_Payload p with
  | None => Err (PgError "23502" "null value in column payload")
  | Some payload =>
      match jsonb payload, jsonb_column (p_Metadata p) with
      | Some payload', Some metadata' =>
          if negb (in_int4 (p_MaxAttempts p)) then Err (PgError "22003" "integer out of range")
          else if existsb (fun r => has_id id r
                   || (bool_decide (EventType r = p_EventType p)
                       && bool_decide (IdempotencyKey r = p_IdempotencyKey p))) (rows t)
          then Err (PgError "23505" "duplicate key value violates unique constraint")
          else
            let row := mkOutbox id (p_EventType p) (Some payload') metadata'
                         (p_IdempotencyKey p) ENQUEUED None 1 (p_MaxAttempts p) None
                         (e_set env id) (e_set env id) in
            Ok (<[id := row]> t, [row])
      | _, _ => Err (PgError "22P02" "invalid input syntax for type json")
      end
  end.

(** The rows [locked] gives: ENQUEUED, not locked by another transaction,
    the [limit] oldest ones. *)
Definition older (a b : Outbox) : Prop := CreatedAt a <= CreatedAt b.
#[export] Instance older_dec : RelDecision older.
Proof. intros a b. unfold older. apply _. Defined.

Definition lockable (env : StmtEnv) (r : Outbox) : bool :=
  has_status ENQUEUED r && bool_decide (ID r ∉ e_locked env).
Definition locked (env : StmtEnv) (limit : nat) (t : table) : list Outbox :=
  take limit (merge_sort older (e_scan env (List.filter (lockable env) (rows t)))).

Definition queryFetchLockAndMarkPublishing (limit : Z) (env : StmtEnv) (t : table)
    : result error (table * list Outbox) :=
  if limit <? 0 then Err (PgError "2201W" "LIMIT must not be negative")
  else
    let picked := locked env (Z.to_nat limit) t in
    let mark r := with_status PUBLISHING (e_set env (ID r)) r in
    let t' := fold_left (fun t r => <[ID r := mark r]> t) picked t in
    Ok (t', without_retry <$> e_scan env (mark <$> picked)).

Definition queryFetchAndLockToPublishing := queryFetchLockAndMarkPublishing 1.

Definition queryUpdateToPublished (id : string) (env : StmtEnv) (t : table)
    : result error (table * Z) :=
  sql_update (fun r => has_id id r && has_status PUBLISHING r)
    (fun r => Some (with_status PUBLISHED (e_set env (ID r)) r)) "22003" t.

Definition set_failed (base_us max_us : Z) (errMsg : string) (env : StmtEnv) (r : Outbox)
    : option Outbox :=
  match backoff_interval base_us max_us (AttemptCount r) with
  | Some i =>
      if in_int4 (AttemptCount r + 1) then
        Some (with_failure FAILED errMsg (AttemptCount r + 1)
                (Some (e_retry env (ID r) + e_jitter env (ID r) i)) (e_set env (ID r)) r)
      else None
  | None => None
  end.

Definition queryUpdateToFailed (base_us max_us : Z) (id errMsg : string) (env : StmtEnv)
    (t : table) : result error (table * Z) :=
  sql_update (fun r => has_id id r && has_status PUBLISHING r)
    (set_failed base_us max_us errMsg env) "22008" t.

Definition set_dead (errMsg : string) (env : StmtEnv) (r : Outbox) : option Outbox :=
  if in_int4 (AttemptCount r + 1) then
    Some (with_failure DEAD errMsg (Z.min (AttemptCount r + 1) (MaxAttempts r))
            (NextRetryAt r) (e_set env (ID r)) r)
  else None.

Definition queryUpdateToDead (id errMsg : string) (env : StmtEnv) (t : table)
    : result error (table * Z) :=
  sql_update (fun r => has_id id r && has_status PUBLISHING r) (set_dead errMsg env) "22003" t.

Definition requeueable (env : StmtEnv) (r : Outbox) : bool :=
  has_status FAILED r && (AttemptCount r <? MaxAttempts r)
  && match NextRetryAt r with Some at_ => at_ <=? e_where env (ID r) | None => false end.

Definition queryRequeueFailed (env : StmtEnv) (t : table) : result error (table * Z) :=
  sql_update (requeueable env)
    (fun r => Some (with_status ENQUEUED (e_set env (ID r)) r)) "22003" t.

Definition queryGetByID (id : string) (env : StmtEnv) (t : table)
    : result error (table * list Outbox) := sql_select (has_id id) env t.

Definition queryGetByIdempotencyKey (eventType key : string) (env : StmtEnv) (t : table)
    : result error (table * list Outbox) :=
  sql_select (fun r => bool_decide (EventType r = eventType)
                       && bool_decide (IdempotencyKey r = key)) env t.

Definition revived_dead_message : string :=
  "revived from PUBLISHING (crash recovery) - max attempts reached".
Definition revived_message : string := "revived from PUBLISHING (crash recovery)".

(** The CASE of each column has the same condition; its ELSE branch is the
    only place the backoff is computed. *)
Definition set_revived (base_us max_us : Z) (env : StmtEnv) (r : Outbox) : option Outbox :=
  let a := AttemptCount r + 1 in
  if negb (in_int4 a) then None
  else if MaxAttempts r <=? a then
    Some (with_failure DEAD revived_dead_message (Z.min a (MaxAttempts r)) None
            (e_set env (ID r)) r)
  else
    match backoff_interval base_us max_us (AttemptCount r) with
    | Some i =>
        Some (with_failure FAILED revived_message (Z.min a (MaxAttempts r))
                (Some (e_retry env (ID r) + e_jitter env (ID r) i)) (e_set env (ID r)) r)
    | None => None
    end.

Definition stuck (threshold_us : Z) (env : StmtEnv) (r : Outbox) : bool :=
  has_status PUBLISHING r && (UpdatedAt r <? e_where env (ID r) - threshold_us).

Definition queryReviveStuckPublishing (base_us max_us threshold_us : Z) (env : StmtEnv)
    (t : table) : result error (table * Z) :=
  sql_update (stuck threshold_us env) (set_revived base_us max_us env) "22008" t.

Definition queryUpdateBatchToPublished (ids : list string) (env : StmtEnv) (t : table)
    : result error (table * Z) :=
  sql_update (fun r => bool_decide (ID r ∈ ids) && has_status PUBLISHING r)
    (fun r => Some (with_status PUBLISHED (e_set env (ID r)) r)) "22003" t.

Definition queryDeleteOlderThan (statuses : list OutboxStatus) (age_us : Z) (env : StmtEnv)
    (t : table) : result error (table * Z) :=
  sql_delete (fun r => bool_decide (Status r ∈ statuses)
                       && (UpdatedAt r <? e_where env (ID r) - age_us)) t.
End Queries.

(** ** Running statements *)

Record DB : Type := mkDB {
  db_table : table;
  db_env : nat -> StmtEnv;
  db_calls : nat
}.

Definition current_env (db : DB) : StmtEnv := db_env db (db_calls db).
Definition after_call (t : table) (db : DB) : DB := mkDB t (db_env db) (S (db_calls db)).

(** One call of [Exec], [Query] or [QueryRow]. *)
Definition exec {A} (stmt : StmtEnv -> table -> result error (table * A))
    : GoM DB (result error A) := fun db =>
  let env := current_env db in
  match stmt env (db_table db), e_fault env with
  | Ok (t', a), None => (after_call t' db, Ret (Ok a))
  | Err e, None => (after_call (db_table db) db, Ret (Err e))
  | Ok (t', _), Some (e, applied) =>
      (after_call (if applied then t' else db_table db) db, Ret (Err e))
  | Err _, Some (e, _) => (after_call (db_table db) db, Ret (Err e))
  end.

(** [QueryRow(...).Scan(...)]: the first row, or [pgx.ErrNoRows]. *)
Definition scan_row (answer : result error (list Outbox)) : result error Outbox :=
  match answer with
  | Ok (r :: _) => Ok r
  | Ok [] => Err (ESentinel PgxErrNoRows)
  | Err e => Err e
  end.

(** [RowsAffected() == 0] of a guarded status update. *)
Definition expect_publishing (id : string) (answer : result error Z) : option error :=
  match answer with
  | Err e => Some e
  | Ok n =>
      if n =? 0 then
        Some (errorf_sentinel ErrInvalidStatus
                ("expected PUBLISHING status for message " +:+ id))
      else None
  end.

(** What [Insert] makes of the answer of its query. *)
Definition insert_answer (answer : result error (list Outbox)) : result error Outbox :=
  match scan_row answer with
  | Err err =>
      match errors_As_PgError err with
      | Some code => if bool_decide (code = "23505") then Err (ESentinel ErrAlreadyExists)
                     else Err err
      | None => Err err
      end
  | Ok outbox => Ok outbox
  end.

Section Methods.
Variable jsonb : string -> option string.
Variable r : OutboxRepo.

Definition base_us : Z := duration_us (backoffBase r).
Definition max_us : Z := duration_us (backoffMax r).

Definition pgx_Insert (ctx : Context) (params : OutboxInsertParams)
    : GoM DB (result error Outbox) :=
  answer ← exec (fun env => queryInsert jsonb env (e_uuid env) params);
  mret (insert_answer answer).

Definition pgx_FetchAndLockToPublishing (ctx : Context) : GoM DB (result error Outbox) :=
  answer ← exec queryFetchAndLockToPublishing;
  mret match scan_row answer with
       | Err err => if errors_Is err PgxErrNoRows then Err (ESentinel ErrNoMessage) else Err err
       | Ok outbox => Ok outbox
       end.

Definition pgx_UpdateToPublished (ctx : Context) (id : string) : GoM DB (option error) :=
  answer ← exec (queryUpdateToPublished id);
  mret (expect_publishing id answer).

Definition pgx_UpdateToFailed (ctx : Context) (id errMsg : string) : GoM DB (option error) :=
  answer ← exec (queryUpdateToFailed base_us max_us id errMsg);
  mret (expect_publishing id answer).

Definition pgx_UpdateToDead (ctx : Context) (id errMsg : string) : GoM DB (option error) :=
  answer ← exec (queryUpdateToDead id errMsg);
  mret (expect_publishing id answer).

Definition pgx_RequeueFailed (ctx : Context) : GoM DB (result error Z) :=
  exec queryRequeueFailed.

Definition not_found (answer : result error Outbox) : result error Outbox :=
  match answer with
  | Err err => if errors_Is err PgxErrNoRows then Err (ESentinel ErrNotFound) else Err err
  | Ok outbox => Ok outbox
  end.

Definition pgx_GetByID (ctx : Context) (id : string) : GoM DB (result error Outbox) :=
  answer ← exec (queryGetByID id);
  mret (not_found (scan_row answer)).

Definition pgx_GetByIdempotencyKey (ctx : Context) (eventType idempotencyKey : string)
    : GoM DB (result error Outbox) :=
  answer ← exec (queryGetByIdempotencyKey eventType idempotencyKey);
  mret (not_found (scan_row answer)).

Definition pgx_ReviveStuckPublishing (ctx : Context) : GoM DB (result error Z) :=
  exec (queryReviveStuckPublishing base_us max_us
          (truncated_seconds_us (stuckPublishingThreshold r))).

Definition pgx_FetchLockAndMarkPublishing (ctx : Context) (limit : Z)
    : GoM DB (result error (list Outbox)) :=
  exec (queryFetchLockAndMarkPublishing limit).

Definition pgx_UpdateBatchToPublished (ctx : Context) (ids : list string)
    : GoM DB (result error Z) :=
  match ids with
  | [] => mret (Ok 0)
  | _ => exec (queryUpdateBatchToPublished ids)
  end.

Definition pgx_DeleteOlderThan (ctx : Context) (statuses : list OutboxStatus) (olderThan : Z)
    : GoM DB (result error Z) :=
  match statuses with
  | [] => mret (Err (EWrapf "at least one status must be specified" []))
  | _ => exec (queryDeleteOlderThan statuses (microseconds olderThan))
  end.

(** [InsertOutboxJSON] and [InsertOutboxJSONWithMetadata]: [marshal] is
    [json.Marshal] of the payload and of the metadata, which may be absent. *)
Definition pgx_InsertOutboxJSONWithMetadata (ctx : Context) (eventType : string)
    (payload : result error string) (metadata : option (result error string))
    (idempotencyKey : string) (maxRetries : Z) : GoM DB (result error Outbox) :=
  match payload, metadata with
  | Err err, _ => mret (Err err)
  | Ok _, Some (Err err) => mret (Err err)
  | Ok data, None =>
      pgx_Insert ctx (mkParams eventType (Some data) None idempotencyKey maxRetries)
  | Ok data, Some (Ok m) =>
      pgx_Insert ctx (mkParams eventType (Some data) (Some m) idempotencyKey maxRetries)
  end.

Definition pgx_InsertOutboxJSON (ctx : Context) (eventType : string)
    (payload : result error string) (idempotencyKey : string) (maxRetries : Z)
    : GoM DB (result error Outbox) :=
  pgx_InsertOutboxJSONWithMetadata ctx eventType payload None idempotencyKey maxRetries.

Definition pgx_repository : OutboxRepository DB := {|
  Insert := pgx_Insert;
  FetchAndLockToPublishing := pgx_FetchAndLockToPublishing;
  UpdateToPublished := pgx_UpdateToPublished;
  UpdateToFailed := pgx_UpdateToFailed;
  UpdateToDead := pgx_UpdateToDead;
  RequeueFailed := pgx_RequeueFailed;
  GetByID := pgx_GetByID;
  GetByIdempotencyKey := pgx_GetByIdempotencyKey
|}.

Definition pgx_batch_repository : BatchOutboxRepository DB := {|
  batch_repo_base := pgx_repository;
  FetchLockAndMarkPublishing := pgx_FetchLockAndMarkPublishing;
  UpdateBatchToPublished := pgx_UpdateBatchToPublished
|}.

Definition pgx_recovery : OutboxRecovery DB :=
  {| ReviveStuckPublishing := pgx_ReviveStuckPublishing |}.
Definition pgx_cleaner : OutboxCleaner DB :=
  {| DeleteOlderThan := pgx_DeleteOlderThan |}.
End Methods.
