(* ===== verification/OutboxSafety.v ===== *)
(** * What the repository keeps true of the outbox table

    The calls of the pgx repository as one step function, the invariants they
    preserve (ids as keys, one message per event type and idempotency key),
    the status machine of the README, and what each call does to the rows it
    selects. *)

From Stdlib Require Import ZArith Lia Permutation.
From stdpp Require Import base option list strings gmap fin_maps sorting.
From S2P Require Import Prelude Errors Model Ports Store PgxRepo.

Set Default Goal Selector "!".
Open Scope Z_scope.

(** ** The status machine *)

(** The transitions of the README's diagram. *)
Definition edge (s s' : OutboxStatus) : bool :=
  match s, s' with
  | ENQUEUED, PUBLISHING => true
  | PUBLISHING, (PUBLISHED | FAILED | DEAD) => true
  | FAILED, ENQUEUED => true
  | _, _ => false
  end.

(** The columns no statement writes after the insertion. *)
Definition same_message (r r' : Outbox) : Prop :=
  ID r' = ID r /\ EventType r' = EventType r /\ Payload r' = Payload r
  /\ Metadata r' = Metadata r /\ IdempotencyKey r' = IdempotencyKey r
  /\ MaxAttempts r' = MaxAttempts r /\ CreatedAt r' = CreatedAt r.

(** A change of one row: along an edge, the attempt counter growing by one at
    most. *)
Definition row_step (r r' : Outbox) : Prop :=
  r' = r
  \/ (edge (Status r) (Status r') = true /\ same_message r r'
      /\ AttemptCount r' <= AttemptCount r + 1).

(** The row an insertion adds. *)
Definition fresh_row (r : Outbox) : Prop :=
  Status r = ENQUEUED /\ AttemptCount r = 1 /\ ErrorMessage r = None /\ NextRetryAt r = None.

Definition legal (t t' : table) : Prop :=
  forall id r', t' !! id = Some r' ->
    match t !! id with
    | Some r => row_step r r'
    | None => fresh_row r'
    end.

(** One message per event type and idempotency key. *)
Definition unique_keys (t : table) : Prop :=
  forall i j r s, t !! i = Some r -> t !! j = Some s ->
    EventType r = EventType s -> IdempotencyKey r = IdempotencyKey s -> i = j.

Definition well_formed (t : table) : Prop := keyed t /\ unique_keys t.

(** ** Shared lemmas *)

Lemma row_step_ID r r' : row_step r r' -> ID r' = ID r.
Proof. intros [->|(_ & (-> & _) & _)]; done. Qed.

Lemma row_step_keys r r' :
  row_step r r' -> EventType r' = EventType r /\ IdempotencyKey r' = IdempotencyKey r.
Proof. intros [->|(_ & H & _)]; [done|]. unfold same_message in H. tauto. Qed.

Lemma legal_refl t : legal t t.
Proof. intros id r' E. rewrite E. by left. Qed.

(** A change of existing rows keeps the table well formed. *)
Lemma well_formed_steps t t' :
  well_formed t ->
  (forall id r', t' !! id = Some r' -> exists r, t !! id = Some r /\ row_step r r') ->
  well_formed t' /\ legal t t'.
Proof.
  intros [Hk Hu] H. split; [split|].
  - intros id r' Hr'. destruct (H id r' Hr') as (r & Hr & Hs).
    rewrite (row_step_ID _ _ Hs). by apply Hk.
  - intros i j r' s' Hi Hj Et Ek.
    destruct (H i r' Hi) as (r & Hr & Hs1), (H j s' Hj) as (s & Hs & Hs2).
    destruct (row_step_keys _ _ Hs1) as [? ?], (row_step_keys _ _ Hs2) as [? ?].
    apply (Hu i j r s); congruence.
  - intros id r' Hr'. destruct (H id r' Hr') as (r & -> & Hs). done.
Qed.

Lemma sql_update_steps P set code t t' n :
  (forall r r', P r = true -> set r = Some r' -> row_step r r') ->
  sql_update P set code t = Ok (t', n) ->
  forall id r', t' !! id = Some r' -> exists r, t !! id = Some r /\ row_step r r'.
Proof.
  intros Hs Hu id r'. rewrite (lookup_update _ _ _ _ _ _ Hu).
  destruct (t !! id) as [r|]; [|discriminate]. intros [= <-].
  exists r. split; [done|]. destruct (P r) eqn:EP; [|by left].
  destruct (set r) as [r1|] eqn:Es; [by apply Hs|by left].
Qed.

(** A guard on the status is the left end of an edge. *)
Lemma with_status_step s s' now r :
  has_status s r = true -> edge s s' = true -> row_step r (with_status s' now r).
Proof.
  unfold has_status. intros Hs He. bool_to_prop. right. simpl. rewrite Hs.
  split; [done|]. split; [by repeat split|]. lia.
Qed.

Lemma with_failure_step s s' m a retry now r :
  has_status s r = true -> edge s s' = true -> a <= AttemptCount r + 1 ->
  row_step r (with_failure s' m a retry now r).
Proof.
  unfold has_status. intros Hs He Ha. bool_to_prop. right. simpl. rewrite Hs.
  split; [done|]. split; [by repeat split|]. done.
Qed.

Lemma set_failed_step base max m env r r' :
  has_status PUBLISHING r = true -> set_failed base max m env r = Some r' -> row_step r r'.
Proof.
  unfold set_failed. intros Hs H. repeat (break_hyp H; try discriminate).
  injection H as <-. eapply with_failure_step; [done|done|lia].
Qed.

Lemma set_dead_step m env r r' :
  has_status PUBLISHING r = true -> set_dead m env r = Some r' -> row_step r r'.
Proof.
  unfold set_dead. intros Hs H. break_hyp H; [|discriminate]. injection H as <-.
  eapply with_failure_step; [done|done|lia].
Qed.

Lemma set_revived_step base max env r r' :
  has_status PUBLISHING r = true -> set_revived base max env r = Some r' -> row_step r r'.
Proof.
  unfold set_revived. intros Hs H. repeat (break_hyp H; try discriminate);
    injection H as <-; (eapply with_failure_step; [done|done|lia]).
Qed.

(** ** Fetching *)

Section Fetch.
Context (env : StmtEnv) (Henv : env_ok env).

Lemma locked_spec limit t r :
  r ∈ locked env limit t -> r ∈ rows t /\ lockable env r = true.
Proof.
  unfold locked. intros Hr.
  assert (Hm : r ∈ merge_sort older (e_scan env (List.filter (lockable env) (rows t)))).
  { apply elem_of_take in Hr as (i & Hi & _). by eapply list_elem_of_lookup_2. }
  rewrite merge_sort_Permutation, (scan_ok env Henv) in Hm.
  apply list_elem_of_In, List.filter_In in Hm as [Hm Hl].
  split; [by apply list_elem_of_In|done].
Qed.

Lemma rows_NoDup_ids t : keyed t -> NoDup (ID <$> rows t).
Proof.
  intros Hk. unfold rows.
  replace (ID <$> (map_to_list t).*2) with ((map_to_list t).*1).
  - apply NoDup_fst_map_to_list.
  - rewrite <- list_fmap_compose. apply list_fmap_ext.
    intros i [id r] Hi. simpl. symmetry. apply Hk.
    apply elem_of_map_to_list. by eapply list_elem_of_lookup_2.
Qed.

Lemma NoDup_filter_ids (P : Outbox -> bool) l :
  NoDup (ID <$> l) -> NoDup (ID <$> List.filter P l).
Proof.
  induction l as [|r l IH]; [done|].
  rewrite fmap_cons. intros [Hn Hd]%NoDup_cons. cbn [List.filter].
  destruct (P r); [|by apply IH]. rewrite fmap_cons. apply NoDup_cons. split; [|by apply IH].
  intros Hin. apply Hn. apply list_elem_of_fmap in Hin as (r' & E & Hr').
  apply list_elem_of_fmap. exists r'. split; [done|].
  apply list_elem_of_In in Hr'. apply List.filter_In in Hr' as [Hr' _].
  by apply list_elem_of_In.
Qed.

Lemma locked_NoDup limit t : keyed t -> NoDup (ID <$> locked env limit t).
Proof.
  intros Hk. unfold locked. rewrite fmap_take.
  eapply sublist_NoDup; [|apply sublist_take].
  rewrite merge_sort_Permutation, (scan_ok env Henv).
  by apply NoDup_filter_ids, rows_NoDup_ids.
Qed.

Definition mark (r : Outbox) : Outbox := with_status PUBLISHING (e_set env (ID r)) r.

Lemma fold_mark_lookup : forall picked (t : table) id,
  NoDup (ID <$> picked) -> Forall (fun r => t !! ID r = Some r) picked ->
  fold_left (fun t r => <[ID r := mark r]> t) picked t !! id
  = if decide (id ∈ ID <$> picked) then mark <$> t !! id else t !! id.
Proof.
  induction picked as [|r picked IH]; intros t id Hd Hall; cbn [fold_left].
  - rewrite decide_False; [done|apply not_elem_of_nil].
  - rewrite fmap_cons in Hd. apply NoDup_cons in Hd as [Hn Hd].
    apply Forall_cons in Hall as [Hr Hall]. rewrite IH; [|done|].
    + destruct (decide (id = ID r)) as [->|Hne].
      * rewrite decide_False by done.
        rewrite decide_True by (by apply list_elem_of_here).
        by rewrite lookup_insert_eq, Hr.
      * rewrite lookup_insert_ne by done.
        destruct (decide (id ∈ ID <$> picked)).
        -- rewrite decide_True; [done|]. by apply list_elem_of_further.
        -- rewrite decide_False; [done|]. by rewrite fmap_cons, not_elem_of_cons.
    + apply Forall_forall. intros s Hs. rewrite Forall_forall in Hall.
      rewrite lookup_insert_ne; [by apply Hall|].
      intros E. apply Hn. rewrite E. by apply list_elem_of_fmap_2.
Qed.

Lemma locked_in_table limit t :
  keyed t -> Forall (fun r => t !! ID r = Some r) (locked env limit t).
Proof.
  intros Hk. apply Forall_forall. intros r Hr.
  apply locked_spec in Hr as [Hr _]. apply elem_of_rows in Hr as [id Hid].
  by rewrite (Hk id r Hid).
Qed.
End Fetch.

(** ** Every statement is a legal change *)

Definition stmt_safe {A} (stmt : StmtEnv -> table -> result error (table * A)) : Prop :=
  forall env t t' a, env_ok env -> well_formed t -> stmt env t = Ok (t', a) ->
    well_formed t' /\ legal t t'.

Lemma update_safe (P : StmtEnv -> Outbox -> bool) (set : StmtEnv -> Outbox -> option Outbox) code :
  (forall env r r', P env r = true -> set env r = Some r' -> row_step r r') ->
  stmt_safe (fun env t => sql_update (P env) (set env) code t).
Proof.
  intros Hs env t t' n _ Hwf Hu. apply well_formed_steps; [done|].
  apply (sql_update_steps _ _ _ _ _ _ (Hs env) Hu).
Qed.

Lemma select_safe P : stmt_safe (sql_select P).
Proof. intros env t t' a _ Hwf [= <- _]. split; [done|apply legal_refl]. Qed.

Lemma published_safe id : stmt_safe (queryUpdateToPublished id).
Proof.
  apply (update_safe (fun _ r => has_id id r && has_status PUBLISHING r)
           (fun env r => Some (with_status PUBLISHED (e_set env (ID r)) r))).
  intros env r r' HP [= <-]. bool_to_prop. by eapply with_status_step.
Qed.

Lemma batch_published_safe ids : stmt_safe (queryUpdateBatchToPublished ids).
Proof.
  apply (update_safe (fun _ r => bool_decide (ID r ∈ ids) && has_status PUBLISHING r)
           (fun env r => Some (with_status PUBLISHED (e_set env (ID r)) r))).
  intros env r r' HP [= <-]. apply andb_true_iff in HP as [_ HP]. by eapply with_status_step.
Qed.

Lemma failed_safe base max id m : stmt_safe (queryUpdateToFailed base max id m).
Proof.
  apply (update_safe (fun _ r => has_id id r && has_status PUBLISHING r)
           (set_failed base max m)).
  intros env r r' HP. bool_to_prop. by apply set_failed_step.
Qed.

Lemma dead_safe id m : stmt_safe (queryUpdateToDead id m).
Proof.
  apply (update_safe (fun _ r => has_id id r && has_status PUBLISHING r) (set_dead m)).
  intros env r r' HP. bool_to_prop. by apply set_dead_step.
Qed.

Lemma requeue_safe : stmt_safe queryRequeueFailed.
Proof.
  apply (update_safe requeueable (fun env r => Some (with_status ENQUEUED (e_set env (ID r)) r))).
  intros env r r' HP [= <-]. unfold requeueable in HP. bool_to_prop. by eapply with_status_step.
Qed.

Lemma revive_safe base max thr : stmt_safe (queryReviveStuckPublishing base max thr).
Proof.
  apply (update_safe (stuck thr) (set_revived base max)).
  intros env r r' HP. unfold stuck in HP. apply andb_true_iff in HP as [HP _].
  by apply set_revived_step.
Qed.

Lemma fetch_safe limit : stmt_safe (queryFetchLockAndMarkPublishing limit).
Proof.
  intros env t t' a Henv Hwf. unfold queryFetchLockAndMarkPublishing.
  destruct (limit <? 0); [discriminate|]. intros [= <- _].
  apply well_formed_steps; [done|]. intros id r' Hr'. destruct Hwf as [Hk _].
  set (picked := locked env (Z.to_nat limit) t) in *.
  change (fold_left _ picked t) with (fold_left (fun t r => <[ID r := mark env r]> t) picked t)
    in Hr'.
  rewrite (fold_mark_lookup env) in Hr'
    by first [by apply locked_NoDup | by apply locked_in_table].
  case_decide as Hin; [|exists r'; split; [done|by left]].
  destruct (t !! id) as [r|] eqn:Er; [|discriminate]. injection Hr' as <-.
  exists r. split; [done|]. apply list_elem_of_fmap in Hin as (s & -> & Hs).
  apply (locked_spec env Henv) in Hs as [Hs Hl].
  apply elem_of_rows in Hs as [i Hi]. pose proof (Hk i s Hi) as <-.
  rewrite Er in Hi. injection Hi as ->. unfold lockable in Hl. bool_to_prop.
  by eapply with_status_step.
Qed.

Lemma delete_safe statuses age : stmt_safe (queryDeleteOlderThan statuses age).
Proof.
  intros env t t' n _ Hwf [= <- _]. apply well_formed_steps; [done|].
  intros id r' [Hr' _]%map_lookup_filter_Some. exists r'. split; [done|by left].
Qed.

Lemma insert_safe jsonb p : stmt_safe (fun env => queryInsert jsonb env (e_uuid env) p).
Proof.
  intros env t t' a _ [Hk Hu]. unfold queryInsert.
  destruct (p_Payload p) as [payload|]; [|discriminate].
  destruct (jsonb payload) as [pl|]; [|discriminate].
  destruct (jsonb_column jsonb (p_Metadata p)) as [md|]; [|discriminate].
  destruct (negb (in_int4 (p_MaxAttempts p))); [discriminate|].
  destruct (existsb _ (rows t)) eqn:Eex; [discriminate|]. intros [= <- _].
  assert (Hno : forall id r, t !! id = Some r ->
    ID r <> e_uuid env /\ ~ (EventType r = p_EventType p /\ IdempotencyKey r = p_IdempotencyKey p)).
  { intros id r Hr. assert (Hin : r ∈ rows t) by (apply elem_of_rows; eauto).
    rewrite <- not_true_iff_false, existsb_exists in Eex. split.
    - intros E. apply Eex. exists r. split; [by apply list_elem_of_In|].
      apply orb_true_iff. left. unfold has_id. by apply bool_decide_eq_true.
    - intros [E1 E2]. apply Eex. exists r. split; [by apply list_elem_of_In|].
      apply orb_true_iff. right. apply andb_true_iff. by rewrite !bool_decide_eq_true. }
  set (row := mkOutbox _ _ _ _ _ _ _ _ _ _ _ _). split; [split|].
  - apply map_Forall_insert_2; done.
  - intros i j r s. rewrite !lookup_insert.
    destruct (decide (e_uuid env = i)) as [<-|Hi], (decide (e_uuid env = j)) as [<-|Hj];
      try done.
    + intros [= <-] Hs Et Ek. destruct (Hno j s Hs) as [_ Hne]. by destruct Hne.
    + intros Hr [= <-] Et Ek. destruct (Hno i r Hr) as [_ Hne]. by destruct Hne.
    + apply Hu.
  - intros id r'. rewrite lookup_insert. case_decide as Hid.
    + intros [= <-]. destruct (t !! id) as [r|] eqn:Er; [|by repeat split].
      destruct (Hno id r Er) as [Hne _]. rewrite (Hk id r Er) in Hne. done.
    + intros Hr'. rewrite Hr'. by left.
Qed.

#[export] Hint Resolve published_safe batch_published_safe failed_safe dead_safe requeue_safe
  revive_safe fetch_safe delete_safe insert_safe select_safe : o4x.

(** ** Calls *)

Lemma exec_cases {A} (stmt : StmtEnv -> table -> result error (table * A)) db :
  let db' := fst (exec stmt db) in
  db_env db' = db_env db /\ db_calls db' = S (db_calls db)
  /\ (db_table db' = db_table db
      \/ exists t' a, stmt (current_env db) (db_table db) = Ok (t', a) /\ db_table db' = t').
Proof.
  unfold exec. destruct (stmt _ _) as [[t' a]|e], (e_fault _) as [[e' [|]]|]; simpl;
    (split; [done|]); (split; [done|]); eauto.
Qed.

Lemma exec_bind {A B} (stmt : StmtEnv -> table -> result error (table * A))
    (f : result error A -> B) db :
  fst ((a ← exec stmt; mret (f a)) db) = fst (exec stmt db).
Proof.
  unfold mbind, GoM_bind, exec. destruct (stmt _ _) as [[t' a]|e], (e_fault _) as [[? ?]|];
    reflexivity.
Qed.

(** The calls of the repository. *)
Inductive RepoCall : Type :=
| RInsert (params : OutboxInsertParams)
| RFetch
| RFetchBatch (limit : Z)
| RToPublished (id : string)
| RBatchToPublished (ids : list string)
| RToFailed (id errMsg : string)
| RToDead (id errMsg : string)
| RRequeue
| RRevive
| RDelete (statuses : list OutboxStatus) (olderThan : Z)
| RGetByID (id : string)
| RGetByKey (eventType idempotencyKey : string).

(** The state a call leaves. *)
Definition repo_call (jsonb : string -> option string) (r : OutboxRepo) (ctx : Context)
    (c : RepoCall) (db : DB) : DB :=
  match c with
  | RInsert p => fst (pgx_Insert jsonb ctx p db)
  | RFetch => fst (pgx_FetchAndLockToPublishing ctx db)
  | RFetchBatch n => fst (pgx_FetchLockAndMarkPublishing ctx n db)
  | RToPublished id => fst (pgx_UpdateToPublished ctx id db)
  | RBatchToPublished ids => fst (pgx_UpdateBatchToPublished ctx ids db)
  | RToFailed id m => fst (pgx_UpdateToFailed r ctx id m db)
  | RToDead id m => fst (pgx_UpdateToDead ctx id m db)
  | RRequeue => fst (pgx_RequeueFailed ctx db)
  | RRevive => fst (pgx_ReviveStuckPublishing r ctx db)
  | RDelete ss d => fst (pgx_DeleteOlderThan ctx ss d db)
  | RGetByID id => fst (pgx_GetByID ctx id db)
  | RGetByKey t k => fst (pgx_GetByIdempotencyKey ctx t k db)
  end.

Lemma exec_safe {A} (stmt : StmtEnv -> table -> result error (table * A)) db :
  stmt_safe stmt -> env_ok (current_env db) -> well_formed (db_table db) ->
  well_formed (db_table (fst (exec stmt db))) /\ legal (db_table db) (db_table (fst (exec stmt db))).
Proof.
  intros Hs Henv Hwf. destruct (exec_cases stmt db) as (_ & _ & [E|(t' & a & E & Et)]).
  - rewrite E. split; [done|apply legal_refl].
  - rewrite Et. by eapply Hs.
Qed.

(** What [repo_call_safe] states, for the other files. *)
Lemma repo_call_legal jsonb r ctx c db :
  env_ok (current_env db) -> well_formed (db_table db) ->
  let db' := repo_call jsonb r ctx c db in
  well_formed (db_table db') /\ legal (db_table db) (db_table db').
Proof.
  intros Henv Hwf. destruct c; cbv zeta; cbn [repo_call];
    unfold pgx_Insert, pgx_FetchAndLockToPublishing, pgx_FetchLockAndMarkPublishing,
      pgx_UpdateToPublished, pgx_UpdateBatchToPublished, pgx_UpdateToFailed, pgx_UpdateToDead,
      pgx_RequeueFailed, pgx_ReviveStuckPublishing, pgx_DeleteOlderThan, pgx_GetByID,
      pgx_GetByIdempotencyKey, queryFetchAndLockToPublishing, queryGetByID,
      queryGetByIdempotencyKey;
    rewrite ?exec_bind;
    try match goal with |- context [match ?l with [] => _ | _ :: _ => _ end] => destruct l end;
    first [by apply exec_safe; auto with o4x | by split; [|apply legal_refl]].
Qed.

Lemma repo_call_env jsonb r ctx c db : db_env (repo_call jsonb r ctx c db) = db_env db.
Proof.
  destruct c; cbn [repo_call];
    unfold pgx_Insert, pgx_FetchAndLockToPublishing, pgx_FetchLockAndMarkPublishing,
      pgx_UpdateToPublished, pgx_UpdateBatchToPublished, pgx_UpdateToFailed, pgx_UpdateToDead,
      pgx_RequeueFailed, pgx_ReviveStuckPublishing, pgx_DeleteOlderThan, pgx_GetByID,
      pgx_GetByIdempotencyKey;
    rewrite ?exec_bind;
    try match goal with |- context [match ?l with [] => _ | _ :: _ => _ end] => destruct l end;
    try done; apply exec_cases.
Qed.

(** C7: every call of the repository, whichever way it fails, keeps the table
    well formed (ids are keys, one row per event type and idempotency key) and
    changes rows only along the documented status machine: an existing row
    either stays as it is or moves along one edge, keeping its identity,
    event, payload, metadata, key, limit and creation time, with its attempt
    counter raised by one at most; a new row is ENQUEUED at attempt 1. *)
Theorem repo_call_safe (jsonb : string -> option string) (r : OutboxRepo) (ctx : Context)
  (c : RepoCall) (db : DB)
  (Henv : env_ok (current_env db)) (Hwf : well_formed (db_table db)) :
  let db' := repo_call jsonb r ctx c db in
  well_formed (db_table db') /\ legal (db_table db) (db_table db').
Proof. by apply repo_call_legal. Qed.

(** ** A table with one message

    Used to run the properties of the repositories on a concrete database: the
    message [m1], and a call one hour after it was written. *)

Definition sample_ctx : Context := mkContext true None [].
Definition sample_repo : OutboxRepo :=
  mkRepo QPool "outbox" (1 * Second) (1 * Hour) (5 * Minute).
Definition sample_jsonb (text : string) : option string :=
  if bool_decide (text = "") then None else Some text.

Definition sample_row (status : OutboxStatus) (attempts : Z) (retry : option Z) : Outbox :=
  mkOutbox "m1" "order.created" (Some "{}") None "k1" status None attempts 3 retry 0 0.
Definition sample_db (row : Outbox) : DB := mkDB {[ ID row := row ]} hourly 1.

Lemma sample_lookup row : db_table (sample_db row) !! ID row = Some row.
Proof. apply lookup_singleton_eq. Qed.

Lemma sample_well_formed row : well_formed (db_table (sample_db row)).
Proof.
  split.
  - intros id r Hr. cbn in Hr. by apply lookup_singleton_Some in Hr as [<- <-].
  - intros i j r s Hi Hj _ _. cbn in Hi, Hj.
    apply lookup_singleton_Some in Hi as [<- _]. by apply lookup_singleton_Some in Hj as [<- _].
Qed.

Lemma sample_env row : env_ok (current_env (sample_db row)).
Proof. apply hourly_ok. Qed.

#[export] Hint Resolve sample_well_formed sample_env : o4x.

Lemma repo_call_safe_witness :
  let db := sample_db (sample_row PUBLISHING 1 None) in
  let db' := repo_call sample_jsonb sample_repo sample_ctx RRevive db in
  well_formed (db_table db') /\ legal (db_table db) (db_table db').
Proof.
  exact (repo_call_safe sample_jsonb sample_repo sample_ctx RRevive
           (sample_db (sample_row PUBLISHING 1 None)) (sample_env _) (sample_well_formed _)).
Defined.
