(* ===== verification/PgxSpec.v ===== *)
(** * What each call of the pgx repository does to the table

    The functional specification of the statements of contrib/pgx/repo.go:
    which rows a call selects, what it makes of them and what it answers, and
    that it leaves every other row as it is. *)

From Stdlib Require Import ZArith Lia Permutation.
From stdpp Require Import base option list strings gmap fin_maps sorting.
From S2P Require Import Prelude Errors Model Ports Store PgxRepo OutboxSafety.

Set Default Goal Selector "!".
Open Scope Z_scope.

(** The next call reaches the server and its answer comes back. *)
Definition quiet (db : DB) : Prop := e_fault (current_env db) = None.

Lemma exec_quiet {A} (stmt : StmtEnv -> table -> result error (table * A)) db :
  quiet db ->
  exec stmt db = match stmt (current_env db) (db_table db) with
                 | Ok (t', a) => (after_call t' db, Ret (Ok a))
                 | Err e => (after_call (db_table db) db, Ret (Err e))
                 end.
Proof. unfold quiet, exec. intros ->. by destruct (stmt _ _) as [[t' a]|e]. Qed.

Lemma bind_exec_quiet {A B} (stmt : StmtEnv -> table -> result error (table * A))
    (f : result error A -> B) db :
  quiet db ->
  (a ← exec stmt; mret (f a)) db
  = match stmt (current_env db) (db_table db) with
    | Ok (t', a) => (after_call t' db, Ret (f (Ok a)))
    | Err e => (after_call (db_table db) db, Ret (f (Err e)))
    end.
Proof.
  intros Hq. unfold mbind, GoM_bind. rewrite (exec_quiet _ _ Hq).
  by destruct (stmt _ _) as [[t' a]|e].
Qed.

(** An UPDATE that changes exactly the row of one id. *)
Lemma update_one (P : Outbox -> bool) (set : Outbox -> option Outbox) code t id r r' :
  t !! id = Some r -> P r = true -> set r = Some r' ->
  (forall id2 r2, t !! id2 = Some r2 -> P r2 = true -> id2 = id) ->
  exists n, sql_update P set code t = Ok (<[id := r']> t, n) /\ 0 < n.
Proof.
  intros Hr HP Hs Huniq.
  rewrite (sql_update_ok P set code t).
  2:{ intros id2 r2 H2 HP2. rewrite (Huniq id2 r2 H2 HP2) in H2.
      rewrite Hr in H2. injection H2 as <-. by rewrite Hs. }
  eexists. split.
  - f_equal. f_equal. apply map_eq. intros i. rewrite lookup_fmap, lookup_insert.
    case_decide as Hi.
    + subst i. rewrite Hr. simpl. by rewrite HP, Hs.
    + destruct (t !! i) as [r2|] eqn:E; [|done]. simpl.
      destruct (P r2) eqn:EP; [|done]. by destruct (Hi (eq_sym (Huniq i r2 E EP))).
  - assert (Hn : Z.of_nat (size (filter (fun kv : string * Outbox => P kv.2 = true) t)) <> 0).
    { rewrite count_zero. intros H. by rewrite (H id r Hr) in HP. }
    lia.
Qed.

(** An UPDATE whose condition no row meets. *)
Lemma update_none (P : Outbox -> bool) (set : Outbox -> option Outbox) code t :
  (forall id r, t !! id = Some r -> P r = false) ->
  sql_update P set code t = Ok (t, 0).
Proof.
  intros HP. rewrite (sql_update_ok P set code t).
  2:{ intros id r Hr HPr. by rewrite (HP id r Hr) in HPr. }
  f_equal. f_equal.
  - apply map_eq. intros i. rewrite lookup_fmap. destruct (t !! i) as [r|] eqn:E; [|done].
    simpl. by rewrite (HP i r E).
  - by apply count_zero.
Qed.

(** ** Guarded status updates *)

(** The row of [id] is there and PUBLISHING. *)
Definition publishing (t : table) (id : string) : Prop :=
  exists r, t !! id = Some r /\ Status r = PUBLISHING.

Lemma guard_one t id :
  keyed t -> forall id2 r2, t !! id2 = Some r2 ->
    has_id id r2 && has_status PUBLISHING r2 = true -> id2 = id.
Proof.
  intros Hk id2 r2 H2 HP. unfold has_id in HP. bool_to_prop.
  pose proof (Hk id2 r2 H2) as E. cbv beta in E. congruence.
Qed.

Lemma guard_none t id :
  keyed t -> ~ publishing t id ->
  forall i r, t !! i = Some r -> has_id id r && has_status PUBLISHING r = false.
Proof.
  intros Hk Hn i r Hr. apply not_true_iff_false. intros HP. apply Hn.
  rewrite <- (guard_one t id Hk i r Hr HP). exists r. split; [done|].
  unfold has_status in HP. by bool_to_prop.
Qed.

Lemma guard_hit t id r :
  keyed t -> t !! id = Some r -> Status r = PUBLISHING ->
  has_id id r && has_status PUBLISHING r = true.
Proof.
  intros Hk Hr Hs. unfold has_id, has_status.
  rewrite !bool_decide_eq_true_2; [done|done|by apply (Hk id r Hr)].
Qed.

Lemma guarded_run {set code id t db} :
  quiet db -> keyed (db_table db) -> t = db_table db ->
  (a ← exec (fun env t => sql_update (fun r => has_id id r && has_status PUBLISHING r)
                            (set env) code t);
   mret (expect_publishing id a)) db
  = match t !! id with
    | Some r =>
        if has_status PUBLISHING r then
          match set (current_env db) r with
          | Some r' => (after_call (<[id := r']> t) db, Ret None)
          | None => (after_call t db,
                     Ret (Some (PgError code "numeric or interval value out of range")))
          end
        else (after_call t db,
              Ret (Some (errorf_sentinel ErrInvalidStatus
                           ("expected PUBLISHING status for message " +:+ id))))
    | None => (after_call t db,
               Ret (Some (errorf_sentinel ErrInvalidStatus
                            ("expected PUBLISHING status for message " +:+ id))))
    end.
Proof.
  intros Hq Hk ->. rewrite (bind_exec_quiet _ _ _ Hq).
  destruct (db_table db !! id) as [r|] eqn:Er.
  - destruct (has_status PUBLISHING r) eqn:Es.
    + assert (Hs : Status r = PUBLISHING) by (unfold has_status in Es; by bool_to_prop).
      destruct (set (current_env db) r) as [r'|] eqn:Eset.
      * destruct (update_one _ (set (current_env db)) code _ id r r' Er
                    (guard_hit _ _ _ Hk Er Hs) Eset (guard_one _ _ Hk)) as (n & -> & Hn).
        unfold expect_publishing. by rewrite (proj2 (Z.eqb_neq n 0)) by lia.
      * unfold sql_update. rewrite bool_decide_eq_false_2; [done|].
        intros Hall. destruct (Hall id r) as [x Hx].
        -- apply map_lookup_filter_Some. split; [done|]. by apply (guard_hit (db_table db)).
        -- simpl in Hx. congruence.
    + rewrite update_none; [done|]. apply guard_none; [done|].
      intros (r2 & Hr2 & Hs2). rewrite Er in Hr2. injection Hr2 as <-.
      unfold has_status in Es. by bool_to_prop.
  - rewrite update_none; [done|]. apply guard_none; [done|].
    intros (r2 & Hr2 & _). congruence.
Qed.

(** A status update of a message that is not PUBLISHING, or not there,
    changes nothing and reports [ErrInvalidStatus]: a worker that lost its
    message to crash recovery cannot overwrite what happened to it since. *)
Theorem status_updates_guarded (r : OutboxRepo) (ctx : Context) (id errMsg : string) (db : DB)
  (Hquiet : quiet db) (Hkeyed : keyed (db_table db)) (Hnot : ~ publishing (db_table db) id) :
  let refusal := errorf_sentinel ErrInvalidStatus
                   ("expected PUBLISHING status for message " +:+ id) in
  let refused := (after_call (db_table db) db, Ret (Some refusal)) in
  pgx_UpdateToPublished ctx id db = refused
  /\ pgx_UpdateToFailed r ctx id errMsg db = refused
  /\ pgx_UpdateToDead ctx id errMsg db = refused
  /\ errors_Is refusal ErrInvalidStatus = true.
Proof.
  cbv zeta. unfold pgx_UpdateToPublished, pgx_UpdateToFailed, pgx_UpdateToDead,
    queryUpdateToPublished, queryUpdateToFailed, queryUpdateToDead.
  rewrite (guarded_run (set := fun env r => Some (with_status PUBLISHED (e_set env (ID r)) r))
             Hquiet Hkeyed eq_refl).
  rewrite (guarded_run (set := set_failed _ _ errMsg) Hquiet Hkeyed eq_refl).
  rewrite (guarded_run (set := set_dead errMsg) Hquiet Hkeyed eq_refl).
  destruct (db_table db !! id) as [r0|] eqn:Er; [|done].
  destruct (has_status PUBLISHING r0) eqn:Es; [|done].
  destruct Hnot. exists r0. split; [done|]. unfold has_status in Es. by bool_to_prop.
Qed.

(** C28: a status update of a PUBLISHING message writes that row and no other.
    UpdateToPublished sets the status.  UpdateToDead raises the attempt counter up
    to the limit, UpdateToFailed raises it without one; UpdateToFailed schedules
    the retry between half and all of [min (base * 2^attempt) max] after the
    server's clock, [attempt] being the counter before it is raised.  Where the
    raised counter is no INTEGER, both fail and change nothing, and so does
    UpdateToFailed where [base * 2^attempt] is no interval, whatever [max] is. *)
Theorem status_updates_apply (r : OutboxRepo) (ctx : Context) (id errMsg : string) (db : DB)
  (row : Outbox)
  (Hquiet : quiet db) (Henv : env_ok (current_env db)) (Hkeyed : keyed (db_table db))
  (Hrow : db_table db !! id = Some row) (Hpub : Status row = PUBLISHING)
  (Hmax : 0 <= max_us r) (Hbase : 0 <= base_us r) :
  let env := current_env db in
  let becomes row' := (after_call (<[id := row']> (db_table db)) db, Ret None) in
  let fails err := (after_call (db_table db) db, Ret (Some err)) in
  let counts := in_int4 (AttemptCount row + 1) in
  let delay := base_us r * 2 ^ AttemptCount row in
  let backoff := Z.min delay (max_us r) in
  pgx_UpdateToPublished ctx id db = becomes (with_status PUBLISHED (e_set env id) row)
  /\ (if counts then
        pgx_UpdateToDead ctx id errMsg db
        = becomes (with_failure DEAD errMsg (Z.min (AttemptCount row + 1) (MaxAttempts row))
                     (NextRetryAt row) (e_set env id) row)
      else exists err, pgx_UpdateToDead ctx id errMsg db = fails err)
  /\ (if counts && in_interval delay then
        exists retry_at,
          pgx_UpdateToFailed r ctx id errMsg db
          = becomes (with_failure FAILED errMsg (AttemptCount row + 1) (Some retry_at)
                       (e_set env id) row)
          /\ e_retry env id + backoff / 2 <= retry_at <= e_retry env id + backoff
      else exists err, pgx_UpdateToFailed r ctx id errMsg db = fails err).
Proof.
  cbv zeta. unfold pgx_UpdateToPublished, pgx_UpdateToFailed, pgx_UpdateToDead,
    queryUpdateToPublished, queryUpdateToFailed, queryUpdateToDead.
  rewrite (guarded_run (set := fun env r => Some (with_status PUBLISHED (e_set env (ID r)) r))
             Hquiet Hkeyed eq_refl).
  rewrite (guarded_run (set := set_failed _ _ errMsg) Hquiet Hkeyed eq_refl).
  rewrite (guarded_run (set := set_dead errMsg) Hquiet Hkeyed eq_refl).
  assert (Hid : ID row = id) by (by apply (Hkeyed id row)).
  assert (Hs : has_status PUBLISHING row = true)
    by (unfold has_status; by apply bool_decide_eq_true).
  rewrite Hrow, Hs. unfold set_failed, set_dead, backoff_interval. rewrite Hid.
  split; [done|]. split; [by destruct (in_int4 _); [|eexists]|].
  destruct (in_int4 _), (in_interval _); cbn [andb]; try (by eexists). eexists. split; [done|].
  pose proof (jitter_ok _ Henv id (Z.min (base_us r * 2 ^ AttemptCount row) (max_us r))).
  pose proof (Z.pow_nonneg 2 (AttemptCount row) ltac:(lia)). nia.
Qed.

(** ** Fetching *)

#[export] Instance older_total : Total older.
Proof. intros a b. unfold older. lia. Qed.
#[export] Instance older_trans : Transitive older.
Proof. intros a b c. unfold older. lia. Qed.

Lemma sorted_take_drop n (l : list Outbox) a b :
  StronglySorted older l -> a ∈ take n l -> b ∈ drop n l -> older a b.
Proof.
  revert n. induction l as [|x l IH]; intros [|n] Hs Ha Hb;
    try (by apply not_elem_of_nil in Ha).
  apply StronglySorted_inv in Hs as [Hs Hx]. simpl in *.
  apply elem_of_cons in Ha as [->|Ha]; [|by eapply IH].
  rewrite Forall_forall in Hx. apply Hx.
  rewrite <- (take_drop n l). apply elem_of_app. by right.
Qed.

Lemma queue_Permutation env t :
  env_ok env ->
  merge_sort older (e_scan env (List.filter (lockable env) (rows t)))
  ≡ₚ List.filter (lockable env) (rows t).
Proof. intros Henv. by rewrite merge_sort_Permutation, (scan_ok env Henv). Qed.

Lemma locked_length env limit t :
  env_ok env -> length (locked env limit t)
                = Nat.min limit (length (List.filter (lockable env) (rows t))).
Proof.
  intros Henv. unfold locked. by rewrite length_take, (Permutation_length (queue_Permutation env t Henv)).
Qed.

Lemma locked_oldest env limit t a b :
  env_ok env -> a ∈ locked env limit t -> b ∈ rows t -> lockable env b = true ->
  b ∉ locked env limit t -> CreatedAt a <= CreatedAt b.
Proof.
  intros Henv Ha Hb Hl Hn. unfold locked in *.
  set (queue := merge_sort older _) in *.
  assert (Hq : b ∈ queue).
  { unfold queue. rewrite (queue_Permutation env t Henv).
    apply list_elem_of_In, List.filter_In. split; [by apply list_elem_of_In|done]. }
  rewrite <- (take_drop limit queue) in Hq. apply elem_of_app in Hq as [Hq|Hq]; [done|].
  apply (sorted_take_drop limit queue a b); [|done|done].
  apply (StronglySorted_merge_sort older _).
Qed.

(** The fetch that does not fail, on the rows it locks. *)
Lemma fetch_quiet ctx limit db :
  quiet db -> env_ok (current_env db) -> keyed (db_table db) -> 0 <= limit ->
  let env := current_env db in
  let picked := locked env (Z.to_nat limit) (db_table db) in
  exists t' out,
    pgx_FetchLockAndMarkPublishing ctx limit db = (after_call t' db, Ret (Ok out))
    /\ out ≡ₚ without_retry <$> (mark env <$> picked)
    /\ ID <$> out ≡ₚ ID <$> picked
    /\ forall id, t' !! id = if decide (id ∈ ID <$> picked)
                             then mark env <$> db_table db !! id else db_table db !! id.
Proof.
  intros Hq Henv Hk Hlimit. cbv zeta. unfold pgx_FetchLockAndMarkPublishing.
  rewrite (exec_quiet _ _ Hq). unfold queryFetchLockAndMarkPublishing.
  rewrite (proj2 (Z.ltb_ge limit 0)) by done. set (env := current_env db) in *.
  set (picked := locked env (Z.to_nat limit) (db_table db)). eexists _, _. split; [done|].
  change (fun r => with_status PUBLISHING (e_set env (ID r)) r) with (mark env).
  rewrite (scan_ok env Henv (mark env <$> picked)). split; [done|].
  split; [by rewrite <- !list_fmap_compose|]. intros id.
  apply (fold_mark_lookup env); [by apply locked_NoDup|by apply locked_in_table].
Qed.

(** C27: a fetch takes [limit] messages, or all there are, from the ENQUEUED
    rows no other transaction holds, the oldest ones, each once; it makes
    exactly those rows PUBLISHING and returns them as they are stored (less
    the retry time, which the query does not select). *)
Theorem fetch_takes_oldest (ctx : Context) (limit : Z) (db : DB)
  (Hquiet : quiet db) (Henv : env_ok (current_env db)) (Hkeyed : keyed (db_table db))
  (Hlimit : 0 <= limit) :
  let env := current_env db in
  let t := db_table db in
  let available := List.filter (lockable env) (rows t) in
  exists t' out,
    pgx_FetchLockAndMarkPublishing ctx limit db = (after_call t' db, Ret (Ok out))
    /\ Z.of_nat (length out) = Z.min limit (Z.of_nat (length available))
    /\ NoDup (ID <$> out)
    /\ (forall m, m ∈ out -> exists row,
         row ∈ available /\ m = without_retry (with_status PUBLISHING (e_set env (ID row)) row)
         /\ forall other, other ∈ available -> ID other ∉ ID <$> out ->
              CreatedAt row <= CreatedAt other)
    /\ (forall id, t' !! id = if decide (id ∈ ID <$> out)
                             then (fun row => with_status PUBLISHING (e_set env id) row) <$> t !! id
                             else t !! id).
Proof.
  destruct (fetch_quiet ctx limit db Hquiet Henv Hkeyed Hlimit)
    as (t' & out & Hrun & Hout & Hids & Hlook).
  cbv zeta. set (env := current_env db) in *. set (t := db_table db) in *.
  exists t', out. split; [done|]. split; [|split; [|split]].
  - rewrite Hout, !length_fmap, locked_length by done. lia.
  - rewrite Hids. by apply locked_NoDup.
  - intros m Hm. rewrite Hout in Hm. apply list_elem_of_fmap in Hm as (m' & -> & Hm).
    apply list_elem_of_fmap in Hm as (row & -> & Hrow).
    pose proof (locked_spec env Henv _ _ _ Hrow) as [Hin Hl]. exists row. split; [|split].
    + apply list_elem_of_In, List.filter_In. split; [by apply list_elem_of_In|done].
    + done.
    + intros other Ho Hn. apply list_elem_of_In, List.filter_In in Ho as [Ho Hlo].
      apply list_elem_of_In in Ho. apply (locked_oldest env (Z.to_nat limit) t); try done.
      intros Hpick. apply Hn. rewrite Hids. by apply list_elem_of_fmap_2.
  - intros id. rewrite Hlook. destruct (decide (id ∈ ID <$> locked _ _ _)) as [Hi|Hi].
    + rewrite decide_True by (by rewrite Hids).
      destruct (t !! id) as [row|] eqn:Er; [|done]. simpl. unfold mark.
      by rewrite (Hkeyed id row Er).
    + rewrite decide_False by (by rewrite Hids). done.
Qed.

(** ** Statements on many rows *)

(** How many rows meet a condition. *)
Definition count (P : Outbox -> bool) (t : table) : Z :=
  Z.of_nat (size (filter (fun kv : string * Outbox => P kv.2 = true) t)).

(** C29: RequeueFailed moves to ENQUEUED exactly the FAILED messages with
    attempts left whose retry time has passed on the server's clock, keeps
    their attempt counter, reports their number and touches no other row. *)
Theorem requeue_exact (ctx : Context) (db : DB) (Hquiet : quiet db)
  (Hkeyed : keyed (db_table db)) :
  let env := current_env db in
  let t := db_table db in
  exists t',
    pgx_RequeueFailed ctx db = (after_call t' db, Ret (Ok (count (requeueable env) t)))
    /\ forall id,
        (forall row, t !! id = Some row ->
          Status row = FAILED -> AttemptCount row < MaxAttempts row ->
          (exists at_, NextRetryAt row = Some at_ /\ at_ <= e_where env id) ->
          t' !! id = Some (with_status ENQUEUED (e_set env id) row))
        /\ (t' !! id <> t !! id ->
            exists row at_, t !! id = Some row /\ Status row = FAILED
              /\ AttemptCount row < MaxAttempts row
              /\ NextRetryAt row = Some at_ /\ at_ <= e_where env id).
Proof.
  cbv zeta. unfold pgx_RequeueFailed. rewrite (exec_quiet _ _ Hquiet).
  unfold queryRequeueFailed. rewrite sql_update_total by eauto.
  eexists. split; [done|]. intros id. rewrite lookup_fmap. split.
  - intros row Hr Hs Ha (at_ & Hat & Hle). rewrite Hr. simpl. unfold requeueable, has_status.
    rewrite Hat, (Hkeyed id row Hr), bool_decide_eq_true_2 by done.
    rewrite (proj2 (Z.ltb_lt _ _) Ha), (proj2 (Z.leb_le _ _) Hle). done.
  - destruct (db_table db !! id) as [row|] eqn:Er; [|done]. simpl.
    destruct (requeueable (current_env db) row) eqn:Eq; [|done]. intros _.
    unfold requeueable, has_status in Eq. rewrite (Hkeyed id row Er) in Eq.
    destruct (NextRetryAt row) as [at_|] eqn:Ea; [|by rewrite !andb_false_r in Eq].
    bool_to_prop. exists row, at_. done.
Qed.

(** The update of a stuck row evaluates: no SQL arithmetic is out of range. *)
Definition revivable (r : OutboxRepo) (row : Outbox) : Prop :=
  in_int4 (AttemptCount row + 1) = true
  /\ (AttemptCount row + 1 < MaxAttempts row ->
      in_interval (base_us r * 2 ^ AttemptCount row) = true).

Lemma set_revived_some base max env row :
  in_int4 (AttemptCount row + 1) = true ->
  (AttemptCount row + 1 < MaxAttempts row ->
   in_interval (base * 2 ^ AttemptCount row) = true) ->
  set_revived base max env row
  = Some (if MaxAttempts row <=? AttemptCount row + 1
          then with_failure DEAD revived_dead_message (MaxAttempts row) None
                 (e_set env (ID row)) row
          else with_failure FAILED revived_message (AttemptCount row + 1)
                 (Some (e_retry env (ID row)
                        + e_jitter env (ID row) (Z.min (base * 2 ^ AttemptCount row) max)))
                 (e_set env (ID row)) row).
Proof.
  intros Hc Hi. unfold set_revived, backoff_interval. rewrite Hc. cbn [negb].
  destruct (MaxAttempts row <=? AttemptCount row + 1) eqn:E; bool_to_prop.
  - by rewrite Z.min_r by lia.
  - by rewrite Hi, Z.min_l by lia.
Qed.

Lemma set_revived_none r env row :
  ~ revivable r row -> set_revived (base_us r) (max_us r) env row = None.
Proof.
  intros Hno. unfold set_revived, backoff_interval. destruct (in_int4 _) eqn:Hc; [|done].
  cbn [negb]. destruct (MaxAttempts row <=? AttemptCount row + 1) eqn:E; bool_to_prop.
  - destruct Hno. split; [done|lia].
  - destruct (in_interval _) eqn:Hi; [|done]. by destruct Hno.
Qed.

(** C30: ReviveStuckPublishing, for the threshold cut to whole seconds (one of less
    than a second is none).  When the SQL arithmetic of every stuck message is
    within its types ([revivable]), it recovers exactly the messages that have been
    PUBLISHING for longer: each counts the lost attempt and becomes DEAD at the
    limit, FAILED with a retry time below it, so that no recovered message is left
    with its attempts used up but not DEAD.  When that of a single stuck message is
    not, the call fails and recovers none. *)
Theorem revive_exact (r : OutboxRepo) (ctx : Context) (db : DB) (Hquiet : quiet db)
  (Hkeyed : keyed (db_table db)) :
  let env := current_env db in
  let t := db_table db in
  let thr := Z.quot (stuckPublishingThreshold r) Second * 1000000 in
  let late id row := bool_decide (Status row = PUBLISHING) && (UpdatedAt row <? e_where env id - thr) in
  ((forall id row, t !! id = Some row -> late id row = true -> revivable r row) ->
   exists t',
    pgx_ReviveStuckPublishing r ctx db = (after_call t' db, Ret (Ok (count (stuck thr env) t)))
    /\ forall id row, t !! id = Some row ->
        if late id row
        then exists row', t' !! id = Some row'
          /\ (if MaxAttempts row <=? AttemptCount row + 1
              then Status row' = DEAD /\ AttemptCount row' = MaxAttempts row
                   /\ NextRetryAt row' = None
              else Status row' = FAILED /\ AttemptCount row' = AttemptCount row + 1
                   /\ AttemptCount row' < MaxAttempts row' /\ NextRetryAt row' <> None)
        else t' !! id = Some row)
  /\ forall id row, t !! id = Some row -> late id row = true -> ~ revivable r row ->
       exists err, pgx_ReviveStuckPublishing r ctx db = (after_call t db, Ret (Err err)).
Proof.
  cbv zeta. unfold pgx_ReviveStuckPublishing. rewrite (exec_quiet _ _ Hquiet).
  fold (truncated_seconds_us (stuckPublishingThreshold r)).
  set (thr := truncated_seconds_us (stuckPublishingThreshold r)).
  unfold queryReviveStuckPublishing.
  assert (Hlate : forall id row, db_table db !! id = Some row ->
    stuck thr (current_env db) row
    = bool_decide (Status row = PUBLISHING) && (UpdatedAt row <? e_where (current_env db) id - thr)).
  { intros id row Hr. unfold stuck, has_status. by rewrite (Hkeyed id row Hr). }
  split.
  - intros Hrange. rewrite sql_update_ok.
    2:{ intros id row Hr Hst. rewrite (Hlate id row Hr) in Hst.
        destruct (Hrange id row Hr Hst) as [Hc Hi]. rewrite set_revived_some by done. eauto. }
    eexists. split; [done|]. intros id row Hr. rewrite lookup_fmap, Hr. cbn [fmap option_fmap option_map].
    rewrite (Hlate id row Hr). specialize (Hrange id row Hr).
    destruct (bool_decide (Status row = PUBLISHING) && _) eqn:El; [|done].
    destruct (Hrange eq_refl) as [Hc Hi]. rewrite set_revived_some by done.
    eexists. split; [done|]. simpl.
    destruct (MaxAttempts row <=? AttemptCount row + 1) eqn:E; simpl; [done|].
    bool_to_prop. done.
  - intros id row Hr Hl Hno. rewrite <- (Hlate id row Hr) in Hl.
    destruct (sql_update_poison (stuck thr (current_env db))
                (set_revived (base_us r) (max_us r) (current_env db)) "22008"
                (db_table db) id row Hr Hl) as [text ->]; [|by eexists].
    by apply set_revived_none.
Qed.

(** The recovery is one statement for all stuck messages.  A single stuck
    message whose backoff leaves the range of an interval (with a base of one
    second, from attempt 44 on) makes the whole call fail: no message is
    recovered, and the same happens at every later call. *)
Theorem revive_poisoned (r : OutboxRepo) (ctx : Context) (db : DB) (id : string) (row : Outbox)
  (Hquiet : quiet db) (Hrow : db_table db !! id = Some row)
  (Hstuck : stuck (truncated_seconds_us (stuckPublishingThreshold r)) (current_env db) row = true)
  (Hbelow : AttemptCount row + 1 < MaxAttempts row)
  (Hover : in_interval (base_us r * 2 ^ AttemptCount row) = false) :
  exists text, pgx_ReviveStuckPublishing r ctx db
               = (after_call (db_table db) db, Ret (Err (PgError "22008" text))).
Proof.
  unfold pgx_ReviveStuckPublishing. rewrite (exec_quiet _ _ Hquiet).
  unfold queryReviveStuckPublishing.
  destruct (sql_update_poison (stuck (truncated_seconds_us (stuckPublishingThreshold r))
              (current_env db)) (set_revived (base_us r) (max_us r) (current_env db)) "22008"
              (db_table db) id row Hrow Hstuck) as [text ->]; [|by exists text].
  unfold set_revived, backoff_interval. rewrite Hover.
  destruct (negb _); [done|]. by rewrite (proj2 (Z.leb_gt _ _)) by lia.
Qed.

(** DeleteOlderThan removes exactly the rows whose status is asked for and
    that have not changed for the given time, compared in microseconds so that
    short retentions count; without a status it refuses before any query. *)
Theorem delete_exact (ctx : Context) (statuses : list OutboxStatus) (olderThan : Z) (db : DB)
  (Hquiet : quiet db) (Hkeyed : keyed (db_table db)) :
  let env := current_env db in
  let t := db_table db in
  match statuses with
  | [] => exists e, pgx_DeleteOlderThan ctx statuses olderThan db = (db, Ret (Err e))
  | _ => exists t' n,
      pgx_DeleteOlderThan ctx statuses olderThan db = (after_call t' db, Ret (Ok n))
      /\ Z.of_nat (size t) = Z.of_nat (size t') + n
      /\ forall id row, t' !! id = Some row <->
          t !! id = Some row /\ ~ (Status row ∈ statuses
                                  /\ UpdatedAt row < e_where env id - Z.quot olderThan 1000)
  end.
Proof.
  cbv zeta. destruct statuses as [|s ss]; [by eexists|].
  unfold pgx_DeleteOlderThan. rewrite (exec_quiet _ _ Hquiet).
  unfold queryDeleteOlderThan, sql_delete. eexists _, _. split; [done|]. split.
  - set (P := fun kv : string * Outbox => _ = false).
    rewrite <- (map_filter_union_complement P (db_table db)) at 1.
    rewrite map_size_disj_union by apply map_disjoint_filter_complement.
    rewrite Nat2Z.inj_add. do 3 f_equal. apply map_filter_ext. intros i x _. unfold P.
    simpl. by rewrite not_false_iff_true.
  - intros id row. rewrite map_lookup_filter_Some. simpl.
    split; intros [Hr HP]; (split; [done|]).
    + rewrite <- not_true_iff_false in HP. intros [Hs Hu]. apply HP.
      rewrite (Hkeyed id row Hr). apply andb_true_iff.
      by rewrite bool_decide_eq_true, Z.ltb_lt.
    + apply not_true_iff_false. intros HP'. apply HP. bool_to_prop.
      by rewrite (Hkeyed id row Hr) in *.
Qed.

(** ** Insertion and lookup *)

Section Insertion.
Variable jsonb : string -> option string.

(** The database accepts the columns of an insertion. *)
Definition insertable (p : OutboxInsertParams) (payload : string) (metadata : RawMessage) : Prop :=
  (exists text, p_Payload p = Some text /\ jsonb text = Some payload)
  /\ jsonb_column jsonb (p_Metadata p) = Some metadata
  /\ in_int4 (p_MaxAttempts p) = true.

(** The row of an insertion. *)
Definition inserted (env : StmtEnv) (p : OutboxInsertParams) (payload : string)
    (metadata : RawMessage) : Outbox :=
  mkOutbox (e_uuid env) (p_EventType p) (Some payload) metadata (p_IdempotencyKey p)
    ENQUEUED None 1 (p_MaxAttempts p) None (e_set env (e_uuid env)) (e_set env (e_uuid env)).

Definition same_key (p : OutboxInsertParams) (r : Outbox) : Prop :=
  EventType r = p_EventType p /\ IdempotencyKey r = p_IdempotencyKey p.

(** A conflict with an existing row: of the primary key, or of the key of
    the message. *)
Definition conflicts (env : StmtEnv) (p : OutboxInsertParams) (r : Outbox) : bool :=
  has_id (e_uuid env) r
  || (bool_decide (EventType r = p_EventType p)
      && bool_decide (IdempotencyKey r = p_IdempotencyKey p)).

Lemma conflicts_iff env p r :
  conflicts env p r = true <-> ID r = e_uuid env \/ same_key p r.
Proof.
  unfold conflicts, has_id, same_key.
  by rewrite orb_true_iff, andb_true_iff, !bool_decide_eq_true.
Qed.

Lemma insert_run ctx p payload metadata db :
  quiet db -> insertable p payload metadata ->
  pgx_Insert jsonb ctx p db
  = if existsb (conflicts (current_env db) p) (rows (db_table db))
    then (after_call (db_table db) db, Ret (Err (ESentinel ErrAlreadyExists)))
    else let row := inserted (current_env db) p payload metadata in
         (after_call (<[e_uuid (current_env db) := row]> (db_table db)) db, Ret (Ok row)).
Proof.
  intros Hq ((text & Hp & Hj) & Hm & Hi). unfold pgx_Insert.
  rewrite (bind_exec_quiet _ _ _ Hq). unfold queryInsert. rewrite Hp, Hj, Hm, Hi. cbn [negb].
  fold (conflicts (current_env db) p).
  by destruct (existsb (conflicts (current_env db) p) (rows (db_table db))).
Qed.

Lemma conflict_exists env p t :
  existsb (conflicts env p) (rows t) = true <->
  exists id r, t !! id = Some r /\ (ID r = e_uuid env \/ same_key p r).
Proof.
  rewrite existsb_exists. split.
  - intros (r & Hr & Hc). apply list_elem_of_In, elem_of_rows in Hr as [id Hid].
    exists id, r. by rewrite <- conflicts_iff.
  - intros (id & r & Hr & Hc). exists r. split; [|by apply conflicts_iff].
    apply list_elem_of_In, elem_of_rows. eauto.
Qed.

End Insertion.

(** A condition one row meets selects that row. *)
Lemma select_unique (P : Outbox -> bool) env t id r :
  env_ok env -> keyed t -> t !! id = Some r ->
  (forall i x, t !! i = Some x -> P x = true <-> i = id) ->
  sql_select P env t = Ok (t, [r]).
Proof.
  intros Henv Hk Hr HP. unfold sql_select. do 2 f_equal. apply Permutation_singleton_r.
  rewrite (scan_ok env Henv). apply NoDup_Permutation.
  - apply (NoDup_fmap_1 ID). by apply NoDup_filter_ids, rows_NoDup_ids.
  - apply NoDup_singleton.
  - intros x. rewrite list_elem_of_In, List.filter_In, <- list_elem_of_In, elem_of_rows,
      list_elem_of_singleton. split.
    + intros [[i Hi] HPx]. apply (HP i x Hi) in HPx as ->. congruence.
    + intros ->. split; [eauto|]. by apply (HP id r Hr).
Qed.

Lemma select_nothing (P : Outbox -> bool) env t :
  env_ok env -> (forall i x, t !! i = Some x -> P x = false) -> sql_select P env t = Ok (t, []).
Proof.
  intros Henv HP. unfold sql_select. do 2 f_equal. apply Permutation_nil_r.
  rewrite (scan_ok env Henv). apply Permutation_nil_r, elem_of_nil_inv.
  intros x. rewrite list_elem_of_In, List.filter_In, <- list_elem_of_In, elem_of_rows.
  intros [[i Hi] Hx]. by rewrite (HP i x Hi) in Hx.
Qed.

(** C31: Insert is idempotent in (event type, idempotency key): with no row of
    that key, a fresh id and columns the database accepts, it adds one row,
    ENQUEUED at attempt 1, which both lookups then give back unchanged; any
    further Insert with that key reports [ErrAlreadyExists] and changes
    nothing. *)
Theorem insert_idempotent (jsonb : string -> option string) (ctx : Context)
  (p p' : OutboxInsertParams) (payload payload' : string) (metadata metadata' : RawMessage)
  (db : DB)
  (Hwf : well_formed (db_table db))
  (Hq : forall n, e_fault (db_env db n) = None) (Henv : forall n, env_ok (db_env db n))
  (Hin : insertable jsonb p payload metadata) (Hin' : insertable jsonb p' payload' metadata')
  (Hfresh : db_table db !! e_uuid (current_env db) = None)
  (Hnew : forall id r, db_table db !! id = Some r -> ~ same_key p r)
  (Hsame : p_EventType p' = p_EventType p /\ p_IdempotencyKey p' = p_IdempotencyKey p) :
  exists row db',
    pgx_Insert jsonb ctx p db = (db', Ret (Ok row))
    /\ fresh_row row /\ MaxAttempts row = p_MaxAttempts p
    /\ db_table db' = <[ID row := row]> (db_table db)
    /\ (snd (pgx_GetByID ctx (ID row) db') = Ret (Ok row))
    /\ (snd (pgx_GetByIdempotencyKey ctx (p_EventType p) (p_IdempotencyKey p) db')
        = Ret (Ok row))
    /\ pgx_Insert jsonb ctx p' db'
       = (after_call (db_table db') db', Ret (Err (ESentinel ErrAlreadyExists))).
Proof.
  destruct Hwf as [Hk Hu].
  set (row := inserted (current_env db) p payload metadata).
  set (db' := after_call (<[e_uuid (current_env db) := row]> (db_table db)) db).
  assert (Hrow : db_table db' !! ID row = Some row) by apply lookup_insert_eq.
  assert (Hk' : keyed (db_table db')) by (by apply map_Forall_insert_2).
  assert (Hqd : forall m, db_env m = db_env db -> quiet m)
    by (intros m E; unfold quiet, current_env; rewrite E; apply Hq).
  assert (Hen : env_ok (current_env db')) by apply Henv.
  exists row, db'. split.
  { rewrite (insert_run jsonb ctx p payload metadata db (Hqd db eq_refl) Hin).
    destruct (existsb _ _) eqn:E; [|done].
    apply conflict_exists in E as (id & r & Hr & [Hid|Hkey]).
    - rewrite (Hk id r Hr) in Hid. congruence.
    - by destruct (Hnew id r Hr). }
  split; [done|]. split; [done|]. split; [done|]. split; [|split].
  - unfold pgx_GetByID, queryGetByID. rewrite (bind_exec_quiet _ _ _ (Hqd db' eq_refl)).
    rewrite (select_unique _ _ _ (ID row) row Hen Hk' Hrow); [done|].
    intros i x Hx. unfold has_id. rewrite bool_decide_eq_true. by rewrite (Hk' i x Hx).
  - unfold pgx_GetByIdempotencyKey, queryGetByIdempotencyKey.
    rewrite (bind_exec_quiet _ _ _ (Hqd db' eq_refl)).
    rewrite (select_unique _ _ _ (ID row) row Hen Hk' Hrow); [done|].
    intros i x Hx. rewrite andb_true_iff, !bool_decide_eq_true.
    unfold db' in Hx. simpl in Hx. rewrite lookup_insert in Hx. case_decide as Hd.
    + injection Hx as <-. split; [done|]. by intros _.
    + split; [|intros ->; by destruct Hd]. intros Hkey. by destruct (Hnew i x Hx).
  - rewrite (insert_run jsonb ctx p' payload' metadata' db' (Hqd db' eq_refl) Hin').
    destruct (existsb _ _) eqn:E; [done|]. exfalso.
    rewrite <- not_true_iff_false, conflict_exists in E. apply E.
    exists (ID row), row. split; [done|]. right. split; simpl; symmetry; apply Hsame.
Qed.

(** The single-message fetch reports [ErrNoMessage], and changes nothing,
    exactly when no ENQUEUED message is free; otherwise it returns one of the
    oldest. *)
Theorem fetch_one (ctx : Context) (db : DB)
  (Hquiet : quiet db) (Henv : env_ok (current_env db)) (Hkeyed : keyed (db_table db)) :
  let env := current_env db in
  let t := db_table db in
  match List.filter (lockable env) (rows t) with
  | [] => pgx_FetchAndLockToPublishing ctx db
          = (after_call t db, Ret (Err (ESentinel ErrNoMessage)))
  | _ => exists row,
      pgx_FetchAndLockToPublishing ctx db
      = (after_call (<[ID row := with_status PUBLISHING (e_set env (ID row)) row]> t) db,
         Ret (Ok (without_retry (with_status PUBLISHING (e_set env (ID row)) row))))
      /\ t !! ID row = Some row /\ lockable env row = true
      /\ forall id other, t !! id = Some other -> lockable env other = true ->
          CreatedAt row <= CreatedAt other
  end.
Proof.
  cbv zeta. unfold pgx_FetchAndLockToPublishing. rewrite (bind_exec_quiet _ _ _ Hquiet).
  unfold queryFetchAndLockToPublishing, queryFetchLockAndMarkPublishing. cbn [Z.ltb Z.compare].
  set (env := current_env db) in *. set (t := db_table db) in *.
  change (Z.to_nat 1) with 1%nat.
  pose proof (locked_length env 1 t Henv) as Hlen.
  assert (Hin : forall x, x ∈ locked env 1 t -> t !! ID x = Some x /\ lockable env x = true).
  { intros x Hx. pose proof (locked_spec env Henv _ _ _ Hx) as [_ Hl]. split; [|done].
    pose proof (locked_in_table env Henv 1 t Hkeyed) as Hall. rewrite Forall_forall in Hall.
    by apply Hall. }
  pose proof (fun a b => locked_oldest env 1 t a b Henv) as Hold.
  destruct (List.filter (lockable env) (rows t)) as [|r0 l] eqn:Ef; simpl in Hlen.
  - destruct (locked env 1 t); [|done]. simpl.
    by rewrite (proj1 (Permutation_nil_r _) (scan_ok env Henv [])).
  - destruct (locked env 1 t) as [|row [|? ?]]; simpl in Hlen; try lia.
    destruct (Hin row) as [Hr Hl]; [by apply list_elem_of_here|].
    exists row. cbn [fold_left fmap list_fmap].
    rewrite (proj1 (Permutation_singleton_r _ _) (scan_ok env Henv [_])).
    split; [done|]. split; [done|]. split; [done|]. intros id other Ho Hlo.
    destruct (decide (other = row)) as [->|Hne]; [lia|].
    apply Hold; [by apply list_elem_of_here| |done|].
    + apply elem_of_rows. eauto.
    + rewrite list_elem_of_singleton. done.
Qed.

(** ** The properties on a concrete database *)

Lemma sample_quiet row : quiet (sample_db row).
Proof. reflexivity. Qed.
Lemma sample_keyed row : keyed (db_table (sample_db row)).
Proof. apply sample_well_formed. Qed.
#[export] Hint Resolve sample_quiet sample_keyed : o4x.

(** A message that is no longer PUBLISHING. *)
Lemma status_updates_guarded_witness :
  let db := sample_db (sample_row FAILED 2 None) in
  pgx_UpdateToPublished sample_ctx "m1" db
  = (after_call (db_table db) db,
     Ret (Some (errorf_sentinel ErrInvalidStatus "expected PUBLISHING status for message m1"))).
Proof.
  refine (proj1 (status_updates_guarded sample_repo sample_ctx "m1" "timeout"
                   (sample_db (sample_row FAILED 2 None)) (sample_quiet _) (sample_keyed _) _)).
  intros (r & Hr & Hs). cbn in Hr. apply lookup_singleton_Some in Hr as [_ <-]. discriminate.
Defined.

Lemma status_updates_apply_witness :
  let row := sample_row PUBLISHING 1 None in
  let db := sample_db row in
  pgx_UpdateToPublished sample_ctx "m1" db
  = (after_call {[ "m1" := with_status PUBLISHED 3600000000 row ]} db, Ret None)
  /\ exists retry_at,
       snd (pgx_UpdateToFailed sample_repo sample_ctx "m1" "timeout" db) = Ret None
       /\ 3601000000 <= retry_at <= 3602000000.
Proof.
  destruct (status_updates_apply sample_repo sample_ctx "m1" "timeout"
              (sample_db (sample_row PUBLISHING 1 None)) (sample_row PUBLISHING 1 None)
              (sample_quiet _) (sample_env _) (sample_keyed _) (sample_lookup (sample_row PUBLISHING 1 None)) eq_refl
              ltac:(done) ltac:(done)) as (H1 & _ & retry_at & H2 & H3).
  split; [rewrite H1; reflexivity|]. exists retry_at. split; [rewrite H2; reflexivity|].
  exact H3.
Defined.

Lemma fetch_takes_oldest_witness :
  exists t' out,
    pgx_FetchLockAndMarkPublishing sample_ctx 10 (sample_db (sample_row ENQUEUED 1 None))
    = (after_call t' (sample_db (sample_row ENQUEUED 1 None)), Ret (Ok out))
    /\ Z.of_nat (length out) = 1.
Proof.
  destruct (fetch_takes_oldest sample_ctx 10 (sample_db (sample_row ENQUEUED 1 None))
              (sample_quiet _) (sample_env _) (sample_keyed _) ltac:(done))
    as (t' & out & H1 & H2 & _).
  exists t', out. split; [exact H1|]. rewrite H2. vm_compute. reflexivity.
Defined.

Lemma requeue_exact_witness :
  let db := sample_db (sample_row FAILED 2 (Some 1000)) in
  exists t',
    pgx_RequeueFailed sample_ctx db = (after_call t' db, Ret (Ok 1))
    /\ t' !! "m1" = Some (with_status ENQUEUED 3600000000 (sample_row FAILED 2 (Some 1000))).
Proof.
  destruct (requeue_exact sample_ctx (sample_db (sample_row FAILED 2 (Some 1000)))
              (sample_quiet _) (sample_keyed _)) as (t' & H1 & H2).
  exists t'. split; [rewrite H1; vm_compute; reflexivity|].
  apply (proj1 (H2 "m1") (sample_row FAILED 2 (Some 1000)) (sample_lookup (sample_row FAILED 2 (Some 1000))) eq_refl);
    [reflexivity|]. exists 1000. by split.
Defined.

Lemma revive_exact_witness :
  let db := sample_db (sample_row PUBLISHING 2 None) in
  exists t' row',
    pgx_ReviveStuckPublishing sample_repo sample_ctx db = (after_call t' db, Ret (Ok 1))
    /\ t' !! "m1" = Some row' /\ Status row' = DEAD.
Proof.
  destruct (revive_exact sample_repo sample_ctx (sample_db (sample_row PUBLISHING 2 None))
              (sample_quiet _) (sample_keyed _)) as [Hall _].
  destruct Hall as (t' & H1 & H2).
  { intros id row Hr _. cbn in Hr. apply lookup_singleton_Some in Hr as [_ <-].
    split; [reflexivity|]. intros H. vm_compute in H. discriminate. }
  destruct (H2 "m1" (sample_row PUBLISHING 2 None) (sample_lookup (sample_row PUBLISHING 2 None))) as (row' & H3 & H4 & _).
  exists t', row'. split; [rewrite H1; vm_compute; reflexivity|]. by split.
Defined.

(** A limit of 100 attempts, 50 of them used: the backoff of 2^50 seconds is no
    interval. *)
Definition poison_row : Outbox :=
  mkOutbox "m1" "order.created" (Some "{}") None "k1" PUBLISHING None 50 100 None 0 0.

Lemma revive_poisoned_witness :
  exists text,
    pgx_ReviveStuckPublishing sample_repo sample_ctx (sample_db poison_row)
    = (after_call (db_table (sample_db poison_row)) (sample_db poison_row),
       Ret (Err (PgError "22008" text))).
Proof.
  exact (revive_poisoned sample_repo sample_ctx (sample_db poison_row) "m1" poison_row
           (sample_quiet _) (sample_lookup poison_row) eq_refl eq_refl eq_refl).
Defined.

Lemma delete_exact_witness :
  let db := sample_db (sample_row PUBLISHED 1 None) in
  exists t' n,
    pgx_DeleteOlderThan sample_ctx [PUBLISHED; DEAD] (30 * Minute) db
    = (after_call t' db, Ret (Ok n))
    /\ t' !! "m1" = None.
Proof.
  destruct (delete_exact sample_ctx [PUBLISHED; DEAD] (30 * Minute)
              (sample_db (sample_row PUBLISHED 1 None)) (sample_quiet _) (sample_keyed _))
    as (t' & n & H1 & _ & H2).
  exists t', n. split; [exact H1|].
  destruct (t' !! "m1") as [row|] eqn:E; [|done].
  apply H2 in E as [Hr Hn]. cbn in Hr. apply lookup_singleton_Some in Hr as [_ <-].
  destruct Hn. split; [by left|done].
Defined.

Definition sample_params (payload : string) : OutboxInsertParams :=
  mkParams "order.created" (Some payload) None "k1" 3.
Definition empty_outbox : DB := mkDB ∅ hourly 0.

Lemma insert_idempotent_witness :
  exists row db',
    pgx_Insert sample_jsonb sample_ctx (sample_params "{}") empty_outbox = (db', Ret (Ok row))
    /\ pgx_Insert sample_jsonb sample_ctx (sample_params "{1}") db'
       = (after_call (db_table db') db', Ret (Err (ESentinel ErrAlreadyExists))).
Proof.
  destruct (insert_idempotent sample_jsonb sample_ctx (sample_params "{}") (sample_params "{1}")
              "{}" "{1}" None None empty_outbox) as (row & db' & H1 & _ & _ & _ & _ & _ & H2).
  - split; [apply map_Forall_empty|]. intros i j r s Hi. discriminate Hi.
  - reflexivity.
  - apply hourly_ok.
  - split; [by exists "{}"|]. by split.
  - split; [by exists "{1}"|]. by split.
  - reflexivity.
  - intros id r Hr. discriminate Hr.
  - by split.
  - exists row, db'. by split.
Defined.
