(* ===== verification/GormRepo.v ===== *)
(** * contrib/gorm/repo.go: the GORM outbox repository

    The same operations as PgxRepo.v, written with GORM's builder: [Updates]
    takes a map from columns to values and expressions, which is modelled as
    the list of its assignments and evaluated on the row.  The theorems show
    that both repositories do the same, and where insertion differs. *)

From Stdlib Require Import ZArith Lia Permutation.
From stdpp Require Import base option list strings gmap fin_maps sorting.
From S2P Require Import Prelude Errors Model Ports Store PgxRepo OutboxSafety PgxSpec.

Set Default Goal Selector "!".
Open Scope Z_scope.

(** ** The model of a row *)

Record outboxModel : Type := mkModel {
  m_ID : string;
  m_EventType : string;
  m_Payload : RawMessage;
  m_Metadata : RawMessage;
  m_IdempotencyKey : string;
  m_Status : OutboxStatus;
  m_ErrorMessage : option string;
  m_AttemptCount : Z;
  m_MaxAttempts : Z;
  m_NextRetryAt : option Z;
  m_CreatedAt : Z;
  m_UpdatedAt : Z
}.

Definition modelToCore (m : outboxModel) : Outbox :=
  mkOutbox (m_ID m) (m_EventType m) (m_Payload m) (m_Metadata m) (m_IdempotencyKey m)
    (m_Status m) (m_ErrorMessage m) (m_AttemptCount m) (m_MaxAttempts m) (m_NextRetryAt m)
    (m_CreatedAt m) (m_UpdatedAt m).

(** Scanning the columns of a row into a model. *)
Definition scan_model (r : Outbox) : outboxModel :=
  mkModel (ID r) (EventType r) (Payload r) (Metadata r) (IdempotencyKey r) (Status r)
    (ErrorMessage r) (AttemptCount r) (MaxAttempts r) (NextRetryAt r) (CreatedAt r)
    (UpdatedAt r).

(** ** [Updates(map[string]interface{}{...})] *)

(** A value or [gorm.Expr] of a column. *)
Inductive Assign : Type :=
| SetStatus (s : OutboxStatus)
| SetUpdatedNow                     (* clock_timestamp() *)
| SetErrorMessage (m : string)
| SetAttemptPlusOne                 (* attempt_count + 1 *)
| SetAttemptLeast                   (* LEAST(attempt_count + 1, max_attempts) *)
| SetNextRetry (base_us max_us : Z) (* clock_timestamp() + (LEAST(...) * (0.5 + ...)) *).

(** An assignment writes one column of [acc]; its expression reads the row [r]
    as it was before the UPDATE. *)
Definition assign (env : StmtEnv) (r : Outbox) (a : Assign) (acc : Outbox) : option Outbox :=
  let put s m n retry upd :=
    mkOutbox (ID acc) (EventType acc) (Payload acc) (Metadata acc) (IdempotencyKey acc)
      s m n (MaxAttempts acc) retry (CreatedAt acc) upd in
  let next := AttemptCount r + 1 in
  match a with
  | SetStatus s =>
      Some (put s (ErrorMessage acc) (AttemptCount acc) (NextRetryAt acc) (UpdatedAt acc))
  | SetUpdatedNow =>
      Some (put (Status acc) (ErrorMessage acc) (AttemptCount acc) (NextRetryAt acc)
              (e_set env (ID r)))
  | SetErrorMessage m =>
      Some (put (Status acc) (Some m) (AttemptCount acc) (NextRetryAt acc) (UpdatedAt acc))
  | SetAttemptPlusOne =>
      if in_int4 next
      then Some (put (Status acc) (ErrorMessage acc) next (NextRetryAt acc) (UpdatedAt acc))
      else None
  | SetAttemptLeast =>
      if in_int4 next
      then Some (put (Status acc) (ErrorMessage acc) (Z.min next (MaxAttempts r))
                   (NextRetryAt acc) (UpdatedAt acc))
      else None
  | SetNextRetry base max =>
      i ← backoff_interval base max (AttemptCount r);
      Some (put (Status acc) (ErrorMessage acc) (AttemptCount acc)
              (Some (e_retry env (ID r) + e_jitter env (ID r) i)) (UpdatedAt acc))
  end.

Definition Updates (assigns : list Assign) (env : StmtEnv) (r : Outbox) : option Outbox :=
  foldl (fun acc a => acc ≫= assign env r a) (Some r) assigns.

(** [Create] leaves a column whose value is zero to the default its tag
    names. *)
Definition gorm_default (tag value : Z) : Z := if value =? 0 then tag else value.

(** ORDER BY id *)
Definition by_primary_key (a b : Outbox) : Prop := String.leb (ID a) (ID b) = true.
#[export] Instance by_primary_key_dec : RelDecision by_primary_key.
Proof. intros a b. unfold by_primary_key. apply _. Defined.

Section Methods.
Variable jsonb : string -> option string.
Variable r : OutboxRepo.

(** [INSERT] of the columns of [model]: [created_at] and [updated_at] are
    GORM's [autoCreateTime] and [autoUpdateTime], the clock of the
    application.  The model gets back what the database defaulted. *)
Definition Create (model : outboxModel) (env : StmtEnv) (t : table)
    : result error (table * outboxModel) :=
  let attempts := gorm_default 1 (m_AttemptCount model) in
  let limit := gorm_default 10 (m_MaxAttempts model) in
  let now := e_go_now env in
  let model' := mkModel (m_ID model) (m_EventType model) (m_Payload model)
                  (m_Metadata model) (m_IdempotencyKey model) (m_Status model)
                  (m_ErrorMessage model) attempts limit (m_NextRetryAt model) now now in
  match m_Payload model with
  | None => Err (PgError "23502" "null value in column payload")
  | Some payload =>
      match jsonb payload, jsonb_column jsonb (m_Metadata model) with
      | Some payload', Some metadata' =>
          if negb (in_int4 limit) then Err (PgError "22003" "integer out of range")
          else if existsb (fun r => has_id (m_ID model) r
                   || (bool_decide (EventType r = m_EventType model)
                       && bool_decide (IdempotencyKey r = m_IdempotencyKey model))) (rows t)
          then Err (PgError "23505" "duplicate key value violates unique constraint")
          else
            let row := mkOutbox (m_ID model) (m_EventType model) (Some payload') metadata'
                         (m_IdempotencyKey model) (m_Status model) (m_ErrorMessage model)
                         attempts limit (m_NextRetryAt model) now now in
            Ok (<[m_ID model := row]> t, model')
      | _, _ => Err (PgError "22P02" "invalid input syntax for type json")
      end
  end.

Definition gorm_Insert (ctx : Context) (params : OutboxInsertParams)
    : GoM DB (result error Outbox) :=
  let model id := mkModel id (p_EventType params) (p_Payload params) (p_Metadata params)
                    (p_IdempotencyKey params) ENQUEUED None 0 (p_MaxAttempts params) None 0 0 in
  answer ← exec (fun env => Create (model (e_uuid env)) env);
  mret match answer with
       | Err err =>
           match errors_As_PgError err with
           | Some code => if bool_decide (code = "23505") then Err (ESentinel ErrAlreadyExists)
                          else Err err
           | None => Err err
           end
       | Ok model' => Ok (modelToCore model')
       end.

(** The raw query is the one of the pgx repository. *)
Definition gorm_FetchAndLockToPublishing (ctx : Context) : GoM DB (result error Outbox) :=
  answer ← exec (queryFetchLockAndMarkPublishing 1);
  mret match answer with
       | Err err => Err err
       | Ok [] => Err (ESentinel ErrNoMessage)
       | Ok (row :: _) => Ok (modelToCore (scan_model row))
       end.

(** The [Where] on id and PUBLISHING, [Updates(assigns)] and the reading of
    its result; [code] is the SQL error of an assignment out of range. *)
Definition publishing_updates (code id : string) (assigns : list Assign) : GoM DB (option error) :=
  answer ← exec (fun env =>
    sql_update (fun r => has_id id r && has_status PUBLISHING r) (Updates assigns env) code);
  mret match answer with
       | Err err => Some err
       | Ok n =>
           if n =? 0 then
             Some (errorf_sentinel ErrInvalidStatus
                     ("expected PUBLISHING status for message " +:+ id))
           else None
       end.

Definition gorm_UpdateToPublished (ctx : Context) (id : string) : GoM DB (option error) :=
  publishing_updates "22003" id [SetStatus PUBLISHED; SetUpdatedNow].

Definition gorm_UpdateToFailed (ctx : Context) (id errMsg : string) : GoM DB (option error) :=
  publishing_updates "22008" id
    [SetStatus FAILED; SetErrorMessage errMsg; SetAttemptPlusOne;
     SetNextRetry (base_us r) (max_us r); SetUpdatedNow].

Definition gorm_UpdateToDead (ctx : Context) (id errMsg : string) : GoM DB (option error) :=
  publishing_updates "22003" id
    [SetStatus DEAD; SetErrorMessage errMsg; SetAttemptLeast; SetUpdatedNow].

Definition gorm_RequeueFailed (ctx : Context) : GoM DB (result error Z) :=
  exec (fun env =>
    sql_update
      (fun r => has_status FAILED r && (AttemptCount r <? MaxAttempts r)
                && bool_decide (is_Some (NextRetryAt r))
                && match NextRetryAt r with
                   | Some at_ => at_ <=? e_where env (ID r)
                   | None => false
                   end)
      (Updates [SetStatus ENQUEUED; SetUpdatedNow] env) "22003").

(** [First(&model)]: LIMIT 1 of the matching rows by primary key. *)
Definition First (P : Outbox -> bool) (env : StmtEnv) (t : table)
    : result error (table * option outboxModel) :=
  Ok (t, scan_model <$> head (merge_sort by_primary_key (e_scan env (List.filter P (rows t))))).

Definition first_or_not_found (answer : result error (option outboxModel))
    : result error Outbox :=
  match answer with
  | Ok (Some model) => Ok (modelToCore model)
  | Ok None => Err (ESentinel ErrNotFound)
  | Err err =>
      if errors_Is err GormErrRecordNotFound then Err (ESentinel ErrNotFound) else Err err
  end.

Definition gorm_GetByID (ctx : Context) (id : string) : GoM DB (result error Outbox) :=
  answer ← exec (First (has_id id));
  mret (first_or_not_found answer).

Definition gorm_GetByIdempotencyKey (ctx : Context) (eventType idempotencyKey : string)
    : GoM DB (result error Outbox) :=
  answer ← exec (First (fun r => bool_decide (EventType r = eventType)
                                  && bool_decide (IdempotencyKey r = idempotencyKey)));
  mret (first_or_not_found answer).

(** The raw UPDATE with the statuses, messages and backoff as arguments. *)
Definition gorm_ReviveStuckPublishing (ctx : Context) : GoM DB (result error Z) :=
  exec (fun env =>
    sql_update (stuck (truncated_seconds_us (stuckPublishingThreshold r)) env)
      (set_revived (base_us r) (max_us r) env) "22008").

Definition gorm_FetchLockAndMarkPublishing (ctx : Context) (limit : Z)
    : GoM DB (result error (list Outbox)) :=
  answer ← exec (queryFetchLockAndMarkPublishing limit);
  mret match answer with
       | Err err => Err err
       | Ok found => Ok (modelToCore <$> (scan_model <$> found))
       end.

Definition gorm_UpdateBatchToPublished (ctx : Context) (ids : list string)
    : GoM DB (result error Z) :=
  match ids with
  | [] => mret (Ok 0)
  | _ => exec (fun env =>
           sql_update (fun r => bool_decide (ID r ∈ ids) && has_status PUBLISHING r)
             (Updates [SetStatus PUBLISHED; SetUpdatedNow] env) "22003")
  end.

Definition gorm_DeleteOlderThan (ctx : Context) (statuses : list OutboxStatus)
    (olderThan : Z) : GoM DB (result error Z) :=
  match statuses with
  | [] => mret (Err (EWrapf "at least one status must be specified" []))
  | _ => exec (fun env =>
           sql_delete (fun r => bool_decide (Status r ∈ statuses)
                                && (UpdatedAt r <? e_where env (ID r) - microseconds olderThan)))
  end.

Definition gorm_InsertOutboxJSONWithMetadata (ctx : Context) (eventType : string)
    (payload : result error string) (metadata : option (result error string))
    (idempotencyKey : string) (maxRetries : Z) : GoM DB (result error Outbox) :=
  match payload, metadata with
  | Err err, _ => mret (Err err)
  | Ok _, Some (Err err) => mret (Err err)
  | Ok data, None =>
      gorm_Insert ctx (mkParams eventType (Some data) None idempotencyKey maxRetries)
  | Ok data, Some (Ok m) =>
      gorm_Insert ctx (mkParams eventType (Some data) (Some m) idempotencyKey maxRetries)
  end.

Definition gorm_InsertOutboxJSON (ctx : Context) (eventType : string)
    (payload : result error string) (idempotencyKey : string) (maxRetries : Z)
    : GoM DB (result error Outbox) :=
  gorm_InsertOutboxJSONWithMetadata ctx eventType payload None idempotencyKey maxRetries.

Definition gorm_repository : OutboxRepository DB := {|
  Insert := gorm_Insert;
  FetchAndLockToPublishing := gorm_FetchAndLockToPublishing;
  UpdateToPublished := gorm_UpdateToPublished;
  UpdateToFailed := gorm_UpdateToFailed;
  UpdateToDead := gorm_UpdateToDead;
  RequeueFailed := gorm_RequeueFailed;
  GetByID := gorm_GetByID;
  GetByIdempotencyKey := gorm_GetByIdempotencyKey
|}.

Definition gorm_batch_repository : BatchOutboxRepository DB := {|
  batch_repo_base := gorm_repository;
  FetchLockAndMarkPublishing := gorm_FetchLockAndMarkPublishing;
  UpdateBatchToPublished := gorm_UpdateBatchToPublished
|}.
Definition gorm_recovery : OutboxRecovery DB :=
  {| ReviveStuckPublishing := gorm_ReviveStuckPublishing |}.
Definition gorm_cleaner : OutboxCleaner DB := {| DeleteOlderThan := gorm_DeleteOlderThan |}.
End Methods.

(** ** Both repositories do the same *)

(** The driver does not pass one of the two "no row" errors off as a failure
    of the connection. *)
Definition transport_ok (db : DB) : Prop :=
  forall e applied, e_fault (current_env db) = Some (e, applied) ->
    errors_Is e PgxErrNoRows = false /\ errors_Is e GormErrRecordNotFound = false.

Lemma modelToCore_scan r : modelToCore (scan_model r) = r.
Proof. by destruct r. Qed.

Lemma exec_ext {A} (f g : StmtEnv -> table -> result error (table * A)) db :
  (forall env t, f env t = g env t) -> exec f db = exec g db.
Proof. intros H. unfold exec. by rewrite H. Qed.

Lemma bind_ext {A B C} (m : GoM DB A) (m' : GoM DB C) (f : A -> B) (g : C -> B) db :
  match m db, m' db with
  | (w, Ret a), (w', Ret c) => w = w' /\ f a = g c
  | _, _ => False
  end -> (a ← m; mret (f a)) db = (c ← m'; mret (g c)) db.
Proof.
  unfold mbind, GoM_bind. destruct (m db) as [w [a|]], (m' db) as [w' [c|]]; try done.
  intros [-> E]. unfold mret, GoM_ret. by rewrite E.
Qed.

Lemma sql_update_ext P P' set set' code t :
  (forall r, P r = P' r) -> (forall r, set r = set' r) ->
  sql_update P set code t = sql_update P' set' code t.
Proof.
  intros HP Hs. unfold sql_update.
  assert (Hf : filter (fun kv : string * Outbox => P kv.2 = true) t
               = filter (fun kv : string * Outbox => P' kv.2 = true) t)
    by (apply map_filter_ext; intros i x _; simpl; by rewrite HP).
  rewrite Hf.
  assert (Hb : map_Forall (fun _ r => is_Some (set r))
                 (filter (fun kv : string * Outbox => P' kv.2 = true) t)
               <-> map_Forall (fun _ r => is_Some (set' r))
                 (filter (fun kv : string * Outbox => P' kv.2 = true) t)).
  { split; intros Hall i x Hi; specialize (Hall i x Hi);
      simpl in *; [by rewrite <- Hs|by rewrite Hs]. }
  rewrite (bool_decide_ext _ _ Hb). destruct (bool_decide _); [|done]. do 2 f_equal.
  apply map_fmap_ext. intros i x _. by rewrite HP, Hs.
Qed.

(** Evaluating an update map column by column is the UPDATE of pgx. *)
Lemma Updates_status s env r :
  Updates [SetStatus s; SetUpdatedNow] env r = Some (with_status s (e_set env (ID r)) r).
Proof. by destruct r. Qed.

Lemma Updates_failed m base max env r :
  Updates [SetStatus FAILED; SetErrorMessage m; SetAttemptPlusOne; SetNextRetry base max;
           SetUpdatedNow] env r = set_failed base max m env r.
Proof.
  unfold Updates, set_failed. cbn -[backoff_interval in_int4].
  destruct (in_int4 (AttemptCount r + 1)); cbn -[backoff_interval];
    by destruct (backoff_interval base max (AttemptCount r)).
Qed.

Lemma Updates_dead m env r :
  Updates [SetStatus DEAD; SetErrorMessage m; SetAttemptLeast; SetUpdatedNow] env r
  = set_dead m env r.
Proof.
  unfold Updates, set_dead. cbn -[in_int4].
  by destruct (in_int4 (AttemptCount r + 1)).
Qed.

Lemma merge_sort_short (l : list Outbox) :
  (length l <= 1)%nat -> merge_sort by_primary_key l = l.
Proof. destruct l as [|a [|b l]]; simpl; [done|done|lia]. Qed.

Lemma first_agrees (P : Outbox -> bool) db :
  transport_ok db -> env_ok (current_env db) ->
  (length (List.filter P (rows (db_table db))) <= 1)%nat ->
  (a ← exec (First P); mret (first_or_not_found a)) db
  = (a ← exec (sql_select P); mret (not_found (scan_row a))) db.
Proof.
  intros Ht Henv Hlen. apply bind_ext. unfold exec, First, sql_select.
  rewrite merge_sort_short by (by rewrite (scan_ok _ Henv)).
  destruct (e_fault (current_env db)) as [[e applied]|] eqn:Ef.
  - destruct (Ht e applied Ef) as [H1 H2]. simpl. by rewrite H1, H2.
  - split; [done|]. destruct (e_scan _ _) as [|r l]; simpl; [done|].
    by rewrite modelToCore_scan.
Qed.

Lemma key_unique t P :
  well_formed t ->
  (forall i j r s, t !! i = Some r -> t !! j = Some s -> P r = true -> P s = true -> i = j) ->
  (length (List.filter P (rows t)) <= 1)%nat.
Proof.
  intros [Hk _] Hu.
  assert (Hnd : NoDup (ID <$> List.filter P (rows t))) by (by apply NoDup_filter_ids, rows_NoDup_ids).
  destruct (List.filter P (rows t)) as [|a [|b l]] eqn:E; simpl; [lia|lia|]. exfalso.
  assert (Hin : forall x, x ∈ a :: b :: l -> exists i, t !! i = Some x /\ i = ID x /\ P x = true).
  { intros x Hx. rewrite <- E in Hx. apply list_elem_of_In, List.filter_In in Hx as [Hx HP].
    apply list_elem_of_In, elem_of_rows in Hx as [i Hi]. exists i.
    by rewrite (Hk i x Hi). }
  destruct (Hin a) as (i & Hi & -> & HPa); [by left|].
  destruct (Hin b) as (j & Hj & -> & HPb); [by right; left|].
  pose proof (Hu _ _ a b Hi Hj HPa HPb) as Eid.
  rewrite !fmap_cons, Eid in Hnd. apply NoDup_cons in Hnd as [Hn _]. apply Hn. by left.
Qed.

(** A guarded update map is the guarded UPDATE of pgx. *)
Lemma guarded_agrees code set assigns id db :
  (forall env r, Updates assigns env r = set env r) ->
  publishing_updates code id assigns db
  = (a ← exec (fun env t => sql_update (fun r => has_id id r && has_status PUBLISHING r)
                              (set env) code t); mret (expect_publishing id a)) db.
Proof.
  intros Hs. unfold publishing_updates. apply bind_ext.
  rewrite (exec_ext _ (fun env t => sql_update (fun r => has_id id r && has_status PUBLISHING r)
             (set env) code t) db).
  - destruct (exec _ db) as [w [a|]] eqn:E; [done|].
    unfold exec in E. destruct (sql_update _ _ _ _) as [[? ?]|?], (e_fault _) as [[? ?]|]; done.
  - intros env t. apply sql_update_ext; [done|apply Hs].
Qed.

(** [Scan] of the fetched row: an error of the transport is no [ErrNoRows]. *)
Lemma fetch_agrees ctx db :
  transport_ok db -> gorm_FetchAndLockToPublishing ctx db = pgx_FetchAndLockToPublishing ctx db.
Proof.
  intros Htransport. apply bind_ext. unfold exec, queryFetchAndLockToPublishing.
  destruct (e_fault (current_env db)) as [[e applied]|] eqn:Ef.
  - destruct (Htransport e applied Ef) as [H1 _].
    destruct (queryFetchLockAndMarkPublishing 1 _ _) as [[t' l]|e']; simpl; by rewrite H1.
  - unfold queryFetchLockAndMarkPublishing. cbn [Z.ltb Z.compare]. split; [done|].
    destruct (fmap without_retry _) as [|x l]; simpl; [done|by rewrite modelToCore_scan].
Qed.

(** C32: on the same database and configuration the two repositories are
    interchangeable for every operation but Insert: same new table, same
    answer, errors included. *)
Theorem gorm_pgx_agree (r : OutboxRepo) (ctx : Context) (db : DB)
  (id errMsg eventType key : string) (limit : Z) (ids : list string)
  (statuses : list OutboxStatus) (olderThan : Z)
  (Htransport : transport_ok db) (Henv : env_ok (current_env db))
  (Hwf : well_formed (db_table db)) :
  gorm_FetchAndLockToPublishing ctx db = pgx_FetchAndLockToPublishing ctx db
  /\ gorm_FetchLockAndMarkPublishing ctx limit db = pgx_FetchLockAndMarkPublishing ctx limit db
  /\ gorm_UpdateToPublished ctx id db = pgx_UpdateToPublished ctx id db
  /\ gorm_UpdateBatchToPublished ctx ids db = pgx_UpdateBatchToPublished ctx ids db
  /\ gorm_UpdateToFailed r ctx id errMsg db = pgx_UpdateToFailed r ctx id errMsg db
  /\ gorm_UpdateToDead ctx id errMsg db = pgx_UpdateToDead ctx id errMsg db
  /\ gorm_RequeueFailed ctx db = pgx_RequeueFailed ctx db
  /\ gorm_ReviveStuckPublishing r ctx db = pgx_ReviveStuckPublishing r ctx db
  /\ gorm_DeleteOlderThan ctx statuses olderThan db = pgx_DeleteOlderThan ctx statuses olderThan db
  /\ gorm_GetByID ctx id db = pgx_GetByID ctx id db
  /\ gorm_GetByIdempotencyKey ctx eventType key db = pgx_GetByIdempotencyKey ctx eventType key db.
Proof.
  split_and!.
  - by apply fetch_agrees.
  - unfold gorm_FetchLockAndMarkPublishing, pgx_FetchLockAndMarkPublishing.
    unfold mbind, GoM_bind. destruct (exec _ db) as [w [[l|e]|]]; try done.
    unfold mret, GoM_ret. do 3 f_equal. rewrite <- list_fmap_compose.
    rewrite <- (list_fmap_id l) at 2. apply list_fmap_ext. intros i x _. apply modelToCore_scan.
  - apply (guarded_agrees _ (fun env r => Some (with_status PUBLISHED (e_set env (ID r)) r))).
    apply Updates_status.
  - destruct ids as [|i ids]; [done|]. apply exec_ext. intros env t.
    apply sql_update_ext; [done|]. apply Updates_status.
  - apply (guarded_agrees _ (set_failed (base_us r) (max_us r) errMsg)). apply Updates_failed.
  - apply (guarded_agrees _ (set_dead errMsg)). apply Updates_dead.
  - apply exec_ext. intros env t. apply sql_update_ext; [|apply Updates_status].
    intros x. unfold requeueable. destruct (NextRetryAt x); simpl.
    + by rewrite andb_true_r.
    + by rewrite !andb_false_r.
  - done.
  - by destruct statuses.
  - apply first_agrees; [done|done|]. apply key_unique; [done|].
    intros i j x y Hi Hj Hx Hy. destruct Hwf as [Hk _]. unfold has_id in *. bool_to_prop.
    rewrite <- (Hk i x Hi), <- (Hk j y Hj). cbv beta. congruence.
  - apply first_agrees; [done|done|]. apply key_unique; [done|].
    intros i j x y Hi Hj Hx Hy. destruct Hwf as [_ Hu]. bool_to_prop.
    apply (Hu i j x y Hi Hj); congruence.
Qed.

(** ** Insertion *)

Lemma gorm_insert_run jsonb ctx p payload metadata db :
  quiet db -> insertable jsonb p payload metadata ->
  let env := current_env db in
  let limit := gorm_default 10 (p_MaxAttempts p) in
  gorm_Insert jsonb ctx p db
  = if existsb (conflicts env p) (rows (db_table db))
    then (after_call (db_table db) db, Ret (Err (ESentinel ErrAlreadyExists)))
    else
      let row pl md := mkOutbox (e_uuid env) (p_EventType p) pl md (p_IdempotencyKey p)
                         ENQUEUED None 1 limit None (e_go_now env) (e_go_now env) in
      (after_call (<[e_uuid env := row (Some payload) metadata]> (db_table db)) db,
       Ret (Ok (row (p_Payload p) (p_Metadata p)))).
Proof.
  intros Hq ((text & Hp & Hj) & Hm & Hi). cbv zeta. unfold gorm_Insert.
  rewrite (bind_exec_quiet _ _ _ Hq). unfold Create. cbn [m_Payload m_Metadata m_AttemptCount
    m_MaxAttempts m_ID m_EventType m_IdempotencyKey m_Status m_ErrorMessage m_NextRetryAt].
  rewrite Hp, Hj, Hm.
  assert (Hl : in_int4 (gorm_default 10 (p_MaxAttempts p)) = true)
    by (unfold gorm_default; destruct (p_MaxAttempts p =? 0); [done|by rewrite Hi]).
  rewrite Hl. cbn [negb]. fold (conflicts (current_env db) p).
  by destruct (existsb (conflicts (current_env db) p) (rows (db_table db))).
Qed.

(** Insert of both repositories is the same call for a positive limit and
    JSON texts the database stores as they are, when the application's clock
    agrees with the server's.  A limit of zero they treat differently: pgx
    stores it, and the first failed publish of the message is its last, while
    GORM takes zero for "unset" and stores the default of ten attempts. *)
Theorem gorm_insert_vs_pgx (jsonb : string -> option string) (ctx : Context)
  (p : OutboxInsertParams) (db : DB)
  (Hquiet : quiet db) (Hin : insertable jsonb p (raw_string (p_Payload p)) (p_Metadata p))
  (Hclock : e_go_now (current_env db) = e_set (current_env db) (e_uuid (current_env db)))
  (Hfree : existsb (conflicts (current_env db) p) (rows (db_table db)) = false) :
  if p_MaxAttempts p =? 0
  then exists row row' db1 db2,
    pgx_Insert jsonb ctx p db = (db1, Ret (Ok row))
    /\ gorm_Insert jsonb ctx p db = (db2, Ret (Ok row'))
    /\ db_table db1 !! ID row = Some row /\ db_table db2 !! ID row' = Some row'
    /\ MaxAttempts row = 0 /\ WillExceedMaxAttemptsAfterFailure row = true
    /\ MaxAttempts row' = 10 /\ WillExceedMaxAttemptsAfterFailure row' = false
  else gorm_Insert jsonb ctx p db = pgx_Insert jsonb ctx p db.
Proof.
  assert (Hp : p_Payload p = Some (raw_string (p_Payload p)))
    by (destruct Hin as ((text & -> & _) & _); done).
  rewrite (insert_run jsonb ctx p _ _ db Hquiet Hin), Hfree.
  pose proof (gorm_insert_run jsonb ctx p _ _ db Hquiet Hin) as Hg. cbv zeta in Hg.
  rewrite Hfree in Hg. rewrite Hg, Hclock, <- Hp. unfold inserted, gorm_default. rewrite <- Hp.
  destruct (p_MaxAttempts p =? 0) eqn:E; [|done].
  eexists _, _, _, _. split; [done|]. split; [done|]. bool_to_prop.
  cbn [after_call db_table ID MaxAttempts]. rewrite !lookup_insert_eq, E. done.
Qed.

(** ** The properties on a concrete database *)

Lemma gorm_pgx_agree_witness :
  let db := sample_db (sample_row PUBLISHING 1 None) in
  gorm_ReviveStuckPublishing sample_repo sample_ctx db
  = pgx_ReviveStuckPublishing sample_repo sample_ctx db
  /\ gorm_GetByID sample_ctx "m2" db = pgx_GetByID sample_ctx "m2" db.
Proof.
  destruct (gorm_pgx_agree sample_repo sample_ctx (sample_db (sample_row PUBLISHING 1 None))
              "m2" "timeout" "order.created" "k1" 10 ["m1"] [DEAD] Hour)
    as (_ & _ & _ & _ & _ & _ & _ & H1 & _ & H2 & _).
  - intros e applied H. discriminate.
  - apply sample_env.
  - apply sample_well_formed.
  - by split.
Defined.

Lemma gorm_insert_vs_pgx_witness :
  let p := mkParams "order.created" (Some "{}") None "k1" 0 in
  exists row row' db1 db2,
    pgx_Insert sample_jsonb sample_ctx p empty_outbox = (db1, Ret (Ok row))
    /\ gorm_Insert sample_jsonb sample_ctx p empty_outbox = (db2, Ret (Ok row'))
    /\ MaxAttempts row = 0 /\ MaxAttempts row' = 10.
Proof.
  assert (Hin : insertable sample_jsonb (mkParams "order.created" (Some "{}") None "k1" 0)
                  "{}" None).
  { split; [by exists "{}"|]. by split. }
  destruct (gorm_insert_vs_pgx sample_jsonb sample_ctx
              (mkParams "order.created" (Some "{}") None "k1" 0) empty_outbox
              eq_refl Hin eq_refl eq_refl)
    as (row & row' & db1 & db2 & H1 & H2 & _ & _ & H3 & _ & H4 & _).
  exists row, row', db1, db2. by repeat split.
Defined.
