(* ===== verification/System.v ===== *)
(** * Many dispatchers on one outbox table

    Any number of workers, single-message and batch, the requeue worker,
    crash recovery, cleanup and inserting applications, interleaved call by
    call.  A worker holds the messages it fetched until it closes them with a
    status update or crashes; a publish may reach the broker and still report
    an error; a repository call may fail before or after it took effect.

    The events are the calls of core/worker.go, core/batch_dispatcher.go and
    core/dispatcher.go; what a call does is the pgx repository (PgxRepo.v),
    and the update a worker closes a message with is the one of Worker.v. *)

From Stdlib Require Import ZArith Lia Permutation.
From stdpp Require Import base option list strings gmap fin_maps sorting.
From S2P Require Import Prelude Errors Model Ports Store PgxRepo OutboxSafety Worker.

Set Default Goal Selector "!".
Open Scope Z_scope.

(** ** What one call does to a row *)

Inductive change : RepoCall -> Outbox -> Outbox -> Prop :=
| ch_same c r : change c r r
| ch_claim limit r now :
    Status r = ENQUEUED -> change (RFetchBatch limit) r (with_status PUBLISHING now r)
| ch_published id r now :
    Status r = PUBLISHING -> ID r = id ->
    change (RToPublished id) r (with_status PUBLISHED now r)
| ch_batch_published ids r now :
    Status r = PUBLISHING -> ID r ∈ ids ->
    change (RBatchToPublished ids) r (with_status PUBLISHED now r)
| ch_failed id m r retry now :
    Status r = PUBLISHING -> ID r = id -> in_int4 (AttemptCount r + 1) = true ->
    change (RToFailed id m) r (with_failure FAILED m (AttemptCount r + 1) (Some retry) now r)
| ch_dead id m r now :
    Status r = PUBLISHING -> ID r = id ->
    change (RToDead id m) r
      (with_failure DEAD m (Z.min (AttemptCount r + 1) (MaxAttempts r)) (NextRetryAt r) now r)
| ch_requeue r now :
    Status r = FAILED -> AttemptCount r < MaxAttempts r ->
    change RRequeue r (with_status ENQUEUED now r)
| ch_revive_dead m r now :
    Status r = PUBLISHING -> MaxAttempts r <= AttemptCount r + 1 ->
    change RRevive r (with_failure DEAD m (MaxAttempts r) None now r)
| ch_revive_failed m r retry now :
    Status r = PUBLISHING -> AttemptCount r + 1 < MaxAttempts r ->
    in_int4 (AttemptCount r + 1) = true ->
    change RRevive r (with_failure FAILED m (AttemptCount r + 1) (Some retry) now r).

(** The rows after a call: changed ones, and the one an insertion adds. *)
Definition call_rows (c : RepoCall) (env : StmtEnv) (t t' : table) : Prop :=
  forall id r', t' !! id = Some r' ->
    (exists r, t !! id = Some r /\ change c r r')
    \/ (exists p, c = RInsert p /\ t !! id = None /\ id = e_uuid env /\ ID r' = id
        /\ fresh_row r').

Lemma call_rows_refl c env t : call_rows c env t t.
Proof. intros id r' Hr. left. exists r'. split; [done|constructor]. Qed.

Lemma update_rows c env P set code t t' (n : Z) :
  (forall r r', P r = true -> set r = Some r' -> change c r r') ->
  sql_update P set code t = Ok (t', n) -> call_rows c env t t'.
Proof.
  intros Hc Hu id r' Hr'. left. rewrite (lookup_update _ _ _ _ _ _ Hu) in Hr'.
  destruct (t !! id) as [r|]; [|discriminate]. injection Hr' as <-.
  exists r. split; [done|]. destruct (P r) eqn:EP; [|constructor].
  destruct (set r) as [r1|] eqn:Es; [by apply Hc|constructor].
Qed.

Lemma has_status_eq s r : has_status s r = true <-> Status r = s.
Proof. unfold has_status. apply bool_decide_eq_true. Qed.
Lemma has_id_eq id r : has_id id r = true <-> ID r = id.
Proof. unfold has_id. apply bool_decide_eq_true. Qed.

Ltac row_guard :=
  repeat match goal with
  | H : has_status _ _ = true |- _ => apply has_status_eq in H
  | H : has_id _ _ = true |- _ => apply has_id_eq in H
  | _ => progress bool_to_prop
  end.

Lemma set_failed_change base max id m env r r' :
  has_id id r && has_status PUBLISHING r = true -> set_failed base max m env r = Some r' ->
  change (RToFailed id m) r r'.
Proof.
  unfold set_failed. intros HP H. repeat (break_hyp H; try discriminate).
  injection H as <-. row_guard. by constructor.
Qed.

Lemma set_dead_change id m env r r' :
  has_id id r && has_status PUBLISHING r = true -> set_dead m env r = Some r' ->
  change (RToDead id m) r r'.
Proof.
  unfold set_dead. intros HP H. break_hyp H; [|discriminate]. injection H as <-.
  row_guard. by constructor.
Qed.

Lemma set_revived_change base max thr env r r' :
  stuck thr env r = true -> set_revived base max env r = Some r' -> change RRevive r r'.
Proof.
  unfold stuck, set_revived. intros HP H. repeat (break_hyp H; try discriminate);
    injection H as <-; row_guard.
  - rewrite Z.min_r by lia. by constructor.
  - rewrite Z.min_l by lia. by constructor.
Qed.

Lemma fetch_rows limit env t t' a :
  env_ok env -> keyed t -> queryFetchLockAndMarkPublishing limit env t = Ok (t', a) ->
  call_rows (RFetchBatch limit) env t t'.
Proof.
  intros Henv Hk. unfold queryFetchLockAndMarkPublishing.
  destruct (limit <? 0); [discriminate|]. intros [= <- _] id r' Hr'. left.
  set (picked := locked env (Z.to_nat limit) t) in *.
  change (fold_left _ picked t) with (fold_left (fun t r => <[ID r := mark env r]> t) picked t)
    in Hr'.
  rewrite (fold_mark_lookup env) in Hr'
    by first [by apply locked_NoDup | by apply locked_in_table].
  case_decide as Hin; [|exists r'; split; [done|constructor]].
  destruct (t !! id) as [r|] eqn:Er; [|discriminate]. injection Hr' as <-.
  exists r. split; [done|]. apply list_elem_of_fmap in Hin as (s & -> & Hs).
  apply (locked_spec env Henv) in Hs as [Hs Hl].
  apply elem_of_rows in Hs as [i Hi]. pose proof (Hk i s Hi) as <-.
  rewrite Er in Hi. injection Hi as ->. unfold lockable in Hl. row_guard. by constructor.
Qed.

Lemma insert_rows jsonb p env t t' a :
  keyed t -> queryInsert jsonb env (e_uuid env) p t = Ok (t', a) ->
  call_rows (RInsert p) env t t'.
Proof.
  intros Hk. unfold queryInsert.
  destruct (p_Payload p) as [payload|]; [|discriminate].
  destruct (jsonb payload) as [pl|]; [|discriminate].
  destruct (jsonb_column jsonb (p_Metadata p)) as [md|]; [|discriminate].
  destruct (negb (in_int4 (p_MaxAttempts p))); [discriminate|].
  destruct (existsb _ (rows t)) eqn:Eex; [discriminate|]. intros [= <- _].
  intros id r'. rewrite lookup_insert. case_decide as Hd.
  - intros [= <-]. right. exists p. subst id. split; [done|]. split; [|by repeat split].
    destruct (t !! e_uuid env) as [r|] eqn:Er; [|done].
    rewrite <- not_true_iff_false in Eex. destruct Eex. apply existsb_exists.
    exists r. split; [apply list_elem_of_In, elem_of_rows; eauto|].
    apply orb_true_iff. left. apply has_id_eq. apply (Hk _ r Er).
  - intros Hr. left. exists r'. split; [done|constructor].
Qed.

(** The calls the running system makes. *)
Definition system_call (c : RepoCall) : bool :=
  match c with RFetch | RGetByID _ | RGetByKey _ _ => false | _ => true end.

Lemma exec_rows {A} c (stmt : StmtEnv -> table -> result error (table * A)) db :
  (forall t' a, stmt (current_env db) (db_table db) = Ok (t', a) ->
    call_rows c (current_env db) (db_table db) t') ->
  call_rows c (current_env db) (db_table db) (db_table (fst (exec stmt db))).
Proof.
  intros H. destruct (exec_cases stmt db) as (_ & _ & [E|(t' & a & E & Et)]).
  - rewrite E. apply call_rows_refl.
  - rewrite Et. by apply (H t' a).
Qed.

Lemma repo_call_rows jsonb r ctx c db :
  env_ok (current_env db) -> keyed (db_table db) -> system_call c = true ->
  call_rows c (current_env db) (db_table db) (db_table (repo_call jsonb r ctx c db)).
Proof.
  intros Henv Hk. destruct c; intros Hc; try discriminate Hc; cbn [repo_call];
    unfold pgx_Insert, pgx_FetchLockAndMarkPublishing, pgx_UpdateToPublished,
      pgx_UpdateBatchToPublished, pgx_UpdateToFailed, pgx_UpdateToDead, pgx_RequeueFailed,
      pgx_ReviveStuckPublishing, pgx_DeleteOlderThan;
    rewrite ?exec_bind;
    try match goal with |- context [match ?l with [] => _ | _ :: _ => _ end] => destruct l end;
    try apply call_rows_refl; apply exec_rows; intros t' a.
  - by apply insert_rows.
  - by apply fetch_rows.
  - apply update_rows. intros x y HP [= <-]. row_guard. by constructor.
  - apply update_rows. intros x y HP [= <-]. row_guard. by constructor.
  - apply update_rows. intros x y. apply set_failed_change.
  - apply update_rows. intros x y. apply set_dead_change.
  - apply update_rows. intros x y HP [= <-]. unfold requeueable in HP. row_guard.
    by constructor.
  - apply update_rows. intros x y. apply set_revived_change.
  - intros [= <- _] id x [Hx _]%map_lookup_filter_Some. left. exists x.
    split; [done|constructor].
Qed.

#[local] Arguments repo_call : simpl never.

(** ** The system *)

(** A message a worker fetched, with the answer of the publisher once it has
    one. *)
Record Held : Type := mkHeld {
  h_worker : nat;
  h_msg : Outbox;
  h_answer : option (option error)
}.

Record Sys : Type := mkSys {
  s_db : DB;
  s_held : list Held;
  (** ids the broker accepted *)
  s_sent : list string;
  (** ids a publish of which failed with an error that is not retryable *)
  s_rejected : list string;
  (** how often each id was handed to the publisher *)
  s_attempts : string -> nat;
  (** ids ever inserted *)
  s_used : list string
}.

Definition s_table (s : Sys) : table := db_table (s_db s).

Inductive Event : Type :=
| EInsert (params : OutboxInsertParams)
| EFetch (w : nat) (limit : Z)
| EPublish (i : nat) (answer : option error) (accepted : bool)
| EClose (i : nat)
| ECloseBatch (w : nat)
| ECrash (w : nat)
| ERequeue
| ERevive
| EDelete (statuses : list OutboxStatus) (olderThan : Z).

Definition held_by (w : nat) (h : Held) : bool := Nat.eqb (h_worker h) w.
Definition succeeded (h : Held) : bool :=
  match h_answer h with Some None => true | _ => false end.

Section Steps.
Variable jsonb : string -> option string.
Variable repo : OutboxRepo.
Variable ctx : Context.

Definition call (c : RepoCall) (s : Sys) (held : list Held) : Sys :=
  mkSys (repo_call jsonb repo ctx c (s_db s)) held (s_sent s) (s_rejected s)
    (s_attempts s) (s_used s).

(** The update [processOne] and [processBatch] close one message with. *)
Definition closing_call (h : Held) : option RepoCall :=
  match h_answer h with
  | None => None
  | Some None => Some (RToPublished (ID (h_msg h)))
  | Some (Some e) =>
      let errMsg := TruncateErrorMessage (error_text e) in
      Some (if marks_dead (h_msg h) e then RToDead (ID (h_msg h)) errMsg
            else RToFailed (ID (h_msg h)) errMsg)
  end.

(** One event; [None] when it cannot happen. *)
Definition sys_step (e : Event) (s : Sys) : option Sys :=
  match e with
  | EInsert p =>
      let id := e_uuid (current_env (s_db s)) in
      if bool_decide (id ∈ s_used s) then None
      else
        let s' := call (RInsert p) s (s_held s) in
        Some (mkSys (s_db s') (s_held s') (s_sent s') (s_rejected s') (s_attempts s')
                (id :: s_used s'))
  | EFetch w limit =>
      if existsb (held_by w) (s_held s) then None
      else
        let found :=
          match snd (pgx_FetchLockAndMarkPublishing ctx limit (s_db s)) with
          | Ret (Ok msgs) => msgs
          | _ => []
          end in
        Some (call (RFetchBatch limit) s
                (s_held s ++ ((fun m => mkHeld w m None) <$> found)))
  | EPublish i answer accepted =>
      h ← s_held s !! i;
      match h_answer h, answer, accepted with
      | Some _, _, _ => None
      | None, None, false => None
      | None, _, _ =>
          let id := ID (h_msg h) in
          let rejected := match answer with
                          | Some _ => negb (IsRetryable answer)
                          | None => false
                          end in
          Some (mkSys (s_db s) (<[i := mkHeld (h_worker h) (h_msg h) (Some answer)]> (s_held s))
                  (if accepted then id :: s_sent s else s_sent s)
                  (if rejected then id :: s_rejected s else s_rejected s)
                  (fun id' => if bool_decide (id' = id) then S (s_attempts s id')
                              else s_attempts s id')
                  (s_used s))
      end
  | EClose i =>
      h ← s_held s !! i;
      c ← closing_call h;
      Some (call c s (delete i (s_held s)))
  | ECloseBatch w =>
      let mine h := held_by w h && succeeded h in
      Some (call (RBatchToPublished ((ID ∘ h_msg) <$> List.filter mine (s_held s))) s
              (List.filter (fun h => negb (mine h)) (s_held s)))
  | ECrash w =>
      Some (mkSys (s_db s) (List.filter (fun h => negb (held_by w h)) (s_held s))
              (s_sent s) (s_rejected s) (s_attempts s) (s_used s))
  | ERequeue => Some (call RRequeue s (s_held s))
  | ERevive => Some (call RRevive s (s_held s))
  | EDelete statuses age => Some (call (RDelete statuses age) s (s_held s))
  end.

Definition run_events (es : list Event) (s : Sys) : option Sys :=
  foldl (fun acc e => acc ≫= sys_step e) (Some s) es.
End Steps.

(** An empty table, whatever the environments of the calls to come. *)
Definition initial (envs : nat -> StmtEnv) : Sys :=
  mkSys (mkDB ∅ envs 0) [] [] [] (fun _ => 0%nat) [].

(** ** The invariant *)

Definition pending (s : Sys) (id : string) : nat :=
  length (List.filter (fun h => bool_decide (ID (h_msg h) = id)
                                && bool_decide (h_answer h = None)) (s_held s)).

(** Publishes of a message, those a worker is about to make included. *)
Definition claims (s : Sys) (id : string) : Z := Z.of_nat (s_attempts s id + pending s id).

(** The publishes a row can have had. *)
Definition claims_ok (n : Z) (r : Outbox) : Prop :=
  n <= Z.max 1 (MaxAttempts r - 1)
  /\ match Status r with
     | ENQUEUED => 1 <= AttemptCount r < 2 ^ 31 /\ n <= AttemptCount r - 1
                   /\ (AttemptCount r = 1 \/ AttemptCount r < MaxAttempts r)
     | PUBLISHING => 1 <= AttemptCount r < 2 ^ 31 /\ n <= AttemptCount r
                     /\ (AttemptCount r = 1 \/ AttemptCount r < MaxAttempts r)
     | FAILED => 1 <= AttemptCount r < 2 ^ 31 /\ n <= AttemptCount r - 1
     | PUBLISHED | DEAD => True
     end.

(** What a held message says of its row. *)
Definition snapshot_ok (t : table) (h : Held) : Prop :=
  1 <= AttemptCount (h_msg h) < 2 ^ 31
  /\ forall r, t !! ID (h_msg h) = Some r -> Status r <> DEAD ->
     AttemptCount (h_msg h) <= AttemptCount r /\ MaxAttempts r = MaxAttempts (h_msg h).

Definition answer_ok (s : Sys) (h : Held) : Prop :=
  match h_answer h with
  | None => True
  | Some None => ID (h_msg h) ∈ s_sent s
  | Some (Some e) => IsRetryable (Some e) = false -> ID (h_msg h) ∈ s_rejected s
  end.

(** The claim a final row rests on. *)
Definition outcome_ok (s : Sys) (id : string) (r : Outbox) : Prop :=
  match Status r with
  | PUBLISHED => id ∈ s_sent s
  | DEAD => AttemptCount r = MaxAttempts r \/ id ∈ s_rejected s
  | _ => True
  end.

Record Inv (s : Sys) : Prop := {
  inv_env : forall n, env_ok (db_env (s_db s) n);
  inv_wf : well_formed (s_table s);
  inv_used : forall id r, s_table s !! id = Some r -> id ∈ s_used s;
  inv_held_used : Forall (fun h => ID (h_msg h) ∈ s_used s) (s_held s);
  inv_attempts_used : forall id, s_attempts s id <> 0%nat -> id ∈ s_used s;
  inv_answers : Forall (answer_ok s) (s_held s);
  inv_snapshots : Forall (snapshot_ok (s_table s)) (s_held s);
  inv_outcomes : forall id r, s_table s !! id = Some r -> outcome_ok s id r;
  inv_claims : forall id r, s_table s !! id = Some r -> claims_ok (claims s id) r
}.

(** ** Preservation: rows *)

Lemma claims_change c r r' n n' :
  change c r r' -> (forall limit, c <> RFetchBatch limit) -> claims_ok n r -> n' <= n ->
  claims_ok n' r'.
Proof.
  unfold claims_ok. intros Hc Hf [Hn Hs] Hle.
  destruct Hc as [c r|limit r now Es|id r now Es Eid|ids r now Es Eid|id m r retry now Es Eid Ei
    |id m r now Es Eid|r now Es Ea|m r now Es Ea|m r retry now Es Ea Ei];
    try (by destruct (Hf limit)); simpl in *; try rewrite Es in Hs; unfold in_int4 in *;
    bool_to_prop; try lia.
  destruct (Status r); lia.
Qed.

Lemma claims_claim r now n :
  claims_ok n r -> Status r = ENQUEUED -> claims_ok (n + 1) (with_status PUBLISHING now r).
Proof. unfold claims_ok. simpl. intros [Hn Hs] E. rewrite E in Hs. lia. Qed.

Lemma claims_le n n' r : claims_ok n r -> n' <= n -> claims_ok n' r.
Proof. unfold claims_ok. intros [Hn Hs] Hle. destruct (Status r); lia. Qed.

Lemma snapshot_change c r r' a m :
  change c r r' -> (Status r <> DEAD -> a <= AttemptCount r /\ MaxAttempts r = m) ->
  Status r' <> DEAD -> a <= AttemptCount r' /\ MaxAttempts r' = m.
Proof.
  intros Hc H. destruct Hc as [c r|limit r now Es|id r now Es Eid|ids r now Es Eid
    |id m' r retry now Es Eid Ei|id m' r now Es Eid|r now Es Ea|m' r now Es Ea
    |m' r retry now Es Ea Ei]; simpl; try done;
    try (destruct H as [H1 H2]; [by rewrite Es|]; split; [lia|done]).
Qed.

(** What a call must rest on to write a final status. *)
Definition justified (s : Sys) (c : RepoCall) : Prop :=
  match c with
  | RToPublished id => id ∈ s_sent s
  | RBatchToPublished ids => forall id, id ∈ ids -> id ∈ s_sent s
  | RToDead id _ =>
      id ∈ s_rejected s
      \/ forall r, s_table s !! id = Some r -> Status r <> DEAD ->
         MaxAttempts r <= AttemptCount r + 1
  | _ => True
  end.

Lemma outcome_change s c id r r' :
  s_table s !! id = Some r -> ID r = id -> change c r r' -> justified s c ->
  outcome_ok s id r -> outcome_ok s id r'.
Proof.
  intros Hr Hid Hc Hj Ho.
  destruct Hc as [c r|limit r now Es|id' r now Es Eid|ids r now Es Eid
    |id' m' r retry now Es Eid Ei|id' m' r now Es Eid|r now Es Ea|m' r now Es Ea
    |m' r retry now Es Ea Ei]; unfold outcome_ok in *; simpl in *; try done; subst.
  - by apply Hj.
  - by apply Hj.
  - destruct Hj as [Hj|Hj]; [by right|]. left.
    specialize (Hj r Hr). rewrite Es in Hj. specialize (Hj ltac:(done)). lia.
  - by left.
Qed.

(** A call that is no fetch, and the messages held after it. *)
Lemma inv_call s s' c :
  Inv s -> (forall limit, c <> RFetchBatch limit) -> justified s c ->
  (forall n, env_ok (db_env (s_db s') n)) -> well_formed (s_table s') ->
  call_rows c (current_env (s_db s)) (s_table s) (s_table s') ->
  s_sent s' = s_sent s -> s_rejected s' = s_rejected s -> s_attempts s' = s_attempts s ->
  (forall id, id ∈ s_used s -> id ∈ s_used s') ->
  (forall p, c = RInsert p -> (e_uuid (current_env (s_db s)) ∉ s_used s)
                            /\ (e_uuid (current_env (s_db s)) ∈ s_used s')) ->
  (forall h, h ∈ s_held s' -> h ∈ s_held s) ->
  (forall id, (pending s' id <= pending s id)%nat) ->
  Inv s'.
Proof.
  intros [He Hwf Hu Hhu Hau Ha Hsn Ho Hcl] Hnf Hj He' Hwf' Hrows Es Er Eat Hus Hins Hheld Hpend.
  rewrite Forall_forall in Hhu, Ha, Hsn.
  assert (Hclaims : forall id, claims s' id <= claims s id)
    by (intros id; unfold claims; rewrite Eat; specialize (Hpend id); lia).
  assert (Hnew : forall id r', s_table s' !! id = Some r' ->
    (exists r, s_table s !! id = Some r /\ change c r r')
    \/ ((id ∉ s_used s) /\ (id ∈ s_used s') /\ fresh_row r')).
  { intros id r' Hr'. destruct (Hrows id r' Hr') as [Hex|(p & -> & _ & -> & _ & Hfr)];
      [by left|right]. by destruct (Hins p eq_refl). }
  split; try done.
  - intros id r' Hr'. destruct (Hnew id r' Hr') as [(r & Hr & _)|(_ & Hin & _)]; [|done].
    by apply Hus, (Hu id r).
  - apply Forall_forall. intros h Hh. by apply Hus, Hhu, Hheld.
  - intros id Hne. rewrite Eat in Hne. by apply Hus, Hau.
  - apply Forall_forall. intros h Hh. specialize (Ha h (Hheld h Hh)). unfold answer_ok in *.
    destruct (h_answer h) as [[e|]|]; [|by rewrite Es|done]. by rewrite Er.
  - apply Forall_forall. intros h Hh. destruct (Hsn h (Hheld h Hh)) as [Hb Hrow].
    split; [done|]. intros r' Hr' Hd.
    destruct (Hnew _ r' Hr') as [(r & Hr & Hc)|(Hno & _)].
    + destruct (snapshot_change c r r' (AttemptCount (h_msg h)) (MaxAttempts (h_msg h)) Hc
        (Hrow r Hr) Hd). done.
    + destruct Hno. by apply Hhu, Hheld.
  - intros id r' Hr'.
    assert (Hout : outcome_ok s id r').
    { destruct (Hnew id r' Hr') as [(r & Hr & Hc)|(_ & _ & Hfr)].
      - apply (outcome_change s c id r r' Hr); [|done|done|by apply Ho].
        by apply (proj1 Hwf id r).
      - unfold outcome_ok. by rewrite (proj1 Hfr). }
    unfold outcome_ok in *. rewrite Es, Er. done.
  - intros id r' Hr'. destruct (Hnew id r' Hr') as [(r & Hr & Hc)|(Hno & _ & Hfr)].
    + apply (claims_change c r r' (claims s id)); [done|done|by apply Hcl|apply Hclaims].
    + assert (H0 : claims s' id <= 0).
      { etrans; [apply Hclaims|]. unfold claims.
        assert (s_attempts s id = 0%nat).
        { destruct (s_attempts s id) eqn:E; [done|]. destruct Hno. apply Hau. by rewrite E. }
        assert (pending s id = 0%nat); [|lia].
        unfold pending. apply length_zero_iff_nil, elem_of_nil_inv. intros h Hh.
        apply list_elem_of_In, List.filter_In in Hh as [Hh HP]. bool_to_prop.
        apply Hno. subst id. apply Hhu. by apply list_elem_of_In. }
      destruct Hfr as (Est & Eac & _). unfold claims_ok. rewrite Est, Eac. lia.
Qed.

(** ** Preservation: events *)

Section Preservation.
Variable jsonb : string -> option string.
Variable repo : OutboxRepo.
Variable ctx : Context.
Abbreviation run_call := (repo_call jsonb repo ctx).

Lemma pending_sub s s' (f : Held -> bool) :
  s_held s' = List.filter f (s_held s) ->
  (forall h, h ∈ s_held s' -> h ∈ s_held s) /\ forall id, (pending s' id <= pending s id)%nat.
Proof.
  intros E. split.
  - intros h. rewrite E, !list_elem_of_In, List.filter_In. tauto.
  - intros id. unfold pending. rewrite E. generalize (s_held s). intros l.
    induction l as [|h l IH]; simpl; [lia|].
    destruct (f h); simpl; destruct (_ && _); simpl; lia.
Qed.

Lemma pending_delete s s' i :
  s_held s' = delete i (s_held s) ->
  (forall h, h ∈ s_held s' -> h ∈ s_held s) /\ forall id, (pending s' id <= pending s id)%nat.
Proof.
  intros E.
  assert (Hsub : sublist (s_held s') (s_held s)) by (rewrite E; apply sublist_delete).
  split.
  - intros h Hh. by eapply elem_of_submseteq; [|apply sublist_submseteq, Hsub].
  - intros id. unfold pending. generalize dependent Hsub. clear E.
    induction 1 as [|h l1 l2 _ IH|h l1 l2 _ IH]; simpl; [lia| |];
      destruct (_ && _); simpl; lia.
Qed.

(** A call of the running system that is no fetch. *)
Lemma inv_system_call s c held :
  Inv s -> system_call c = true -> (forall limit, c <> RFetchBatch limit) ->
  (forall p, c <> RInsert p) -> justified s c ->
  (forall h, h ∈ held -> h ∈ s_held s) ->
  (forall id, (pending (call jsonb repo ctx c s held) id <= pending s id)%nat) ->
  Inv (call jsonb repo ctx c s held).
Proof.
  intros Hinv Hc Hnf Hni Hj Hh Hp.
  pose proof (inv_env s Hinv (db_calls (s_db s))) as Hec.
  pose proof (inv_wf s Hinv) as Hwf.
  apply (inv_call s _ c Hinv Hnf Hj); try done.
  - intros n. simpl. rewrite repo_call_env. apply (inv_env s Hinv).
  - by apply (repo_call_legal jsonb repo ctx c (s_db s) Hec Hwf).
  - apply repo_call_rows; [done|by destruct Hwf|done].
  - intros p E. by destruct (Hni p).
Qed.

Lemma closing_justified s i h c :
  Inv s -> s_held s !! i = Some h -> closing_call h = Some c ->
  justified s c /\ system_call c = true /\ (forall limit, c <> RFetchBatch limit)
  /\ (forall p, c <> RInsert p).
Proof.
  intros Hinv Hi. pose proof (inv_answers s Hinv) as Ha. pose proof (inv_snapshots s Hinv) as Hs.
  rewrite Forall_lookup in Ha, Hs. specialize (Ha i h Hi). specialize (Hs i h Hi).
  unfold closing_call, answer_ok in *.
  destruct (h_answer h) as [[e|]|]; [|intros [= <-]; by split_and!|done].
  destruct (marks_dead (h_msg h) e) eqn:Em; intros [= <-]; (split; [|by split_and!]); [|done].
  unfold justified. unfold marks_dead in Em.
  destruct (IsRetryable (Some e)) eqn:Er; [right|left; by apply Ha].
  simpl in Em. unfold WillExceedMaxAttemptsAfterFailure in Em. bool_to_prop.
  destruct Hs as [Hb Hrow]. rewrite wrap64_id in Em by (unfold in_int64; lia).
  intros r Hr Hd. destruct (Hrow r Hr Hd) as [Hle Hm]. lia.
Qed.

(** What a fetch that answered gives: ENQUEUED rows, each once, now
    PUBLISHING. *)
Lemma fetch_found s limit msgs :
  Inv s -> snd (pgx_FetchLockAndMarkPublishing ctx limit (s_db s)) = Ret (Ok msgs) ->
  NoDup (ID <$> msgs)
  /\ forall m, m ∈ msgs -> exists r now,
      s_table s !! ID m = Some r /\ Status r = ENQUEUED
      /\ db_table (run_call (RFetchBatch limit) (s_db s)) !! ID m
         = Some (with_status PUBLISHING now r)
      /\ AttemptCount m = AttemptCount r /\ MaxAttempts m = MaxAttempts r.
Proof.
  intros Hinv. pose proof (inv_env s Hinv (db_calls (s_db s))) as Henv.
  destruct (inv_wf s Hinv) as [Hk _]. unfold s_table in *.
  unfold repo_call, pgx_FetchLockAndMarkPublishing, exec.
  change (db_env (s_db s) (db_calls (s_db s))) with (current_env (s_db s)) in Henv.
  set (env := current_env (s_db s)) in *. set (t := db_table (s_db s)) in *.
  unfold queryFetchLockAndMarkPublishing. destruct (limit <? 0).
  { destruct (e_fault env) as [[e a]|]; simpl; congruence. }
  set (picked := locked env (Z.to_nat limit) t).
  destruct (e_fault env) as [[e a]|]; simpl; [congruence|]. intros [= <-].
  change (fold_left _ picked t) with (fold_left (fun t r => <[ID r := mark env r]> t) picked t).
  assert (Hids : (ID <$> (without_retry <$> e_scan env
                    ((fun r => with_status PUBLISHING (e_set env (ID r)) r) <$> picked)))
                 ≡ₚ (ID <$> picked)).
  { rewrite (scan_ok env Henv), <- !list_fmap_compose. reflexivity. }
  split; [rewrite Hids; by apply locked_NoDup|].
  intros m Hm. apply list_elem_of_fmap in Hm as (m' & -> & Hm).
  rewrite (scan_ok env Henv) in Hm. apply list_elem_of_fmap in Hm as (r & -> & Hr).
  pose proof (locked_in_table env Henv (Z.to_nat limit) t Hk) as Hall.
  rewrite Forall_forall in Hall. pose proof (Hall r Hr) as Hin.
  pose proof (locked_spec env Henv _ _ _ Hr) as [_ Hl]. unfold lockable in Hl. row_guard.
  exists r, (e_set env (ID r)). simpl. split; [done|]. split; [done|]. split; [|done].
  rewrite (fold_mark_lookup env) by first [by apply locked_NoDup | by apply locked_in_table].
  rewrite decide_True by (by apply list_elem_of_fmap_2). by rewrite Hin.
Qed.

Lemma pending_app s s' w msgs id :
  s_held s' = s_held s ++ ((fun m => mkHeld w m None) <$> msgs) -> NoDup (ID <$> msgs) ->
  pending s' id = (pending s id + if decide (id ∈ ID <$> msgs) then 1 else 0)%nat.
Proof.
  intros E Hd. unfold pending. rewrite E, List.filter_app, length_app. f_equal. clear E.
  induction msgs as [|m msgs IH]; [done|].
  rewrite fmap_cons in Hd. apply NoDup_cons in Hd as [Hn Hd]. specialize (IH Hd).
  cbn [fmap list_fmap List.filter h_msg h_answer].
  rewrite (bool_decide_eq_true_2 (None = None)) by done. rewrite andb_true_r.
  case_bool_decide as Hm; cbn [length].
  - rewrite IH. subst id. rewrite decide_False by done.
    rewrite decide_True by (by apply list_elem_of_here). done.
  - rewrite IH. destruct (decide (id ∈ ID <$> msgs)).
    + rewrite decide_True; [done|]. by apply list_elem_of_further.
    + rewrite decide_False; [done|]. apply not_elem_of_cons. done.
Qed.

(** What a fetch adds to the state: [msgs], held by [w]. *)
Record Fetched (s : Sys) (w : nat) (limit : Z) (msgs : list Outbox) (s' : Sys) : Prop := {
  fd_state : s' = call jsonb repo ctx (RFetchBatch limit) s
                    (s_held s ++ ((fun m => mkHeld w m None) <$> msgs));
  fd_once : NoDup (ID <$> msgs);
  fd_rows m : m ∈ msgs -> exists r now,
    s_table s !! ID m = Some r /\ Status r = ENQUEUED
    /\ s_table s' !! ID m = Some (with_status PUBLISHING now r)
    /\ AttemptCount m = AttemptCount r /\ MaxAttempts m = MaxAttempts r;
  fd_step id r' : s_table s' !! id = Some r' ->
    exists r, s_table s !! id = Some r /\ change (RFetchBatch limit) r r'
}.

Lemma fetched s w limit s' :
  Inv s -> sys_step jsonb repo ctx (EFetch w limit) s = Some s' ->
  exists msgs, Fetched s w limit msgs s'.
Proof.
  intros Hinv Hs. simpl in Hs. destruct (existsb _ _); [discriminate|]. injection Hs as <-.
  pose proof (inv_env s Hinv (db_calls (s_db s))) as Hec.
  pose proof (inv_wf s Hinv) as Hwf.
  eexists. split; [reflexivity| | |].
  - destruct (snd _) as [[l|e]|why] eqn:E; [|apply NoDup_nil_2|apply NoDup_nil_2].
    by destruct (fetch_found s limit l Hinv E).
  - intros m Hm. destruct (snd _) as [[l|e]|why] eqn:E;
      [|by apply not_elem_of_nil in Hm|by apply not_elem_of_nil in Hm].
    by apply (fetch_found s limit l Hinv E).
  - intros id r' Hr'.
    assert (Hrows : call_rows (RFetchBatch limit) (current_env (s_db s)) (s_table s)
                      (db_table (run_call (RFetchBatch limit) (s_db s))))
      by (apply repo_call_rows; [done|by destruct Hwf|done]).
    by destruct (Hrows id r' Hr') as [?|(p & ? & _)].
Qed.

Lemma fetched_held s w limit msgs s' h :
  Fetched s w limit msgs s' -> h ∈ s_held s' ->
  h ∈ s_held s \/ exists m, m ∈ msgs /\ h = mkHeld w m None.
Proof.
  intros Hf Hh. rewrite (fd_state _ _ _ _ _ Hf) in Hh. simpl in Hh.
  apply elem_of_app in Hh as [Hh|Hh]; [by left|].
  right. apply list_elem_of_fmap in Hh as (m & -> & Hm). eauto.
Qed.

Lemma fetched_snapshot s w limit msgs s' h :
  Inv s -> Fetched s w limit msgs s' -> h ∈ s_held s' -> snapshot_ok (s_table s') h.
Proof.
  intros [_ _ _ _ _ _ Hsn _ Hcl] Hf Hh. rewrite Forall_forall in Hsn.
  destruct (fetched_held _ _ _ _ _ _ Hf Hh) as [Hh'|(m & Hm & ->)].
  - destruct (Hsn h Hh') as [Hb Hrow]. split; [done|]. intros r' Hr' Hd.
    destruct (fd_step _ _ _ _ _ Hf _ r' Hr') as (r & Hr & Hc).
    destruct (snapshot_change _ r r' (AttemptCount (h_msg h)) (MaxAttempts (h_msg h)) Hc
      (Hrow r Hr) Hd). done.
  - destruct (fd_rows _ _ _ _ _ Hf m Hm) as (r & now & Hr & Est & Hr' & Ea & Em).
    unfold snapshot_ok. simpl. pose proof (Hcl _ r Hr) as [_ Hc]. rewrite Est in Hc.
    split; [lia|]. intros r'. rewrite Hr'. intros [= <-] _. simpl. lia.
Qed.

Lemma fetched_claims s w limit msgs s' id r' :
  Inv s -> Fetched s w limit msgs s' -> s_table s' !! id = Some r' -> claims_ok (claims s' id) r'.
Proof.
  intros Hinv Hf Hr'. destruct (fd_step _ _ _ _ _ Hf id r' Hr') as (r & Hr & Hc).
  pose proof (inv_claims s Hinv id r Hr) as Hcl.
  pose proof (f_equal s_held (fd_state _ _ _ _ _ Hf)) as Eheld.
  pose proof (f_equal s_attempts (fd_state _ _ _ _ _ Hf)) as Eatt. simpl in Eheld, Eatt.
  assert (Ecl : claims s' id = claims s id + if decide (id ∈ ID <$> msgs) then 1 else 0).
  { unfold claims. rewrite (pending_app s s' w msgs id Eheld (fd_once _ _ _ _ _ Hf)), Eatt.
    destruct (decide (id ∈ ID <$> msgs)); lia. }
  rewrite Ecl. destruct (decide (id ∈ ID <$> msgs)) as [Hin|Hout].
  - apply list_elem_of_fmap in Hin as (m & -> & Hm).
    destruct (fd_rows _ _ _ _ _ Hf m Hm) as (r0 & now & Hr0 & Est & Hr0' & _).
    rewrite Hr0 in Hr. injection Hr as ->. rewrite Hr0' in Hr'. injection Hr' as <-.
    by apply claims_claim.
  - rewrite Z.add_0_r. inversion Hc; subst; [done|].
    apply (claims_le (claims s id + 1)); [by apply claims_claim|lia].
Qed.

Lemma inv_fetch s w limit :
  Inv s -> forall s', sys_step jsonb repo ctx (EFetch w limit) s = Some s' -> Inv s'.
Proof.
  intros Hinv s' Hs. destruct (fetched s w limit s' Hinv Hs) as [msgs Hf].
  pose proof (fetched_held s w limit msgs s') as Hheld.
  pose proof (fetched_snapshot s w limit msgs s') as Hsnap.
  pose proof (fetched_claims s w limit msgs s') as Hclaims.
  pose proof (fd_step _ _ _ _ _ Hf) as Hstep. pose proof (fd_rows _ _ _ _ _ Hf) as Hfound.
  pose proof (fd_state _ _ _ _ _ Hf) as Es.
  pose proof (inv_env s Hinv (db_calls (s_db s))) as Hec.
  pose proof Hinv as [He Hwf Hu Hhu Hau Ha _ Ho _]. rewrite Forall_forall in Hhu, Ha.
  assert (Eused : s_used s' = s_used s) by (by rewrite Es).
  split.
  - intros n. rewrite Es. simpl. rewrite repo_call_env. apply He.
  - rewrite Es. apply (repo_call_legal jsonb repo ctx (RFetchBatch limit) (s_db s) Hec Hwf).
  - intros id r' Hr'. rewrite Eused. destruct (Hstep id r' Hr') as (r & Hr & _). by apply (Hu id r).
  - apply Forall_forall. intros h Hh. rewrite Eused.
    destruct (Hheld h Hf Hh) as [Hh'|(m & Hm & ->)]; [by apply Hhu|].
    destruct (Hfound m Hm) as (r & now & Hr & _). by apply (Hu _ r).
  - rewrite Es. done.
  - apply Forall_forall. intros h Hh.
    destruct (Hheld h Hf Hh) as [Hh'|(m & Hm & ->)]; [|done]. rewrite Es. by apply Ha.
  - apply Forall_forall. intros h Hh. by apply Hsnap.
  - intros id r' Hr'. destruct (Hstep id r' Hr') as (r & Hr & Hc).
    assert (Hoc : outcome_ok s id r'); [|by rewrite Es].
    apply (outcome_change s (RFetchBatch limit) id r r' Hr); [|done|done|by apply Ho].
    by apply (proj1 Hwf id r).
  - intros id r' Hr'. by apply Hclaims.
Qed.

Lemma filter_insert_same (f : Held -> bool) l i h h' :
  l !! i = Some h -> f h = f h' ->
  length (List.filter f (<[i:=h']> l)) = length (List.filter f l).
Proof.
  revert i. induction l as [|x l IH]; intros [|i] Hi Hf; try done.
  - injection Hi as ->. simpl. rewrite Hf. by destruct (f h').
  - simpl. specialize (IH i Hi Hf). destruct (f x); simpl; lia.
Qed.

Lemma filter_insert_drop (f : Held -> bool) l i h h' :
  l !! i = Some h -> f h = true -> f h' = false ->
  S (length (List.filter f (<[i:=h']> l))) = length (List.filter f l).
Proof.
  revert i. induction l as [|x l IH]; intros [|i] Hi Hf Hf'; try done.
  - injection Hi as ->. simpl. by rewrite Hf, Hf'.
  - simpl. specialize (IH i Hi Hf Hf'). destruct (f x); simpl; lia.
Qed.

(** An answer turns a claim of its message into an attempt. *)
Lemma publish_pending s i h answer id :
  s_held s !! i = Some h -> h_answer h = None ->
  let held' := <[i := mkHeld (h_worker h) (h_msg h) (Some answer)]> (s_held s) in
  let waits id := List.filter (fun h0 => bool_decide (ID (h_msg h0) = id)
                                         && bool_decide (h_answer h0 = None)) in
  (length (waits id held') + (if bool_decide (id = ID (h_msg h)) then 1 else 0))%nat
  = length (waits id (s_held s)).
Proof.
  intros Hi Eh held' waits. case_bool_decide as Hid.
  - subst id. rewrite Nat.add_1_r. apply (filter_insert_drop _ _ i h); [done| |].
    + rewrite Eh. by rewrite !bool_decide_eq_true_2.
    + simpl. by rewrite andb_false_r.
  - rewrite Nat.add_0_r. unfold waits, held'. rewrite (filter_insert_same _ _ i h _ Hi); [done|].
    simpl. by rewrite !bool_decide_eq_false_2 by done.
Qed.

(** The ghost state only grows when a publisher answers. *)
Lemma inv_publish s i answer accepted s' :
  Inv s -> sys_step jsonb repo ctx (EPublish i answer accepted) s = Some s' -> Inv s'.
Proof.
  intros [He Hwf Hu Hhu Hau Ha Hsn Ho Hcl]. simpl.
  destruct (s_held s !! i) as [h|] eqn:Hi; simpl; [|discriminate].
  destruct (h_answer h) eqn:Eh; [discriminate|]. intros Hs.
  assert (Hs' : (answer = None -> accepted = true) /\
    s' = mkSys (s_db s) (<[i := mkHeld (h_worker h) (h_msg h) (Some answer)]> (s_held s))
           (if accepted then ID (h_msg h) :: s_sent s else s_sent s)
           (if match answer with Some _ => negb (IsRetryable answer) | None => false end
            then ID (h_msg h) :: s_rejected s else s_rejected s)
           (fun id' => if bool_decide (id' = ID (h_msg h)) then S (s_attempts s id')
                       else s_attempts s id') (s_used s)).
  { destruct answer, accepted; try discriminate; by injection Hs as <-. }
  clear Hs. destruct Hs' as [Hacc ->]. rewrite Forall_lookup in Hhu, Ha, Hsn.
  set (s' := mkSys _ _ _ _ _ _).
  assert (Hsent : forall id, id ∈ s_sent s -> id ∈ s_sent s').
  { intros id Hid. unfold s'. simpl. destruct accepted; [by apply list_elem_of_further|done]. }
  assert (Hrej : forall id, id ∈ s_rejected s -> id ∈ s_rejected s').
  { intros id Hid. unfold s'. cbn [s_rejected].
    destruct (match answer with Some _ => _ | None => _ end);
      [by apply list_elem_of_further|done]. }
  assert (Hheld : forall j x, s_held s' !! j = Some x ->
    (s_held s !! j = Some x) \/ x = mkHeld (h_worker h) (h_msg h) (Some answer)).
  { intros j x Hx. unfold s' in Hx. cbn [s_held] in Hx.
    apply list_lookup_insert_Some in Hx as [(-> & <- & _)|[_ Hx]]; [by right|by left]. }
  split; try done.
  - apply Forall_lookup. intros j x Hx. destruct (Hheld j x Hx) as [Hx'| ->].
    + by apply (Hhu j x).
    + by apply (Hhu i h).
  - intros id. unfold s'. cbn [s_attempts s_used]. case_bool_decide as Hid; [|apply Hau].
    intros _. subst id. by apply (Hhu i h).
  - apply Forall_lookup. intros j x Hx. destruct (Hheld j x Hx) as [Hx'| ->].
    + specialize (Ha j x Hx'). unfold answer_ok in *.
      destruct (h_answer x) as [[e|]|]; [|by apply Hsent|done].
      intros E. by apply Hrej, Ha.
    + unfold answer_ok, s'. cbn [h_answer h_msg s_sent s_rejected].
      destruct answer as [e|].
      * intros ->. simpl. by apply list_elem_of_here.
      * rewrite Hacc by done. by apply list_elem_of_here.
  - apply Forall_lookup. intros j x Hx. destruct (Hheld j x Hx) as [Hx'| ->].
    + by apply (Hsn j x).
    + apply (Hsn i h Hi).
  - intros id r Hr. specialize (Ho id r Hr). unfold outcome_ok in *.
    destruct (Status r); try done; [by apply Hsent|]. destruct Ho; [by left|right; by apply Hrej].
  - intros id r Hr. apply (claims_le (claims s id)); [by apply Hcl|].
    unfold claims, pending, s'. cbn [s_attempts s_held].
    rewrite <- (publish_pending s i h answer id Hi Eh). case_bool_decide; lia.
Qed.

Lemma inv_insertion s p s' :
  Inv s -> sys_step jsonb repo ctx (EInsert p) s = Some s' -> Inv s'.
Proof.
  intros Hinv. simpl. case_bool_decide as Hfresh; [discriminate|]. intros [= <-].
  pose proof (inv_env s Hinv (db_calls (s_db s))) as Hec.
  pose proof (inv_wf s Hinv) as Hwf.
  apply (inv_call s _ (RInsert p) Hinv); try done.
  - intros n. simpl. rewrite repo_call_env. apply (inv_env s Hinv).
  - by apply (repo_call_legal jsonb repo ctx (RInsert p) (s_db s) Hec Hwf).
  - apply repo_call_rows; [done|by destruct Hwf|done].
  - intros id Hid. by apply list_elem_of_further.
  - intros p' _. split; [done|]. by apply list_elem_of_here.
Qed.

Lemma inv_close_batch s w s' :
  Inv s -> sys_step jsonb repo ctx (ECloseBatch w) s = Some s' -> Inv s'.
Proof.
  intros Hinv. simpl. intros [= <-].
  set (held := List.filter (fun h => negb (held_by w h && succeeded h)) (s_held s)).
  set (c := RBatchToPublished _).
  destruct (pending_sub s (call jsonb repo ctx c s held) _ eq_refl) as [Hsub Hp].
  apply inv_system_call; [done|done|done|done| |exact Hsub|exact Hp].
  unfold c. simpl. intros id Hid.
  apply list_elem_of_fmap in Hid as (h & -> & Hh).
  apply list_elem_of_In, List.filter_In in Hh as [Hh Hm]. apply list_elem_of_In in Hh.
  pose proof (inv_answers s Hinv) as Ha. rewrite Forall_forall in Ha.
  specialize (Ha h Hh). apply andb_true_iff in Hm as [_ Hm].
  unfold answer_ok, succeeded in *. by destruct (h_answer h) as [[e|]|].
Qed.

Lemma inv_crash s w s' :
  Inv s -> sys_step jsonb repo ctx (ECrash w) s = Some s' -> Inv s'.
Proof.
  intros [He Hwf Hu Hhu Hau Ha Hsn Ho Hcl]. simpl. intros [= <-].
  set (s' := mkSys _ _ _ _ _ _).
  destruct (pending_sub s s' _ eq_refl) as [Hsub Hp].
  rewrite Forall_forall in Hhu, Ha, Hsn.
  split; try done; try (apply Forall_forall; intros h Hh; apply Hsub in Hh).
  - by apply Hhu.
  - by apply Ha.
  - by apply Hsn.
  - intros id r Hr. apply (claims_le (claims s id)); [by apply Hcl|].
    unfold claims. specialize (Hp id). simpl. lia.
Qed.

Lemma inv_step s e s' : Inv s -> sys_step jsonb repo ctx e s = Some s' -> Inv s'.
Proof.
  intros Hinv. destruct e as [p|w limit|i answer accepted|i|w|w| | |ss age].
  - by apply inv_insertion.
  - by apply inv_fetch.
  - by apply inv_publish.
  - simpl. destruct (s_held s !! i) as [h|] eqn:Hi; simpl; [|discriminate].
    destruct (closing_call h) as [c|] eqn:Ec; simpl; [|discriminate]. intros [= <-].
    destruct (closing_justified s i h c Hinv Hi Ec) as (Hj & Hc & Hnf & Hni).
    destruct (pending_delete s (call jsonb repo ctx c s (delete i (s_held s))) i eq_refl).
    by apply inv_system_call.
  - by apply inv_close_batch.
  - by apply inv_crash.
  - simpl. intros [= <-]. by apply inv_system_call.
  - simpl. intros [= <-]. by apply inv_system_call.
  - simpl. intros [= <-]. by apply inv_system_call.
Qed.
End Preservation.

(** ** Reachable states *)

Inductive reachable jsonb repo ctx (envs : nat -> StmtEnv) : Sys -> Prop :=
| reach_initial : reachable jsonb repo ctx envs (initial envs)
| reach_step s e s' :
    reachable jsonb repo ctx envs s -> sys_step jsonb repo ctx e s = Some s' ->
    reachable jsonb repo ctx envs s'.

Lemma inv_initial envs : (forall n, env_ok (envs n)) -> Inv (initial envs).
Proof.
  intros He. split; try done; try (by intros id r Hr).
Qed.

Lemma reachable_inv jsonb repo ctx envs s :
  (forall n, env_ok (envs n)) -> reachable jsonb repo ctx envs s -> Inv s.
Proof.
  intros He. induction 1 as [|s e s' _ IH Hs]; [by apply inv_initial|].
  by apply (inv_step jsonb repo ctx s e).
Qed.

Lemma run_reachable jsonb repo ctx envs es : forall s s',
  reachable jsonb repo ctx envs s -> run_events jsonb repo ctx es s = Some s' ->
  reachable jsonb repo ctx envs s'.
Proof.
  unfold run_events. induction es as [|e es IH]; simpl; intros s s' Hr Hs.
  - by injection Hs as <-.
  - destruct (sys_step jsonb repo ctx e s) as [s1|] eqn:E.
    + apply (IH s1); [|done]. by eapply reach_step.
    + exfalso. clear -Hs. induction es; simpl in *; congruence.
Qed.

(** No message is reported delivered that was not: whatever crashes, fails
    and is interleaved, a row is PUBLISHED only when the broker accepted its
    message. *)
Theorem published_was_sent (jsonb : string -> option string) (repo : OutboxRepo) (ctx : Context)
  (envs : nat -> StmtEnv) (s : Sys) (id : string) (row : Outbox)
  (Henvs : forall n, env_ok (envs n)) (Hreach : reachable jsonb repo ctx envs s)
  (Hrow : s_table s !! id = Some row) (Hpub : Status row = PUBLISHED) :
  id ∈ s_sent s.
Proof.
  pose proof (inv_outcomes s (reachable_inv _ _ _ _ _ Henvs Hreach) id row Hrow) as Ho.
  unfold outcome_ok in Ho. by rewrite Hpub in Ho.
Qed.

(** A message is handed to the publisher at most [max_attempts - 1] times,
    once for a limit of one or less, by all workers together and across
    crashes and recoveries.  (The insertion counts as attempt 1 and the
    failure that reaches the limit is the last, so [max_attempts] itself is
    never reached.) *)
Theorem publish_attempts_bounded (jsonb : string -> option string) (repo : OutboxRepo)
  (ctx : Context) (envs : nat -> StmtEnv) (s : Sys) (id : string) (row : Outbox)
  (Henvs : forall n, env_ok (envs n)) (Hreach : reachable jsonb repo ctx envs s)
  (Hrow : s_table s !! id = Some row) :
  Z.of_nat (s_attempts s id) <= Z.max 1 (MaxAttempts row - 1).
Proof.
  pose proof (inv_claims s (reachable_inv _ _ _ _ _ Henvs Hreach) id row Hrow) as [Hc _].
  unfold claims in Hc. lia.
Qed.

(** C5: a message is DEAD only for a reason: its attempts are used up, or a
    publish of it failed with an error that is not retryable. *)
Theorem dead_is_justified (jsonb : string -> option string) (repo : OutboxRepo) (ctx : Context)
  (envs : nat -> StmtEnv) (s : Sys) (id : string) (row : Outbox)
  (Henvs : forall n, env_ok (envs n)) (Hreach : reachable jsonb repo ctx envs s)
  (Hrow : s_table s !! id = Some row) (Hdead : Status row = DEAD) :
  AttemptCount row = MaxAttempts row \/ id ∈ s_rejected s.
Proof.
  pose proof (inv_outcomes s (reachable_inv _ _ _ _ _ Henvs Hreach) id row Hrow) as Ho.
  unfold outcome_ok in Ho. by rewrite Hdead in Ho.
Qed.

(** ** Rows that do not move *)

(** Only a deletion removes rows. *)
Lemma exec_keeps {A} (stmt : StmtEnv -> table -> result error (table * A)) db id :
  (forall t' a, stmt (current_env db) (db_table db) = Ok (t', a) ->
    is_Some (db_table db !! id) -> is_Some (t' !! id)) ->
  is_Some (db_table db !! id) -> is_Some (db_table (fst (exec stmt db)) !! id).
Proof.
  intros H Hid. destruct (exec_cases stmt db) as (_ & _ & [E|(t' & a & E & Et)]).
  - by rewrite E.
  - rewrite Et. by apply (H t' a).
Qed.

Lemma update_keeps P set code t t' (n : Z) id :
  sql_update P set code t = Ok (t', n) -> is_Some (t !! id) -> is_Some (t' !! id).
Proof.
  intros Hu [r Hr]. rewrite (lookup_update _ _ _ _ _ _ Hu), Hr. by eexists.
Qed.

Lemma call_keeps jsonb repo ctx c db id :
  env_ok (current_env db) -> keyed (db_table db) ->
  system_call c = true -> (forall ss d, c <> RDelete ss d) ->
  is_Some (db_table db !! id) -> is_Some (db_table (repo_call jsonb repo ctx c db) !! id).
Proof.
  intros Henv Hk Hc Hd. destruct c; try discriminate Hc; try (by destruct (Hd statuses olderThan));
    unfold repo_call, pgx_Insert, pgx_FetchLockAndMarkPublishing, pgx_UpdateToPublished,
      pgx_UpdateBatchToPublished, pgx_UpdateToFailed, pgx_UpdateToDead, pgx_RequeueFailed,
      pgx_ReviveStuckPublishing;
    rewrite ?exec_bind;
    try match goal with |- context [match ?l with [] => _ | _ :: _ => _ end] => destruct l end;
    try done; apply exec_keeps; intros t' a; try apply update_keeps.
  - unfold queryInsert. intros H [r Hr]. repeat (break_hyp H; try discriminate).
    all: injection H as <- _; rewrite lookup_insert; case_decide; [by eexists|by rewrite Hr].
  - unfold queryFetchLockAndMarkPublishing. destruct (_ <? 0); [discriminate|].
    intros [= <- _] [r Hr]. set (picked := locked _ _ _).
    change (fold_left _ picked (db_table db)) with
      (fold_left (fun t r => <[ID r := mark (current_env db) r]> t) picked (db_table db)).
    rewrite (fold_mark_lookup (current_env db))
      by first [by apply locked_NoDup | by apply locked_in_table].
    rewrite Hr. case_decide; by eexists.
Qed.

(** A row nothing but a deletion changes: delivered, dead, or FAILED with its
    attempts used up. *)
Definition stranded (r : Outbox) : Prop :=
  Status r = FAILED /\ MaxAttempts r <= AttemptCount r.
Definition settled (r : Outbox) : Prop :=
  Status r = PUBLISHED \/ Status r = DEAD \/ stranded r.

Lemma settled_unchanged c r r' : change c r r' -> settled r -> r' = r.
Proof.
  unfold settled, stranded. intros Hc H.
  destruct Hc as [c r|limit r now Es|id r now Es Eid|ids r now Es Eid
    |id m' r retry now Es Eid Ei|id m' r now Es Eid|r now Es Ea|m' r now Es Ea
    |m' r retry now Es Ea Ei]; [done|..]; exfalso; rewrite Es in H;
    destruct H as [H|[H|[H Hle]]]; try discriminate H; lia.
Qed.

Definition is_delete (e : Event) : bool := match e with EDelete _ _ => true | _ => false end.

Lemma settled_call jsonb repo ctx c s id r :
  Inv s -> system_call c = true -> (forall ss d, c <> RDelete ss d) -> id ∈ s_used s ->
  s_table s !! id = Some r -> settled r ->
  db_table (repo_call jsonb repo ctx c (s_db s)) !! id = Some r.
Proof.
  intros Hinv Hc Hd Hu Hr Hset. pose proof (inv_env s Hinv (db_calls (s_db s))) as Henv.
  destruct (inv_wf s Hinv) as [Hk _].
  destruct (call_keeps jsonb repo ctx c (s_db s) id Henv Hk Hc Hd (ex_intro _ r Hr)) as [r' Hr'].
  destruct (repo_call_rows jsonb repo ctx c (s_db s) Henv Hk Hc id r' Hr')
    as [(r0 & Hr0 & Hch)|(p & _ & Hno & _)].
  - unfold s_table in Hr. rewrite Hr in Hr0. injection Hr0 as <-.
    by rewrite <- (settled_unchanged c r r' Hch Hset).
  - unfold s_table in Hr. congruence.
Qed.

(** An event leaves the table or makes one call. *)
Lemma step_call jsonb repo ctx e s s' :
  sys_step jsonb repo ctx e s = Some s' ->
  s_table s' = s_table s
  \/ exists c, system_call c = true /\ (forall ss age, c = RDelete ss age -> e = EDelete ss age)
       /\ (forall p, c = RInsert p -> e_uuid (current_env (s_db s)) ∉ s_used s)
       /\ s_table s' = db_table (repo_call jsonb repo ctx c (s_db s)).
Proof.
  intros Hs. destruct e as [p|w limit|i answer accepted|i|w|w| | |ss age]; simpl in Hs.
  - case_bool_decide; [discriminate|]. injection Hs as <-. right. by exists (RInsert p).
  - destruct (existsb _ _); [discriminate|]. injection Hs as <-. right. by exists (RFetchBatch limit).
  - destruct (s_held s !! i) as [h|]; simpl in Hs; [|discriminate]. left.
    destruct (h_answer h), answer, accepted; try discriminate; by injection Hs as <-.
  - destruct (s_held s !! i) as [h|] eqn:Hi; simpl in Hs; [|discriminate].
    destruct (closing_call h) as [c|] eqn:Ec; simpl in Hs; [|discriminate]. injection Hs as <-.
    right. exists c. unfold closing_call in Ec.
    destruct (h_answer h) as [[e|]|]; try discriminate; injection Ec as <-; [|done].
    by destruct (marks_dead (h_msg h) e).
  - injection Hs as <-. right. by eexists (RBatchToPublished _).
  - injection Hs as <-. by left.
  - injection Hs as <-. right. by exists RRequeue.
  - injection Hs as <-. right. by exists RRevive.
  - injection Hs as <-. right. exists (RDelete ss age). split; [done|].
    by split; [intros ?? [= <- <-]|split].
Qed.

Lemma settled_step jsonb repo ctx e s s' id r :
  Inv s -> sys_step jsonb repo ctx e s = Some s' -> is_delete e = false ->
  s_table s !! id = Some r -> settled r -> s_table s' !! id = Some r.
Proof.
  intros Hinv Hs Hd Hr Hset. pose proof (inv_used s Hinv id r Hr) as Hu.
  destruct (step_call jsonb repo ctx e s s' Hs) as [->|(c & Hc & Hdel & _ & ->)]; [done|].
  apply settled_call; try done. intros ss age ->. by rewrite (Hdel ss age eq_refl) in Hd.
Qed.

Lemma run_none jsonb repo ctx es :
  foldl (fun acc e => acc ≫= sys_step jsonb repo ctx e) None es = None.
Proof. induction es; simpl; done. Qed.

Lemma settled_run jsonb repo ctx es : forall s s' id r,
  Inv s -> run_events jsonb repo ctx es s = Some s' ->
  Forall (fun e => is_delete e = false) es ->
  s_table s !! id = Some r -> settled r -> s_table s' !! id = Some r.
Proof.
  unfold run_events. induction es as [|e es IH]; simpl; intros s s' id r Hinv Hs Hd Hr Hset.
  - by injection Hs as <-.
  - apply Forall_cons in Hd as [Hd Hds].
    destruct (sys_step jsonb repo ctx e s) as [s1|] eqn:E; [|by rewrite run_none in Hs].
    apply (IH s1 s' id r); [by apply (inv_step jsonb repo ctx s e)|done|done| |done].
    by apply (settled_step jsonb repo ctx e s).
Qed.

(** C6: PUBLISHED and DEAD are final: no event but a deletion changes the row
    of such a message, in any column. *)
Theorem final_rows_stay (jsonb : string -> option string) (repo : OutboxRepo) (ctx : Context)
  (envs : nat -> StmtEnv) (s s' : Sys) (es : list Event) (id : string) (row : Outbox)
  (Henvs : forall n, env_ok (envs n)) (Hreach : reachable jsonb repo ctx envs s)
  (Hrun : run_events jsonb repo ctx es s = Some s')
  (Hnodelete : Forall (fun e => is_delete e = false) es)
  (Hrow : s_table s !! id = Some row) (Hfinal : Status row = PUBLISHED \/ Status row = DEAD) :
  s_table s' !! id = Some row.
Proof.
  apply (settled_run jsonb repo ctx es s); try done.
  - by apply (reachable_inv jsonb repo ctx envs).
  - destruct Hfinal; [by left|by right; left].
Qed.

(** ** A message without an end *)

Section Stranding.
Definition demo_repo : OutboxRepo :=
  mkRepo QPool "outbox" (1 * Second) (1 * Hour) (5 * Minute).
Definition demo_ctx : Context := mkContext true None [].
Definition demo_jsonb (s : string) : option string := Some s.
Abbreviation run := (run_events demo_jsonb demo_repo demo_ctx).

(** Worker 1 fetches the message and stalls; recovery and requeue hand it to
    worker 2; then worker 1's publish fails and it closes the message, of
    which it has seen only the first attempt.  Worker 2 succeeds and finds
    the message no longer PUBLISHING. *)
Definition stale_trace : list Event :=
  let timeout := Some (EUser "timeout" None []) in
  [EInsert (mkParams "order.created" (Some "{}") None "k1" 3);
   EFetch 1 10; ERevive; ERequeue; EFetch 2 10;
   EPublish 0 timeout false; EClose 0; EPublish 0 None true; EClose 0].

Lemma some_result {A} (o : option A) (P : A -> Prop) :
  match o with Some s => P s | None => False end -> exists s, o = Some s /\ P s.
Proof. destruct o; [eauto|done]. Qed.

Definition stale_row : Outbox :=
  mkOutbox "m1" "order.created" (Some "{}") None "k1" FAILED (Some "timeout") 3 3
    (Some 18004000000) 0 18000000000.

Lemma stale_run :
  match run stale_trace (initial hourly) with
  | Some s => s_table s !! "m1" = Some stale_row /\ s_sent s = ["m1"]
  | None => False
  end.
Proof. vm_compute. by split. Qed.

Lemma stale_stranded : stranded stale_row.
Proof. done. Qed.

(** A worker that was presumed crashed can still close its message, and
    decides with the attempt counter it saw when it fetched it.  So a message
    can end up FAILED with its attempts used up: it was delivered, yet it is
    neither PUBLISHED nor DEAD, and as RequeueFailed skips it and nothing
    else looks at FAILED rows, no event but a deletion ever changes it. *)
Theorem stale_worker_strands :
  exists s row,
    run stale_trace (initial hourly) = Some s
    /\ s_table s !! "m1" = Some row /\ stranded row /\ "m1" ∈ s_sent s
    /\ forall es s', run es s = Some s' -> Forall (fun e => is_delete e = false) es ->
       s_table s' !! "m1" = Some row.
Proof.
  destruct (some_result (run stale_trace (initial hourly))
    (fun s => s_table s !! "m1" = Some stale_row /\ s_sent s = ["m1"]) stale_run) as (s & E & Hrow & Hsent).
  assert (Hinv : Inv s).
  { apply (reachable_inv demo_jsonb demo_repo demo_ctx hourly); [apply hourly_ok|].
    apply (run_reachable _ _ _ _ stale_trace (initial hourly)); [constructor|exact E]. }
  exists s, stale_row. split; [exact E|]. split; [exact Hrow|]. split; [exact stale_stranded|]. split.
  - rewrite Hsent. by left.
  - intros es s' Hrun Hd.
    apply (settled_run demo_jsonb demo_repo demo_ctx es s s' "m1" stale_row Hinv Hrun Hd Hrow).
    right. right. exact stale_stranded.
Qed.
End Stranding.

(** ** Without stale workers *)

(** Recovery finds no message a worker still holds: the threshold is longer
    than any publish takes. *)
Definition no_stale (repo : OutboxRepo) (s : Sys) : Prop :=
  forall h r, h ∈ s_held s -> s_table s !! ID (h_msg h) = Some r ->
    stuck (truncated_seconds_us (stuckPublishingThreshold repo))
      (current_env (s_db s)) r = false.

Inductive timely jsonb repo ctx (envs : nat -> StmtEnv) : Sys -> Prop :=
| timely_initial : timely jsonb repo ctx envs (initial envs)
| timely_step s e s' :
    timely jsonb repo ctx envs s -> sys_step jsonb repo ctx e s = Some s' ->
    (e = ERevive -> no_stale repo s) -> timely jsonb repo ctx envs s'.

Lemma sublist_map {A B} (f : A -> B) l l' : sublist l l' -> sublist (f <$> l) (f <$> l').
Proof. induction 1; rewrite ?fmap_cons; by constructor. Qed.

Lemma sublist_List_filter {A} (f : A -> bool) l : sublist (List.filter f l) l.
Proof. induction l as [|x l IH]; simpl; [|destruct (f x)]; by constructor. Qed.

(** Each held message has its row to itself. *)
Definition owns (t : table) (h : Held) : Prop :=
  forall r, t !! ID (h_msg h) = Some r ->
    Status r = PUBLISHING /\ AttemptCount r = AttemptCount (h_msg h).

Definition held_ids (s : Sys) : list string := (ID ∘ h_msg) <$> s_held s.

Record Exclusive (s : Sys) : Prop := {
  ex_inv : Inv s;
  ex_owns : Forall (owns (s_table s)) (s_held s);
  ex_once : NoDup (held_ids s);
  ex_failed : forall id r, s_table s !! id = Some r -> ~ stranded r
}.

(** The ids whose rows a call may write. *)
Definition targets (c : RepoCall) (id : string) : Prop :=
  match c with
  | RToPublished id' | RToFailed id' _ | RToDead id' _ => id = id'
  | RBatchToPublished ids => id ∈ ids
  | _ => True
  end.

Lemma change_targets c r r' : change c r r' -> r' = r \/ targets c (ID r).
Proof. destruct 1; simpl; auto. Qed.

(** A row written while PUBLISHING and not closed keeps its owner. *)
Definition leaves_held (held : list Held) (t t' : table) : Prop :=
  forall h, h ∈ held -> forall r r', t !! ID (h_msg h) = Some r -> t' !! ID (h_msg h) = Some r' ->
    r' = r.

Lemma exclusive_call s s' c :
  Exclusive s -> Inv s' ->
  call_rows c (current_env (s_db s)) (s_table s) (s_table s') ->
  (forall id m r, c = RToFailed id m -> s_table s !! id = Some r -> Status r = PUBLISHING ->
    AttemptCount r + 1 < MaxAttempts r) ->
  (forall p, c = RInsert p -> e_uuid (current_env (s_db s)) ∉ s_used s) ->
  leaves_held (s_held s') (s_table s) (s_table s') ->
  sublist (s_held s') (s_held s) -> Exclusive s'.
Proof.
  intros [Hinv Hown Honce Hfail] Hinv' Hrows Hf Hins Hleave Hsub.
  rewrite Forall_forall in Hown.
  assert (Hin : forall h, h ∈ s_held s' -> h ∈ s_held s)
    by (intros h Hh; by eapply elem_of_submseteq; [|apply sublist_submseteq, Hsub]).
  split; [done| | |].
  - apply Forall_forall. intros h Hh r' Hr'.
    destruct (Hrows _ r' Hr') as [(r & Hr & Hc)|(p & -> & _ & Hid & _)].
    + rewrite (Hleave h Hh r r' Hr Hr'). by apply (Hown h (Hin h Hh)).
    + destruct (Hins p eq_refl). rewrite <- Hid.
      pose proof (inv_held_used s Hinv) as Hu. rewrite Forall_forall in Hu. by apply Hu, Hin.
  - eapply sublist_NoDup; [exact Honce|]. unfold held_ids. by apply sublist_map.
  - intros id r' Hr' [Hs Hle].
    destruct (Hrows id r' Hr') as [(r & Hr & Hc)|(p & _ & _ & _ & _ & Hfr)].
    + pose proof (Hfail id r Hr) as Hnf. unfold stranded in Hnf.
      pose proof (proj1 (inv_wf s Hinv) id r Hr) as Hid. cbv beta in Hid.
      destruct Hc as [c r|limit r now Es|id' r now Es Eid|ids r now Es Eid
        |id' m' r retry now Es Eid Ei|id' m' r now Es Eid|r now Es Ea|m' r now Es Ea
        |m' r retry now Es Ea Ei]; simpl in *; try discriminate Hs; [by apply Hnf| |lia].
      specialize (Hf id' m' r eq_refl). rewrite <- Eid, Hid in Hf. specialize (Hf Hr Es). lia.
    + destruct Hfr as [E _]. congruence.
Qed.

Section Timely.
Variable jsonb : string -> option string.
Variable repo : OutboxRepo.
Variable ctx : Context.
Abbreviation run_call := (repo_call jsonb repo ctx).

Lemma inv_call_rows s c :
  Inv s -> system_call c = true ->
  call_rows c (current_env (s_db s)) (s_table s) (db_table (run_call c (s_db s))).
Proof.
  intros Hinv Hc. apply repo_call_rows; [|by destruct (inv_wf s Hinv)|done].
  apply (inv_env s Hinv).
Qed.

(** A call whose changes spare the rows of held messages. *)
Lemma spared s c held :
  Inv s -> system_call c = true -> Forall (fun h => ID (h_msg h) ∈ s_used s) held ->
  (forall p, c = RInsert p -> e_uuid (current_env (s_db s)) ∉ s_used s) ->
  (forall h r r', h ∈ held -> s_table s !! ID (h_msg h) = Some r ->
    ID r = ID (h_msg h) -> change c r r' ->
    db_table (run_call c (s_db s)) !! ID (h_msg h) = Some r' -> r' = r) ->
  leaves_held held (s_table s) (db_table (run_call c (s_db s))).
Proof.
  intros Hinv Hc Hu Hins Hsp h Hh r r' Hr Hr'.
  destruct (inv_call_rows s c Hinv Hc _ r' Hr') as [(r0 & Hr0 & Hch)|(p & -> & Hno & _)];
    [|congruence].
  rewrite Hr in Hr0. injection Hr0 as <-.
  apply (Hsp h r r' Hh Hr); [by apply (proj1 (inv_wf s Hinv) _ r Hr)|done|done].
Qed.

Lemma revive_unstuck s id r r' :
  s_table s !! id = Some r ->
  stuck (truncated_seconds_us (stuckPublishingThreshold repo)) (current_env (s_db s)) r = false ->
  db_table (run_call RRevive (s_db s)) !! id = Some r' -> r' = r.
Proof.
  intros Hr Hst. unfold repo_call, pgx_ReviveStuckPublishing, s_table in *.
  destruct (exec_cases (queryReviveStuckPublishing (base_us repo) (max_us repo)
    (truncated_seconds_us (stuckPublishingThreshold repo))) (s_db s))
    as (_ & _ & [E|(t' & a & E & Et)]).
  - rewrite E, Hr. congruence.
  - rewrite Et. unfold queryReviveStuckPublishing in E.
    rewrite (lookup_update _ _ _ _ _ _ E), Hr. simpl. rewrite Hst. congruence.
Qed.

Lemma held_distinct s i h j x :
  NoDup (held_ids s) -> s_held s !! i = Some h -> s_held s !! j = Some x -> j <> i ->
  ID (h_msg x) <> ID (h_msg h).
Proof.
  intros Hnd Hi Hj Hne E. apply Hne.
  eapply (NoDup_lookup (held_ids s)); [done| |]; unfold held_ids; rewrite list_lookup_fmap.
  - by rewrite Hj.
  - rewrite Hi. simpl. by rewrite E.
Qed.

Lemma exclusive_publish s i answer accepted s' :
  Exclusive s -> Inv s' -> sys_step jsonb repo ctx (EPublish i answer accepted) s = Some s' ->
  Exclusive s'.
Proof.
  intros [Hinv Hown Honce Hfail] Hinv' Hs. simpl in Hs.
  destruct (s_held s !! i) as [h|] eqn:Hi; simpl in Hs; [|discriminate].
  assert (E : s_db s' = s_db s
    /\ s_held s' = <[i := mkHeld (h_worker h) (h_msg h) (Some answer)]> (s_held s)).
  { destruct (h_answer h), answer, accepted; try discriminate; by injection Hs as <-. }
  destruct E as [Edb Eheld]. unfold s_table in *.
  split; try (unfold s_table; rewrite Edb); try done.
  - rewrite Eheld. apply Forall_insert; [done|]. rewrite Forall_lookup in Hown.
    apply (Hown i h Hi).
  - unfold held_ids. rewrite Eheld, list_fmap_insert. rewrite list_insert_id; [done|].
    by rewrite list_lookup_fmap, Hi.
Qed.

Lemma exclusive_fetch s w limit s' :
  Exclusive s -> Inv s' -> sys_step jsonb repo ctx (EFetch w limit) s = Some s' -> Exclusive s'.
Proof.
  intros [Hinv Hown Honce Hfail] Hinv' Hs. simpl in Hs.
  destruct (existsb _ _); [discriminate|]. injection Hs as <-.
  set (msgs := match snd (pgx_FetchLockAndMarkPublishing ctx limit (s_db s)) with
               | Ret (Ok msgs) => msgs | _ => [] end) in *.
  assert (Hfound : NoDup (ID <$> msgs) /\ forall m, m ∈ msgs -> exists r now,
      s_table s !! ID m = Some r /\ Status r = ENQUEUED
      /\ db_table (run_call (RFetchBatch limit) (s_db s)) !! ID m
         = Some (with_status PUBLISHING now r)
      /\ AttemptCount m = AttemptCount r /\ MaxAttempts m = MaxAttempts r).
  { unfold msgs. destruct (snd _) as [[l|e]|why] eqn:E;
      [by apply (fetch_found jsonb repo)| |];
      (split; [apply NoDup_nil_2|intros m Hm; by apply not_elem_of_nil in Hm]). }
  clearbody msgs. destruct Hfound as [Hnd Hfound]. rewrite Forall_forall in Hown.
  assert (Hstep : forall id r', db_table (run_call (RFetchBatch limit) (s_db s)) !! id = Some r' ->
    exists r, s_table s !! id = Some r /\ change (RFetchBatch limit) r r').
  { intros id r' Hr'.
    by destruct (inv_call_rows s (RFetchBatch limit) Hinv eq_refl id r' Hr') as [?|(p & ? & _)]. }
  split; [done| | |].
  - apply Forall_app. split; apply Forall_forall.
    + intros h Hh r' Hr'. destruct (Hstep _ r' Hr') as (r & Hr & Hc).
      destruct (Hown h Hh r Hr) as [Est Ea]. inversion Hc; subst; [done|congruence].
    + intros h Hh. apply list_elem_of_fmap in Hh as (m & -> & Hm).
      destruct (Hfound m Hm) as (r & now & _ & _ & Hr' & Ea & _).
      intros r2 Hr2. cbn [h_msg] in Hr2. unfold s_table in Hr2. simpl in Hr2.
      rewrite Hr' in Hr2. injection Hr2 as <-. split; [done|]. simpl. by rewrite Ea.
  - unfold held_ids. cbn [call s_held]. rewrite fmap_app. apply NoDup_app.
    split; [done|]. rewrite <- list_fmap_compose. split; [|done].
    intros id Hid Hid2. apply list_elem_of_fmap in Hid as (h & -> & Hh).
    apply list_elem_of_fmap in Hid2 as (m & Em & Hm).
    destruct (Hfound m Hm) as (r & now & Hr & Est & _).
    unfold compose in Em. cbn [h_msg] in Em. rewrite <- Em in Hr.
    destruct (Hown h Hh r Hr) as [E _]. congruence.
  - intros id r' Hr' Hst. destruct (Hstep id r' Hr') as (r & Hr & Hc).
    apply (Hfail id r Hr). unfold stranded in *.
    inversion Hc; subst; [done|]. by destruct Hst.
Qed.

Lemma held_used_sub s held :
  Inv s -> (forall h, h ∈ held -> h ∈ s_held s) ->
  Forall (fun h => ID (h_msg h) ∈ s_used s) held.
Proof.
  intros Hinv Hsub. pose proof (inv_held_used s Hinv) as Hu. rewrite Forall_forall in Hu.
  apply Forall_forall. intros h Hh. by apply Hu, Hsub.
Qed.

Lemma exclusive_sys_call s s' c held :
  Exclusive s -> Inv s' -> s_table s' = db_table (run_call c (s_db s)) -> s_held s' = held ->
  system_call c = true ->
  (forall id m r, c = RToFailed id m -> s_table s !! id = Some r -> Status r = PUBLISHING ->
    AttemptCount r + 1 < MaxAttempts r) ->
  (forall p, c = RInsert p -> e_uuid (current_env (s_db s)) ∉ s_used s) ->
  sublist held (s_held s) ->
  (forall h r r', h ∈ held -> s_table s !! ID (h_msg h) = Some r ->
    ID r = ID (h_msg h) -> Status r = PUBLISHING -> change c r r' ->
    db_table (run_call c (s_db s)) !! ID (h_msg h) = Some r' -> r' = r) ->
  Exclusive s'.
Proof.
  intros Hex Hinv' Et Eh Hc Hf Hins Hsub Hsp. pose proof (ex_inv s Hex) as Hinv.
  pose proof (ex_owns s Hex) as Hown. rewrite Forall_forall in Hown.
  assert (Hin : forall h, h ∈ held -> h ∈ s_held s)
    by (intros h Hh; by eapply elem_of_submseteq; [|apply sublist_submseteq, Hsub]).
  apply (exclusive_call s s' c); rewrite ?Et, ?Eh; try done.
  - by apply inv_call_rows.
  - apply spared; [done|done|by apply held_used_sub|done|].
    intros h r r' Hh Hr Hid Hch Hr'. apply (Hsp h r r' Hh Hr Hid); [|done|done].
    by apply (Hown h (Hin h Hh) r Hr).
Qed.

Lemma closing_distinct s i h c x :
  Exclusive s -> s_held s !! i = Some h -> closing_call h = Some c ->
  x ∈ delete i (s_held s) -> ~ targets c (ID (h_msg x)).
Proof.
  intros Hex Hi Hc Hx Ht. apply list_elem_of_lookup in Hx as [j Hj].
  assert (Hk : exists k, s_held s !! k = Some x /\ k <> i).
  { destruct (decide (j < i)%nat).
    - exists j. rewrite list_lookup_delete_lt in Hj by done. split; [done|lia].
    - exists (S j). rewrite list_lookup_delete_ge in Hj by lia. split; [done|lia]. }
  destruct Hk as (k & Hk & Hne).
  apply (held_distinct s i h k x (ex_once s Hex) Hi Hk Hne).
  unfold closing_call in Hc. destruct (h_answer h) as [[e|]|]; [| |discriminate];
    injection Hc as <-; [|done]. by destruct (marks_dead (h_msg h) e).
Qed.

Lemma closing_failed s i h id m r :
  Exclusive s -> s_held s !! i = Some h -> closing_call h = Some (RToFailed id m) ->
  s_table s !! id = Some r -> Status r = PUBLISHING -> AttemptCount r + 1 < MaxAttempts r.
Proof.
  intros Hex Hi Hc Hr Hs. unfold closing_call in Hc.
  destruct (h_answer h) as [[e|]|]; [|discriminate|discriminate].
  destruct (marks_dead (h_msg h) e) eqn:Em; [discriminate|]. injection Hc as <- _.
  pose proof (ex_owns s Hex) as Hown. rewrite Forall_lookup in Hown.
  destruct (Hown i h Hi r Hr) as [_ Ha].
  pose proof (inv_snapshots s (ex_inv s Hex)) as Hsn. rewrite Forall_lookup in Hsn.
  destruct (Hsn i h Hi) as [Hb Hrow]. destruct (Hrow r Hr) as [_ Hm]; [congruence|].
  unfold marks_dead, WillExceedMaxAttemptsAfterFailure in Em.
  rewrite wrap64_id in Em by (unfold in_int64; lia). bool_to_prop. lia.
Qed.

(** A change of a held message's row that the call does not target is none. *)
Lemma untargeted c h r r' :
  change c r r' -> ID r = ID (h_msg h) -> ~ targets c (ID (h_msg h)) -> r' = r.
Proof.
  intros Hch Hid Ht. destruct (change_targets c r r' Hch) as [E|E]; [done|].
  rewrite Hid in E. done.
Qed.

Lemma exclusive_close s i s' :
  Exclusive s -> sys_step jsonb repo ctx (EClose i) s = Some s' -> Exclusive s'.
Proof.
  intros Hex Hs. pose proof (inv_step jsonb repo ctx s _ s' (ex_inv s Hex) Hs) as Hinv'.
  simpl in Hs. destruct (s_held s !! i) as [h|] eqn:Hi; simpl in Hs; [|discriminate].
  destruct (closing_call h) as [c|] eqn:Ec; simpl in Hs; [|discriminate]. injection Hs as <-.
  destruct (closing_justified s i h c (ex_inv s Hex) Hi Ec) as (_ & Hc & _ & Hni).
  apply (exclusive_sys_call s _ c (delete i (s_held s))); try done.
  - intros id m r ->. by apply (closing_failed s i h id m r).
  - intros p E. by destruct (Hni p).
  - apply sublist_delete.
  - intros x r r' Hx _ Hid _ Hch _. apply (untargeted c x r r' Hch Hid).
    by apply (closing_distinct s i h).
Qed.

Lemma exclusive_close_batch s w s' :
  Exclusive s -> sys_step jsonb repo ctx (ECloseBatch w) s = Some s' -> Exclusive s'.
Proof.
  intros Hex Hs. pose proof (inv_step jsonb repo ctx s _ s' (ex_inv s Hex) Hs) as Hinv'.
  simpl in Hs. injection Hs as <-.
  eapply (exclusive_sys_call s _ (RBatchToPublished _)); try done; [apply sublist_List_filter|].
  intros x r r' Hx _ Hid _ Hch _. apply (untargeted _ x r r' Hch Hid). simpl. intros Ht.
  apply list_elem_of_In, List.filter_In in Hx as [Hx Hm]. apply list_elem_of_In in Hx.
  apply list_elem_of_fmap in Ht as (y & Ey & Hy).
  apply list_elem_of_In, List.filter_In in Hy as [Hy Hmy]. apply list_elem_of_In in Hy.
  apply list_elem_of_lookup in Hx as [k Hk], Hy as [j Hj].
  destruct (decide (k = j)) as [->|Hne];
    [rewrite Hk in Hj; injection Hj as <-; by rewrite Hmy in Hm|].
  by apply (held_distinct s j y k x (ex_once s Hex) Hj Hk Hne).
Qed.

Lemma exclusive_crash s w s' :
  Exclusive s -> sys_step jsonb repo ctx (ECrash w) s = Some s' -> Exclusive s'.
Proof.
  intros Hex Hs. pose proof (inv_step jsonb repo ctx s _ s' (ex_inv s Hex) Hs) as Hinv'.
  simpl in Hs. injection Hs as <-. destruct Hex as [_ Hown Honce Hfail].
  assert (Hsub : sublist (List.filter (fun h => negb (held_by w h)) (s_held s)) (s_held s))
    by apply sublist_List_filter.
  split; [done| | |done].
  - rewrite Forall_forall in Hown. apply Forall_forall. intros h Hh. apply Hown.
    by eapply elem_of_submseteq; [|apply sublist_submseteq, Hsub].
  - eapply sublist_NoDup; [exact Honce|]. by apply sublist_map.
Qed.

Lemma exclusive_step s e s' :
  Exclusive s -> sys_step jsonb repo ctx e s = Some s' -> (e = ERevive -> no_stale repo s) ->
  Exclusive s'.
Proof.
  intros Hex Hs Hst.
  pose proof (inv_step jsonb repo ctx s e s' (ex_inv s Hex) Hs) as Hinv'.
  destruct e as [p|w limit|i answer accepted|i|w|w| | |ss age].
  - simpl in Hs. case_bool_decide as Hfr; [discriminate|]. injection Hs as <-.
    apply (exclusive_sys_call s _ (RInsert p) (s_held s)); try done.
    intros h r r' _ _ _ Hp Hch _. by inversion Hch.
  - by apply (exclusive_fetch s w limit).
  - by apply (exclusive_publish s i answer accepted).
  - by apply (exclusive_close s i).
  - by apply (exclusive_close_batch s w).
  - by apply (exclusive_crash s w).
  - simpl in Hs. injection Hs as <-.
    apply (exclusive_sys_call s _ RRequeue (s_held s)); try done.
    intros h r r' _ _ _ Hp Hch _. inversion Hch; subst; [done|congruence].
  - simpl in Hs. injection Hs as <-.
    apply (exclusive_sys_call s _ RRevive (s_held s)); try done.
    intros h r r' Hh Hr _ _ _ Hr'. apply (revive_unstuck s _ r r' Hr); [|done].
    by apply (Hst eq_refl h).
  - simpl in Hs. injection Hs as <-.
    apply (exclusive_sys_call s _ (RDelete ss age) (s_held s)); try done.
    intros h r r' _ _ _ _ Hch _. by inversion Hch.
Qed.
End Timely.

Lemma timely_exclusive jsonb repo ctx envs s :
  (forall n, env_ok (envs n)) -> timely jsonb repo ctx envs s -> Exclusive s.
Proof.
  intros Henvs Htimely.
  induction Htimely as [|s e s' _ IH Hs Hst]; [|by apply (exclusive_step jsonb repo ctx s e)].
  split; [by apply inv_initial|by constructor|by constructor|]. intros id r Hr. done.
Qed.

(** C3: as long as recovery never takes a message a worker still holds (the
    threshold outlasts every publish), each held message is PUBLISHING, with
    the counter the worker saw, and belongs to that worker alone, and no
    message is ever stranded: a FAILED message always has attempts left. *)
Theorem timely_never_strands (jsonb : string -> option string) (repo : OutboxRepo)
  (ctx : Context) (envs : nat -> StmtEnv) (s : Sys)
  (Henvs : forall n, env_ok (envs n)) (Htimely : timely jsonb repo ctx envs s) :
  Forall (owns (s_table s)) (s_held s) /\ NoDup (held_ids s)
  /\ forall id row, s_table s !! id = Some row -> Status row = FAILED ->
      AttemptCount row < MaxAttempts row.
Proof.
  pose proof (timely_exclusive jsonb repo ctx envs s Henvs Htimely) as Hex.
  destruct Hex as [_ Hown Honce Hfail]. split; [done|]. split; [done|].
  intros id row Hr Hs. destruct (Z.lt_ge_cases (AttemptCount row) (MaxAttempts row)); [done|].
  by destruct (Hfail id row Hr).
Qed.

(** ** The properties at work *)

Section Witnesses.
Abbreviation run := (run_events demo_jsonb demo_repo demo_ctx).
Abbreviation start := (initial hourly).

Definition demo_insert : Event := EInsert (mkParams "order.created" (Some "{}") None "k1" 3).
Definition success_trace : list Event :=
  [demo_insert; EFetch 1 10; EPublish 0 None true; EClose 0].
Definition failure_trace (err : error) : list Event :=
  [demo_insert; EFetch 1 10; EPublish 0 (Some err) false; EClose 0].

Definition row_after (es : list Event) (P : Outbox -> Prop) : Prop :=
  match run es start with
  | Some s => match s_table s !! "m1" with Some row => P row | None => False end
  | None => False
  end.

Lemma row_after_inv es P :
  row_after es P -> exists s row,
    run es start = Some s /\ s_table s !! "m1" = Some row /\ P row
    /\ reachable demo_jsonb demo_repo demo_ctx hourly s.
Proof.
  unfold row_after. destruct (run es start) as [s|] eqn:E; [|done].
  destruct (s_table s !! "m1") as [row|] eqn:Er; [|done]. intros HP.
  exists s, row. split; [done|]. split; [done|]. split; [done|].
  apply (run_reachable _ _ _ _ es start); [constructor|exact E].
Qed.

Lemma success_row : row_after success_trace (fun r => Status r = PUBLISHED).
Proof. vm_compute. reflexivity. Qed.
Lemma permanent_row :
  row_after (failure_trace (PermanentError None)) (fun r => Status r = DEAD).
Proof. vm_compute. reflexivity. Qed.
Lemma transient_row :
  row_after (failure_trace (EUser "timeout" None [])) (fun r => Status r = FAILED).
Proof. vm_compute. reflexivity. Qed.

Lemma published_was_sent_witness :
  exists s row, run success_trace start = Some s /\ s_table s !! "m1" = Some row
    /\ Status row = PUBLISHED /\ "m1" ∈ s_sent s.
Proof.
  destruct (row_after_inv _ _ success_row) as (s & row & Hrun & Hrow & Hst & Hreach).
  exists s, row. split; [exact Hrun|]. split; [exact Hrow|]. split; [exact Hst|].
  exact (published_was_sent demo_jsonb demo_repo demo_ctx hourly s "m1" row hourly_ok Hreach
           Hrow Hst).
Defined.

Lemma publish_attempts_bounded_witness :
  exists s row, run success_trace start = Some s /\ s_table s !! "m1" = Some row
    /\ Z.of_nat (s_attempts s "m1") <= Z.max 1 (MaxAttempts row - 1).
Proof.
  destruct (row_after_inv _ _ success_row) as (s & row & Hrun & Hrow & _ & Hreach).
  exists s, row. split; [exact Hrun|]. split; [exact Hrow|].
  exact (publish_attempts_bounded demo_jsonb demo_repo demo_ctx hourly s "m1" row hourly_ok
           Hreach Hrow).
Defined.

Lemma dead_is_justified_witness :
  exists s row, run (failure_trace (PermanentError None)) start = Some s
    /\ s_table s !! "m1" = Some row /\ Status row = DEAD
    /\ (AttemptCount row = MaxAttempts row \/ "m1" ∈ s_rejected s).
Proof.
  destruct (row_after_inv _ _ permanent_row) as (s & row & Hrun & Hrow & Hst & Hreach).
  exists s, row. split; [exact Hrun|]. split; [exact Hrow|]. split; [exact Hst|].
  exact (dead_is_justified demo_jsonb demo_repo demo_ctx hourly s "m1" row hourly_ok Hreach
           Hrow Hst).
Defined.

(** After the success: a recovery, a requeue and another worker's fetch. *)
Definition later_events : list Event := [ERevive; ERequeue; EFetch 2 10].

Lemma later_run :
  match run success_trace start with
  | Some s => match run later_events s with Some _ => True | None => False end
  | None => False
  end.
Proof. vm_compute. exact I. Qed.

Lemma final_rows_stay_witness :
  exists s s' row, run success_trace start = Some s /\ run later_events s = Some s'
    /\ s_table s !! "m1" = Some row /\ s_table s' !! "m1" = Some row.
Proof.
  destruct (row_after_inv _ _ success_row) as (s & row & Hrun & Hrow & Hst & Hreach).
  pose proof later_run as Hl. rewrite Hrun in Hl.
  destruct (run later_events s) as [s'|] eqn:E; [|destruct Hl].
  exists s, s', row. split; [exact Hrun|]. split; [exact E|]. split; [exact Hrow|].
  exact (final_rows_stay demo_jsonb demo_repo demo_ctx hourly s s' later_events "m1" row
           hourly_ok Hreach E ltac:(repeat constructor) Hrow (or_introl Hst)).
Defined.

Lemma run_timely es : forall s s',
  timely demo_jsonb demo_repo demo_ctx hourly s -> run es s = Some s' ->
  Forall (fun e => e <> ERevive) es -> timely demo_jsonb demo_repo demo_ctx hourly s'.
Proof.
  unfold run_events. induction es as [|e es IH]; simpl; intros s s' Ht Hs Hne.
  - by injection Hs as <-.
  - apply Forall_cons in Hne as [He Hes].
    destruct (sys_step demo_jsonb demo_repo demo_ctx e s) as [s1|] eqn:E;
      [|by rewrite run_none in Hs].
    apply (IH s1 s'); [|done|done]. by apply (timely_step _ _ _ _ s e).
Qed.

Lemma timely_never_strands_witness :
  exists s row, run (failure_trace (EUser "timeout" None [])) start = Some s
    /\ s_table s !! "m1" = Some row /\ Status row = FAILED
    /\ AttemptCount row < MaxAttempts row.
Proof.
  destruct (row_after_inv _ _ transient_row) as (s & row & Hrun & Hrow & Hst & _).
  exists s, row. split; [exact Hrun|]. split; [exact Hrow|]. split; [exact Hst|].
  refine (proj2 (proj2 (timely_never_strands demo_jsonb demo_repo demo_ctx hourly s hourly_ok
                          _)) "m1" row Hrow Hst).
  apply (run_timely _ start s (timely_initial _ _ _ _) Hrun). by repeat constructor.
Defined.
End Witnesses.
