(* ===== verification/Refinement.v ===== *)
(** * The single-message worker refines the system

    [processOne] (Worker.v), run on the pgx repository (PgxRepo.v), does to the
    database what a sequence of events of the system (System.v) does: the
    invariants proved of the events are invariants of the code. *)

From Stdlib Require Import ZArith Lia Permutation.
From stdpp Require Import base option list strings gmap fin_maps sorting.
From S2P Require Import Prelude Errors Model Ports Store PgxRepo OutboxSafety Worker System.

Set Default Goal Selector "!".
Open Scope Z_scope.

Section Refinement.
Variable jsonb : string -> option string.
Variable repo : OutboxRepo.
Variable ctx : Context.
(** The clock and the publisher: any function of the state and the message. *)
Variable clock : DB -> Z.
Variable publisher : Context -> Outbox -> option error.

#[local] Instance db_runtime : Runtime DB := { time_Now := fun db => (db, Ret (clock db)) }.
#[local] Instance db_repo : OutboxRepository DB := pgx_repository jsonb repo.
#[local] Instance db_publisher : Publisher DB :=
  { Publish := fun ctx msg db => (db, Ret (publisher ctx msg)) }.

(** The events of a turn of worker [w], for what the fetch gave; an answer
    of nil means the broker accepted the message. *)
Definition turn_events (w : nat) (n : nat) (fetched : option Outbox) (accepted : bool)
    : list Event :=
  match fetched with
  | None => [EFetch w 1]
  | Some msg => [EFetch w 1; EPublish n (publisher ctx msg)
                               (match publisher ctx msg with None => true | _ => accepted end);
                 EClose n]
  end.

(** What a fetch gives the worker. *)
Definition fetched_by (db : DB) : option Outbox :=
  match snd (pgx_FetchAndLockToPublishing ctx db) with
  | Ret (Ok msg) => Some msg
  | _ => None
  end.

(** A worker without hooks. *)
Definition plain_worker (poll maxPoll timeout : Z) : Worker DB :=
  NewWorker 0 None poll maxPoll timeout.

Lemma exec_bind_run {A B} (stmt : StmtEnv -> table -> result error (table * A))
    (f : result error A -> B) db :
  (a ← exec stmt; mret (f a)) db
  = match exec stmt db with
    | (db', Ret a) => (db', Ret (f a))
    | (db', Panic why) => (db', Panic why)
    end.
Proof. unfold mbind, GoM_bind. by destruct (exec stmt db) as [? [?|?]]. Qed.

(** The closing update does not depend on the context it runs under. *)
Lemma close_run (w : Worker DB) msg answer d db :
  w = plain_worker (pollInterval w) (maxPollInterval w) (cleanupTimeout w) ->
  fst (match answer with
       | Some e => handlePublishFailure w ctx msg e d
       | None =>
           now' ← time_Now;
           err ← UpdateToPublished (createCleanupContext now' ctx (cleanupTimeout w)) (ID msg);
           settle err
             (_ ← callOnPublishSuccess (w_hooks w) ctx msg d;
              match onMessageProcessed w with
              | Some f => _ ← f; mret None
              | None => mret None
              end)
       end db)
  = match closing_call (mkHeld 0 msg (Some answer)) with
    | Some c => repo_call jsonb repo ctx c db
    | None => db
    end.
Proof.
  intros ->. destruct answer as [e|].
  - unfold handlePublishFailure. cbn [closing_call h_answer h_msg].
    unfold mbind at 1, GoM_bind at 1. cbn [time_Now db_runtime].
    destruct (marks_dead msg e); unfold mbind at 1, GoM_bind at 1;
      cbn [UpdateToDead UpdateToFailed db_repo pgx_repository];
      unfold pgx_UpdateToDead, pgx_UpdateToFailed, repo_call, pgx_UpdateToDead, pgx_UpdateToFailed;
      rewrite !exec_bind_run; destruct (exec _ db) as [db' [a|why]]; try done;
      unfold settle; destruct (expect_publishing _ _) as [err|]; simpl; try done;
      by destruct (errors_Is err ErrInvalidStatus).
  - cbn [closing_call h_answer h_msg]. unfold mbind at 1, GoM_bind at 1.
    cbn [time_Now db_runtime]. unfold mbind at 1, GoM_bind at 1.
    cbn [UpdateToPublished db_repo pgx_repository].
    unfold pgx_UpdateToPublished, repo_call, pgx_UpdateToPublished. rewrite !exec_bind_run.
    destruct (exec _ db) as [db' [a|why]]; try done.
    unfold settle. destruct (expect_publishing _ _) as [err|]; simpl; try done.
    by destruct (errors_Is err ErrInvalidStatus).
Qed.

(** The fetch of the worker is the fetch of the system with limit 1. *)
Lemma fetch_run db :
  exists answer,
    snd (pgx_FetchLockAndMarkPublishing ctx 1 db) = Ret answer
    /\ pgx_FetchAndLockToPublishing ctx db
       = (repo_call jsonb repo ctx (RFetchBatch 1) db,
          Ret (match scan_row answer with
               | Err err => if errors_Is err PgxErrNoRows then Err (ESentinel ErrNoMessage)
                            else Err err
               | Ok outbox => Ok outbox
               end)).
Proof.
  unfold pgx_FetchAndLockToPublishing, repo_call, pgx_FetchLockAndMarkPublishing.
  rewrite exec_bind_run. unfold queryFetchAndLockToPublishing.
  destruct (exec (queryFetchLockAndMarkPublishing 1) db) as [db' [a|why]] eqn:E.
  - by exists a.
  - unfold exec in E. destruct (queryFetchLockAndMarkPublishing 1 _ _) as [[? ?]|?],
      (e_fault _) as [[? ?]|]; discriminate.
Qed.

Lemma fetch_one_at_most db msgs :
  env_ok (current_env db) ->
  snd (pgx_FetchLockAndMarkPublishing ctx 1 db) = Ret (Ok msgs) -> (length msgs <= 1)%nat.
Proof.
  intros Henv. unfold pgx_FetchLockAndMarkPublishing, exec, queryFetchLockAndMarkPublishing.
  cbn [Z.ltb Z.compare]. destruct (e_fault _) as [[? ?]|]; simpl; [discriminate|].
  intros [= <-]. rewrite length_fmap, (scan_ok _ Henv), length_fmap. unfold locked.
  rewrite length_take. lia.
Qed.

(** The state after the fetch of worker [w]. *)
Definition after_fetch (s : Sys) (w : nat) (answer : result error (list Outbox)) : Sys :=
  call jsonb repo ctx (RFetchBatch 1) s
    (s_held s ++ ((fun m => mkHeld w m None) <$>
       match answer with Ok msgs => msgs | Err _ => [] end)).

Lemma fetch_step s w answer :
  existsb (held_by w) (s_held s) = false ->
  snd (pgx_FetchLockAndMarkPublishing ctx 1 (s_db s)) = Ret answer ->
  sys_step jsonb repo ctx (EFetch w 1) s = Some (after_fetch s w answer).
Proof.
  intros Hidle Hans. simpl. rewrite Hidle, Hans. unfold after_fetch. by destruct answer.
Qed.

(** A turn that fetched nothing. *)
Lemma idle_turn_refines s w answer poll maxPoll timeout accepted :
  sys_step jsonb repo ctx (EFetch w 1) s = Some (after_fetch s w answer) ->
  pgx_FetchAndLockToPublishing ctx (s_db s)
  = (repo_call jsonb repo ctx (RFetchBatch 1) (s_db s),
     Ret (match scan_row answer with
          | Err err => if errors_Is err PgxErrNoRows then Err (ESentinel ErrNoMessage) else Err err
          | Ok outbox => Ok outbox
          end)) ->
  match scan_row answer with Ok _ => False | Err _ => True end ->
  exists s',
    run_events jsonb repo ctx
      (turn_events w (length (s_held s)) (fetched_by (s_db s)) accepted) s = Some s'
    /\ fst (processOne (plain_worker poll maxPoll timeout) ctx (s_db s)) = s_db s'
    /\ s_held s' = s_held s.
Proof.
  intros Hstep Hfetch Hno. exists (after_fetch s w answer).
  unfold fetched_by, processOne. rewrite Hfetch. cbn [snd].
  assert (Hh : s_held (after_fetch s w answer) = s_held s).
  { unfold after_fetch. cbn [call s_held]. destruct answer as [[|m l]|e]; [|done|];
      cbn; by rewrite app_nil_r. }
  destruct (scan_row answer) as [m|e]; [done|].
  unfold mbind, GoM_bind. cbn [FetchAndLockToPublishing db_repo pgx_repository].
  rewrite Hfetch. destruct (errors_Is e PgxErrNoRows); cbn [turn_events run_events foldl].
  - split; [|split; [done|done]]. cbn [option_bind]. exact Hstep.
  - split; [exact Hstep|]. split; [|done]. by destruct (errors_Is e ErrNoMessage).
Qed.

(** The publish and the closing update of the one message fetched. *)
Lemma publish_close_steps s w msg accepted :
  let n := length (s_held s) in
  let p := publisher ctx msg in
  exists c s2,
    closing_call (mkHeld w msg (Some p)) = Some c
    /\ sys_step jsonb repo ctx
         (EPublish n p (match p with None => true | _ => accepted end))
         (after_fetch s w (Ok [msg])) = Some s2
    /\ sys_step jsonb repo ctx (EClose n) s2
       = Some (call jsonb repo ctx c s2 (delete n (s_held s2)))
    /\ s_db s2 = s_db (after_fetch s w (Ok [msg]))
    /\ delete n (s_held s2) = s_held s.
Proof.
  intros n p. set (h := mkHeld w msg (Some p)).
  assert (Hheld : s_held (after_fetch s w (Ok [msg])) = s_held s ++ [mkHeld w msg None]) by done.
  assert (Hi : s_held (after_fetch s w (Ok [msg])) !! n = Some (mkHeld w msg None)).
  { rewrite Hheld. unfold n. by rewrite lookup_app_r, Nat.sub_diag by lia. }
  assert (Hc : exists c, closing_call h = Some c) by (unfold h; destruct p; by eexists).
  destruct Hc as [c Hc].
  assert (Hpub : exists s2, sys_step jsonb repo ctx
      (EPublish n p (match p with None => true | _ => accepted end))
      (after_fetch s w (Ok [msg])) = Some s2
      /\ s_db s2 = s_db (after_fetch s w (Ok [msg])) /\ s_held s2 = s_held s ++ [h]).
  { cbn [sys_step]. rewrite Hi.
    assert (Hins : <[n := h]> (s_held s ++ [mkHeld w msg None]) = s_held s ++ [h])
      by (unfold n; by rewrite insert_app_r_alt, Nat.sub_diag by lia).
    destruct p, accepted; eexists; (split; [reflexivity|split; [done|exact Hins]]). }
  destruct Hpub as (s2 & Hpub & Hdb & Hheld2). exists c, s2. split; [exact Hc|].
  split; [exact Hpub|]. split; [|split; [exact Hdb|]].
  - cbn [sys_step]. rewrite Hheld2. unfold n. rewrite lookup_app_r, Nat.sub_diag by lia.
    cbn [lookup list_lookup mbind option_bind]. by rewrite Hc.
  - rewrite Hheld2. unfold n. rewrite delete_middle. apply app_nil_r.
Qed.

(** What the turn does to the database after the fetch. *)
Lemma turn_run s w msg c poll maxPoll timeout :
  pgx_FetchAndLockToPublishing ctx (s_db s)
  = (repo_call jsonb repo ctx (RFetchBatch 1) (s_db s), Ret (Ok msg)) ->
  closing_call (mkHeld w msg (Some (publisher ctx msg))) = Some c ->
  fst (processOne (plain_worker poll maxPoll timeout) ctx (s_db s))
  = repo_call jsonb repo ctx c (repo_call jsonb repo ctx (RFetchBatch 1) (s_db s)).
Proof.
  intros Hfetch Hc. set (db1 := repo_call jsonb repo ctx (RFetchBatch 1) (s_db s)) in *.
  remember (publisher ctx msg) as p eqn:Ep.
  unfold processOne. unfold mbind at 1, GoM_bind at 1.
  cbn [FetchAndLockToPublishing db_repo pgx_repository]. rewrite Hfetch.
  cbn [w_hooks plain_worker NewWorker]. unfold mbind at 1, GoM_bind at 1.
  pose proof (close_run (plain_worker poll maxPoll timeout) msg p
    (saturate64 (clock db1 - clock db1)) db1 eq_refl) as Hclose.
  change (closing_call (mkHeld 0 msg (Some p)) = Some c) in Hc.
  rewrite Hc in Hclose. rewrite <- Hclose.
  unfold callOnPublishStart. rewrite call_hook_ret. cbv beta iota.
  assert (Ebind : forall {A} k, (Publish ctx msg ≫= k : GoM DB A) = k p)
    by (intros A k; rewrite Ep; reflexivity).
  unfold mbind at 1, GoM_bind at 1. cbn [time_Now db_runtime]. cbv beta. rewrite Ebind.
  by destruct p.
Qed.

(** From any state of the system in which worker [w] holds nothing, a
    turn of [processOne] leaves the database exactly as the events of the
    turn do: the fetch alone when it gave nothing or failed, and otherwise
    the fetch, the publish and the closing update; the worker holds nothing
    afterwards. *)
Theorem processOne_refines (s : Sys) (w : nat) (poll maxPoll timeout : Z) (accepted : bool)
  (Hinv : Inv s) (Hidle : existsb (held_by w) (s_held s) = false) :
  exists s',
    run_events jsonb repo ctx
      (turn_events w (length (s_held s)) (fetched_by (s_db s)) accepted) s = Some s'
    /\ fst (processOne (plain_worker poll maxPoll timeout) ctx (s_db s)) = s_db s'
    /\ s_held s' = s_held s.
Proof.
  destruct (fetch_run (s_db s)) as (answer & Hans & Hfetch).
  pose proof (fetch_step s w answer Hidle Hans) as Hstep.
  destruct answer as [[|msg [|m2 l]]|e].
  - by apply (idle_turn_refines s w (Ok [])).
  - destruct (publish_close_steps s w msg accepted) as (c & s2 & Hc & Hpub & Hclose & Hdb & Hdel).
    exists (call jsonb repo ctx c s2 (delete (length (s_held s)) (s_held s2))).
    split; [|split; [|exact Hdel]].
    + unfold fetched_by. rewrite Hfetch. cbn [snd scan_row turn_events].
      unfold run_events. cbn [foldl mbind option_bind]. rewrite Hstep. cbn [mbind option_bind].
      rewrite Hpub. cbn [mbind option_bind]. exact Hclose.
    + cbn [call s_db]. rewrite Hdb. by apply (turn_run s w msg c).
  - pose proof (fetch_one_at_most _ _ (inv_env s Hinv _) Hans) as Hl. simpl in Hl. lia.
  - by apply (idle_turn_refines s w (Err e)).
Qed.
End Refinement.

(** A turn after an insertion: the message is fetched, published and closed. *)
Lemma processOne_refines_witness :
  exists s s',
    run_events demo_jsonb demo_repo demo_ctx [demo_insert] (initial hourly) = Some s
    /\ run_events demo_jsonb demo_repo demo_ctx
         (turn_events demo_ctx (fun _ _ => None) 1 (length (s_held s))
            (fetched_by demo_ctx (s_db s)) true) s = Some s'
    /\ s_held s' = s_held s.
Proof.
  destruct (row_after_inv [demo_insert] (fun _ => True) I) as (s & row & Hrun & _ & _ & Hreach).
  assert (Hidle : existsb (held_by 1) (s_held s) = false).
  { assert (H : match run_events demo_jsonb demo_repo demo_ctx [demo_insert] (initial hourly) with
                | Some s => existsb (held_by 1) (s_held s) = false | None => True end)
      by (vm_compute; reflexivity).
    rewrite Hrun in H. exact H. }
  destruct (processOne_refines demo_jsonb demo_repo demo_ctx (fun _ => 0) (fun _ _ => None)
              s 1 Second Second Second true
              (reachable_inv _ _ _ _ _ hourly_ok Hreach) Hidle) as (s' & H1 & _ & H2).
  exists s, s'. split; [exact Hrun|]. by split.
Defined.
