(* ===== verification/BatchRefinement.v ===== *)
(** * The batch worker refines the system

    [processBatch] (BatchDispatcher.v), run on the pgx repository (PgxRepo.v),
    does to the database what a sequence of events of the system (System.v)
    does: the fetch, the publish of every message, the closing update of every
    failure, and one update that closes the successes. *)

From Stdlib Require Import ZArith Lia Permutation.
From stdpp Require Import base option list strings gmap fin_maps sorting.
From S2P Require Import Prelude Errors Model Ports Store PgxRepo OutboxSafety Worker.
From S2P Require Import BatchDispatcher System Refinement.

Set Default Goal Selector "!".
Open Scope Z_scope.

Lemma exec_ret {A} (stmt : StmtEnv -> table -> result error (table * A)) db :
  exists a, exec stmt db = (fst (exec stmt db), Ret a).
Proof.
  unfold exec. destruct (stmt _ _) as [[? ?]|?], (e_fault _) as [[? ?]|]; by eexists.
Qed.

(** ** Running events *)

Section Events.
Context (jsonb : string -> option string) (repo : OutboxRepo) (ctx : Context).
Abbreviation run := (run_events jsonb repo ctx).

Lemma run_nil s : run [] s = Some s.
Proof. done. Qed.

Lemma run_cons e es s : run (e :: es) s = sys_step jsonb repo ctx e s ≫= run es.
Proof.
  unfold run_events. cbn [foldl mbind option_bind].
  destruct (sys_step jsonb repo ctx e s) as [s1|]; cbn [mbind option_bind]; [done|].
  apply run_none.
Qed.

Lemma run_app es1 es2 s : run (es1 ++ es2) s = run es1 s ≫= run es2.
Proof.
  revert s; induction es1 as [|e es1 IH]; intros s; [done|].
  rewrite <- app_comm_cons, !run_cons. by destruct (sys_step jsonb repo ctx e s); cbn.
Qed.
End Events.

Section BatchRefinement.
Context (jsonb : string -> option string) (repo : OutboxRepo) (ctx : Context).
(** The clock and the publisher: any functions; a message whose publish failed
    may have reached the broker. *)
Context (clock : DB -> Z) (publisher : Context -> list Outbox -> list PublishResult)
  (reached : Outbox -> bool) (single : Publisher DB) (max_size : Z).

#[local] Instance batch_runtime : Runtime DB := { time_Now := fun db => (db, Ret (clock db)) }.
#[local] Instance batch_repo : BatchOutboxRepository DB := pgx_batch_repository jsonb repo.
#[local] Instance batch_publisher : BatchPublisher DB :=
  {| batch_publisher_base := single;
     PublishBatch := fun ctx msgs db => (db, Ret (publisher ctx msgs));
     MaxBatchSize := max_size |}.

Abbreviation run := (run_events jsonb repo ctx).

(** A worker without hooks. *)
Definition plain_batch_worker (size poll maxPoll timeout : Z) : BatchWorker DB :=
  mkBatchWorker None size poll maxPoll timeout (fun _ => mret tt).

Definition result_answer (r : PublishResult) : option error :=
  if Success r then None else Error r.

(** *** The events of a turn *)

Fixpoint publish_events (n : nat) (mrs : list (Outbox * PublishResult)) : list Event :=
  match mrs with
  | [] => []
  | (m, r) :: mrs' =>
      EPublish n (result_answer r) (Success r || reached m) :: publish_events (S n) mrs'
  end.

(** The messages that failed are closed one by one, in order; the others stay
    where they are until the update of the batch. *)
Fixpoint failure_events (n : nat) (mrs : list (Outbox * PublishResult)) : list Event :=
  match mrs with
  | [] => []
  | (_, r) :: mrs' =>
      if Success r then failure_events (S n) mrs' else EClose n :: failure_events n mrs'
  end.

Definition batch_events (w : nat) (limit : Z) (n : nat) (mrs : list (Outbox * PublishResult))
    : list Event :=
  match mrs with
  | [] => [EFetch w limit]
  | _ => EFetch w limit :: publish_events n mrs ++ failure_events n mrs ++ [ECloseBatch w]
  end.

Definition batch_fetched (limit : Z) (db : DB) : list Outbox :=
  match snd (pgx_FetchLockAndMarkPublishing ctx limit db) with
  | Ret (Ok msgs) => msgs
  | _ => []
  end.

Definition unanswered (w : nat) (m : Outbox) : Held := mkHeld w m None.
Definition answered (w : nat) (mr : Outbox * PublishResult) : Held :=
  mkHeld w mr.1 (Some (result_answer mr.2)).

(** *** Publishing *)

Lemma publish_run w mrs : forall pre s,
  s_held s = pre ++ (unanswered w <$> mrs.*1) ->
  Forall (fun mr => result_ok mr.1 mr.2) mrs ->
  exists s', run (publish_events (length pre) mrs) s = Some s'
    /\ s_db s' = s_db s /\ s_held s' = pre ++ (answered w <$> mrs).
Proof.
  induction mrs as [|[m r] mrs IH]; intros pre s Hheld Hok.
  { exists s. rewrite Hheld. done. }
  apply Forall_cons in Hok as [Hr Hok].
  set (h := answered w (m, r)).
  assert (Hstep : exists s1,
    sys_step jsonb repo ctx (EPublish (length pre) (result_answer r) (Success r || reached m)) s
    = Some s1 /\ s_db s1 = s_db s
    /\ s_held s1 = (pre ++ [h]) ++ (unanswered w <$> mrs.*1)).
  { cbn [sys_step]. rewrite Hheld. cbn [fmap list_fmap fst].
    rewrite lookup_app_r, Nat.sub_diag by lia. cbn [lookup list_lookup mbind option_bind].
    assert (Hins : <[length pre := h]> (pre ++ unanswered w m :: (unanswered w <$> mrs.*1))
                   = (pre ++ [h]) ++ (unanswered w <$> mrs.*1)).
    { rewrite insert_app_r_alt, Nat.sub_diag, <- app_assoc by lia. done. }
    unfold h, answered, result_answer in *. cbn [unanswered h_answer h_worker h_msg fst snd] in *.
    destruct Hr as [_ Herr].
    destruct (Success r); [|destruct (Error r) as [e|]; [|by destruct Herr]];
      eexists; (split; [reflexivity|split; [done|exact Hins]]). }
  destruct Hstep as (s1 & Hstep & Hdb & Hheld1).
  destruct (IH (pre ++ [h]) s1 Hheld1 Hok) as (s' & Hrun & Hdb' & Hheld').
  exists s'. rewrite length_app, Nat.add_1_r in Hrun.
  cbn [publish_events]. rewrite run_cons, Hstep. cbn [mbind option_bind].
  split; [exact Hrun|]. split; [congruence|]. rewrite Hheld', <- app_assoc. done.
Qed.

(** *** Closing the failures *)

Variables (size poll maxPoll timeout : Z).
Abbreviation d := (plain_batch_worker size poll maxPoll timeout).

Lemma close_failure_run w m e dur db :
  exists c, closing_call (mkHeld w m (Some (Some e))) = Some c
    /\ batch_handlePublishFailure d ctx m e dur db = (repo_call jsonb repo ctx c db, Ret tt).
Proof.
  eexists. split; [reflexivity|].
  unfold batch_handlePublishFailure. cbn [b_hooks b_CleanupTimeout plain_batch_worker h_msg].
  unfold mbind at 1, GoM_bind at 1. cbn [time_Now batch_runtime].
  destruct (marks_dead m e); unfold mbind at 1, GoM_bind at 1;
    cbn [UpdateToDead UpdateToFailed batch_repo_base batch_repo pgx_batch_repository pgx_repository];
    unfold repo_call, pgx_UpdateToDead, pgx_UpdateToFailed; rewrite !exec_bind_run;
    match goal with |- context [exec ?stmt db] => destruct (exec_ret stmt db) as [a ->] end;
    done.
Qed.

Definition succeeded_pairs (mrs : list (Outbox * PublishResult)) : list (Outbox * PublishResult) :=
  List.filter (fun mr => Success mr.2) mrs.

Lemma failures_run w dur : forall results msgs i t pre s,
  s_held s = pre ++ (answered w <$> combine (drop i msgs) results) ->
  Forall2 result_ok (drop i msgs) results ->
  let mrs := combine (drop i msgs) results in
  exists s', run (failure_events (length pre) mrs) s = Some s'
    /\ s_held s' = pre ++ (answered w <$> succeeded_pairs mrs)
    /\ process_results d ctx msgs dur i results t (s_db s)
       = (s_db s', Ret (mkTally (successIDs t ++ (ID <$> published mrs))
                          (successMsgs t ++ published mrs)
                          (failureCount t + Z.of_nat (length (failures mrs))))).
Proof.
  induction results as [|r results IH]; intros msgs i t pre s Hheld Hok mrs.
  { apply Forall2_nil_inv_r in Hok. unfold mrs. rewrite Hok in *. exists s.
    cbn in *. rewrite !app_nil_r, Z.add_0_r. split; [done|]. split; [|by destruct t].
    rewrite Hheld. by rewrite app_nil_r. }
  apply Forall2_cons_inv_r in Hok as (m & ms & Hrm & Hok & Ed).
  assert (Ei : msgs !! i = Some m) by (rewrite <- (Nat.add_0_r i), <- lookup_drop, Ed; done).
  assert (Es : drop (S i) msgs = ms) by (rewrite <- Nat.add_1_r, <- drop_drop, Ed; done).
  unfold mrs. rewrite Ed in *. cbn [combine fmap list_fmap] in Hheld |- *.
  cbn [process_results failure_events]. rewrite Ei.
  unfold succeeded_pairs, published, failures. cbn [List.filter snd fst].
  destruct Hrm as [_ Herr]. destruct (Success r) eqn:Er; cbn [negb].
  - destruct (IH msgs (S i)
      (mkTally (successIDs t ++ [ID m]) (successMsgs t ++ [m]) (failureCount t))
      (pre ++ [answered w (m, r)]) s) as (s' & Hrun & Hheld' & Hproc);
      [by rewrite Es, <- app_assoc|by rewrite Es|].
    rewrite Es in Hrun, Hheld', Hproc. rewrite length_app, Nat.add_1_r in Hrun.
    exists s'. split; [exact Hrun|]. rewrite Hheld', Hproc. cbn. rewrite <- !app_assoc. done.
  - destruct (Error r) as [e|] eqn:Ee; [|by destruct Herr].
    destruct (close_failure_run w m e dur (s_db s)) as (c & Hc & Hfail).
    set (s1 := call jsonb repo ctx c s (delete (length pre) (s_held s))).
    assert (Ha : answered w (m, r) = mkHeld w m (Some (Some e)))
      by (unfold answered, result_answer; cbn [fst snd]; by rewrite Er, Ee).
    assert (Hstep : sys_step jsonb repo ctx (EClose (length pre)) s = Some s1).
    { unfold s1. cbn [sys_step]. rewrite Hheld, Ha, lookup_app_r, Nat.sub_diag by lia.
      cbn [lookup list_lookup mbind option_bind]. by rewrite Hc. }
    destruct (IH msgs (S i) (mkTally (successIDs t) (successMsgs t) (failureCount t + 1)) pre s1)
      as (s' & Hrun & Hheld' & Hproc); [|by rewrite Es|].
    { unfold s1. cbn [call s_held]. by rewrite Hheld, delete_middle, Es. }
    rewrite Es in Hrun, Hheld', Hproc.
    exists s'. rewrite run_cons, Hstep. split; [exact Hrun|]. split; [exact Hheld'|].
    unfold mbind, GoM_bind. rewrite Hfail. change (repo_call _ _ _ c (s_db s)) with (s_db s1).
    rewrite Hproc. cbn. do 3 f_equal. unfold failures. lia.
Qed.

(** *** Closing the successes *)

Lemma successes_run dur t db :
  update_successes d ctx dur t db
  = (repo_call jsonb repo ctx (RBatchToPublished (successIDs t)) db, Ret tt).
Proof.
  unfold update_successes. destruct (successIDs t) as [|i ids]; [done|].
  unfold mbind at 1, GoM_bind at 1. cbn [time_Now batch_runtime].
  unfold mbind at 1, GoM_bind at 1.
  cbn [UpdateBatchToPublished batch_repo pgx_batch_repository b_hooks plain_batch_worker].
  unfold repo_call, pgx_UpdateBatchToPublished.
  destruct (exec_ret (queryUpdateBatchToPublished (i :: ids)) db) as [[n|e] ->]; [|done].
  cbn [fst]. destruct (n <? _); [unfold callOnPartialBatchSuccess; by rewrite call_hook_ret|].
  induction (successMsgs t) as [|m ms IH]; [done|]. cbn [for_each].
  unfold mbind, GoM_bind, callOnPublishSuccess. rewrite call_hook_ret. exact IH.
Qed.

Lemma close_batch_step w mrs pre s :
  s_held s = pre ++ (answered w <$> succeeded_pairs mrs) ->
  existsb (held_by w) pre = false ->
  sys_step jsonb repo ctx (ECloseBatch w) s
  = Some (call jsonb repo ctx (RBatchToPublished (ID <$> published mrs)) s pre).
Proof.
  intros Hheld Hidle. cbn [sys_step]. rewrite Hheld, !List.filter_app.
  set (mine := fun h => held_by w h && succeeded h).
  change (fun h => negb (held_by w h && succeeded h)) with (fun h => negb (mine h)).
  assert (Hpre : List.filter mine pre = [] /\ List.filter (fun h => negb (mine h)) pre = pre).
  { clear Hheld. unfold mine. induction pre as [|h pre IH]; [done|]. cbn in *.
    apply orb_false_iff in Hidle as [-> Hidle]. destruct (IH Hidle) as [-> ->]. done. }
  assert (Hmrs : List.filter mine (answered w <$> succeeded_pairs mrs)
                 = answered w <$> succeeded_pairs mrs
               /\ List.filter (fun h => negb (mine h)) (answered w <$> succeeded_pairs mrs) = []).
  { clear Hheld. unfold succeeded_pairs. induction mrs as [|[m r] mrs IH]; [done|]. cbn.
    destruct (Success r) eqn:Er; [|exact IH].
    assert (Hm : mine (answered w (m, r)) = true).
    { unfold mine, answered, result_answer, held_by, succeeded. cbn. by rewrite Er, Nat.eqb_refl. }
    cbn. rewrite Hm. cbn. destruct IH as [-> ->]. done. }
  destruct Hpre as [-> ->], Hmrs as [-> ->]. rewrite app_nil_r. cbn [app].
  do 2 f_equal. f_equal. unfold published, succeeded_pairs. rewrite <- !list_fmap_compose. done.
Qed.

(** The fetch of the system, with what it gave. *)
Definition after_batch_fetch (s : Sys) (w : nat) (limit : Z) : Sys :=
  call jsonb repo ctx (RFetchBatch limit) s
    (s_held s ++ (unanswered w <$> batch_fetched limit (s_db s))).

Lemma batch_fetch_step s w limit :
  existsb (held_by w) (s_held s) = false ->
  sys_step jsonb repo ctx (EFetch w limit) s = Some (after_batch_fetch s w limit).
Proof. intros Hidle. cbn [sys_step]. by rewrite Hidle. Qed.

Lemma processBatch_idle_run db :
  batch_fetched size db = [] ->
  fst (processBatch d ctx db) = repo_call jsonb repo ctx (RFetchBatch size) db.
Proof.
  unfold batch_fetched, processBatch, repo_call. unfold mbind at 1, GoM_bind at 1.
  cbn [FetchLockAndMarkPublishing batch_repo pgx_batch_repository b_BatchSize plain_batch_worker].
  unfold pgx_FetchLockAndMarkPublishing.
  destruct (exec_ret (queryFetchLockAndMarkPublishing size) db) as [[msgs|e] ->]; [|done].
  cbn [snd fst]. by intros ->.
Qed.

Lemma processBatch_run_db db msgs :
  batch_fetched size db = msgs -> msgs <> [] ->
  let db1 := repo_call jsonb repo ctx (RFetchBatch size) db in
  exists dur,
  processBatch d ctx db
  = (t ← process_results d ctx msgs dur 0 (publisher ctx msgs) (mkTally [] [] 0);
     _ ← update_successes d ctx dur t;
     mret (Z.of_nat (length msgs))) db1.
Proof.
  intros Hf Hne db1. unfold batch_fetched in Hf.
  exists (saturate64 (clock db1 - clock db1)).
  unfold processBatch. unfold mbind at 1, GoM_bind at 1.
  cbn [FetchLockAndMarkPublishing batch_repo pgx_batch_repository b_BatchSize plain_batch_worker].
  unfold db1, repo_call, pgx_FetchLockAndMarkPublishing in *.
  destruct (exec_ret (queryFetchLockAndMarkPublishing size) db) as [a Ea]; rewrite Ea in Hf |- *.
  cbn [snd fst] in *. destruct a as [l|e]; [|by subst]. subst l.
  destruct msgs as [|m ms]; [done|]. reflexivity.
Qed.

(** What the fetched messages are answered. *)
Definition batch_answers (limit : Z) (db : DB) : list (Outbox * PublishResult) :=
  let msgs := batch_fetched limit db in combine msgs (publisher ctx msgs).

Lemma result_pairs_ok (msgs : list Outbox) (results : list PublishResult) :
  Forall2 result_ok msgs results ->
  (combine msgs results).*1 = msgs /\ Forall (fun mr => result_ok mr.1 mr.2) (combine msgs results).
Proof.
  induction 1 as [|m r ms rs Hr _ [IH1 IH2]]; [done|]. cbn [combine fmap list_fmap fst].
  split; [by f_equal|]. by constructor.
Qed.

(** From any state of the system in which worker [w] holds nothing, a turn
    of [processBatch] with a publisher that keeps its contract leaves the
    database exactly as the events of the turn do: the fetch alone when it gave
    nothing or failed, and otherwise the fetch, a publish of each message, a
    closing update of each failure and one of all successes; the worker holds
    nothing afterwards. *)
Theorem processBatch_refines (s : Sys) (w : nat)
  (Hidle : existsb (held_by w) (s_held s) = false)
  (Hpublisher : forall msgs, Forall2 result_ok msgs (publisher ctx msgs)) :
  exists s',
    run (batch_events w size (length (s_held s)) (batch_answers size (s_db s))) s = Some s'
    /\ fst (processBatch d ctx (s_db s)) = s_db s'
    /\ s_held s' = s_held s.
Proof.
  pose proof (batch_fetch_step s w size Hidle) as Hfetch.
  unfold batch_answers. remember (batch_fetched size (s_db s)) as msgs eqn:Em.
  destruct (result_pairs_ok msgs _ (Hpublisher msgs)) as [Hfst Hok].
  destruct msgs as [|m ms].
  { exists (after_batch_fetch s w size).
    split; [cbn [combine batch_events]; by rewrite run_cons, Hfetch|].
    split; [by apply processBatch_idle_run|].
    unfold after_batch_fetch. rewrite <- Em. apply app_nil_r. }
  set (msgs := m :: ms) in *. set (mrs := combine msgs (publisher ctx msgs)) in *.
  assert (Hev : batch_events w size (length (s_held s)) mrs
    = EFetch w size :: publish_events (length (s_held s)) mrs
        ++ failure_events (length (s_held s)) mrs ++ [ECloseBatch w])
    by (destruct mrs; [discriminate Hfst|done]).
  rewrite Hev, run_cons, Hfetch. cbn [mbind option_bind].
  destruct (publish_run w mrs (s_held s) (after_batch_fetch s w size))
    as (s2 & Hrun2 & Hdb2 & Hheld2); [by rewrite Hfst; unfold after_batch_fetch; rewrite <- Em|done|].
  destruct (processBatch_run_db (s_db s) msgs (eq_sym Em)) as [dur Hproc]; [done|].
  destruct (failures_run w dur (publisher ctx msgs) msgs 0 (mkTally [] [] 0) (s_held s) s2)
    as (s3 & Hrun3 & Hheld3 & Htally); [done|apply Hpublisher|].
  rewrite drop_0 in Hrun3, Hheld3, Htally. fold mrs in Hrun3, Hheld3, Htally.
  exists (call jsonb repo ctx (RBatchToPublished (ID <$> published mrs)) s3 (s_held s)).
  rewrite run_app, Hrun2. cbn [mbind option_bind]. rewrite run_app, Hrun3. cbn [mbind option_bind].
  rewrite run_cons, (close_batch_step w mrs (s_held s) s3 Hheld3 Hidle).
  split; [done|]. split; [|done].
  change (repo_call _ _ _ (RFetchBatch size) (s_db s)) with (s_db (after_batch_fetch s w size)) in Hproc.
  rewrite Hproc, <- Hdb2. unfold mbind, GoM_bind. rewrite Htally, successes_run. done.
Qed.
End BatchRefinement.

(** A batch of one message, published. *)
Open Scope string_scope.
Open Scope list_scope.
Open Scope Z_scope.

Definition demo_results (ctx : Context) (msgs : list Outbox) : list PublishResult :=
  (fun m => mkResult (ID m) "sqs-1" true None) <$> msgs.

Lemma demo_results_ok ctx msgs : Forall2 result_ok msgs (demo_results ctx msgs).
Proof. induction msgs; constructor; [by split|done]. Qed.

Lemma processBatch_refines_witness :
  exists s s',
    run_events demo_jsonb demo_repo demo_ctx [demo_insert] (initial hourly) = Some s
    /\ run_events demo_jsonb demo_repo demo_ctx
         (batch_events (fun _ => false) 1 10 (length (s_held s))
            (batch_answers demo_ctx demo_results 10 (s_db s))) s = Some s'
    /\ s_held s' = s_held s.
Proof.
  destruct (row_after_inv [demo_insert] (fun _ => True) I) as (s & row & Hrun & _ & _ & _).
  assert (Hidle : existsb (held_by 1) (s_held s) = false).
  { assert (H : match run_events demo_jsonb demo_repo demo_ctx [demo_insert] (initial hourly) with
                | Some s => existsb (held_by 1) (s_held s) = false | None => True end)
      by (vm_compute; reflexivity).
    rewrite Hrun in H. exact H. }
  destruct (processBatch_refines demo_jsonb demo_repo demo_ctx (fun _ => 0) demo_results
              (fun _ => false) {| Publish := fun _ _ db => (db, Ret None) |} 10
              10 Second Second Second s 1 Hidle (demo_results_ok demo_ctx)) as (s' & H1 & _ & H2).
  exists s, s'. split; [exact Hrun|]. by split.
Defined.
