(* ===== verification/Draining.v ===== *)
(** * The outbox drains

    What the safety of System.v is for: after a crash, the recovery of
    core/dispatcher.go and a bounded number of rounds, each a requeue and a turn
    of [processBatch], bring every message to a final status, whatever the
    publisher answers and however many messages are inserted in between. *)

From Stdlib Require Import ZArith Lia Permutation.
From stdpp Require Import base option list strings gmap fin_maps sorting.
From S2P Require Import Prelude Errors Model Ports Store PgxRepo OutboxSafety Worker.
From S2P Require Import BatchDispatcher System Refinement BatchRefinement PgxSpec.

Set Default Goal Selector "!".
Open Scope Z_scope.

(** ** The work a table has left *)

Definition final (r : Outbox) : bool :=
  match Status r with PUBLISHED | DEAD => true | _ => false end.

(** The publishes a row may still need. *)
Definition work (r : Outbox) : Z :=
  if final r then 0 else Z.max 1 (MaxAttempts r - AttemptCount r).

Lemma work_nonneg r : 0 <= work r.
Proof. unfold work. destruct (final r); lia. Qed.

Lemma work_final r : work r = 0 <-> final r = true.
Proof. unfold work. destruct (final r); [done|]. split; [lia|done]. Qed.

(** The publishes the rows created up to [horizon] may still need. *)
Definition old_work (horizon : Z) (r : Outbox) : Z := if CreatedAt r <=? horizon then work r else 0.

Definition work_left (horizon : Z) (t : table) : Z :=
  map_fold (fun _ r n => old_work horizon r + n) 0 t.

Lemma old_work_nonneg T r : 0 <= old_work T r.
Proof. unfold old_work. pose proof (work_nonneg r). destruct (_ <=? _); lia. Qed.

Lemma work_left_split T t id r :
  t !! id = Some r -> work_left T t = old_work T r + work_left T (delete id t).
Proof.
  intros Hr. unfold work_left.
  apply (map_fold_delete_L (fun _ r n => old_work T r + n)); [intros; lia|done].
Qed.

Lemma work_left_insert T t id r :
  t !! id = None -> work_left T (<[id := r]> t) = old_work T r + work_left T t.
Proof.
  intros Hr. unfold work_left.
  apply (map_fold_insert_L (fun _ r n => old_work T r + n)); [intros; lia|done].
Qed.

Lemma work_left_nonneg T t : 0 <= work_left T t.
Proof.
  induction t as [|id r t Hid IH] using map_ind; [done|].
  rewrite work_left_insert by done. pose proof (old_work_nonneg T r). lia.
Qed.

(** Every row of [t'] with work has no more of it than its row in [t]. *)
Definition lighter (T : Z) (t t' : table) : Prop :=
  forall id r', t' !! id = Some r' -> 0 < old_work T r' ->
    exists r, t !! id = Some r /\ old_work T r' <= old_work T r.

Lemma lighter_delete T t t' id : lighter T t t' -> lighter T (delete id t) (delete id t').
Proof.
  intros H j r'. rewrite !lookup_delete. case_decide; [done|]. apply H.
Qed.

Lemma work_left_le T t t' : lighter T t t' -> work_left T t' <= work_left T t.
Proof.
  revert t. induction t' as [|id r' t' Hid IH] using map_ind; intros t H; [apply work_left_nonneg|].
  rewrite work_left_insert by done.
  assert (Hd : lighter T (delete id t) t').
  { apply (lighter_delete _ _ _ id) in H. by rewrite delete_insert_id in H. }
  specialize (IH _ Hd). pose proof (old_work_nonneg T r').
  destruct (Z.eq_dec (old_work T r') 0) as [E|Hne].
  - rewrite E. destruct (t !! id) as [r|] eqn:Er; [|by rewrite delete_id in IH].
    rewrite (work_left_split T t id r Er). pose proof (old_work_nonneg T r). lia.
  - destruct (H id r') as (r & Er & Hle); [by rewrite lookup_insert_eq|lia|].
    rewrite (work_left_split T t id r Er). lia.
Qed.

Lemma work_left_lt T t t' id r r' :
  lighter T t t' -> t !! id = Some r -> t' !! id = Some r' -> old_work T r' < old_work T r ->
  work_left T t' < work_left T t.
Proof.
  intros H Hr Hr' Hlt. rewrite (work_left_split T t id r Hr), (work_left_split T t' id r' Hr').
  pose proof (work_left_le T _ _ (lighter_delete T t t' id H)). lia.
Qed.

Lemma work_left_zero T t :
  work_left T t <= 0 -> map_Forall (fun _ r => CreatedAt r <= T -> final r = true) t.
Proof.
  intros H id r Hr Hc. apply work_final. rewrite (work_left_split T t id r Hr) in H.
  pose proof (work_nonneg r). pose proof (work_left_nonneg T (delete id t)).
  unfold old_work in H. rewrite (proj2 (Z.leb_le _ _) Hc) in H. lia.
Qed.

Lemma work_left_pos T t :
  0 < work_left T t -> exists id r, t !! id = Some r /\ CreatedAt r <= T /\ final r = false.
Proof.
  induction t as [|id r t Hid IH] using map_ind; [done|].
  rewrite work_left_insert by done. intros H. pose proof (old_work_nonneg T r).
  destruct (Z.eq_dec (old_work T r) 0) as [E|Hne].
  - destruct IH as (j & rj & Hj & Hrj); [lia|]. exists j, rj. split; [|done].
    rewrite lookup_insert_ne; [done|]. intros ->. congruence.
  - exists id, r. rewrite lookup_insert_eq. split; [done|]. unfold old_work in Hne.
    destruct (Z.leb_spec (CreatedAt r) T); [|done]. split; [done|].
    apply not_true_iff_false. by rewrite <- work_final.
Qed.

(** Rows that are there stay, and none has more work than before. *)
Definition advances (P : Outbox -> Outbox -> Prop) (t t' : table) : Prop :=
  forall id, option_Forall2 P (t !! id) (t' !! id).

Lemma advances_some P t t' id r :
  advances P t t' -> t !! id = Some r -> exists r', t' !! id = Some r' /\ P r r'.
Proof. intros H Hr. specialize (H id). rewrite Hr in H. inversion H; subst. by eexists. Qed.

Lemma advances_back P t t' id r' :
  advances P t t' -> t' !! id = Some r' -> exists r, t !! id = Some r /\ P r r'.
Proof. intros H Hr. specialize (H id). rewrite Hr in H. inversion H; subst. by eexists. Qed.

Lemma advances_trans (P Q R : Outbox -> Outbox -> Prop) t1 t2 t3 :
  (forall a b c, P a b -> Q b c -> R a c) ->
  advances P t1 t2 -> advances Q t2 t3 -> advances R t1 t3.
Proof.
  intros H H1 H2 id. specialize (H1 id). specialize (H2 id).
  inversion H1 as [a b Hab E1 E2|E1 E2]; rewrite <- E2 in H2; inversion H2; subst; constructor.
  by eapply H.
Qed.

Lemma advances_lighter (P : Outbox -> Outbox -> Prop) T t t' :
  (forall r r', P r r' -> CreatedAt r' = CreatedAt r /\ work r' <= work r) ->
  advances P t t' -> lighter T t t'.
Proof.
  intros HP Hadv id r' Hr' _. destruct (advances_back P t t' id r' Hadv Hr') as (r & Hr & Hrr).
  exists r. split; [done|]. destruct (HP r r' Hrr) as [Hc Hw]. unfold old_work. rewrite Hc.
  destruct (_ <=? _); lia.
Qed.

(** ** Rounds *)

Section Rounds.
Context (jsonb : string -> option string) (repo : OutboxRepo) (ctx : Context)
  (single : Publisher DB) (max_size : Z).
(** The configuration of the batch dispatcher. *)
Context (size poll maxPoll timeout : Z).
Abbreviation d := (plain_batch_worker size poll maxPoll timeout).
Abbreviation turn clock publisher :=
  (@processBatch DB (batch_runtime clock) (batch_repo jsonb repo)
     (batch_publisher publisher single max_size) d ctx).

(** The requeue worker wakes up, and a worker takes a turn. *)
Definition round (clock : DB -> Z) (publisher : Context -> list Outbox -> list PublishResult)
    (db : DB) : DB :=
  fst (turn clock publisher (fst (pgx_RequeueFailed ctx db))).

(** The calls to come do not fail and find no row locked. *)
Definition healthy (db : DB) : Prop :=
  forall n, (db_calls db <= n)%nat ->
    e_fault (db_env db n) = None /\ e_locked (db_env db n) = ∅ /\ env_ok (db_env db n).

(** The retries of the failed messages are due. *)
Definition due (db : DB) : Prop :=
  forall id r at_, db_table db !! id = Some r -> Status r = FAILED -> NextRetryAt r = Some at_ ->
    at_ <= e_where (current_env db) id.

(** The limit of attempts is an [INT], and no backoff leaves the interval. *)
Definition attempts_fit (maxAttempts : Z) : Prop :=
  in_int4 maxAttempts = true /\ in_interval (base_us repo * 2 ^ Z.max 1 maxAttempts) = true.
Definition backoffs_fit (r : Outbox) : Prop := attempts_fit (MaxAttempts r).

(** Time passes, and messages are inserted, all after [horizon]. *)
Inductive passes (horizon : Z) : DB -> DB -> Prop :=
| passes_done db : passes horizon db db
| passes_time db db1 later :
    db_table db1 = db_table db -> passes horizon db1 later -> passes horizon db later
| passes_insert p db later :
    env_ok (current_env db) -> (forall id, horizon < e_set (current_env db) id) ->
    attempts_fit (p_MaxAttempts p) ->
    passes horizon (repo_call jsonb repo ctx (RInsert p) db) later -> passes horizon db later.

(** [n] rounds, each when the retries are due, with any publisher that keeps
    its contract. *)
Inductive rounds (horizon : Z) : nat -> DB -> DB -> Prop :=
| rounds_done db : rounds horizon 0 db db
| rounds_next n db later db' clock publisher :
    healthy db -> due db -> (forall msgs, Forall2 result_ok msgs (publisher ctx msgs)) ->
    passes horizon (round clock publisher db) later ->
    rounds horizon n later db' -> rounds horizon (S n) db db'.

(** ** Rows between rounds *)

Definition retries_left (r : Outbox) : Prop :=
  1 <= AttemptCount r /\ (AttemptCount r = 1 \/ AttemptCount r < MaxAttempts r).

Record ready (r : Outbox) : Prop := {
  ready_status : Status r = ENQUEUED \/ Status r = FAILED;
  ready_left : retries_left r;
  ready_retry : Status r = FAILED -> AttemptCount r < MaxAttempts r /\ is_Some (NextRetryAt r);
  ready_fits : backoffs_fit r
}.

Definition tidy (t : table) : Prop :=
  well_formed t /\ map_Forall (fun _ r => final r = true \/ ready r) t.

Definition moved (r r' : Outbox) : Prop :=
  CreatedAt r' = CreatedAt r /\ work r' <= work r /\ (final r' = true \/ ready r').

Lemma moved_lighter T t t' : advances moved t t' -> lighter T t t'.
Proof. apply advances_lighter. intros r r' (? & ? & _). done. Qed.

Lemma moved_trans r1 r2 r3 : moved r1 r2 -> moved r2 r3 -> moved r1 r3.
Proof. intros (C1 & W1 & _) (C2 & W2 & H). split; [congruence|]. split; [lia|done]. Qed.

Variable base_nonneg : 0 <= base_us repo.

Lemma fits_count r a :
  backoffs_fit r -> retries_left r -> 0 <= a <= AttemptCount r ->
  in_int4 (a + 1) = true /\ in_interval (base_us repo * 2 ^ a) = true.
Proof.
  intros [Hm Hi] [H1 H2] Ha. unfold in_int4, in_interval in *. bool_to_prop.
  assert (Hle : a <= Z.max 1 (MaxAttempts r)) by lia.
  pose proof (Z.pow_le_mono_r 2 a _ ltac:(lia) Hle).
  pose proof (Z.pow_nonneg 2 a ltac:(lia)).
  split; apply andb_true_iff; split;
    rewrite ?Z.leb_le, ?Z.ltb_lt; try lia; nia.
Qed.

(** What a failure does to a row that was PUBLISHING. *)
Definition closed (r r' : Outbox) : Prop :=
  CreatedAt r' = CreatedAt r /\ work r' < work r /\ (final r' = true \/ ready r').

Lemma closed_moved r r' : closed r r' -> moved r r'.
Proof. intros (Hc & Hw & H). split; [done|]. split; [lia|done]. Qed.

Lemma closed_published now r : Status r = PUBLISHING -> closed r (with_status PUBLISHED now r).
Proof.
  intros Es. split; [done|]. split; [|by left]. unfold work, final. rewrite Es. cbn. lia.
Qed.

Lemma closed_dead r m a retry now : Status r = PUBLISHING -> closed r (with_failure DEAD m a retry now r).
Proof.
  intros Es. split; [done|]. split; [|by left]. unfold work, final. rewrite Es. cbn. lia.
Qed.

Lemma closed_failed r m at_ now :
  Status r = PUBLISHING -> retries_left r -> AttemptCount r + 1 < MaxAttempts r -> backoffs_fit r ->
  closed r (with_failure FAILED m (AttemptCount r + 1) (Some at_) now r).
Proof.
  intros Es [H1 _] Ha Hf. split; [done|]. split.
  - unfold work, final. rewrite Es. cbn. lia.
  - right. split; [by right|split; cbn; lia| |exact Hf]. intros _. cbn. split; [lia|done].
Qed.

(** *** One call *)

Lemma healthy_quiet db : healthy db -> quiet db /\ e_locked (current_env db) = ∅ /\ env_ok (current_env db).
Proof. intros H. by apply (H (db_calls db)). Qed.

Lemma healthy_after t db : healthy db -> healthy (after_call t db).
Proof. intros H n Hn. apply H. cbn in Hn. lia. Qed.

(** The update that closes a failed message. *)
Definition failure_call (m : Outbox) (e : error) : RepoCall :=
  let errMsg := TruncateErrorMessage (error_text e) in
  if marks_dead m e then RToDead (ID m) errMsg else RToFailed (ID m) errMsg.

(** The row of a message in a worker's hands. *)
Definition in_hand (m r : Outbox) : Prop :=
  Status r = PUBLISHING /\ AttemptCount r = AttemptCount m /\ MaxAttempts r = MaxAttempts m
  /\ retries_left r /\ backoffs_fit r.

Lemma failure_call_run m e db :
  healthy db -> keyed (db_table db) ->
  exists t', repo_call jsonb repo ctx (failure_call m e) db = after_call t' db
    /\ (forall id, id <> ID m -> t' !! id = db_table db !! id)
    /\ forall r, db_table db !! ID m = Some r -> in_hand m r ->
         exists r', t' !! ID m = Some r' /\ closed r r'.
Proof.
  intros Hh Hk. destruct (healthy_quiet db Hh) as (Hq & _).
  unfold failure_call, repo_call, pgx_UpdateToDead, pgx_UpdateToFailed.
  destruct (marks_dead m e) eqn:Em; unfold queryUpdateToDead, queryUpdateToFailed;
    rewrite (guarded_run Hq Hk eq_refl);
    (destruct (db_table db !! ID m) as [r|] eqn:Er; [|by exists (db_table db)]);
    (destruct (has_status PUBLISHING r) eqn:Es;
      [|exists (db_table db); split; [done|]; split; [done|]; intros r0 [= <-] (Hs & _);
        apply not_true_iff_false in Es; destruct Es; by apply has_status_eq]).
  - destruct (set_dead _ _ r) as [r'|] eqn:Ed.
    + exists (<[ID m := r']> (db_table db)). split; [done|].
      split; [by intros id Hid; apply lookup_insert_ne|]. intros r0 [= <-] (Hs & _).
      exists r'. rewrite lookup_insert_eq. split; [done|]. unfold set_dead in Ed.
      destruct (in_int4 _); [|discriminate]. injection Ed as <-. by apply closed_dead.
    + exists (db_table db). split; [done|]. split; [done|].
      intros r0 [= <-] (_ & _ & _ & Hl & Hf). exfalso. unfold set_dead in Ed.
      destruct (fits_count r (AttemptCount r) Hf Hl) as [Hi _]; [destruct Hl; lia|].
      by rewrite Hi in Ed.
  - destruct (set_failed _ _ _ _ r) as [r'|] eqn:Ed.
    + exists (<[ID m := r']> (db_table db)). split; [done|].
      split; [by intros id Hid; apply lookup_insert_ne|].
      intros r0 [= <-] (Hs & Ha & Hmx & Hl & Hf). exists r'. rewrite lookup_insert_eq.
      split; [done|]. unfold set_failed in Ed.
      repeat (break_hyp Ed; try discriminate). injection Ed as <-. apply closed_failed; try done.
      unfold marks_dead, WillExceedMaxAttemptsAfterFailure in Em.
      apply orb_false_iff in Em as [_ Em]. rewrite <- Ha, <- Hmx in Em.
      destruct Hf as [Hi _], Hl. unfold in_int4 in *. bool_to_prop.
      rewrite wrap64_id in * by (unfold in_int64; lia). lia.
    + exists (db_table db). split; [done|]. split; [done|].
      intros r0 [= <-] (_ & _ & _ & Hl & Hf). exfalso. unfold set_failed, backoff_interval in Ed.
      destruct (fits_count r (AttemptCount r) Hf Hl) as [Hi Hb]; [destruct Hl; lia|].
      by rewrite Hb, Hi in Ed.
Qed.

(** *** The updates of a turn *)

Definition close_one (mr : Outbox * PublishResult) (db : DB) : DB :=
  match Success mr.2, Error mr.2 with
  | false, Some e => repo_call jsonb repo ctx (failure_call mr.1 e) db
  | _, _ => db
  end.

Definition close_failures (mrs : list (Outbox * PublishResult)) (db : DB) : DB :=
  fold_left (fun db mr => close_one mr db) mrs db.

Lemma close_results_run clock dur : forall results msgs i t db,
  Forall2 result_ok (drop i msgs) results ->
  let mrs := combine (drop i msgs) results in
  exists t',
    @process_results DB (batch_runtime clock) (batch_repo jsonb repo) d ctx msgs dur i results t db
    = (close_failures mrs db, Ret t')
    /\ successIDs t' = successIDs t ++ (ID <$> published mrs).
Proof.
  induction results as [|r results IH]; intros msgs i t db Hok mrs.
  { unfold mrs. apply Forall2_nil_inv_r in Hok. rewrite Hok. exists t. by rewrite app_nil_r. }
  apply Forall2_cons_inv_r in Hok as (m & ms & Hrm & Hok & Ed).
  assert (Ei : msgs !! i = Some m) by (rewrite <- (Nat.add_0_r i), <- lookup_drop, Ed; done).
  assert (Es : drop (S i) msgs = ms) by (rewrite <- Nat.add_1_r, <- drop_drop, Ed; done).
  unfold mrs. rewrite Ed. cbn [combine process_results close_failures fold_left]. rewrite Ei.
  unfold published, close_one at 2. cbn [List.filter fst snd]. destruct Hrm as [_ Herr].
  destruct (Success r) eqn:Er.
  - destruct (IH msgs (S i) (mkTally (successIDs t ++ [ID m]) (successMsgs t ++ [m])
      (failureCount t)) db) as (t' & Hrun & Ht'); [by rewrite Es|].
    rewrite Es in Hrun, Ht'. exists t'. split; [exact Hrun|]. rewrite Ht'. cbn.
    by rewrite <- app_assoc.
  - destruct (Error r) as [e|] eqn:Ee; [|by destruct Herr].
    destruct (close_failure_run jsonb repo ctx clock size poll maxPoll timeout 0 m e dur db) as (c & Hc & Hfail).
    assert (c = failure_call m e) as ->.
    { unfold failure_call, closing_call in *. cbn [h_answer h_msg] in Hc.
      injection Hc as <-. by destruct (marks_dead m e). }
    destruct (IH msgs (S i) (mkTally (successIDs t) (successMsgs t) (failureCount t + 1))
      (repo_call jsonb repo ctx (failure_call m e) db)) as (t' & Hrun & Ht'); [by rewrite Es|].
    rewrite Es in Hrun, Ht'. exists t'. split; [|exact Ht'].
    unfold mbind, GoM_bind. rewrite Hfail. exact Hrun.
Qed.

(** A call of the turn leaves the database healthy and the table well formed. *)
Definition sound (db : DB) : Prop := healthy db /\ well_formed (db_table db).

Lemma sound_call c db t' :
  sound db -> repo_call jsonb repo ctx c db = after_call t' db -> sound (after_call t' db).
Proof.
  intros [Hh Hwf] E. split; [by apply healthy_after|]. rewrite <- E.
  apply repo_call_legal; [by apply healthy_quiet|done].
Qed.

Lemma close_failures_run : forall mrs db,
  sound db -> NoDup (ID <$> mrs.*1) -> Forall (fun mr => result_ok mr.1 mr.2) mrs ->
  let db' := close_failures mrs db in
  sound db'
  /\ (forall id, (forall m r, (m, r) ∈ mrs -> ID m = id -> Success r = true) ->
        db_table db' !! id = db_table db !! id)
  /\ forall m r row, (m, r) ∈ mrs -> Success r = false -> db_table db !! ID m = Some row ->
       in_hand m row -> exists row', db_table db' !! ID m = Some row' /\ closed row row'.
Proof.
  induction mrs as [|[m0 r0] mrs IH]; intros db Hs Hd Hok.
  { split; [done|]. split; [done|]. intros m r row Hin. by apply not_elem_of_nil in Hin. }
  cbn [fmap list_fmap fst] in Hd. apply NoDup_cons in Hd as [Hni Hd].
  apply Forall_cons in Hok as [[_ Herr] Hok]. cbn [fst snd] in Herr.
  assert (Hne : forall m r, (m, r) ∈ mrs -> ID m <> ID m0).
  { intros m r Hin E. apply Hni. rewrite <- E. apply list_elem_of_fmap. exists m. split; [done|].
    apply list_elem_of_fmap. by exists (m, r). }
  assert (Hstep : exists t', sound (after_call t' db) /\ (close_one (m0, r0) db = after_call t' db
      \/ close_one (m0, r0) db = db /\ t' = db_table db)
    /\ (forall id, id <> ID m0 \/ Success r0 = true -> t' !! id = db_table db !! id)
    /\ (Success r0 = false -> forall row, db_table db !! ID m0 = Some row -> in_hand m0 row ->
          exists row', t' !! ID m0 = Some row' /\ closed row row')).
  { unfold close_one. cbn [fst snd]. destruct (Success r0).
    { exists (db_table db). split; [|split; [by right|done]].
      destruct Hs. split; [by apply healthy_after|done]. }
    destruct (Error r0) as [e|]; [|by destruct Herr].
    destruct (failure_call_run m0 e db) as (t' & E & Hother & Hrow);
      [apply Hs|apply (proj1 (proj2 Hs))|].
    exists t'. split; [by apply (sound_call (failure_call m0 e))|]. split; [by left|].
    split; [intros id [Hid|[=]]; by apply Hother|done]. }
  destruct Hstep as (t' & Hs' & Hdb & Hother & Hrow).
  set (db1 := close_one (m0, r0) db) in *.
  assert (Hs1 : sound db1 /\ db_table db1 = t') by (destruct Hdb as [->|[-> ->]]; done).
  destruct Hs1 as [Hs1 Et]. subst t'. cbn [close_failures fold_left]. fold db1.
  destruct (IH db1 Hs1 Hd Hok) as (Hsound & Hsame & Hclosed). unfold close_failures in *.
  split; [done|]. split.
  - intros id Hid. rewrite Hsame.
    + apply Hother. destruct (decide (id = ID m0)) as [->|?]; [right|by left].
      apply (Hid m0 r0); [by left|done].
    + intros m r Hin. apply Hid. by right.
  - intros m r row Hin Hr Hm Hhand. apply elem_of_cons in Hin as [[= -> ->]|Hin].
    + destruct (Hrow Hr row Hm Hhand) as (row' & E & Hc). exists row'. split; [|done].
      rewrite Hsame; [done|]. intros m r Hin E'. by destruct (Hne m r Hin).
    + apply (Hclosed m r row Hin Hr); [|done]. rewrite Hother; [done|]. left. by apply (Hne m r).
Qed.

Lemma batch_published_run ids db :
  sound db ->
  let db' := repo_call jsonb repo ctx (RBatchToPublished ids) db in
  sound db' /\ forall id, db_table db' !! id
    = (fun r => if bool_decide (ID r ∈ ids) && has_status PUBLISHING r
                then with_status PUBLISHED (e_set (current_env db) (ID r)) r else r)
      <$> db_table db !! id.
Proof.
  intros Hs. cbv zeta. destruct ids as [|i ids].
  { split; [done|]. intros id. cbn. by destruct (db_table db !! id). }
  assert (E : repo_call jsonb repo ctx (RBatchToPublished (i :: ids)) db
    = after_call ((fun r => if bool_decide (ID r ∈ i :: ids) && has_status PUBLISHING r
                   then with_status PUBLISHED (e_set (current_env db) (ID r)) r else r)
                  <$> db_table db) db).
  { unfold repo_call, pgx_UpdateBatchToPublished, queryUpdateBatchToPublished.
    rewrite exec_quiet by (by apply healthy_quiet, Hs).
    rewrite sql_update_total by (intros r; by eexists). done. }
  rewrite E. split; [by apply (sound_call (RBatchToPublished (i :: ids)))|].
  intros id. apply lookup_fmap.
Qed.

(** A fetch takes a row that is no younger than any it could take. *)
Lemma first_locked env limit t r :
  env_ok env -> (0 < limit)%nat -> r ∈ Store.rows t -> lockable env r = true ->
  exists a, a ∈ locked env limit t /\ CreatedAt a <= CreatedAt r.
Proof.
  intros Henv Hlim Hr Hl. destruct (decide (r ∈ locked env limit t)) as [Hin|Hni]; [by exists r|].
  destruct (locked env limit t) as [|a l] eqn:E.
  - pose proof (locked_length env limit t Henv) as Hlen. rewrite E in Hlen. cbn in Hlen.
    assert (Hin : r ∈ List.filter (lockable env) (Store.rows t))
      by (apply list_elem_of_In, List.filter_In; by rewrite <- list_elem_of_In).
    destruct (List.filter _ _); [by apply not_elem_of_nil in Hin|]. cbn in Hlen. lia.
  - exists a. split; [by left|]. apply (locked_oldest env limit t); try done; rewrite E; [by left|done].
Qed.

(** What a fetch takes, in the hands of the worker. *)
Lemma taken_run db :
  sound db -> 1 <= size ->
  let db' := repo_call jsonb repo ctx (RFetchBatch size) db in
  let msgs := batch_fetched ctx size db in
  sound db' /\ NoDup (ID <$> msgs)
  /\ (forall m, m ∈ msgs -> exists r now, db_table db !! ID m = Some r /\ Status r = ENQUEUED
       /\ db_table db' !! ID m = Some (with_status PUBLISHING now r)
       /\ AttemptCount m = AttemptCount r /\ MaxAttempts m = MaxAttempts r)
  /\ (forall id, id ∉ ID <$> msgs -> db_table db' !! id = db_table db !! id)
  /\ forall id r, db_table db !! id = Some r -> Status r = ENQUEUED ->
       exists m r0, m ∈ msgs /\ db_table db !! ID m = Some r0 /\ CreatedAt r0 <= CreatedAt r.
Proof.
  intros [Hh Hwf] Hsize. destruct (healthy_quiet db Hh) as (Hq & Hlock & Henv).
  destruct (fetch_quiet ctx size db Hq Henv (proj1 Hwf) ltac:(lia))
    as (t' & msgs & Hrun & Hmsgs & Hids & Hlook).
  cbv zeta. replace (batch_fetched ctx size db) with msgs by (unfold batch_fetched; by rewrite Hrun).
  assert (Edb : repo_call jsonb repo ctx (RFetchBatch size) db = after_call t' db)
    by (unfold repo_call; by rewrite Hrun).
  rewrite Edb. split; [by apply (sound_call (RFetchBatch size) db _ (conj Hh Hwf))|].
  set (env := current_env db) in *. set (t := db_table db) in *.
  split; [rewrite Hids; by apply locked_NoDup, Hwf|]. split; [|split].
  - intros m Hm. rewrite Hmsgs in Hm. apply list_elem_of_fmap in Hm as (m1 & -> & Hm).
    apply list_elem_of_fmap in Hm as (r & -> & Hr).
    pose proof (locked_in_table env Henv (Z.to_nat size) t (proj1 Hwf)) as Hin.
    rewrite Forall_forall in Hin. specialize (Hin r Hr).
    destruct (locked_spec env Henv _ _ _ Hr) as [_ Hl]. unfold lockable in Hl. row_guard.
    exists r, (e_set env (ID r)). split; [done|]. split; [done|]. split; [|done].
    cbn [after_call db_table ID without_retry mark with_status]. rewrite Hlook, decide_True, Hin;
      [done|by apply list_elem_of_fmap_2].
  - intros id Hid. cbn [after_call db_table]. rewrite Hlook, decide_False; [done|].
    by rewrite <- Hids.
  - intros id r Hr Es.
    assert (Hin : r ∈ rows t) by (apply elem_of_rows; by exists id).
    assert (Hl : lockable env r = true).
    { unfold lockable. rewrite Hlock, (proj2 (has_status_eq ENQUEUED r) Es). done. }
    destruct (first_locked env (Z.to_nat size) t r Henv ltac:(lia) Hin Hl) as (a & Ha & Hle).
    pose proof (locked_in_table env Henv (Z.to_nat size) t (proj1 Hwf)) as Htab.
    rewrite Forall_forall in Htab. specialize (Htab a Ha).
    assert (Hida : ID a ∈ ID <$> msgs) by (rewrite Hids; by apply list_elem_of_fmap_2).
    apply list_elem_of_fmap in Hida as (m & Em & Hm). exists m, a. rewrite <- Em. done.
Qed.

(** *** A round *)

Definition enqueued (r r1 : Outbox) : Prop :=
  CreatedAt r1 = CreatedAt r /\ work r1 = work r
  /\ (final r1 = true \/ ready r1 /\ Status r1 = ENQUEUED).

Lemma requeued db :
  sound db -> tidy (db_table db) -> due db ->
  let db1 := fst (pgx_RequeueFailed ctx db) in
  sound db1 /\ advances enqueued (db_table db) (db_table db1).
Proof.
  intros Hs [[Hk Hu] Ht] Hdue. cbv zeta.
  destruct (healthy_quiet db (proj1 Hs)) as (Hq & _). set (env := current_env db) in *.
  assert (E : repo_call jsonb repo ctx RRequeue db
    = after_call ((fun r => if requeueable env r then with_status ENQUEUED (e_set env (ID r)) r
                            else r) <$> db_table db) db).
  { unfold repo_call, pgx_RequeueFailed, queryRequeueFailed. rewrite exec_quiet by done.
    rewrite sql_update_total by (intros r; by eexists). done. }
  change (fst (pgx_RequeueFailed ctx db)) with (repo_call jsonb repo ctx RRequeue db).
  rewrite E. split; [by apply (sound_call RRequeue)|]. intros id. cbn [after_call db_table].
  rewrite lookup_fmap. destruct (db_table db !! id) as [r|] eqn:Er; constructor.
  unfold requeueable. destruct (Ht id r Er) as [Hf|Hready].
  - replace (has_status FAILED r) with false; [by split; [|split; [|left]]|].
    symmetry. apply not_true_iff_false. rewrite has_status_eq. unfold final in Hf.
    by destruct (Status r).
  - pose proof Hready as [[Es|Es] Hl Hr Hfit].
    + replace (has_status FAILED r) with false; [by split; [|split; [|right]]|].
      symmetry. apply not_true_iff_false. rewrite has_status_eq. by rewrite Es.
    + destruct (Hr Es) as (Ha & at_ & Hat). pose proof (Hdue id r at_ Er Es Hat) as Hd.
      fold env in Hd.
      rewrite (proj2 (has_status_eq FAILED r) Es), (proj2 (Z.ltb_lt _ _) Ha), Hat, (Hk id r Er).
      rewrite (proj2 (Z.leb_le _ _) Hd). cbn [andb].
      split; [done|]. split; [unfold work, final; cbn; by rewrite Es|]. right. split; [|done].
      split; [by left|exact Hl|done|exact Hfit].
Qed.

Lemma unique_by {A B} (f : A -> B) (l : list A) x y :
  NoDup (f <$> l) -> x ∈ l -> y ∈ l -> f x = f y -> x = y.
Proof.
  intros Hd Hx Hy E. apply list_elem_of_lookup in Hx as [i Hi], Hy as [j Hj].
  assert (i = j) as ->; [|congruence].
  apply (NoDup_lookup (f <$> l) i j (f x) Hd); rewrite list_lookup_fmap, ?Hi, ?Hj; cbn; congruence.
Qed.

(** The updates of a turn, on a table whose PUBLISHING rows are in hand. *)
Lemma turn_settles mrs db :
  sound db -> NoDup (ID <$> mrs.*1) -> Forall (fun mr => result_ok mr.1 mr.2) mrs ->
  let db' := repo_call jsonb repo ctx (RBatchToPublished (ID <$> published mrs))
               (close_failures mrs db) in
  sound db'
  /\ (forall id, id ∉ ID <$> mrs.*1 -> db_table db' !! id = db_table db !! id)
  /\ forall m row, m ∈ mrs.*1 -> db_table db !! ID m = Some row -> in_hand m row ->
       exists row', db_table db' !! ID m = Some row' /\ closed row row'.
Proof.
  intros Hs Hd Hok. destruct (close_failures_run mrs db Hs Hd Hok) as (Hs1 & Hsame & Hclosed).
  set (db1 := close_failures mrs db) in *. pose proof (proj1 (proj2 Hs1)) as Hk1.
  destruct (batch_published_run (ID <$> published mrs) db1 Hs1) as [Hs2 Hlook].
  cbv zeta. split; [done|].
  assert (Hpub : forall m, m ∈ published mrs <-> exists r, (m, r) ∈ mrs /\ Success r = true).
  { intros m. unfold published. rewrite list_elem_of_fmap. split.
    - intros ([m' r] & -> & Hin). apply list_elem_of_In, List.filter_In in Hin as [Hin Hr].
      exists r. by rewrite list_elem_of_In.
    - intros (r & Hin & Hr). exists (m, r). split; [done|]. apply list_elem_of_In, List.filter_In.
      by rewrite <- list_elem_of_In. }
  assert (Hids : forall m r, (m, r) ∈ mrs -> ID m ∈ ID <$> mrs.*1).
  { intros m r Hin. apply list_elem_of_fmap_2. change m with (fst (m, r)).
    by apply list_elem_of_fmap_2. }
  split.
  - intros id Hid. assert (E1 : db_table db1 !! id = db_table db !! id).
    { apply Hsame. intros m r Hin <-. destruct Hid. by eapply Hids. }
    rewrite Hlook, <- E1. destruct (db_table db1 !! id) as [row|] eqn:Er; [|done]. cbn.
    rewrite bool_decide_eq_false_2; [done|]. rewrite (Hk1 id row Er).
    intros (m & -> & Hm)%list_elem_of_fmap. apply Hpub in Hm as (r & Hin & _).
    destruct Hid. by eapply Hids.
  - intros m row Hm Hr Hhand. apply list_elem_of_fmap in Hm as ([m' r] & -> & Hin). cbn [fst] in *.
    destruct (Success r) eqn:Esr.
    + assert (Er1 : db_table db1 !! ID m' = Some row).
      { rewrite Hsame; [done|]. intros m2 r2 Hin2 E2.
        assert ((m2, r2) = (m', r)) as [= _ ->]; [|done].
        rewrite <- list_fmap_compose in Hd. by apply (unique_by (ID ∘ fst) mrs). }
      rewrite Hlook, Er1. eexists. split; [reflexivity|].
      rewrite bool_decide_eq_true_2.
      2:{ rewrite (Hk1 _ row Er1). apply list_elem_of_fmap_2, Hpub. by exists r. }
      destruct Hhand as [Es _]. rewrite (proj2 (has_status_eq PUBLISHING row) Es).
      by apply closed_published.
    + destruct (Hclosed m' r row Hin Esr Hr Hhand) as (row' & Er' & Hc). exists row'.
      split; [|done]. rewrite Hlook, Er'. cbn. replace (has_status PUBLISHING row') with false;
        [by rewrite andb_false_r|].
      symmetry. apply not_true_iff_false. rewrite has_status_eq. intros Es.
      destruct Hc as (_ & _ & [Hf|[[E|E] _ _ _]]); [unfold final in Hf; by rewrite Es in Hf|congruence..].
Qed.

(** What a turn does to the database. *)
Lemma turn_database clock publisher db :
  (forall msgs, Forall2 result_ok msgs (publisher ctx msgs)) ->
  let msgs := batch_fetched ctx size db in
  let mrs := combine msgs (publisher ctx msgs) in
  let db1 := repo_call jsonb repo ctx (RFetchBatch size) db in
  fst (turn clock publisher db)
  = repo_call jsonb repo ctx (RBatchToPublished (ID <$> published mrs)) (close_failures mrs db1).
Proof.
  intros Hpub msgs mrs db1. destruct (decide (msgs = [])) as [En|Hne].
  { unfold mrs. rewrite En. by apply processBatch_idle_run. }
  destruct (processBatch_run_db jsonb repo ctx clock publisher single max_size size poll maxPoll
    timeout db msgs eq_refl Hne) as [dur ->].
  destruct (close_results_run clock dur (publisher ctx msgs) msgs 0 (mkTally [] [] 0) db1)
    as (t' & Hrun & Hids); [apply Hpub|].
  unfold mbind at 1, GoM_bind at 1. fold db1. rewrite Hrun. unfold mbind, GoM_bind.
  rewrite successes_run, Hids. done.
Qed.

Lemma turn_advances T clock publisher db :
  sound db -> 1 <= size -> (forall msgs, Forall2 result_ok msgs (publisher ctx msgs)) ->
  map_Forall (fun _ r => final r = true \/ ready r /\ Status r = ENQUEUED) (db_table db) ->
  let db' := fst (turn clock publisher db) in
  sound db' /\ advances moved (db_table db) (db_table db')
  /\ (0 < work_left T (db_table db) -> work_left T (db_table db') < work_left T (db_table db)).
Proof.
  intros Hs Hsize Hpub Ht. cbv zeta. rewrite turn_database by done.
  destruct (taken_run db Hs Hsize) as (Hs1 & Hd & Htaken & Hother & Hsome).
  set (msgs := batch_fetched ctx size db) in *. set (mrs := combine msgs (publisher ctx msgs)).
  destruct (result_pairs_ok msgs _ (Hpub msgs)) as [Hfst Hok]. fold mrs in Hfst, Hok.
  destruct (turn_settles mrs _ Hs1 ltac:(by rewrite Hfst) Hok) as (Hs2 & Hsame & Hclosed).
  rewrite Hfst in Hsame, Hclosed.
  set (db2 := repo_call jsonb repo ctx (RBatchToPublished _) _) in *.
  assert (Hmsg : forall m, m ∈ msgs -> exists r r', db_table db !! ID m = Some r
    /\ db_table db2 !! ID m = Some r' /\ closed r r').
  { intros m Hm. destruct (Htaken m Hm) as (r & now & Er & Es & Er1 & Ea & Emx).
    destruct (Ht _ r Er) as [Hf|[Hr _]]; [unfold final in Hf; by rewrite Es in Hf|].
    destruct (Hclosed m _ Hm Er1) as (r' & Er' & Hc & Hw & Hl).
    { split; [done|]. split; [done|]. split; [done|]. by destruct Hr. }
    exists r, r'. split; [done|]. split; [done|]. split; [done|]. split; [|done].
    unfold work, final in *. rewrite Es. exact Hw. }
  assert (Hadv : advances moved (db_table db) (db_table db2)).
  { intros id. destruct (decide (id ∈ ID <$> msgs)) as [Hin|Hni].
    - apply list_elem_of_fmap in Hin as (m & -> & Hm).
      destruct (Hmsg m Hm) as (r & r' & -> & -> & Hc). constructor. by apply closed_moved.
    - rewrite Hsame, Hother by done. destruct (db_table db !! id) as [r|] eqn:Er; constructor.
      split; [done|]. split; [done|]. destruct (Ht id r Er) as [?|[? _]]; [by left|by right]. }
  split; [done|]. split; [done|]. intros Hpos.
  destruct (work_left_pos T _ Hpos) as (id & r & Hr & Hc & Hf).
  destruct (Ht id r Hr) as [E|[_ Es]]; [congruence|].
  destruct (Hsome id r Hr Es) as (m & r0 & Hm & Hr0 & Hle).
  destruct (Hmsg m Hm) as (r1 & r' & Er1 & Er' & Hcr & Hw & _).
  assert (r1 = r0) as -> by congruence.
  apply (work_left_lt T _ _ (ID m) r0 r'); [by apply moved_lighter|done|done|].
  unfold old_work. rewrite Hcr, (proj2 (Z.leb_le _ _)) by lia. exact Hw.
Qed.

Lemma round_advances T clock publisher db :
  healthy db -> tidy (db_table db) -> due db -> 1 <= size ->
  (forall msgs, Forall2 result_ok msgs (publisher ctx msgs)) ->
  let t' := db_table (round clock publisher db) in
  tidy t' /\ advances moved (db_table db) t'
  /\ (0 < work_left T (db_table db) -> work_left T t' < work_left T (db_table db)).
Proof.
  intros Hh Ht Hdue Hsize Hpub. cbv zeta. unfold round.
  destruct (requeued db (conj Hh (proj1 Ht)) Ht Hdue) as [Hs1 Hadv1].
  set (db1 := fst (pgx_RequeueFailed ctx db)) in *.
  assert (Henq : map_Forall (fun _ r => final r = true \/ ready r /\ Status r = ENQUEUED)
    (db_table db1)).
  { intros id r Hr. destruct (advances_back _ _ _ id r Hadv1 Hr) as (_ & _ & _ & _ & H). exact H. }
  destruct (turn_advances T clock publisher db1 Hs1 Hsize Hpub Henq) as ([_ Hwf2] & Hadv2 & Hlt).
  set (t2 := db_table (fst _)) in *.
  assert (Hadv : advances moved (db_table db) t2).
  { apply (advances_trans enqueued moved moved _ (db_table db1)); [|done|done].
    intros a b c (C1 & W1 & _) (C2 & W2 & H). split; [congruence|]. split; [lia|done]. }
  assert (Hle : work_left T (db_table db1) <= work_left T (db_table db)).
  { apply work_left_le, (advances_lighter enqueued); [|done]. intros r r' (-> & -> & _). done. }
  split; [|split; [done|]].
  - split; [done|]. intros id r Hr.
    by destruct (advances_back _ _ _ id r Hadv Hr) as (_ & _ & _ & _ & H).
  - intros Hpos. destruct (Z.lt_ge_cases 0 (work_left T (db_table db1))) as [H1|H1];
      [specialize (Hlt H1); lia|].
    enough (work_left T t2 <= work_left T (db_table db1)) by lia. by apply work_left_le, moved_lighter.
Qed.

(** *** Between the rounds *)

(** The old rows, and new ones that are ready and younger than [T]. *)
Definition grown (T : Z) (t t' : table) : Prop :=
  t ⊆ t' /\ forall id r, t' !! id = Some r -> t !! id = None -> T < CreatedAt r /\ ready r.

Lemma grown_lighter T t t' : grown T t t' -> lighter T t t'.
Proof.
  intros [Hsub Hn] id r Hr Hpos. destruct (t !! id) as [r0|] eqn:E.
  - exists r0. split; [done|]. assert (r0 = r) as ->; [|done].
    pose proof (lookup_weaken _ t' id r0 E Hsub). congruence.
  - destruct (Hn id r Hr E) as [Hlt _]. unfold old_work in Hpos.
    rewrite (proj2 (Z.leb_gt _ _) Hlt) in Hpos. lia.
Qed.

Lemma insert_grown T p db :
  env_ok (current_env db) -> (forall id, T < e_set (current_env db) id) ->
  attempts_fit (p_MaxAttempts p) -> well_formed (db_table db) ->
  grown T (db_table db) (db_table (repo_call jsonb repo ctx (RInsert p) db)).
Proof.
  intros Henv HT Hfit Hwf.
  unfold repo_call, pgx_Insert. rewrite exec_bind.
  destruct (exec_cases (fun env => queryInsert jsonb env (e_uuid env) p) db)
    as (_ & _ & [->|(t' & a & E & ->)]).
  { split; [reflexivity|]. intros id r Hr Hn. congruence. }
  set (env := current_env db) in *. unfold queryInsert in E.
  destruct (p_Payload p) as [payload|]; [|discriminate].
  destruct (jsonb payload) as [payload'|]; [|discriminate].
  destruct (jsonb_column jsonb (p_Metadata p)) as [metadata'|]; [|discriminate].
  destruct (in_int4 _) eqn:Ei; [|discriminate]. cbn [negb] in E.
  destruct (existsb _ _) eqn:Ee; [discriminate|]. injection E as <- _.
  assert (Hnone : db_table db !! e_uuid env = None).
  { destruct (db_table db !! e_uuid env) as [r|] eqn:Er; [|done]. exfalso.
    apply not_true_iff_false in Ee. apply Ee, existsb_exists. exists r.
    split; [apply list_elem_of_In, elem_of_rows; by eexists|].
    apply orb_true_iff. left. unfold has_id.
    rewrite (proj1 Hwf _ r Er). by apply bool_decide_eq_true. }
  split; [by apply insert_subseteq|]. intros id r. rewrite lookup_insert.
  case_decide; [|congruence]. intros [= <-] _. split; [apply HT|].
  split; [by left|split; cbn; [lia|by left]|done|exact Hfit].
Qed.

Lemma passes_grown T db later :
  passes T db later -> tidy (db_table db) ->
  tidy (db_table later) /\ grown T (db_table db) (db_table later).
Proof.
  induction 1 as [db|db db1 later E _ IH|p db later Henv HT Hfit _ IH]; intros [Hwf Ht].
  { split; [done|]. split; [reflexivity|]. intros id r Hr Hn. congruence. }
  { rewrite <- E. apply IH. by rewrite E. }
  pose proof (insert_grown T p db Henv HT Hfit Hwf) as [Hsub Hnew].
  pose proof (repo_call_legal jsonb repo ctx (RInsert p) db Henv Hwf) as [Hwf1 _].
  destruct IH as (Ht' & Hsub' & Hnew').
  { split; [done|]. intros id r Hr. destruct (db_table db !! id) as [r0|] eqn:E.
    - apply (Ht id). rewrite E. pose proof (lookup_weaken _ _ id r0 E Hsub). congruence.
    - right. by apply (Hnew id r). }
  split; [done|]. split; [by etrans|]. intros id r Hr Hn.
  destruct (db_table (repo_call jsonb repo ctx (RInsert p) db) !! id) as [r1|] eqn:E1.
  - pose proof (lookup_weaken _ _ id r1 E1 Hsub'). assert (r1 = r) as -> by congruence.
    by apply (Hnew id).
  - by apply (Hnew' id).
Qed.

(** The rows of [t] are in [t'], moved. *)
Definition carried (t t' : table) : Prop :=
  forall id r, t !! id = Some r -> exists r', t' !! id = Some r' /\ moved r r'.

(** Rows are kept, and enough rounds leave no old work. *)
Lemma rounds_settle T n db db' :
  rounds T n db db' -> tidy (db_table db) -> 1 <= size ->
  carried (db_table db) (db_table db')
  /\ (work_left T (db_table db) <= Z.of_nat n -> work_left T (db_table db') <= 0).
Proof.
  induction 1 as [db|n db later db' clock publisher Hh Hdue Hpub Hpass Hrounds IH]; intros Ht Hsize.
  { split; [|done]. intros id r Hr. exists r. split; [done|]. split; [done|]. split; [done|].
    by apply (proj2 Ht id). }
  destruct (round_advances T clock publisher db Hh Ht Hdue Hsize Hpub) as (Ht1 & Hadv1 & Hlt).
  destruct (passes_grown T _ later Hpass Ht1) as [Ht2 Hgrown].
  destruct (IH Ht2 Hsize) as (Hcar & Hend). split.
  - intros id r Hr. destruct (advances_some _ _ _ id r Hadv1 Hr) as (r1 & Hr1 & Hm1).
    pose proof (lookup_weaken _ _ id r1 Hr1 (proj1 Hgrown)) as Hr2.
    destruct (Hcar id r1 Hr2) as (r' & Hr' & Hm'). exists r'. split; [done|]. by eapply moved_trans.
  - intros Hn. apply Hend. pose proof (work_left_nonneg T (db_table db)).
    pose proof (work_left_le T _ _ (grown_lighter T _ _ Hgrown)).
    pose proof (work_left_le T _ _ (moved_lighter T _ _ Hadv1)).
    destruct (Z.eq_dec (work_left T (db_table db)) 0) as [E|Hne]; lia.
Qed.

(** ** From a crash *)

(** A failed message has a time for its retry. *)
Definition scheduled (t : table) : Prop :=
  map_Forall (fun _ r => Status r = FAILED -> is_Some (NextRetryAt r)) t.

Lemma timely_scheduled envs s :
  (forall n, env_ok (envs n)) -> timely jsonb repo ctx envs s -> scheduled (s_table s).
Proof.
  intros Henvs. induction 1 as [|s e s' Ht IH Hs _]; [by intros id r Hr|].
  destruct (step_call jsonb repo ctx e s s' Hs) as [->|(c & Hc & _ & _ & ->)]; [done|].
  intros id r' Hr'.
  pose proof (ex_inv s (timely_exclusive jsonb repo ctx envs s Henvs Ht)) as Hinv.
  destruct (inv_call_rows jsonb repo ctx s c Hinv Hc id r' Hr')
    as [(r & Hr & Hch)|(p & _ & _ & _ & _ & Hst & _)]; [|by rewrite Hst].
  specialize (IH id r Hr). cbv beta in IH.
  destruct Hch; cbn [Status NextRetryAt with_status with_failure]; try done; by intros _.
Qed.

(** The messages that a crash left PUBLISHING are older than the threshold. *)
Definition abandoned (db : DB) : Prop :=
  map_Forall (fun _ r => Status r = PUBLISHING ->
    stuck (truncated_seconds_us (stuckPublishingThreshold repo)) (current_env db) r = true)
    (db_table db).

Lemma unfinished_left s id r :
  Inv s -> s_table s !! id = Some r -> Status r = ENQUEUED \/ Status r = PUBLISHING ->
  retries_left r.
Proof.
  intros Hinv Hr Hst. destruct (inv_claims s Hinv id r Hr) as [_ Hc].
  unfold retries_left. destruct Hst as [E|E]; rewrite E in Hc; lia.
Qed.

Lemma revived_row env r :
  Status r = PUBLISHING -> retries_left r -> backoffs_fit r ->
  exists r', set_revived (base_us repo) (max_us repo) env r = Some r' /\ moved r r'.
Proof.
  intros Es Hl Hf. destruct (fits_count r (AttemptCount r) Hf Hl) as [Hi Hb]; [destruct Hl; lia|].
  rewrite set_revived_some by done. eexists. split; [reflexivity|].
  enough (forall r', closed r r' -> moved r r') as H.
  - destruct (Z.leb_spec (MaxAttempts r) (AttemptCount r + 1)); apply H;
      [by apply closed_dead|by apply closed_failed].
  - apply closed_moved.
Qed.

(** A row that the recovery leaves alone. *)
Lemma left_row s id r :
  Exclusive s -> scheduled (s_table s) -> s_table s !! id = Some r -> backoffs_fit r ->
  Status r <> PUBLISHING -> moved r r.
Proof.
  intros [Hinv _ _ Hns] Hsch Hr Hf Hst. split; [done|]. split; [done|].
  destruct (final r) eqn:Ef; [by left|right].
  pose proof (Hns id r Hr) as Hn. pose proof (Hsch id r Hr) as Hsc. cbv beta in Hsc.
  destruct (inv_claims s Hinv id r Hr) as [_ Hc]. unfold stranded in Hn.
  unfold final in Ef. destruct (Status r) eqn:Es; try done.
  - split; [by left|apply (unfinished_left s id r Hinv Hr); by left|by rewrite Es|done].
  - assert (AttemptCount r < MaxAttempts r) by (apply Z.nle_gt; intros ?; by apply Hn).
    split; [by right|split; lia|by intros _; split; [|apply Hsc]|done].
Qed.

Lemma revived envs s :
  (forall n, env_ok (envs n)) -> timely jsonb repo ctx envs s ->
  map_Forall (fun _ r => backoffs_fit r) (s_table s) -> healthy (s_db s) -> abandoned (s_db s) ->
  let t' := db_table (fst (pgx_ReviveStuckPublishing repo ctx (s_db s))) in
  tidy t' /\ advances moved (s_table s) t'.
Proof.
  intros Henvs Ht Hfits Hh Hab. cbv zeta.
  pose proof (timely_exclusive jsonb repo ctx envs s Henvs Ht) as Hex.
  pose proof (ex_inv s Hex) as Hinv. destruct (healthy_quiet _ Hh) as (Hq & _ & Henv).
  set (thr := truncated_seconds_us (stuckPublishingThreshold repo)) in *.
  assert (Hset : forall id r, s_table s !! id = Some r ->
    stuck thr (current_env (s_db s)) r = true -> exists r',
    set_revived (base_us repo) (max_us repo) (current_env (s_db s)) r = Some r' /\ moved r r').
  { intros id r Hr Hst. unfold stuck in Hst. row_guard.
    apply revived_row; [done|apply (unfinished_left s id r Hinv Hr); by right|].
    by apply (Hfits id r Hr). }
  assert (Hadv : advances moved (s_table s)
    (db_table (fst (pgx_ReviveStuckPublishing repo ctx (s_db s))))).
  { unfold pgx_ReviveStuckPublishing, queryReviveStuckPublishing. rewrite exec_quiet by done.
    fold thr. rewrite sql_update_ok.
    2:{ intros id r Hr Hst. destruct (Hset id r Hr Hst) as (r' & -> & _). by eexists. }
    intros id. cbn [fst after_call db_table]. rewrite lookup_fmap. unfold s_table in *.
    destruct (db_table (s_db s) !! id) as [r|] eqn:Er; constructor. cbv beta.
    destruct (stuck _ _ r) eqn:Est.
    { destruct (Hset id r Er Est) as (r' & -> & Hm). exact Hm. }
    apply (left_row s id r Hex (timely_scheduled envs s Henvs Ht) Er); [by apply (Hfits id r Er)|].
    intros Es. pose proof (Hab id r Er Es) as Ha. fold thr in Ha. congruence. }
  split; [|done]. split.
  - apply (repo_call_legal jsonb repo ctx RRevive (s_db s) Henv (inv_wf s Hinv)).
  - intros id r Hr. by destruct (advances_back _ _ _ id r Hadv Hr) as (_ & _ & _ & _ & H).
Qed.

(** C4: the outbox drains, and no message starves, as long as no backoff is out of
    the range of SQL.  Take a state of a system whose recovery threshold outlasts
    every publish and in which, for every row, [max_attempts] is an INTEGER and
    [base * 2^max_attempts] an interval (with a base of one second: a limit of at
    most 43 attempts; without that one stuck row can make the recovery of all
    messages fail at every call, [PgxSpec.revive_poisoned]).  Kill all of its
    processes, and take any point in time.  Once the threshold has passed and
    calls do not fail, the recovery at the restart and as many rounds as the rows
    created up to that point have attempts left, with whatever answers of the
    publisher, any size of a batch, and any number of later messages, within the
    same range, inserted in between, bring every message created up to that point
    to PUBLISHED or DEAD. *)
Theorem outbox_drains (envs : nat -> StmtEnv) (s : Sys) (horizon : Z) (restarted db' : DB) (n : nat)
  (Henvs : forall n, env_ok (envs n)) (Htimely : timely jsonb repo ctx envs s)
  (Hsize : 1 <= size) (Hfits : map_Forall (fun _ r => backoffs_fit r) (s_table s))
  (Hhealthy : healthy (s_db s)) (Habandoned : abandoned (s_db s))
  (Hrevived : passes horizon (fst (pgx_ReviveStuckPublishing repo ctx (s_db s))) restarted)
  (Hrounds : rounds horizon n restarted db') (Hn : work_left horizon (s_table s) <= Z.of_nat n) :
  forall id r, s_table s !! id = Some r -> CreatedAt r <= horizon ->
    exists r', db_table db' !! id = Some r' /\ (Status r' = PUBLISHED \/ Status r' = DEAD).
Proof.
  destruct (revived envs s Henvs Htimely Hfits Hhealthy Habandoned) as [Htidy Hadv].
  destruct (passes_grown horizon _ restarted Hrevived Htidy) as [Htidy' Hgrown].
  destruct (rounds_settle horizon n restarted db' Hrounds Htidy' Hsize) as (Hcar & Hend).
  pose proof (work_left_le horizon _ _ (moved_lighter horizon _ _ Hadv)).
  pose proof (work_left_le horizon _ _ (grown_lighter horizon _ _ Hgrown)).
  pose proof (work_left_zero horizon _ (Hend ltac:(lia))) as Hfinal.
  intros id r Hr Hc. destruct (advances_some _ _ _ id r Hadv Hr) as (r1 & Hr1 & Hm1).
  pose proof (lookup_weaken _ _ id r1 Hr1 (proj1 Hgrown)) as Hr2.
  destruct (Hcar id r1 Hr2) as (r' & Hr' & Hm'). exists r'. split; [done|].
  destruct (moved_trans _ _ _ Hm1 Hm') as [Hcr _].
  specialize (Hfinal id r' Hr' ltac:(lia)). unfold final in Hfinal.
  destruct (Status r'); try discriminate; auto.
Qed.
End Rounds.

(** ** A crash, and the rounds after it *)

Section Witness.
(** Nothing is published by itself here. *)
Definition demo_single : Publisher DB := {| Publish := fun _ _ => mret None |}.
(** The broker is down. *)
Definition broker_down (_ : Context) (msgs : list Outbox) : list PublishResult :=
  (fun m => mkResult (ID m) EmptyString false (Some (EUser "connection refused" None []))) <$> msgs.
Definition demo_clock (_ : DB) : Z := 0.

Lemma broker_down_ok msgs : Forall2 result_ok msgs (broker_down demo_ctx msgs).
Proof. induction msgs as [|m msgs IH]; constructor; [by split|exact IH]. Qed.

Lemma due_checked db :
  forallb (fun kv => match NextRetryAt kv.2 with
                     | Some at_ => at_ <=? e_where (current_env db) kv.1
                     | None => true
                     end) (map_to_list (db_table db)) = true -> due db.
Proof.
  intros H id r at_ Hr _ Hat. rewrite forallb_forall in H.
  specialize (H (id, r) (proj1 (list_elem_of_In _ _) (proj2 (elem_of_map_to_list _ _ _) Hr))).
  cbn [fst snd] in H. rewrite Hat in H. by apply Z.leb_le.
Qed.

Lemma hourly_healthy db : db_env db = hourly -> healthy db.
Proof. intros E n _. rewrite E. split; [done|]. split; [done|apply hourly_ok]. Qed.

Abbreviation demo_round :=
  (round demo_jsonb demo_repo demo_ctx demo_single 10 1 Second Minute Minute demo_clock broker_down).

(** The worker dies with a message of five attempts in its hands. *)
Definition crash_trace : list Event :=
  [EInsert (mkParams "order.created" (Some "{}") None "k1" 5); EFetch 1 10; ECrash 1].
Definition crashed : Sys :=
  default (initial hourly) (run_events demo_jsonb demo_repo demo_ctx crash_trace (initial hourly)).
Definition demo_restarted : DB := fst (pgx_ReviveStuckPublishing demo_repo demo_ctx (s_db crashed)).

Lemma crashed_run :
  run_events demo_jsonb demo_repo demo_ctx crash_trace (initial hourly) = Some crashed.
Proof.
  unfold crashed. destruct (run_events _ _ _ _ _) as [s|] eqn:E; [done|].
  exfalso. revert E. vm_compute. discriminate.
Qed.

(** A message that comes after the first round. *)
Definition late_message : OutboxInsertParams :=
  mkParams "order.created" (Some "{}") None "k2" 5.
Definition late_env (n : nat) : StmtEnv := calm_env (Z.of_nat n * 3600000000) "m2".
Definition demo_later (db : DB) : DB :=
  let db1 := mkDB (db_table db) late_env (S (db_calls db)) in
  mkDB (db_table (repo_call demo_jsonb demo_repo demo_ctx (RInsert late_message) db1))
    hourly (db_calls db).

Lemma demo_passes db : passes demo_jsonb demo_repo demo_ctx 0 db (demo_later db).
Proof.
  apply (passes_time _ _ _ _ _ (mkDB (db_table db) late_env (S (db_calls db)))); [done|].
  apply passes_insert with (p := late_message); [apply calm_env_ok| |by split|].
  - intros id. cbn. lia.
  - by apply (passes_time _ _ _ _ _ (demo_later db)); [|apply passes_done].
Qed.

Abbreviation demo_next := (fun db => demo_later (demo_round db)).

Lemma demo_rounds : rounds demo_jsonb demo_repo demo_ctx demo_single 10 1 Second Minute Minute
  0 4 demo_restarted (Nat.iter 4 demo_next demo_restarted).
Proof.
  rewrite !Nat.iter_succ_r. cbn [Nat.iter nat_rect].
  do 4 (eapply rounds_next with (clock := demo_clock) (publisher := broker_down);
    [apply hourly_healthy; vm_compute; reflexivity|apply due_checked; vm_compute; reflexivity
    |apply broker_down_ok|apply demo_passes|]).
  apply rounds_done.
Qed.

Lemma crashed_row :
  exists r, s_table crashed !! "m1" = Some r /\ Status r = PUBLISHING /\ CreatedAt r <= 0.
Proof. eexists. split; [vm_compute; reflexivity|split; [reflexivity|cbn; lia]]. Qed.

Lemma every_row (P : Outbox -> Prop) {Hdec : forall r, Decision (P r)} (t : table) :
  forallb (fun kv => bool_decide (P kv.2)) (map_to_list t) = true -> map_Forall (fun _ r => P r) t.
Proof.
  intros H id r Hr. rewrite forallb_forall in H.
  specialize (H (id, r) (proj1 (list_elem_of_In _ _) (proj2 (elem_of_map_to_list _ _ _) Hr))).
  by apply bool_decide_eq_true in H.
Qed.

Lemma crashed_ready :
  healthy (s_db crashed) /\ map_Forall (fun _ r => backoffs_fit demo_repo r) (s_table crashed)
  /\ abandoned demo_repo (s_db crashed) /\ work_left 0 (s_table crashed) = 4.
Proof.
  split; [apply hourly_healthy; vm_compute; reflexivity|]. unfold abandoned, backoffs_fit, attempts_fit.
  split; [|split].
  - apply (every_row _); vm_compute; reflexivity.
  - apply (every_row _); vm_compute; reflexivity.
  - vm_compute. reflexivity.
Qed.

(** The broker stays down, a batch is one message, and a later message waits: the
    message of the crash ends DEAD. *)
Lemma outbox_drains_witness :
  exists r r', s_table crashed !! "m1" = Some r /\ Status r = PUBLISHING
    /\ db_table (Nat.iter 4 demo_next demo_restarted) !! "m1" = Some r'
    /\ (Status r' = PUBLISHED \/ Status r' = DEAD).
Proof.
  destruct crashed_row as (r & Hr & Hst & Hc). exists r.
  destruct crashed_ready as (Hh & Hf & Ha & Hw).
  destruct (outbox_drains demo_jsonb demo_repo demo_ctx demo_single 10 1 Second Minute Minute
    ltac:(vm_compute; discriminate) hourly crashed 0 demo_restarted
    (Nat.iter 4 demo_next demo_restarted) 4 hourly_ok
    (run_timely crash_trace _ _ (timely_initial _ _ _ _) crashed_run ltac:(by repeat constructor))
    ltac:(lia) Hf Hh Ha (passes_done _ _ _ _ _) demo_rounds ltac:(by rewrite Hw) "m1" r Hr Hc)
    as (r' & Hr' & Hend).
  exists r'. split; [exact Hr|]. split; [exact Hst|]. split; [exact Hr'|exact Hend].
Defined.

(** The later message has not been tried when the other ends. *)
Example late_message_waits :
  let t := db_table (Nat.iter 3 demo_next demo_restarted) in
  Status <$> t !! "m1" = Some DEAD /\ Status <$> t !! "m2" = Some ENQUEUED.
Proof. vm_compute. split; reflexivity. Qed.
End Witness.
