(* ===== verification/Dispatcher.v ===== *)
(** * core/dispatcher.go, core/batch_dispatcher.go, core/shutdown.go:
    configuration, life cycle, shutdown

    Both dispatchers validate and complete their configuration, start the same
    kinds of goroutines and stop the same way; the workers themselves are in
    Worker.v and BatchDispatcher.v.  Loggers are left out: a nil logger becomes
    [slog.Default()] and nothing else depends on it. *)

From Stdlib Require Import ZArith Lia.
From stdpp Require Import base option list strings.
From S2P Require Import Prelude Errors Model Ports History Worker.

Set Default Goal Selector "!".
Open Scope Z_scope.

(** [OnForceShutdown]: [os.Exit(1)], or a function of the application. *)
Inductive ForceAction : Type := ExitProcess | CustomAction.

(** ** GracefulShutdown *)

Record ShutdownConfig : Type := mkShutdown {
  sd_ShutdownTimeout : Z;
  sd_ForceTimeout : Z;
  sd_OnForceShutdown : option ForceAction
}.

Inductive ShutdownOutcome : Type :=
| StoppedGracefully
| StoppedLate
| ForcedShutdown (action : option ForceAction).

(** [select] between [done], closed at time [done_at] if ever, and a timer
    that fires at [deadline], starting at [now]: [true] when [done] wins.  When
    both are ready Go picks either: [tie]. *)
Definition select_done (tie : bool) (now : Z) (done_at : option Z) (deadline : Z) : bool :=
  match done_at with
  | None => false
  | Some t =>
      let ready := Z.max now t in
      let fires := Z.max now deadline in
      if ready =? fires then tie else ready <? fires
  end.

(** The outcome and the time it is reached; [done_at] is when the last
    goroutine of the wait group ends, counted from the call. *)
Definition GracefulShutdown (tie1 tie2 : bool) (done_at : option Z) (config : ShutdownConfig)
    : ShutdownOutcome * Z :=
  let first := sd_ShutdownTimeout config in
  if select_done tie1 0 done_at first
  then (StoppedGracefully, Z.max 0 (default 0 done_at))
  else
    let now := Z.max 0 first in
    let remainingTime := wrap64 (sd_ForceTimeout config - sd_ShutdownTimeout config) in
    if select_done tie2 now done_at (now + remainingTime)
    then (StoppedLate, Z.max now (default 0 done_at))
    else (ForcedShutdown (sd_OnForceShutdown config), now + Z.max 0 remainingTime).

(** ** Dispatcher configuration *)

Module Single.
Record DispatcherConfig : Type := mkConfig {
  PollInterval : Z;
  MaxPollInterval : Z;
  WorkerCount : Z;
  ShutdownTimeout : Z;
  ForceTimeout : Z;
  OnForceShutdown : option ForceAction;
  AutoRecover : bool;
  RequeueInterval : Z;
  DisableAutoRequeue : bool;
  CleanupTimeout : Z
}.

Definition DefaultDispatcherConfig : DispatcherConfig :=
  mkConfig (100 * Millisecond) (3200 * Millisecond) 1 (30 * Second) (60 * Second)
    (Some ExitProcess) true (10 * Second) false (10 * Second).

(** [if x == 0 { x = d }] *)
Definition or_default (x d : Z) : Z := if x =? 0 then d else x.

Definition apply_defaults (c : DispatcherConfig) : DispatcherConfig :=
  let poll := or_default (PollInterval c) (100 * Millisecond) in
  let maxPoll := or_default (MaxPollInterval c) (wrap64 (poll * 32)) in
  let workers := or_default (WorkerCount c) 1 in
  let shutdown := or_default (ShutdownTimeout c) (30 * Second) in
  let force := or_default (ForceTimeout c) (wrap64 (shutdown * 2)) in
  let action := match OnForceShutdown c with None => Some ExitProcess | a => a end in
  let cleanup := or_default (CleanupTimeout c) (10 * Second) in
  mkConfig poll maxPoll workers shutdown force action (AutoRecover c) (RequeueInterval c)
    (DisableAutoRequeue c) cleanup.

Definition adjust_force (c : DispatcherConfig) : DispatcherConfig :=
  if ForceTimeout c <? ShutdownTimeout c
  then mkConfig (PollInterval c) (MaxPollInterval c) (WorkerCount c) (ShutdownTimeout c)
         (wrap64 (ShutdownTimeout c * 2)) (OnForceShutdown c) (AutoRecover c)
         (RequeueInterval c) (DisableAutoRequeue c) (CleanupTimeout c)
  else c.

Definition requeue_message : string :=
  "RequeueInterval must be > 0 (e.g., 10s for production, 500ms-1s for bench). "
  +:+ "FAILED messages will never retry without this. Set DisableAutoRequeue=true to explicitly disable".

(** The configuration [NewDispatcher] keeps. *)
Definition NewDispatcher (config : DispatcherConfig) : result error DispatcherConfig :=
  if (PollInterval config <? 0) || (MaxPollInterval config <? 0) || (WorkerCount config <? 0)
     || (ShutdownTimeout config <? 0) || (ForceTimeout config <? 0)
     || (CleanupTimeout config <? 0) || (RequeueInterval config <? 0)
  then Err (ESentinel ErrInvalidConfig)
  else
    let config := adjust_force (apply_defaults config) in
    if (RequeueInterval config =? 0) && negb (DisableAutoRequeue config)
    then Err (errorf_sentinel ErrInvalidConfig requeue_message)
    else Ok config.
End Single.

Module Batch.
Record BatchDispatcherConfig : Type := mkConfig {
  PollInterval : Z;
  MaxPollInterval : Z;
  BatchSize : Z;
  WorkerCount : Z;
  ShutdownTimeout : Z;
  ForceTimeout : Z;
  OnForceShutdown : option ForceAction;
  AutoRecover : bool;
  RequeueInterval : Z;
  DisableAutoRequeue : bool;
  RequeueBackoffBase : Z;
  RequeueBackoffMax : Z;
  CleanupTimeout : Z
}.

Definition DefaultBatchDispatcherConfig : BatchDispatcherConfig :=
  mkConfig (100 * Millisecond) (3200 * Millisecond) 10 1 (30 * Second) (60 * Second)
    (Some ExitProcess) true (10 * Second) false (1 * Second) (1 * Hour) (10 * Second).

(** [maxBatch] is [publisher.MaxBatchSize()]. *)
Definition apply_defaults (maxBatch : Z) (c : BatchDispatcherConfig) : BatchDispatcherConfig :=
  let or_default := Single.or_default in
  let poll := or_default (PollInterval c) (100 * Millisecond) in
  let maxPoll := or_default (MaxPollInterval c) (wrap64 (poll * 32)) in
  let size := or_default (BatchSize c) maxBatch in
  let workers := or_default (WorkerCount c) 1 in
  let shutdown := or_default (ShutdownTimeout c) (30 * Second) in
  let force := or_default (ForceTimeout c) (wrap64 (shutdown * 2)) in
  let action := match OnForceShutdown c with None => Some ExitProcess | a => a end in
  mkConfig poll maxPoll size workers shutdown force action (AutoRecover c)
    (RequeueInterval c) (DisableAutoRequeue c)
    (or_default (RequeueBackoffBase c) (1 * Second))
    (or_default (RequeueBackoffMax c) (1 * Hour))
    (or_default (CleanupTimeout c) (10 * Second)).

Definition adjust (maxBatch : Z) (c : BatchDispatcherConfig) : BatchDispatcherConfig :=
  let size := if maxBatch <? BatchSize c then maxBatch else BatchSize c in
  let force := if ForceTimeout c <? ShutdownTimeout c then wrap64 (ShutdownTimeout c * 2)
               else ForceTimeout c in
  mkConfig (PollInterval c) (MaxPollInterval c) size (WorkerCount c) (ShutdownTimeout c)
    force (OnForceShutdown c) (AutoRecover c) (RequeueInterval c) (DisableAutoRequeue c)
    (RequeueBackoffBase c) (RequeueBackoffMax c) (CleanupTimeout c).

Definition NewBatchDispatcher (maxBatch : Z) (config : BatchDispatcherConfig)
    : result error BatchDispatcherConfig :=
  if (PollInterval config <? 0) || (MaxPollInterval config <? 0) || (BatchSize config <? 0)
     || (WorkerCount config <? 0) || (ShutdownTimeout config <? 0)
     || (ForceTimeout config <? 0) || (RequeueInterval config <? 0)
     || (RequeueBackoffBase config <? 0) || (RequeueBackoffMax config <? 0)
     || (CleanupTimeout config <? 0)
  then Err (ESentinel ErrInvalidConfig)
  else
    let config := adjust maxBatch (apply_defaults maxBatch config) in
    if (RequeueInterval config =? 0) && negb (DisableAutoRequeue config)
    then Err (errorf_sentinel ErrInvalidConfig Single.requeue_message)
    else Ok config.
End Batch.

(** ** Life cycle *)

(** What a dispatcher's [Start] launches. *)
Inductive Routine : Type :=
| RecoverOnce
| WorkerLoop (id : Z)
| RequeueLoop.

(** The part of the configuration the life cycle reads. *)
Record LifeConfig : Type := mkLife {
  l_WorkerCount : Z;
  l_AutoRecover : bool;
  l_RequeueInterval : Z;
  l_shutdown : ShutdownConfig
}.

Definition life_of (c : Single.DispatcherConfig) : LifeConfig :=
  mkLife (Single.WorkerCount c) (Single.AutoRecover c) (Single.RequeueInterval c)
    (mkShutdown (Single.ShutdownTimeout c) (Single.ForceTimeout c) (Single.OnForceShutdown c)).
Definition batch_life_of (c : Batch.BatchDispatcherConfig) : LifeConfig :=
  mkLife (Batch.WorkerCount c) (Batch.AutoRecover c) (Batch.RequeueInterval c)
    (mkShutdown (Batch.ShutdownTimeout c) (Batch.ForceTimeout c) (Batch.OnForceShutdown c)).

(** The dispatcher object.  Each start has its own worker context, numbered
    by [d_starts], made from the context given to it; [d_waited] are the goroutines
    of the wait group with their worker contexts, [d_detached] those it does not
    wait for, each with the start whose given context it has.  [d_cancelled] are the
    worker contexts that are cancelled, [d_given] the given ones. *)
Record Dispatcher : Type := mkDispatcher {
  d_config : LifeConfig;
  d_running : bool;
  d_pendingShutdown : bool;
  d_cancelFunc : option nat;
  d_cancelled : list nat;
  d_starts : nat;
  d_waited : list (nat * Routine);
  d_detached : list (nat * Routine);
  d_lastProcessedAt : option Z;
  d_given : list nat
}.

Definition new_dispatcher (c : LifeConfig) : Dispatcher :=
  mkDispatcher c false false None [] 0 [] [] None [].

Definition workers_of (c : LifeConfig) : list Routine :=
  (fun i => WorkerLoop (Z.of_nat i)) <$> seq 0 (Z.to_nat (l_WorkerCount c)).

Definition Start (d : Dispatcher) : Dispatcher * option error :=
  if d_running d then (d, Some (ESentinel ErrAlreadyRunning))
  else
    let c := d_config d in
    let n := d_starts d in
    let launched := workers_of c ++ (if 0 <? l_RequeueInterval c then [RequeueLoop] else []) in
    (mkDispatcher c true (d_pendingShutdown d) (Some n) (d_cancelled d) (S n)
       (d_waited d ++ ((fun r => (n, r)) <$> launched))
       (d_detached d ++ (if l_AutoRecover c then [(n, RecoverOnce)] else []))
       (d_lastProcessedAt d) (d_given d), None).

(** [Stop] up to the wait: the flags are set and the workers' context is
    cancelled. *)
Definition Stop (d : Dispatcher) : Dispatcher :=
  if d_running d then
    mkDispatcher (d_config d) false true (d_cancelFunc d)
      (match d_cancelFunc d with Some n => n :: d_cancelled d | None => d_cancelled d end)
      (d_starts d) (d_waited d) (d_detached d) (d_lastProcessedAt d) (d_given d)
  else d.

(** A goroutine whose context is cancelled returns. *)
Definition routine_exits (i : nat) (d : Dispatcher) : option Dispatcher :=
  '(n, _) ← d_waited d !! i;
  if bool_decide (n ∈ d_cancelled d) then
    Some (mkDispatcher (d_config d) (d_running d) (d_pendingShutdown d) (d_cancelFunc d)
            (d_cancelled d) (d_starts d) (delete i (d_waited d)) (d_detached d)
            (d_lastProcessedAt d) (d_given d))
  else None.

(** [onMessageProcessed] *)
Definition message_processed (now : Z) (d : Dispatcher) : Dispatcher :=
  mkDispatcher (d_config d) (d_running d) (d_pendingShutdown d) (d_cancelFunc d)
    (d_cancelled d) (d_starts d) (d_waited d) (d_detached d) (Some now) (d_given d).

Definition IsRunning (d : Dispatcher) : bool := d_running d.

Definition HealthStatus_of (d : Dispatcher) : HealthStatus :=
  mkHealth (d_running d) (d_lastProcessedAt d) (l_WorkerCount (d_config d)) (d_pendingShutdown d).

(** The batch dispatcher repeats these statements on its own fields. *)
Definition batch_Start (d : Dispatcher) : Dispatcher * option error := Start d.
Definition batch_Stop (d : Dispatcher) : Dispatcher := Stop d.
Definition batch_IsRunning (d : Dispatcher) : bool := IsRunning d.
Definition batch_HealthStatus (d : Dispatcher) : HealthStatus := HealthStatus_of d.

Inductive LifeEvent : Type :=
| LStart
| LStop
| LExit (i : nat)
| LProcessed (now : Z).

Definition life_step (d : Dispatcher) (e : LifeEvent) : Dispatcher :=
  match e with
  | LStart => fst (Start d)
  | LStop => Stop d
  | LExit i => default d (routine_exits i d)
  | LProcessed now => message_processed now d
  end.

Definition life_run (d : Dispatcher) (es : list LifeEvent) : Dispatcher := foldl life_step d es.

(** ** The recovery and requeue goroutines *)

Section Loops.
Context {W : Type} `{!OutboxRepository W}.

(** [recovery] is [d.repo.(OutboxRecovery)]. *)
Definition recover_once (recovery : option (OutboxRecovery W)) (ctx : Context) : GoM W unit :=
  match recovery with
  | Some rec => _ ← @ReviveStuckPublishing W rec ctx; mret tt
  | None => mret tt
  end.

(** [runRequeueWorker] along the outcomes of its [select]; it returns how
    often the ticker fired. *)
Fixpoint runRequeueWorker (ctx : Context) (events : list RunEvent) : GoM W nat :=
  match events with
  | [] | CtxDone :: _ => mret 0%nat
  | TimerFired :: events' =>
      _ ← RequeueFailed ctx;
      n ← runRequeueWorker ctx events';
      mret (S n)
  end.

Definition batch_runRequeueWorker (ctx : Context) (events : list RunEvent) : GoM W nat :=
  runRequeueWorker ctx events.
End Loops.

(** ** Properties: configuration *)

#[local] Arguments Single.or_default : simpl never.
#[local] Arguments wrap64 : simpl never.
#[local] Arguments Z.mul : simpl never.
#[local] Arguments Z.ltb : simpl never.

Ltac config_cases :=
  repeat match goal with
  | H : (_ || _) = false |- _ => apply orb_false_iff in H; destruct H
  | H : (_ <? _) = false |- _ => apply Z.ltb_ge in H
  | H : (_ <? _) = true |- _ => apply Z.ltb_lt in H
  | H : (_ =? _) = true |- _ => apply Z.eqb_eq in H
  | H : (_ =? _) = false |- _ => apply Z.eqb_neq in H
  | H : (_ && _) = true |- _ => apply andb_true_iff in H; destruct H
  | H : (_ && _) = false |- _ => apply andb_false_iff in H
  | H : negb _ = true |- _ => apply negb_true_iff in H
  | H : negb _ = false |- _ => apply negb_false_iff in H
  end.

Section SingleConfig.
Import Single.

(** A configuration [NewDispatcher] has nothing to complete in. *)
Definition complete (c : DispatcherConfig) : Prop :=
  0 < PollInterval c /\ 0 < MaxPollInterval c /\ 1 <= WorkerCount c
  /\ 0 < ShutdownTimeout c <= ForceTimeout c /\ 0 < CleanupTimeout c
  /\ OnForceShutdown c <> None /\ 0 <= RequeueInterval c
  /\ (RequeueInterval c = 0 -> DisableAutoRequeue c = true).

Definition some_negative (c : DispatcherConfig) : Prop :=
  PollInterval c < 0 \/ MaxPollInterval c < 0 \/ WorkerCount c < 0 \/ ShutdownTimeout c < 0
  \/ ForceTimeout c < 0 \/ CleanupTimeout c < 0 \/ RequeueInterval c < 0.

Definition no_overflow (c : DispatcherConfig) : Prop :=
  PollInterval c * 32 < 2 ^ 63 /\ ShutdownTimeout c * 2 < 2 ^ 63.

Lemma or_default_nonneg x d : 0 <= x -> 0 < d -> 0 < or_default x d.
Proof. unfold or_default. destruct (x =? 0) eqn:E; config_cases; lia. Qed.
Lemma or_default_id x d : 0 < x -> or_default x d = x.
Proof. unfold or_default. destruct (x =? 0) eqn:E; config_cases; lia. Qed.
Lemma or_default_cases x d : or_default x d = x \/ or_default x d = d.
Proof. unfold or_default. destruct (x =? 0); auto. Qed.

Lemma wrap_mul x k : 0 <= x -> 0 <= k -> x * k < 2 ^ 63 -> wrap64 (x * k) = x * k.
Proof. intros Hx Hk H. apply wrap64_id. unfold in_int64. nia. Qed.

Lemma complete_new c : complete c -> NewDispatcher c = Ok c.
Proof.
  intros (Hp & Hm & Hw & Hs & Hc & Ha & Hr & Hd). unfold NewDispatcher.
  rewrite !(proj2 (Z.ltb_ge _ _)) by lia. cbn [orb].
  assert (E : apply_defaults c = c).
  { unfold apply_defaults. rewrite !or_default_id by lia.
    destruct c as [? ? ? ? ? [a|] ? ? ? ?]; done. }
  rewrite E. unfold adjust_force. rewrite (proj2 (Z.ltb_ge _ _)) by lia.
  destruct (RequeueInterval c =? 0) eqn:Er; [|done]. config_cases. by rewrite Hd.
Qed.

Lemma defaults_complete c :
  ~ some_negative c -> no_overflow c ->
  (RequeueInterval c = 0 -> DisableAutoRequeue c = true) ->
  complete (adjust_force (apply_defaults c)).
Proof.
  unfold some_negative, no_overflow. intros Hn [Hp Hs] Hr.
  set (poll := or_default (PollInterval c) (100 * Millisecond)).
  set (shutdown := or_default (ShutdownTimeout c) (30 * Second)).
  assert (Hpoll : 0 < poll) by (apply or_default_nonneg; [lia|done]).
  assert (Hsd : 0 < shutdown) by (apply or_default_nonneg; [lia|done]).
  assert (Epoll : wrap64 (poll * 32) = poll * 32).
  { apply wrap_mul; [lia|lia|]. unfold poll.
    destruct (or_default_cases (PollInterval c) (100 * Millisecond)) as [-> | ->]; [lia|done]. }
  assert (Esd : wrap64 (shutdown * 2) = shutdown * 2).
  { apply wrap_mul; [lia|lia|]. unfold shutdown.
    destruct (or_default_cases (ShutdownTimeout c) (30 * Second)) as [-> | ->]; [lia|done]. }
  assert (Hforce : 0 < or_default (ForceTimeout c) (wrap64 (shutdown * 2)))
    by (apply or_default_nonneg; lia).
  assert (Hmax : 0 < or_default (MaxPollInterval c) (wrap64 (poll * 32)))
    by (apply or_default_nonneg; lia).
  assert (Hw : 0 < or_default (WorkerCount c) 1) by (apply or_default_nonneg; lia).
  assert (Hc : 0 < or_default (CleanupTimeout c) (10 * Second))
    by (apply or_default_nonneg; [lia|done]).
  assert (Hact : match OnForceShutdown c with None => Some ExitProcess | a => a end <> None)
    by (by destruct (OnForceShutdown c)).
  unfold adjust_force, apply_defaults, complete. cbn. fold poll shutdown.
  destruct (_ <? _) eqn:E; config_cases; cbn; rewrite ?Esd in E |- *;
    split_and!; first [lia | assumption].
Qed.
End SingleConfig.

(** [NewDispatcher] refuses exactly the configurations with a negative
    field or without requeue not explicitly disabled, always with an error
    that is [ErrInvalidConfig]; any other it completes into one that polls at
    a positive interval with at least one worker, whose force timeout is no
    shorter than its shutdown timeout, and which passing it through
    [NewDispatcher] again does not change (as long as doubling the shutdown
    timeout and 32 times the poll interval fit into a duration). *)
Theorem NewDispatcher_validates (c : Single.DispatcherConfig) (Hrange : no_overflow c) :
  match Single.NewDispatcher c with
  | Ok c' => ~ some_negative c /\ complete c' /\ Single.NewDispatcher c' = Ok c'
  | Err e => errors_Is e ErrInvalidConfig = true
             /\ (some_negative c
                 \/ Single.RequeueInterval c = 0 /\ Single.DisableAutoRequeue c = false)
  end.
Proof.
  unfold Single.NewDispatcher at 1. destruct (_ || _) eqn:En.
  { split; [done|]. left. unfold some_negative. repeat (apply orb_true_iff in En as [En|En]);
      config_cases; lia. }
  assert (Hn : ~ some_negative c) by (unfold some_negative; config_cases; lia).
  assert (Er : Single.RequeueInterval (Single.adjust_force (Single.apply_defaults c))
               = Single.RequeueInterval c
               /\ Single.DisableAutoRequeue (Single.adjust_force (Single.apply_defaults c))
                  = Single.DisableAutoRequeue c)
    by (clear En; unfold Single.adjust_force; by destruct (_ <? _)).
  destruct Er as [Er Ed]. rewrite Er, Ed. destruct (_ && _) eqn:Eq.
  - split; [done|]. right. by config_cases.
  - assert (Hc : complete (Single.adjust_force (Single.apply_defaults c))).
    { apply defaults_complete; [done|done|]. intros E0. rewrite E0, Z.eqb_refl in Eq.
      by apply negb_false_iff in Eq. }
    split; [done|]. split; [done|]. by apply complete_new.
Qed.

(** The same for [NewBatchDispatcher], whose batch size is moreover brought
    within what the publisher takes at once. *)
Theorem NewBatchDispatcher_validates (maxBatch : Z) (c c' : Batch.BatchDispatcherConfig)
  (Hmax : 0 < maxBatch)
  (Hpoll : Batch.PollInterval c * 32 < 2 ^ 63) (Hshutdown : Batch.ShutdownTimeout c * 2 < 2 ^ 63)
  (Hok : Batch.NewBatchDispatcher maxBatch c = Ok c') :
  1 <= Batch.BatchSize c' <= maxBatch /\ 1 <= Batch.WorkerCount c'
  /\ 0 < Batch.PollInterval c' /\ 0 < Batch.MaxPollInterval c'
  /\ 0 < Batch.ShutdownTimeout c' <= Batch.ForceTimeout c'
  /\ 0 < Batch.CleanupTimeout c'
  /\ (0 < Batch.RequeueInterval c' \/ Batch.DisableAutoRequeue c' = true)
  /\ (1 <= Batch.BatchSize c <= maxBatch -> Batch.BatchSize c' = Batch.BatchSize c).
Proof.
  unfold Batch.NewBatchDispatcher in Hok. destruct (_ || _) eqn:En; [discriminate|].
  destruct (_ && _) eqn:Er; [discriminate|]. injection Hok as <-.
  set (poll := Single.or_default (Batch.PollInterval c) (100 * Millisecond)).
  set (shutdown := Single.or_default (Batch.ShutdownTimeout c) (30 * Second)).
  assert (Hpo : 0 < poll) by (apply or_default_nonneg; [config_cases; lia|done]).
  assert (Hsd : 0 < shutdown) by (apply or_default_nonneg; [config_cases; lia|done]).
  assert (Epoll : wrap64 (poll * 32) = poll * 32).
  { apply wrap_mul; [lia|lia|]. unfold poll.
    destruct (or_default_cases (Batch.PollInterval c) (100 * Millisecond)) as [-> | ->];
      [lia|done]. }
  assert (Esd : wrap64 (shutdown * 2) = shutdown * 2).
  { apply wrap_mul; [lia|lia|]. unfold shutdown.
    destruct (or_default_cases (Batch.ShutdownTimeout c) (30 * Second)) as [-> | ->];
      [lia|done]. }
  assert (Hforce : 0 < Single.or_default (Batch.ForceTimeout c) (wrap64 (shutdown * 2)))
    by (apply or_default_nonneg; config_cases; lia).
  assert (Hmx : 0 < Single.or_default (Batch.MaxPollInterval c) (wrap64 (poll * 32)))
    by (apply or_default_nonneg; config_cases; lia).
  assert (Hw : 0 < Single.or_default (Batch.WorkerCount c) 1)
    by (apply or_default_nonneg; config_cases; lia).
  assert (Hc : 0 < Single.or_default (Batch.CleanupTimeout c) (10 * Second))
    by (apply or_default_nonneg; [config_cases; lia|done]).
  assert (Hb : 0 < Single.or_default (Batch.BatchSize c) maxBatch)
    by (apply or_default_nonneg; config_cases; lia).
  assert (Hr : 0 < Batch.RequeueInterval c \/ Batch.DisableAutoRequeue c = true).
  { cbn in Er. apply andb_false_iff in Er as [Er|Er]; [left|right];
      config_cases; [lia|done]. }
  unfold Batch.adjust, Batch.apply_defaults. cbn. fold poll shutdown.
  rewrite ?Esd.
  split_and!; try first [lia | assumption | clear En; destruct (_ <? _) eqn:E; config_cases; lia].
  intros Hin. rewrite or_default_id by lia. by rewrite (proj2 (Z.ltb_ge _ _)) by lia.
Qed.

(** ** Properties: shutdown *)

(** [GracefulShutdown] ends by the force timeout whatever the goroutines
    do.  It reports a graceful stop, as soon as the last one ended, exactly
    when that was before the shutdown timeout; it runs the force action
    exactly when they had not ended by the force timeout; in between it
    returns when the last one ends. *)
Theorem GracefulShutdown_spec (tie1 tie2 : bool) (done_at : option Z) (config : ShutdownConfig)
  (Hs : 0 <= sd_ShutdownTimeout config <= sd_ForceTimeout config)
  (Hf : sd_ForceTimeout config < 2 ^ 63) :
  let '(outcome, at_) := GracefulShutdown tie1 tie2 done_at config in
  at_ <= sd_ForceTimeout config
  /\ match done_at with
     | None => outcome = ForcedShutdown (sd_OnForceShutdown config)
               /\ at_ = sd_ForceTimeout config
     | Some t =>
         (0 <= t < sd_ShutdownTimeout config -> outcome = StoppedGracefully /\ at_ = t)
         /\ (sd_ShutdownTimeout config < t < sd_ForceTimeout config ->
             outcome = StoppedLate /\ at_ = t)
         /\ (sd_ForceTimeout config < t ->
             outcome = ForcedShutdown (sd_OnForceShutdown config)
             /\ at_ = sd_ForceTimeout config)
     end.
Proof.
  assert (Ew : wrap64 (sd_ForceTimeout config - sd_ShutdownTimeout config)
               = sd_ForceTimeout config - sd_ShutdownTimeout config)
    by (apply wrap64_id; unfold in_int64; lia).
  unfold GracefulShutdown, select_done. rewrite Ew.
  set (S := sd_ShutdownTimeout config) in *. set (F := sd_ForceTimeout config) in *.
  destruct done_at as [t|]; [|split; [lia|split; [done|lia]]].
  change (default 0 (Some t)) with t.
  destruct (Z.max 0 t =? Z.max 0 S) eqn:E1, (Z.max 0 t <? Z.max 0 S) eqn:E2,
    (Z.max (Z.max 0 S) t =? Z.max (Z.max 0 S) (Z.max 0 S + (F - S))) eqn:E3,
    (Z.max (Z.max 0 S) t <? Z.max (Z.max 0 S) (Z.max 0 S + (F - S))) eqn:E4, tie1, tie2;
    config_cases; (split; [lia|]); split_and!; intros;
    first [exfalso; lia | split; [reflexivity|lia]].
Qed.

(** ** Properties: life cycle *)

(** Goroutines of the wait group run under the context of the current start or
    under a cancelled one. *)
Definition life_ok (d : Dispatcher) : Prop :=
  Forall (fun r => (r.1 ∈ d_cancelled d) \/ (d_running d = true /\ d_cancelFunc d = Some r.1))
    (d_waited d)
  /\ (d_pendingShutdown d = false -> d_running d = true \/ d_starts d = 0%nat)
  /\ (d_running d = true -> is_Some (d_cancelFunc d)).

Lemma life_ok_step d e : life_ok d -> life_ok (life_step d e).
Proof.
  intros Hok. pose proof Hok as (Hw & Hp & Hc). destruct e as [| |i|now]; simpl.
  - unfold Start. destruct (d_running d) eqn:Er; simpl; [done|].
    split; [|split; [by left|by eexists]]. simpl.
    apply Forall_app. split.
    + eapply Forall_impl; [exact Hw|]. intros r [H|[H _]]; [by left|congruence].
    + apply Forall_forall. intros [n r] Hr. apply list_elem_of_fmap in Hr as (x & [= -> ->] & _).
      by right.
  - unfold Stop. destruct (d_running d) eqn:Er; [|exact Hok].
    split; [|split; [done|done]]. simpl.
    eapply Forall_impl; [exact Hw|]. intros r [H|[_ ->]].
    + left. destruct (d_cancelFunc d); [by apply list_elem_of_further|done].
    + left. by apply list_elem_of_here.
  - unfold routine_exits. destruct (d_waited d !! i) as [[n r]|] eqn:Ei; simpl; [|done].
    case_bool_decide; simpl; [|done]. split; [|done]. simpl.
    rewrite Forall_forall in Hw. apply Forall_forall. intros x Hx. apply Hw.
    by eapply elem_of_submseteq; [|apply sublist_submseteq, sublist_delete].
  - done.
Qed.

Lemma life_ok_run es : forall d, life_ok d -> life_ok (life_run d es).
Proof.
  induction es as [|e es IH]; [done|]. intros d Hd. by apply (IH (life_step d e)), life_ok_step.
Qed.

(** The goroutines [Start] launches. *)
Definition launched (c : LifeConfig) : list Routine :=
  workers_of c ++ (if 0 <? l_RequeueInterval c then [RequeueLoop] else []).

Lemma untag (n : nat) (l : list Routine) : snd <$> ((fun r => (n, r)) <$> l) = l.
Proof. rewrite <- list_fmap_compose. induction l as [|r l IH]; [done|]. cbn. by f_equal. Qed.

(** A dispatcher that is not running starts exactly the configured workers,
    the requeue loop when its interval is positive, and the recovery when it
    is enabled; one that is running refuses with [ErrAlreadyRunning] and
    starts nothing. *)
Theorem Start_spec (d : Dispatcher) :
  let '(d', err) := Start d in
  d_running d' = true
  /\ if d_running d
     then d' = d /\ err = Some (ESentinel ErrAlreadyRunning)
     else err = None
          /\ snd <$> d_waited d' = (snd <$> d_waited d) ++ launched (d_config d)
          /\ d_detached d' = d_detached d
             ++ (if l_AutoRecover (d_config d) then [(d_starts d, RecoverOnce)] else [])
          /\ (l_WorkerCount (d_config d) >= 0 ->
              Z.of_nat (length (workers_of (d_config d))) = l_WorkerCount (d_config d)).
Proof.
  unfold Start. destruct (d_running d) eqn:E; simpl; [by rewrite E|].
  split; [done|]. split; [done|]. split; [|split; [done|]].
  - by rewrite fmap_app, untag.
  - intros Hn. unfold workers_of. rewrite length_fmap, length_seq. lia.
Qed.

Lemma stop_not_running d : d_running (Stop d) = false.
Proof. unfold Stop. by destruct (d_running d) eqn:E. Qed.

(** [Stop] cancels the context of every goroutine it waits for, those of
    earlier starts included, so that they can all end: nothing keeps the wait
    group from reaching zero but a call that does not return. *)
Theorem Stop_drains (c : LifeConfig) (es : list LifeEvent) :
  let d := life_step (life_run (new_dispatcher c) es) LStop in
  IsRunning d = false
  /\ Forall (fun r => r.1 ∈ d_cancelled d) (d_waited d)
  /\ d_waited (life_run d (replicate (length (d_waited d)) (LExit 0))) = [].
Proof.
  set (d := life_step (life_run (new_dispatcher c) es) LStop). cbv zeta.
  assert (Hok : life_ok d).
  { apply life_ok_step, life_ok_run. split; [by constructor|]. split; [by right|done]. }
  assert (Hrun : IsRunning d = false).
  { apply stop_not_running. }
  split; [done|].
  assert (Hall : Forall (fun r => r.1 ∈ d_cancelled d) (d_waited d)).
  { destruct Hok as [Hw _]. eapply Forall_impl; [exact Hw|].
    intros r [H|[H _]]; [done|]. unfold IsRunning in Hrun. congruence. }
  split; [done|]. clear Hok Hrun. clearbody d.
  remember (length (d_waited d)) as n eqn:En. revert d Hall En.
  induction n as [|n IH]; intros d Hall En; simpl.
  - by destruct (d_waited d).
  - destruct (d_waited d) as [|[m r] l] eqn:Ed; [done|]. apply Forall_cons in Hall as [Hm Hl].
    unfold life_run in *. simpl.
    set (d1 := default d (routine_exits 0 d)).
    assert (E : d_waited d1 = l /\ d_cancelled d1 = d_cancelled d).
    { unfold d1, routine_exits. rewrite Ed. cbn.
      by rewrite bool_decide_eq_true_2. }
    destruct E as [E1 E2]. apply IH; rewrite ?E1, ?E2; [done|]. simpl in En. lia.
Qed.

(** [pendingShutdown] is never reset.  A dispatcher that was stopped and
    started again runs its workers, but its health status is unhealthy from
    then on, whatever it does. *)
Theorem restart_never_healthy (c : LifeConfig) (es : list LifeEvent) :
  let d := life_run (new_dispatcher c) [LStart; LStop; LStart] in
  IsRunning d = true
  /\ snd <$> d_waited d = launched c ++ launched c
  /\ IsHealthy (HealthStatus_of (life_run d es)) = false.
Proof.
  cbv zeta. split; [done|]. split.
  - unfold life_run, life_step, Start, Stop, new_dispatcher, launched. cbn -[fmap app].
    by rewrite app_nil_l, fmap_app, !untag.
  - set (d := life_run (new_dispatcher c) [LStart; LStop; LStart]).
    assert (Hp : d_pendingShutdown d = true) by done. clearbody d.
    assert (Hall : d_pendingShutdown (life_run d es) = true).
    { revert d Hp. induction es as [|e es IH]; [done|]. intros d Hp. apply (IH (life_step d e)).
      destruct e as [| |i|now]; simpl.
      - unfold Start. by destruct (d_running d).
      - unfold Stop. by destruct (d_running d).
      - unfold routine_exits. destruct (d_waited d !! i) as [[n r]|]; simpl; [|done].
        by case_bool_decide.
      - done. }
    unfold IsHealthy, HealthStatus_of. simpl. rewrite Hall. by destruct (d_running _).
Qed.

(** The requeue worker asks for one requeue per tick until the context is
    done, whatever the repository answers: errors do not stop it. *)
Theorem runRequeueWorker_ticks (o : Oracle) (ctx : Context) (n : nat) (h : history)
  (rest : list RunEvent) :
  @runRequeueWorker history (hist_repo o) ctx (replicate n TimerFired ++ CtxDone :: rest) h
  = (h ++ replicate n (CRequeue ctx), Ret n).
Proof.
  revert h. induction n as [|n IH]; intros h; cbn [replicate app runRequeueWorker].
  - by rewrite app_nil_r.
  - unfold mbind, GoM_bind. cbn [RequeueFailed hist_repo]. rewrite run_answer_ret.
    rewrite IH, <- app_assoc. done.
Qed.

(** ** The properties at work *)

Lemma NewDispatcher_validates_witness :
  exists c', Single.NewDispatcher Single.DefaultDispatcherConfig = Ok c'
    /\ Single.NewDispatcher c' = Ok c'.
Proof.
  pose proof (NewDispatcher_validates Single.DefaultDispatcherConfig
                ltac:(split; reflexivity)) as H.
  destruct (Single.NewDispatcher Single.DefaultDispatcherConfig) as [c'|e] eqn:E.
  - exists c'. split; [reflexivity|]. apply H.
  - discriminate E.
Defined.

(** The last goroutine ends after 45 seconds, between the two timeouts. *)
Lemma GracefulShutdown_spec_witness :
  fst (GracefulShutdown true true (Some (45 * Second))
         (mkShutdown (30 * Second) (60 * Second) (Some ExitProcess))) = StoppedLate.
Proof.
  pose proof (GracefulShutdown_spec true true (Some (45 * Second))
                (mkShutdown (30 * Second) (60 * Second) (Some ExitProcess))
                ltac:(cbn; unfold Second; lia) ltac:(cbn; unfold Second; lia)) as H.
  destruct (GracefulShutdown true true (Some (45 * Second))
              (mkShutdown (30 * Second) (60 * Second) (Some ExitProcess))) as [outcome at_].
  apply (proj1 (proj2 (proj2 H))). cbn. unfold Second. lia.
Defined.
