(* ===== verification/LifeRace.v ===== *)
(** * Concurrent calls of Start and Stop

    The life cycle of core/dispatcher.go, core/batch_dispatcher.go and
    contrib/sqs/consumer/service.go when any number of goroutines call [Start]
    and [Stop]: the sections under the mutex are one step each, the launches,
    the cancellation and the wait of [GracefulShutdown] happen in between.
    Dispatcher.v has the same calls one after the other. *)

From Stdlib Require Import ZArith Lia.
From stdpp Require Import base option list.
From S2P Require Import Prelude Errors Model Ports Dispatcher.

Set Default Goal Selector "!".

(** ** Callers *)

(** The goroutine of [GracefulShutdown] that calls [wg.Wait]: before the call,
    blocked, woken up when the counter reached zero, returned. *)
Inductive Waiter : Type := WaitCall | WaitBlocked | WaitReleased | WaitReturned.

(** A call of [Start]: before the critical section; with goroutines to launch
    under context [n]; returned.  A call of [Stop]: before the critical section;
    before [cancelFunc()]; waiting ([gave_up]: past the force timeout, whose
    action returned); returned since nothing was running. *)
Inductive Caller : Type :=
| Starting
| Launching (n : nat) (todo : list Routine)
| Started (err : option error)
| Stopping
| Cancelling (cancelFunc : option nat)
| Waiting (waiter : Waiter) (gave_up : bool)
| NotRunning.

(** How the process ends: [OnForceShutdown] exits it, or a panic. *)
Inductive Ending : Type := ForceExit | WaitGroupReused.

Record Life : Type := mkLifeState {
  lf_d : Dispatcher;
  lf_callers : list Caller;
  lf_ended : option Ending
}.

(** A new call; the next step of caller [k]; the force timeout of the [Stop] of
    caller [k]; the goroutine [i] of the wait group returns; the context given to the
    [n]th start is cancelled by its owner; the recovery goroutine [i] returns. *)
Inductive RaceEvent : Type :=
| RCall (c : Caller)
| RStep (k : nat)
| RTimeout (k : nat)
| RExit (i : nat)
| RContext (n : nat)
| RRecovered (i : nat).

Definition life_start (c : LifeConfig) : Life := mkLifeState (new_dispatcher c) [] None.

Definition set_caller (k : nat) (c : Caller) (s : Life) : Life :=
  mkLifeState (lf_d s) (<[k := c]> (lf_callers s)) (lf_ended s).
Definition set_dispatcher (d : Dispatcher) (s : Life) : Life :=
  mkLifeState d (lf_callers s) (lf_ended s).
Definition set_ended (e : Ending) (s : Life) : Life :=
  mkLifeState (lf_d s) (lf_callers s) (Some e).

(** The critical section of [Start]. *)
Definition start_section (d : Dispatcher) : Dispatcher :=
  mkDispatcher (d_config d) true (d_pendingShutdown d) (Some (d_starts d)) (d_cancelled d)
    (S (d_starts d)) (d_waited d) (d_detached d) (d_lastProcessedAt d) (d_given d).

(** What it launches then, in order. *)
Definition to_launch (c : LifeConfig) : list Routine :=
  (if l_AutoRecover c then [RecoverOnce] else []) ++ launched c.

Definition launch (n : nat) (r : Routine) (d : Dispatcher) : Dispatcher :=
  match r with
  | RecoverOnce =>
      mkDispatcher (d_config d) (d_running d) (d_pendingShutdown d) (d_cancelFunc d)
        (d_cancelled d) (d_starts d) (d_waited d) (d_detached d ++ [(n, r)]) (d_lastProcessedAt d) (d_given d)
  | _ =>
      mkDispatcher (d_config d) (d_running d) (d_pendingShutdown d) (d_cancelFunc d)
        (d_cancelled d) (d_starts d) (d_waited d ++ [(n, r)]) (d_detached d) (d_lastProcessedAt d) (d_given d)
  end.

(** The critical section of [Stop]. *)
Definition stop_section (d : Dispatcher) : Dispatcher :=
  mkDispatcher (d_config d) false true (d_cancelFunc d) (d_cancelled d) (d_starts d)
    (d_waited d) (d_detached d) (d_lastProcessedAt d) (d_given d).

Definition cancel (cf : option nat) (d : Dispatcher) : Dispatcher :=
  mkDispatcher (d_config d) (d_running d) (d_pendingShutdown d) (d_cancelFunc d)
    (match cf with Some n => n :: d_cancelled d | None => d_cancelled d end) (d_starts d)
    (d_waited d) (d_detached d) (d_lastProcessedAt d) (d_given d).

(** The owner of the context given to the [n]th start cancels it, and with it the
    worker context made from it. *)
Definition cancel_given (n : nat) (d : Dispatcher) : Dispatcher :=
  mkDispatcher (d_config d) (d_running d) (d_pendingShutdown d) (d_cancelFunc d)
    (n :: d_cancelled d) (d_starts d) (d_waited d) (d_detached d) (d_lastProcessedAt d)
    (n :: d_given d).

(** The recovery goroutine has made its call, under the context given to [Start]. *)
Definition recovery_returns (i : nat) (d : Dispatcher) : Dispatcher :=
  mkDispatcher (d_config d) (d_running d) (d_pendingShutdown d) (d_cancelFunc d)
    (d_cancelled d) (d_starts d) (d_waited d) (delete i (d_detached d)) (d_lastProcessedAt d)
    (d_given d).

(** The counter reached zero: every blocked [Wait] is woken up. *)
Definition wake (c : Caller) : Caller :=
  match c with Waiting WaitBlocked g => Waiting WaitReleased g | _ => c end.

Definition caller_step (k : nat) (c : Caller) (s : Life) : option Life :=
  let d := lf_d s in
  match c with
  | Starting =>
      if d_running d then Some (set_caller k (Started (Some (ESentinel ErrAlreadyRunning))) s)
      else Some (set_caller k (Launching (d_starts d) (to_launch (d_config d)))
                   (set_dispatcher (start_section d) s))
  | Launching n [] => Some (set_caller k (Started None) s)
  | Launching n (r :: todo) =>
      Some (set_caller k (Launching n todo) (set_dispatcher (launch n r d) s))
  | Stopping =>
      if d_running d
      then Some (set_caller k (Cancelling (d_cancelFunc d)) (set_dispatcher (stop_section d) s))
      else Some (set_caller k NotRunning s)
  | Cancelling cf =>
      Some (set_caller k (Waiting WaitCall false) (set_dispatcher (cancel cf d) s))
  | Waiting WaitCall g =>
      Some (set_caller k (Waiting (match d_waited d with [] => WaitReturned | _ => WaitBlocked end) g) s)
  | Waiting WaitReleased g =>
      (* a counter that is not zero again: sync.WaitGroup panics *)
      match d_waited d with
      | [] => Some (set_caller k (Waiting WaitReturned g) s)
      | _ => Some (set_ended WaitGroupReused s)
      end
  | Waiting WaitBlocked _ | Waiting WaitReturned _ | Started _ | NotRunning => None
  end.

Definition race_step (e : RaceEvent) (s : Life) : option Life :=
  match lf_ended s with
  | Some _ => None
  | None =>
      match e with
      | RCall c =>
          match c with
          | Starting | Stopping =>
              Some (mkLifeState (lf_d s) (lf_callers s ++ [c]) None)
          | _ => None
          end
      | RStep k => c ← lf_callers s !! k; caller_step k c s
      | RTimeout k =>
          match lf_callers s !! k with
          | Some (Waiting WaitReturned _) => None
          | Some (Waiting w false) =>
              match sd_OnForceShutdown (l_shutdown (d_config (lf_d s))) with
              | Some ExitProcess => Some (set_ended ForceExit s)
              | _ => Some (set_caller k (Waiting w true) s)
              end
          | _ => None
          end
      | RExit i =>
          d' ← routine_exits i (lf_d s);
          Some (mkLifeState d'
                  (match d_waited d' with [] => wake <$> lf_callers s | _ => lf_callers s end) None)
      | RContext n =>
          if (n <? d_starts (lf_d s))%nat then Some (set_dispatcher (cancel_given n (lf_d s)) s)
          else None
      | RRecovered i => Some (set_dispatcher (recovery_returns i (lf_d s)) s)
      end
  end.

Fixpoint race_run (es : list RaceEvent) (s : Life) : option Life :=
  match es with
  | [] => Some s
  | e :: es => s' ← race_step e s; race_run es s'
  end.

Lemma race_run_app es es' s :
  race_run (es ++ es') s = s' ← race_run es s; race_run es' s'.
Proof.
  revert s. induction es as [|e es IH]; intros s; [done|]. cbn.
  destruct (race_step e s); [apply IH|done].
Qed.

(** ** What holds under every interleaving *)

(** The context [n] is cancelled, that of the current run, or about to be
    cancelled by a [Stop]. *)
Definition covered (s : Life) (n : nat) : Prop :=
  n ∈ d_cancelled (lf_d s)
  \/ (d_running (lf_d s) = true /\ d_cancelFunc (lf_d s) = Some n)
  \/ Cancelling (Some n) ∈ lf_callers s.

Record Race (s : Life) : Prop := {
  race_live : Forall (fun r => covered s r.1) (d_waited (lf_d s));
  race_launching n todo : Launching n todo ∈ lf_callers s -> covered s n;
  race_running : d_running (lf_d s) = true -> is_Some (d_cancelFunc (lf_d s));
  race_blocked g : Waiting WaitBlocked g ∈ lf_callers s -> d_waited (lf_d s) <> []
}.

Lemma race_start c : Race (life_start c).
Proof.
  split; cbn; [constructor| |done|]; intros; by match goal with H : _ ∈ [] |- _ => apply not_elem_of_nil in H end.
Qed.

(** A caller that changes its state. *)
Lemma elem_of_set_caller k c c' (l : list Caller) x :
  l !! k = Some c -> x ∈ <[k := c']> l -> x = c' \/ x ∈ l.
Proof.
  intros Hk Hx. apply list_elem_of_lookup in Hx as [j Hj].
  destruct (decide (j = k)) as [->|Hne].
  - rewrite list_lookup_insert_eq in Hj by (by eapply lookup_lt_Some). injection Hj as ->. by left.
  - rewrite list_lookup_insert_ne in Hj by done. right. by eapply list_elem_of_lookup_2.
Qed.

Lemma elem_of_kept k c c' (l : list Caller) x :
  l !! k = Some c -> x ∈ l -> x <> c -> x ∈ <[k := c']> l.
Proof.
  intros Hk Hx Hne. apply list_elem_of_lookup in Hx as [j Hj].
  apply list_elem_of_lookup. exists j. rewrite list_lookup_insert_ne; [done|]. intros ->. congruence.
Qed.

(** Contexts stay covered over a step. *)
Definition keeps_covered (s s' : Life) : Prop := forall n, covered s n -> covered s' n.

(** A step of caller [k] from [c] to [c'] with the dispatcher [d']. *)
Lemma race_caller k c c' d' s :
  Race s -> lf_callers s !! k = Some c -> 
  let s' := set_caller k c' (set_dispatcher d' s) in
  keeps_covered s s' ->
  Forall (fun r => covered s r.1 \/ covered s' r.1) (d_waited d') ->
  (forall n todo, c' = Launching n todo -> covered s' n) ->
  (d_running d' = true -> is_Some (d_cancelFunc d')) ->
  ((exists g, c' = Waiting WaitBlocked g) \/ d_waited (lf_d s) <> [] -> d_waited d' <> []) ->
  Race s'.
Proof.
  intros [Hl Hn Hr Hb] Hk s' Hkeep Hlive Hlaunch Hrun Hblock. split; cbn.
  - eapply Forall_impl; [exact Hlive|]. intros r [H|H]; [by apply Hkeep|done].
  - intros n todo H. apply (elem_of_set_caller k c) in H as [H|H]; [|by apply Hkeep, (Hn n todo)|done].
    by apply (Hlaunch n todo).
  - done.
  - intros g H. apply Hblock. apply (elem_of_set_caller k c) in H as [<-|H]; [left; by exists g| |done].
    right. by apply (Hb g).
Qed.

Lemma covered_same_caller k c c' d' s :
  lf_callers s !! k = Some c -> (forall n, c <> Cancelling (Some n)) ->
  d_cancelled d' = d_cancelled (lf_d s) ->
  (d_running (lf_d s) = true -> d_running d' = true /\ d_cancelFunc d' = d_cancelFunc (lf_d s)) ->
  keeps_covered s (set_caller k c' (set_dispatcher d' s)).
Proof.
  intros Hk Hc Hcan Hrun n [H|[[H1 H2]|H]]; unfold covered; cbn.
  - left. by rewrite Hcan.
  - right. left. destruct (Hrun H1) as [-> ->]. done.
  - right. right. by apply (elem_of_kept k c).
Qed.

Lemma set_dispatcher_same s : set_dispatcher (lf_d s) s = s.
Proof. by destruct s. Qed.

Lemma launch_fields n r d :
  d_running (launch n r d) = d_running d /\ d_cancelFunc (launch n r d) = d_cancelFunc d
  /\ d_cancelled (launch n r d) = d_cancelled d
  /\ (d_waited (launch n r d) = d_waited d \/ d_waited (launch n r d) = d_waited d ++ [(n, r)]).
Proof. destruct r; cbn; auto 10. Qed.

Lemma live_or s s' (l : list (nat * Routine)) :
  Forall (fun r => covered s r.1) l -> Forall (fun r => covered s r.1 \/ covered s' r.1) l.
Proof. intros H. eapply Forall_impl; [exact H|by left]. Qed.

Lemma race_same_dispatcher k c c' s :
  Race s -> lf_callers s !! k = Some c ->
  (forall n todo, c' = Launching n todo -> covered s n) -> (forall n, c <> Cancelling (Some n)) ->
  ((exists g, c' = Waiting WaitBlocked g) -> d_waited (lf_d s) <> []) ->
  Race (set_caller k c' s).
Proof.
  intros HR Hk H1 H2 H3. rewrite <- (set_dispatcher_same s) at 1.
  assert (Hkeep : keeps_covered s (set_caller k c' (set_dispatcher (lf_d s) s)))
    by (by apply (covered_same_caller k c)).
  apply (race_caller k c); try done.
  - by apply live_or, (race_live s).
  - intros n todo E. by apply Hkeep, (H1 n todo).
  - apply (race_running s HR).
  - intros [H|H]; [by apply H3|done].
Qed.

Lemma race_launch k n r todo s :
  Race s -> lf_callers s !! k = Some (Launching n (r :: todo)) ->
  Race (set_caller k (Launching n todo) (set_dispatcher (launch n r (lf_d s)) s)).
Proof.
  intros [Hl Hn Hr Hb] Hk. destruct (launch_fields n r (lf_d s)) as (E1 & E2 & E3 & E4).
  assert (Hcov : covered s n) by (apply (Hn n (r :: todo)); by eapply list_elem_of_lookup_2).
  set (s' := set_caller _ _ _). assert (Hkeep : keeps_covered s s').
  { apply (covered_same_caller k (Launching n (r :: todo))); [exact Hk|done|exact E3|].
    intros H. by rewrite E1, E2. }
  apply (race_caller k (Launching n (r :: todo))); try done.
  - destruct E4 as [->| ->]; [by apply live_or|]. apply Forall_app.
    split; [by apply live_or|constructor; [by left|done]].
  - intros n' todo' [= <- _]. by apply Hkeep.
  - by rewrite E1, E2.
  - destruct E4 as [->| ->]; [by intros [[g [=]]|H]|]. intros _. by destruct (d_waited _).
Qed.

Lemma race_stop_section k s :
  Race s -> lf_callers s !! k = Some Stopping -> d_running (lf_d s) = true ->
  Race (set_caller k (Cancelling (d_cancelFunc (lf_d s))) (set_dispatcher (stop_section (lf_d s)) s)).
Proof.
  intros [Hl Hn Hr Hb] Hk Er. apply (race_caller k Stopping); try done.
  - intros m [H|[[H1 H2]|H]]; unfold covered; cbn; [by left| |].
    + right. right. rewrite H2. apply list_elem_of_lookup. exists k.
      apply list_lookup_insert_eq. by eapply lookup_lt_Some.
    + right. right. by apply (elem_of_kept k Stopping).
  - by apply live_or.
  - intros [[g [=]]|H]; done.
Qed.

Lemma race_cancel k cf s :
  Race s -> lf_callers s !! k = Some (Cancelling cf) ->
  Race (set_caller k (Waiting WaitCall false) (set_dispatcher (cancel cf (lf_d s)) s)).
Proof.
  intros [Hl Hn Hr Hb] Hk. apply (race_caller k (Cancelling cf)); try done.
  - intros m [H|[[H1 H2]|H]]; unfold covered; cbn.
    + left. destruct cf; [by right|done].
    + right. by left.
    + destruct (decide (cf = Some m)) as [->|Hne]; [left; by left|].
      right. right. apply (elem_of_kept k (Cancelling cf)); [done..|]. congruence.
  - by apply live_or.
  - intros [[g [=]]|H]; done.
Qed.

Lemma race_caller_step k c s s' :
  Race s -> lf_callers s !! k = Some c -> caller_step k c s = Some s' -> Race s'.
Proof.
  intros HR Hk Hs. unfold caller_step in Hs.
  destruct c as [|n [|r todo]|err| |cf|[] g|]; try discriminate.
  - destruct (d_running (lf_d s)) eqn:Er; injection Hs as <-.
    { by apply (race_same_dispatcher k Starting); [..|intros []]. }
    apply (race_caller k Starting); try done.
    + by apply (covered_same_caller k Starting); [..|congruence].
    + by apply live_or, (race_live s).
    + intros n todo [= <- <-]. right. left. done.
    + intros [[g [=]]|H]; done.
  - injection Hs as <-. by apply (race_same_dispatcher k (Launching n [])); [..|intros []].
  - injection Hs as <-. by apply race_launch.
  - destruct (d_running (lf_d s)) eqn:Er; injection Hs as <-; [by apply race_stop_section|].
    by apply (race_same_dispatcher k Stopping); [..|intros []].
  - injection Hs as <-. by apply race_cancel.
  - injection Hs as <-. apply (race_same_dispatcher k (Waiting WaitCall g)); try done.
    intros [g' [= E _]]. by destruct (d_waited (lf_d s)).
  - assert (Hended : Race (set_ended WaitGroupReused s)) by (by destruct HR; split).
    destruct (d_waited (lf_d s)); injection Hs as <-; [|done].
    by apply (race_same_dispatcher k (Waiting WaitReleased g)); [..|intros []].
Qed.

(** The force timeout of a [Stop]: the process exits, or the caller gives up. *)
Lemma timeout_cases k s s' :
  race_step (RTimeout k) s = Some s' ->
  s' = set_ended ForceExit s
  \/ exists w g, lf_callers s !! k = Some (Waiting w g) /\ s' = set_caller k (Waiting w true) s.
Proof.
  unfold race_step. destruct (lf_ended s); [discriminate|].
  destruct (lf_callers s !! k) as [[| | | | |w g|]|]; try discriminate.
  intros Hs. destruct w, g; try discriminate;
    (destruct (sd_OnForceShutdown (l_shutdown (d_config (lf_d s)))) as [[]|];
     injection Hs as <-; eauto 6).
Qed.

Lemma elem_of_wake c (l : list Caller) :
  c ∈ wake <$> l -> (forall g, c <> Waiting WaitBlocked g)
  /\ ((forall g, c <> Waiting WaitReleased g) -> c ∈ l).
Proof.
  intros (c0 & -> & H)%list_elem_of_fmap. split.
  - intros g. by destruct c0 as [| | | | |[]|].
  - intros Hg. destruct c0 as [| | | | |[] g|]; try done. by destruct (Hg g).
Qed.

Lemma race_exit i s s' : Race s -> lf_ended s = None -> race_step (RExit i) s = Some s' -> Race s'.
Proof.
  intros [Hl Hn Hr Hb] He Hs. unfold race_step, routine_exits in Hs. rewrite He in Hs.
  destruct (d_waited (lf_d s) !! i) as [[n r]|]; [|discriminate].
  cbn in Hs. case_bool_decide as Hcan; [|discriminate]. cbn in Hs. injection Hs as <-.
  set (d' := mkDispatcher _ _ _ _ _ _ _ _ _ _) in *.
  set (cs := match delete i (d_waited (lf_d s)) with [] => _ | _ :: _ => _ end) in *.
  assert (Hcs : forall c, c ∈ cs -> (forall g, c <> Waiting WaitReleased g) -> c ∈ lf_callers s).
  { intros c Hc Hg. unfold cs in Hc. destruct (delete i _); [|done].
    by apply (proj2 (elem_of_wake _ _ Hc)). }
  assert (Hkeep : keeps_covered s (mkLifeState d' cs None)).
  { intros m [H|[H|H]]; [by left|by right; left|]. right. right. cbn. unfold cs. clear -H.
    destruct (delete i (d_waited (lf_d s))); [|exact H].
    apply list_elem_of_fmap. by exists (Cancelling (Some m)). }
  split; cbn; [|intros m todo H|done|intros g H].
  - apply Forall_forall. intros x Hx. apply Hkeep. rewrite Forall_forall in Hl. apply Hl.
    by eapply elem_of_submseteq; [|apply sublist_submseteq, sublist_delete].
  - apply Hkeep, (Hn m todo). by apply Hcs.
  - unfold cs in H. destruct (delete i _); [|done]. by destruct (proj1 (elem_of_wake _ _ H) g).
Qed.

Lemma race_event e s s' : Race s -> race_step e s = Some s' -> Race s'.
Proof.
  intros HR Hs. pose proof HR as [Hl Hn Hr Hb].
  assert (Ha : lf_ended s = None) by (unfold race_step in Hs; by destruct (lf_ended s)).
  destruct e as [c|k|k|i|n|i]; [| | |by eapply race_exit| |].
  - assert (Hc : exists c', (c' = Starting \/ c' = Stopping)
      /\ s' = mkLifeState (lf_d s) (lf_callers s ++ [c']) None).
    { unfold race_step in Hs. rewrite Ha in Hs.
      destruct c; try discriminate; injection Hs as <-; eauto. }
    destruct Hc as (c' & Hc & ->). clear Hs.
    assert (Hkeep : keeps_covered s (mkLifeState (lf_d s) (lf_callers s ++ [c']) None)).
    { intros n [H|[H|H]]; [by left|by right; left|]. right. right. apply elem_of_app. by left. }
    split; cbn; [|intros n todo|done|intros g].
    + eapply Forall_impl; [exact Hl|]. intros r. apply Hkeep.
    + intros [H|H%list_elem_of_singleton]%elem_of_app; [by apply Hkeep, (Hn n todo)|].
      destruct Hc; congruence.
    + intros [H|H%list_elem_of_singleton]%elem_of_app; [by apply (Hb g)|]. destruct Hc; congruence.
  - unfold race_step in Hs. rewrite Ha in Hs.
    destruct (lf_callers s !! k) as [c|] eqn:Hk; [|discriminate]. by eapply race_caller_step.
  - destruct (timeout_cases k s s' Hs) as [->|(w & g & Hk & ->)]; [by split|].
    apply (race_same_dispatcher k (Waiting w g)); try done.
    intros [g' E]. injection E as -> _. apply (Hb g). by eapply list_elem_of_lookup_2.
  - unfold race_step in Hs. rewrite Ha in Hs. destruct (_ <? _)%nat; [|discriminate]. injection Hs as <-.
    assert (Hkeep : keeps_covered s (set_dispatcher (cancel_given n (lf_d s)) s)).
    { intros m [H|[H|H]]; [by left; right|by right; left|by right; right]. }
    split; cbn; [|intros m todo H|done|done].
    + eapply Forall_impl; [exact Hl|]. intros r. apply Hkeep.
    + by apply Hkeep, (Hn m todo).
  - unfold race_step in Hs. rewrite Ha in Hs. injection Hs as <-. by split.
Qed.

Lemma race_reachable c es s : race_run es (life_start c) = Some s -> Race s.
Proof.
  assert (H : forall s0, Race s0 -> race_run es s0 = Some s -> Race s).
  { induction es as [|e es IH]; intros s0 HR Hr; cbn in Hr; [by injection Hr as <-|].
    destruct (race_step e s0) as [s1|] eqn:E; [|discriminate]. apply (IH s1); [|done].
    by eapply race_event. }
  apply H, race_start.
Qed.

(** *** After the last Stop *)

Definition blocked (c : Caller) : bool :=
  match c with Waiting WaitBlocked _ => true | _ => false end.

Lemma exit_all d cs :
  Forall (fun r => r.1 ∈ d_cancelled d) (d_waited d) ->
  (d_waited d = [] -> Forall (fun c => blocked c = false) cs) ->
  exists d' cs', race_run (replicate (length (d_waited d)) (RExit 0)) (mkLifeState d cs None)
      = Some (mkLifeState d' cs' None)
    /\ d_waited d' = [] /\ d_detached d' = d_detached d /\ Forall (fun c => blocked c = false) cs'.
Proof.
  intros Hall. remember (d_waited d) as live eqn:El. revert d cs El Hall.
  induction live as [|[n r] live IH]; intros d cs El Hall Hcs.
  { exists d, cs. split; [done|]. split; [done|]. split; [done|]. by apply Hcs. }
  apply Forall_cons in Hall as [Hn Hall]. cbn [fst] in Hn.
  cbn [length replicate race_run race_step lf_ended lf_d lf_callers]. unfold routine_exits.
  rewrite <- El. cbn [lookup list_lookup mbind option_bind].
  rewrite bool_decide_eq_true_2 by done. cbn [delete list_delete d_waited].
  set (d1 := mkDispatcher _ _ _ _ _ _ live _ _ _).
  apply (IH d1); [done|done|]. intros ->.
  apply Forall_forall. intros c Hc. destruct (elem_of_wake _ _ Hc) as [H _].
  destruct c as [| | | | |[] g|]; try done. by destruct (H g).
Qed.

(** *** The recovery *)

(** Nothing but its owner cancels a context given to [Start]. *)
Lemma caller_step_given k c s s' :
  caller_step k c s = Some s' -> d_given (lf_d s') = d_given (lf_d s).
Proof.
  unfold caller_step.
  destruct c as [|n [|[] todo]|err| |cf|[] g|]; try discriminate; repeat case_match;
    intros [= <-]; done.
Qed.

Lemma race_step_given e s s' n :
  race_step e s = Some s' ->
  n ∈ d_given (lf_d s') <-> e = RContext n \/ n ∈ d_given (lf_d s).
Proof.
  assert (Hsame : forall s1, d_given (lf_d s1) = d_given (lf_d s) -> (forall m, e <> RContext m) ->
    n ∈ d_given (lf_d s1) <-> e = RContext n \/ n ∈ d_given (lf_d s))
    by (intros s1 -> Hne; split; [by right|intros [E|H]; [by destruct (Hne n)|done]]).
  unfold race_step, routine_exits. destruct (lf_ended s); [discriminate|].
  destruct e as [c|k|k|i|m|i].
  - destruct c; try discriminate; intros [= <-]; by apply Hsame.
  - destruct (lf_callers s !! k) as [c|]; [|discriminate]. cbn [mbind option_bind]. intros E.
    apply Hsame; [|done]. by apply (caller_step_given k c).
  - repeat case_match; try discriminate; intros [= <-]; by apply Hsame.
  - destruct (d_waited (lf_d s) !! i) as [[x r]|]; [|discriminate]. cbn [mbind option_bind].
    case_bool_decide; [|discriminate]. cbn [mbind option_bind]. intros [= <-]. by apply Hsame.
  - case_match; [|discriminate]. intros [= <-]. cbn. rewrite elem_of_cons.
    split; (intros [E|Hin]; [left; congruence|by right]).
  - intros [= <-]. by apply Hsame.
Qed.

Lemma race_run_given n es : forall s s',
  race_run es s = Some s' ->
  n ∈ d_given (lf_d s') <-> RContext n ∈ es \/ n ∈ d_given (lf_d s).
Proof.
  induction es as [|e es IH]; intros s s' Hr; cbn in Hr.
  { injection Hr as <-. split; [by right|]. intros [Hn|Hn]; [by apply not_elem_of_nil in Hn|done]. }
  destruct (race_step e s) as [s1|] eqn:E; [|discriminate]. rewrite (IH s1 s' Hr).
  rewrite (race_step_given e s s1 n E), elem_of_cons. split; [|by intros [[]|]; auto].
  intros [|[|]]; auto.
Qed.

(** C34: however the calls of [Start] and [Stop] interleave, once none of them runs
    the dispatcher and every [Stop] has cancelled, no worker and no requeue loop
    works on: the contexts of all goroutines of the wait group, and of those a
    [Start] still launches in it, are cancelled, so that they can all return, and
    then every [Stop] that waits is woken up.  The recovery that [AutoRecover] starts
    is not among them: it is not in the wait group, and the context it has, the
    one given to [Start], is cancelled by its owner and by nothing else; the woken
    [Stop] returns with as many recoveries running as before. *)
Theorem concurrent_stop (c : LifeConfig) (es : list RaceEvent) (s : Life)
  (Hrun : race_run es (life_start c) = Some s) (Halive : lf_ended s = None)
  (Hstopped : IsRunning (lf_d s) = false)
  (Hcancelled : forall cf, Cancelling cf ∉ lf_callers s) :
  Forall (fun r => r.1 ∈ d_cancelled (lf_d s)) (d_waited (lf_d s))
  /\ (forall n todo, Launching n todo ∈ lf_callers s -> n ∈ d_cancelled (lf_d s))
  /\ (exists s', race_run (replicate (length (d_waited (lf_d s))) (RExit 0)) s = Some s'
       /\ d_waited (lf_d s') = [] /\ Forall (fun c => blocked c = false) (lf_callers s')
       /\ d_detached (lf_d s') = d_detached (lf_d s))
  /\ forall n, n ∈ d_given (lf_d s) <-> RContext n ∈ es.
Proof.
  destruct (race_reachable c es s Hrun) as [Hl Hn _ Hb].
  assert (Hcov : forall n, covered s n -> n ∈ d_cancelled (lf_d s)).
  { intros n [H|[[H _]|H]]; [done|unfold IsRunning in Hstopped; congruence|]. by destruct (Hcancelled _ H). }
  assert (Hall : Forall (fun r => r.1 ∈ d_cancelled (lf_d s)) (d_waited (lf_d s)))
    by (eapply Forall_impl; [exact Hl|intros r; apply Hcov]).
  split; [done|]. split; [intros n todo H; by apply Hcov, (Hn n todo)|]. split.
  - destruct s as [d cs e]. cbn in *. subst e.
    destruct (exit_all d cs Hall) as (d' & cs' & Hr & Hd & Hdet & Hcs).
    { intros E. apply Forall_forall. intros x Hx. destruct x as [| | | | |[] g|]; try done.
      by destruct (Hb g Hx). }
    by exists (mkLifeState d' cs' None).
  - intros n. rewrite (race_run_given n es _ s Hrun). split; [|by left].
    intros [|H]; [done|by apply not_elem_of_nil in H].
Qed.

(** ** A call that runs alone *)

Lemma launch_alone k n todo d cs :
  cs !! k = Some (Launching n todo) ->
  race_run (replicate (S (length todo)) (RStep k)) (mkLifeState d cs None)
  = Some (mkLifeState (foldl (fun d r => launch n r d) d todo) (<[k := Started None]> cs) None).
Proof.
  revert d cs. induction todo as [|r todo IH]; intros d cs Hk.
  - cbn. rewrite Hk. done.
  - change (replicate (S (length (r :: todo))) (RStep k))
      with (RStep k :: replicate (S (length todo)) (RStep k)).
    cbn [race_run race_step lf_ended lf_callers]. rewrite Hk. cbn [mbind option_bind caller_step lf_d].
    unfold set_caller, set_dispatcher; cbn [lf_d lf_callers lf_ended].
    rewrite IH by (apply list_lookup_insert_eq; by eapply lookup_lt_Some).
    by rewrite list_insert_insert_eq.
Qed.

Lemma launches_waited n todo : forall d,
  Forall (fun r => r <> RecoverOnce) todo ->
  foldl (fun d r => launch n r d) d todo
  = mkDispatcher (d_config d) (d_running d) (d_pendingShutdown d) (d_cancelFunc d) (d_cancelled d)
      (d_starts d) (d_waited d ++ ((fun r => (n, r)) <$> todo)) (d_detached d) (d_lastProcessedAt d) (d_given d).
Proof.
  induction todo as [|r todo IH]; intros d H; cbn [foldl fmap list_fmap].
  - rewrite app_nil_r. by destruct d.
  - apply Forall_cons in H as [Hr H]. rewrite IH by done.
    destruct r; [done|..]; cbn; by rewrite <- app_assoc.
Qed.

Lemma launched_waited c : Forall (fun r => r <> RecoverOnce) (launched c).
Proof.
  unfold launched, workers_of. apply Forall_app. split; [|by destruct (_ <? _)%Z; repeat constructor].
  apply Forall_forall. intros r (i & -> & _)%list_elem_of_fmap. done.
Qed.

Lemma launches_all c n d :
  foldl (fun d r => launch n r d) d (to_launch c)
  = mkDispatcher (d_config d) (d_running d) (d_pendingShutdown d) (d_cancelFunc d) (d_cancelled d)
      (d_starts d) (d_waited d ++ ((fun r => (n, r)) <$> launched c))
      (d_detached d ++ (if l_AutoRecover c then [(n, RecoverOnce)] else [])) (d_lastProcessedAt d) (d_given d).
Proof.
  unfold to_launch. destruct (l_AutoRecover c); cbn [app foldl];
    rewrite launches_waited by apply launched_waited; [done|]. by rewrite app_nil_r.
Qed.

(** The steps of a call of [Start] that nobody interrupts are the [Start] of
    Dispatcher.v. *)
Theorem start_alone k d cs :
  cs !! k = Some Starting ->
  race_run (replicate (if d_running d then 1 else 2 + length (to_launch (d_config d))) (RStep k))
    (mkLifeState d cs None)
  = Some (mkLifeState (fst (Start d)) (<[k := Started (snd (Start d))]> cs) None).
Proof.
  intros Hk. unfold Start. destruct (d_running d) eqn:Er.
  - cbn. rewrite Hk. cbn. by rewrite Er.
  - change (replicate (2 + length (to_launch (d_config d))) (RStep k))
      with (RStep k :: replicate (S (length (to_launch (d_config d)))) (RStep k)).
    cbn [race_run race_step lf_ended lf_callers]. rewrite Hk. cbn [mbind option_bind caller_step lf_d].
    rewrite Er. unfold set_caller, set_dispatcher; cbn [lf_d lf_callers lf_ended].
    cbn [mbind option_bind].
    rewrite (launch_alone k (d_starts d)) by (apply list_lookup_insert_eq; by eapply lookup_lt_Some).
    by rewrite list_insert_insert_eq, launches_all.
Qed.

(** Those of [Stop], up to the wait, are the [Stop] of Dispatcher.v. *)
Theorem stop_alone k d cs :
  cs !! k = Some Stopping ->
  race_run (replicate (if d_running d then 3 else 1) (RStep k)) (mkLifeState d cs None)
  = Some (mkLifeState (Stop d)
      (<[k := if d_running d
              then Waiting (match d_waited d with [] => WaitReturned | _ => WaitBlocked end) false
              else NotRunning]> cs) None).
Proof.
  intros Hk. assert (Hlt : (k < length cs)%nat) by (by eapply lookup_lt_Some).
  unfold Stop. destruct (d_running d) eqn:Er.
  - cbn [replicate race_run race_step lf_ended lf_callers]. rewrite Hk.
    cbn [mbind option_bind caller_step lf_d]. rewrite Er. unfold set_caller, set_dispatcher.
    cbn [mbind option_bind lf_d lf_callers lf_ended race_run race_step].
    rewrite list_lookup_insert_eq by done.
    cbn [mbind option_bind caller_step]. unfold set_caller, set_dispatcher.
    cbn [mbind option_bind lf_d lf_callers lf_ended race_run race_step].
    rewrite list_insert_insert_eq, list_lookup_insert_eq by done. cbn [mbind option_bind caller_step].
    unfold set_caller; cbn [mbind option_bind lf_d lf_callers lf_ended race_run].
    by rewrite list_insert_insert_eq.
  - cbn. rewrite Hk. cbn. by rewrite Er.
Qed.

(** ** Calls one after the other *)

Definition finished (c : Caller) : bool :=
  match c with Started _ | NotRunning | Waiting WaitReturned _ => true | _ => false end.

(** A call is made when all others have returned, and no [Stop] times out. *)
Definition serial_event (e : RaceEvent) (s : Life) : Prop :=
  match e with
  | RCall _ => Forall (fun c => finished c = true) (lf_callers s)
  | RTimeout _ => False
  | _ => True
  end.

Fixpoint serial (es : list RaceEvent) (s : Life) : Prop :=
  match es with
  | [] => True
  | e :: es => serial_event e s /\ forall s', race_step e s = Some s' -> serial es s'
  end.

(** What the newest call, [None] before the first, tells of the dispatcher. *)
Definition phase (c : option Caller) (d : Dispatcher) : Prop :=
  match c with
  | Some (Launching _ _) => d_running d = true
  | Some (Cancelling _) | Some (Waiting WaitCall _) | Some (Waiting WaitBlocked _) =>
      d_running d = false
  | Some (Waiting WaitReleased _) => d_running d = false /\ d_waited d = []
  | _ => d_running d = false -> d_waited d = []
  end.

Definition in_turn (s : Life) : Prop :=
  lf_ended s = None
  /\ (lf_callers s = [] /\ phase None (lf_d s)
      \/ exists l c, lf_callers s = l ++ [c] /\ Forall (fun c => finished c = true) l
           /\ phase (Some c) (lf_d s)).

Lemma in_turn_last l c d :
  Forall (fun c => finished c = true) l -> phase (Some c) d -> in_turn (mkLifeState d (l ++ [c]) None).
Proof. intros Hl Hp. split; [done|]. right. by exists l, c. Qed.

Lemma phase_finished c d : finished c = true -> phase (Some c) d = (d_running d = false -> d_waited d = []).
Proof. by destruct c as [| | | | |[]|]. Qed.

Lemma insert_last (l : list Caller) c c' : <[length l := c']> (l ++ [c]) = l ++ [c'].
Proof. rewrite insert_app_r_alt by lia. by rewrite Nat.sub_diag. Qed.

Lemma in_turn_caller l c d s' :
  Forall (fun c => finished c = true) l -> phase (Some c) d ->
  caller_step (length l) c (mkLifeState d (l ++ [c]) None) = Some s' -> in_turn s'.
Proof.
  intros Hl Hp Hs. unfold caller_step, set_caller, set_dispatcher in Hs; cbn in Hs.
  destruct c as [|n [|r todo]|err| |cf|[] g|]; cbn in Hp; try discriminate.
  - destruct (d_running d) eqn:Er; injection Hs as <-; rewrite insert_last; apply in_turn_last; try done.
    cbn. by rewrite Er.
  - injection Hs as <-; rewrite insert_last. apply in_turn_last; [done|]. cbn. by rewrite Hp.
  - injection Hs as <-; rewrite insert_last. apply in_turn_last; [done|]. cbn.
    by destruct (launch_fields n r d) as (-> & _).
  - destruct (d_running d) eqn:Er; injection Hs as <-; rewrite insert_last; apply in_turn_last; try done.
    intros _. by apply Hp.
  - injection Hs as <-; rewrite insert_last. by apply in_turn_last.
  - injection Hs as <-; rewrite insert_last. apply in_turn_last; [done|].
    destruct (d_waited d) eqn:Ew; cbn; [by rewrite Ew|done].
  - destruct Hp as [Hp Ew]. rewrite Ew in Hs. injection Hs as <-; rewrite insert_last. by apply in_turn_last; [done|intros _].
Qed.

Lemma finished_wake l : Forall (fun c => finished c = true) l -> wake <$> l = l.
Proof.
  intros H. induction H as [|c l Hc _ IH]; [done|]. cbn. rewrite IH. by destruct c as [| | | | |[]|].
Qed.

Lemma in_turn_exit l c d i n r :
  Forall (fun c => finished c = true) l -> phase (Some c) d -> d_waited d !! i = Some (n, r) ->
  let d' := mkDispatcher (d_config d) (d_running d) (d_pendingShutdown d) (d_cancelFunc d)
              (d_cancelled d) (d_starts d) (delete i (d_waited d)) (d_detached d)
              (d_lastProcessedAt d) (d_given d) in
  in_turn (mkLifeState d' (match d_waited d' with [] => wake <$> l ++ [c] | _ => l ++ [c] end) None).
Proof.
  intros Hl Hp Hi d'.
  assert (Hne : d_waited d <> []) by (intros E; by rewrite E in Hi).
  assert (Hwake : d_waited d' = [] -> phase (Some (wake c)) d').
  { intros E. destruct c as [| | | | |[] g|]; cbn in *; tauto. }
  destruct (d_waited d') eqn:Ew.
  - rewrite fmap_app, finished_wake by done. cbn [fmap list_fmap]. apply in_turn_last; auto.
  - apply in_turn_last; [done|].
    destruct c as [| | | | |[] g|]; cbn in *; try done; try (intros E; by destruct (Hne (Hp E))).
    by destruct (Hne (proj2 Hp)).
Qed.

Lemma in_turn_step e s s' :
  in_turn s -> serial_event e s -> race_step e s = Some s' -> in_turn s'.
Proof.
  intros [He Hs] Hser Hstep. destruct s as [d cs e0].
  cbn [lf_d lf_callers lf_ended serial_event] in *. subst e0.
  unfold race_step in Hstep; cbn in Hstep. destruct e as [c|k|k|i|n|i]; [| |done|..].
  - assert (Hp : d_running d = false -> d_waited d = []).
    { destruct Hs as [[_ Hp]|(l & c0 & -> & _ & Hp)]; [done|].
      apply Forall_app in Hser as [_ Hc]. apply Forall_cons in Hc as [Hc _].
      by rewrite phase_finished in Hp. }
    destruct c; try discriminate; injection Hstep as <-; by apply in_turn_last.
  - destruct Hs as [[-> _]|(l & c & -> & Hl & Hp)]; [done|].
    destruct (decide (k = length l)) as [->|Hne].
    + rewrite list_lookup_middle in Hstep by done. by apply (in_turn_caller l c d).
    + exfalso. destruct ((l ++ [c]) !! k) as [c'|] eqn:Ek; [|done]. cbn in Hstep.
      assert (Hlt : (k < length l)%nat).
      { apply lookup_lt_Some in Ek. rewrite length_app in Ek. cbn in Ek. lia. }
      rewrite lookup_app_l in Ek by done. rewrite Forall_lookup in Hl. specialize (Hl k c' Ek).
      by destruct c' as [| | | | |[]|].
  - unfold routine_exits in Hstep. destruct (d_waited d !! i) as [[n r]|] eqn:Ei; [|done].
    cbn in Hstep. case_bool_decide; [|done]. cbn in Hstep. injection Hstep as <-.
    destruct Hs as [[-> Hp]|(l & c & -> & Hl & Hp)]; [|by apply (in_turn_exit l c d i n r)].
    split; [done|]. left. cbn. split; [by destruct (delete i _)|].
    intros E. by rewrite (Hp E) in Ei.
  - case_match; [|done]. injection Hstep as <-. split; [done|].
    destruct Hs as [[-> Hp]|(l & c & -> & Hl & Hp)]; [by left|]. right. exists l, c.
    split; [done|]. split; [done|]. by destruct c as [| | | | |[]|].
  - injection Hstep as <-. split; [done|].
    destruct Hs as [[-> Hp]|(l & c & -> & Hl & Hp)]; [by left|]. right. exists l, c.
    split; [done|]. split; [done|]. by destruct c as [| | | | |[]|].
Qed.

(** Calls that are made one after the other, with goroutines that return in
    time: the process never fails, and when the last of them was a [Stop] no
    goroutine of the dispatcher is left. *)
Theorem serial_stop_complete (c : LifeConfig) (es : list RaceEvent) (s : Life) :
  race_run es (life_start c) = Some s -> serial es (life_start c) ->
  lf_ended s = None
  /\ (Forall (fun c => finished c = true) (lf_callers s) -> IsRunning (lf_d s) = false ->
      d_waited (lf_d s) = []).
Proof.
  assert (H : forall s0, in_turn s0 -> race_run es s0 = Some s -> serial es s0 -> in_turn s).
  { induction es as [|e es IH]; intros s0 Ht Hr Hser; cbn in Hr; [by injection Hr as <-|].
    destruct (race_step e s0) as [s1|] eqn:E; [|discriminate]. destruct Hser as [He Hser].
    apply (IH s1); [by eapply in_turn_step|done|by apply Hser]. }
  intros Hr Hser. destruct (H (life_start c)) as [He Hs]; [|done..|].
  { split; [done|]. left. done. }
  split; [done|]. intros Hf Hrun.
  destruct Hs as [[_ Hp]|(l & c0 & El & _ & Hp)]; [by apply Hp|].
  rewrite El in Hf. apply Forall_app in Hf as [_ Hc]. apply Forall_cons in Hc as [Hc _].
  rewrite phase_finished in Hp by done. by apply Hp.
Qed.

(** ** Races *)

(** Neither a [Stop] that has still to cancel nor one that will come. *)
Definition no_stop (s : Life) : Prop :=
  (Stopping ∉ lf_callers s) /\ (forall cf, Cancelling cf ∉ lf_callers s).

Definition harmless (k : nat) (e : RaceEvent) : Prop :=
  match e with RCall Stopping | RContext _ => False | RTimeout j => j <> k | _ => True end.

(** A [Stop] that waits while a later [Start] was accepted waits for the goroutines
    of that start too: nothing wakes it up but another [Stop], the end of the
    context given to [Start], or the force timeout, which by default exits the
    process. *)
Definition waits_for_other (k : nat) (s : Life) : Prop :=
  (exists g, lf_callers s !! k = Some (Waiting WaitBlocked g))
  /\ (exists r, r ∈ d_waited (lf_d s) /\ r.1 ∉ d_cancelled (lf_d s)) /\ no_stop s.

Lemma waits_on_caller k j c s s' :
  waits_for_other k s -> lf_callers s !! j = Some c -> caller_step j c s = Some s' ->
  waits_for_other k s'.
Proof.
  intros ((g & Hk) & (r & Hr & Hc) & Hns & Hnc) Ej Hs.
  assert (Hset : forall c' d', c <> Waiting WaitBlocked g -> c' <> Stopping ->
    (forall cf, c' <> Cancelling cf) -> r ∈ d_waited d' -> r.1 ∉ d_cancelled d' ->
    waits_for_other k (set_caller j c' (set_dispatcher d' s))).
  { intros c' d' H1 H2 H3 H4 H5. assert (Hjk : j <> k) by (intros ->; congruence).
    split; [exists g; cbn; by rewrite list_lookup_insert_ne|]. split; [by exists r|]. cbn.
    split; [intros H|intros cf H]; apply (elem_of_set_caller j c) in H as [H|H];
      try done; naive_solver. }
  pose proof (fun c' => Hset c' (lf_d s)) as Hset'. rewrite set_dispatcher_same in Hset'.
  unfold caller_step in Hs. destruct c as [|n [|x todo]|err| |cf|[] g'|]; try discriminate.
  - destruct (d_running (lf_d s)); injection Hs as <-; [by apply Hset'|by apply Hset].
  - injection Hs as <-. by apply Hset'.
  - injection Hs as <-. destruct (launch_fields n x (lf_d s)) as (_ & _ & E3 & E4).
    apply Hset; try done; [|by rewrite E3]. destruct E4 as [->| ->]; [done|]. apply elem_of_app. by left.
  - destruct Hns. by eapply list_elem_of_lookup_2.
  - destruct (Hnc cf). by eapply list_elem_of_lookup_2.
  - injection Hs as <-. by apply Hset'.
  - assert (Hended : waits_for_other k (set_ended WaitGroupReused s))
      by (split; [by exists g|]; split; [by exists r|done]).
    destruct (d_waited (lf_d s)); [by apply not_elem_of_nil in Hr|]. by injection Hs as <-.
Qed.

Lemma elem_of_delete_other (l : list (nat * Routine)) i x y :
  l !! i = Some x -> y ∈ l -> y <> x -> y ∈ delete i l.
Proof.
  intros Hi Hy Hne. apply list_elem_of_lookup in Hy as [j Hj].
  assert (j <> i) by (intros ->; congruence). apply list_elem_of_lookup.
  destruct (decide (j < i)%nat).
  - exists j. by rewrite list_lookup_delete_lt.
  - exists (pred j). rewrite list_lookup_delete_ge by lia. by rewrite Nat.succ_pred by lia.
Qed.

Lemma waits_on k e s s' :
  waits_for_other k s -> harmless k e -> race_step e s = Some s' -> waits_for_other k s'.
Proof.
  intros Hw He Hs. pose proof Hw as ((g & Hk) & (r & Hr & Hc) & Hns & Hnc).
  destruct e as [c|j|j|i|n|i]; [..|done|]; [| | | |by unfold race_step in Hs; destruct (lf_ended s); [done|injection Hs as <-]; split; [by exists g|]; split; [by exists r|done]].
  - unfold race_step in Hs. destruct (lf_ended s); [done|].
    assert (Hs' : s' = mkLifeState (lf_d s) (lf_callers s ++ [Starting]) None)
      by (destruct c; try done; by injection Hs as <-).
    subst s'. split; [exists g; by apply lookup_app_l_Some|]. split; [by exists r|].
    split; [intros H|intros cf H]; apply elem_of_app in H as [H|H%list_elem_of_singleton];
      try done; by destruct (Hnc cf).
  - unfold race_step in Hs. destruct (lf_ended s); [done|].
    destruct (lf_callers s !! j) as [c|] eqn:Ej; [|done]. by apply (waits_on_caller k j c s).
  - cbn in He. destruct (timeout_cases j s s' Hs) as [->|(w & g' & Ej & ->)];
      (split; [exists g; cbn; by rewrite ?list_lookup_insert_ne|]); (split; [by exists r|]); [done|].
    split; [intros H|intros cf H]; apply (elem_of_set_caller j (Waiting w g')) in H as [H|H];
      naive_solver.
  - unfold race_step, routine_exits in Hs. destruct (lf_ended s); [done|].
    destruct (d_waited (lf_d s) !! i) as [[n x]|] eqn:Ei; [|done].
    cbn in Hs. case_bool_decide as Hn; [|done]. cbn in Hs.
    assert (Hr' : r ∈ delete i (d_waited (lf_d s)))
      by (apply (elem_of_delete_other _ i (n, x)); [done..|by intros ->]).
    destruct (delete i _) as [|y l] eqn:Ed; [by apply not_elem_of_nil in Hr'|]. injection Hs as <-.
    split; [by exists g|]. split; [exists r; split; [exact Hr'|exact Hc]|done].
Qed.

Theorem start_holds_up_stop k es : forall s s',
  waits_for_other k s -> Forall (harmless k) es -> race_run es s = Some s' -> waits_for_other k s'.
Proof.
  induction es as [|e es IH]; intros s s' Hw He Hr; cbn in Hr; [by injection Hr as <-|].
  apply Forall_cons in He as [He Hes]. destruct (race_step e s) as [s1|] eqn:E; [|discriminate].
  apply (IH s1); [by eapply waits_on|done..].
Qed.

Definition one_worker : LifeConfig :=
  mkLife 1 false 0 (mkShutdown 30000000000 60000000000 (Some ExitProcess)).

(** A worker is busy when [Stop] is called, and [Start] is called before it ends:
    the [Stop] ends by exiting the process. *)
Definition restart_while_stopping : list RaceEvent :=
  [RCall Starting; RStep 0; RStep 0; RStep 0; RCall Stopping; RStep 1; RStep 1; RStep 1;
   RCall Starting; RStep 2; RStep 2; RStep 2; RExit 0].

Example restart_exits :
  (exists s, race_run restart_while_stopping (life_start one_worker) = Some s
     /\ lf_callers s !! 2%nat = Some (Started None) /\ waits_for_other 1 s)
  /\ lf_ended <$> race_run (restart_while_stopping ++ [RTimeout 1]) (life_start one_worker)
     = Some (Some ForceExit).
Proof.
  split; [|reflexivity]. eexists. split; [vm_compute; reflexivity|]. split; [reflexivity|].
  split; [by eexists|]. split.
  - eexists (1%nat, _). split; [by left|]. cbn. by rewrite list_elem_of_singleton.
  - split; [|intros cf]; cbn; rewrite !elem_of_cons; intros H;
      repeat destruct H as [[=]|H]; by apply not_elem_of_nil in H.
Qed.

(** [Start] right when the last goroutine has ended, before the [Wait] of [Stop] has
    returned: sync.WaitGroup panics, in a goroutine that nothing recovers. *)
Example restart_panics :
  lf_ended <$> race_run
    [RCall Starting; RStep 0; RStep 0; RStep 0; RCall Stopping; RStep 1; RStep 1; RStep 1;
     RExit 0; RCall Starting; RStep 2; RStep 2; RStep 1] (life_start one_worker)
  = Some (Some WaitGroupReused).
Proof. reflexivity. Qed.

(** [Stop] between the critical section of [Start] and its launches returns at
    once, and the worker comes after it, under a cancelled context. *)
Example worker_after_stop :
  exists s, race_run
    [RCall Starting; RStep 0; RCall Stopping; RStep 1; RStep 1; RStep 1; RStep 0; RStep 0]
    (life_start one_worker) = Some s
  /\ lf_callers s = [Started None; Waiting WaitReturned false]
  /\ length (d_waited (lf_d s)) = 1%nat
  /\ Forall (fun r => r.1 ∈ d_cancelled (lf_d s)) (d_waited (lf_d s)).
Proof.
  eexists. split; [vm_compute; reflexivity|]. split; [reflexivity|]. split; [reflexivity|].
  by repeat constructor.
Qed.

(** The recovery of [AutoRecover] outlives the [Stop]: it has returned, nothing of the
    wait group is left, and the recovery runs on under a context that nobody
    cancelled. *)
Example recovery_outlives_stop :
  exists s, race_run
    [RCall Starting; RStep 0; RStep 0; RStep 0; RStep 0; RCall Stopping; RStep 1; RStep 1;
     RExit 0; RStep 1]
    (life_start (mkLife 1 true 0 (mkShutdown 30000000000 60000000000 (Some ExitProcess)))) = Some s
  /\ lf_callers s = [Started None; Waiting WaitReturned false]
  /\ d_waited (lf_d s) = [] /\ d_detached (lf_d s) = [(0%nat, RecoverOnce)]
  /\ d_given (lf_d s) = [].
Proof. eexists. split; [vm_compute; reflexivity|]. by repeat split. Qed.

(** ** Witness *)

Definition stop_amid_start : list RaceEvent :=
  [RCall Starting; RCall Stopping; RStep 0; RStep 1; RStep 0; RStep 1; RStep 1].

Lemma concurrent_stop_witness :
  exists s s', race_run stop_amid_start (life_start one_worker) = Some s
    /\ length (d_waited (lf_d s)) = 1%nat
    /\ race_run [RExit 0] s = Some s' /\ d_waited (lf_d s') = []
    /\ Forall (fun c => blocked c = false) (lf_callers s').
Proof.
  eexists. eexists. split; [vm_compute; reflexivity|]. split; [reflexivity|].
  pose proof (concurrent_stop one_worker stop_amid_start _ eq_refl eq_refl eq_refl) as H.
  destruct H as (_ & _ & (s' & Hr & Hd & Hc & _) & _).
  - intros cf. vm_compute. intros H. repeat (apply elem_of_cons in H as [[=]|H]).
    by apply not_elem_of_nil in H.
  - vm_compute in Hr. injection Hr as <-. split; [reflexivity|]. split; [exact Hd|exact Hc].
Defined.
