(* ===== verification/SqsRouter.v ===== *)
(** * contrib/sqs/publisher.go: routing of event types to queues

    [EventTypeQueueMap]: exact routes, prefix routes kept sorted by length, and
    a default.  The refinement theorem compares it with a specification that
    tries the prefixes of the event type from the longest to the shortest. *)

From Stdlib Require Import ZArith Lia Ascii.
From stdpp Require Import base option list strings gmap fin_maps sorting.
From S2P Require Import Prelude.

Set Default Goal Selector "!".
Open Scope string_scope.
Open Scope list_scope.

(** FIFO queue names end with [.fifo]. *)
Definition isFifoQueue (queueURL : string) : bool :=
  (5 <=? String.length queueURL)%nat
  && String.eqb (String.substring (String.length queueURL - 5) 5 queueURL) ".fifo".

Record prefixRoute : Type := mkPrefix { prefix : string; pr_queueURL : string }.

Record EventTypeQueueMap : Type := mkQueueMap {
  routes : gmap string string;
  prefixes : list prefixRoute;
  defaultQueue : string
}.

Definition NewEventTypeQueueMap (default : string) : EventTypeQueueMap :=
  mkQueueMap ∅ [] default.

Definition Register (eventType queueURL : string) (m : EventTypeQueueMap) : EventTypeQueueMap :=
  mkQueueMap (<[eventType := queueURL]> (routes m)) (prefixes m) (defaultQueue m).

(** The first loop of [RegisterPrefix]: drop the entry of [p], once. *)
Fixpoint remove_prefix (p : string) (l : list prefixRoute) : list prefixRoute :=
  match l with
  | [] => []
  | r :: l' => if String.eqb (prefix r) p then l' else r :: remove_prefix p l'
  end.

(** The second: insert before the first shorter prefix, at the end if there
    is none. *)
Fixpoint insert_prefix (route : prefixRoute) (l : list prefixRoute) : list prefixRoute :=
  match l with
  | [] => [route]
  | r :: l' =>
      if (String.length (prefix r) <? String.length (prefix route))%nat then route :: l
      else r :: insert_prefix route l'
  end.

Definition RegisterPrefix (p queueURL : string) (m : EventTypeQueueMap) : EventTypeQueueMap :=
  mkQueueMap (routes m) (insert_prefix (mkPrefix p queueURL) (remove_prefix p (prefixes m)))
    (defaultQueue m).

(** [len(eventType) >= len(p) && eventType[:len(p)] == p] *)
Definition has_prefix (eventType p : string) : bool :=
  (String.length p <=? String.length eventType)%nat
  && String.eqb (String.substring 0 (String.length p) eventType) p.

Fixpoint first_match (eventType : string) (l : list prefixRoute) : option string :=
  match l with
  | [] => None
  | r :: l' => if has_prefix eventType (prefix r) then Some (pr_queueURL r)
               else first_match eventType l'
  end.

Definition QueueURL (m : EventTypeQueueMap) (eventType : string) : string :=
  match routes m !! eventType with
  | Some url => url
  | None =>
      match first_match eventType (prefixes m) with
      | Some url => url
      | None => defaultQueue m
      end
  end.

(** [EventTypeQueueRouter]: any way to name a queue for an event type. *)
Class EventTypeQueueRouter (R : Type) : Type := { route_of : R -> string -> string }.
#[export] Instance queue_map_router : EventTypeQueueRouter EventTypeQueueMap :=
  { route_of := QueueURL }.

(** ** Specification *)

Record RouteTable : Type := mkTable {
  rt_exact : gmap string string;
  rt_prefix : gmap string string;
  rt_default : string
}.

(** The registrations of the program, in order. *)
Inductive Registration : Type :=
| RegExact (eventType queueURL : string)
| RegPrefix (prefix queueURL : string).

Definition spec_register (t : RouteTable) (r : Registration) : RouteTable :=
  match r with
  | RegExact e u => mkTable (<[e := u]> (rt_exact t)) (rt_prefix t) (rt_default t)
  | RegPrefix p u => mkTable (rt_exact t) (<[p := u]> (rt_prefix t)) (rt_default t)
  end.

Definition impl_register (m : EventTypeQueueMap) (r : Registration) : EventTypeQueueMap :=
  match r with
  | RegExact e u => Register e u m
  | RegPrefix p u => RegisterPrefix p u m
  end.

(** The longest of the first [n] characters' prefixes that is registered. *)
Fixpoint longest_prefix (pre : gmap string string) (eventType : string) (n : nat)
    : option string :=
  match pre !! String.substring 0 n eventType with
  | Some url => Some url
  | None => match n with O => None | S n' => longest_prefix pre eventType n' end
  end.

Definition spec_QueueURL (t : RouteTable) (eventType : string) : string :=
  match rt_exact t !! eventType with
  | Some url => url
  | None => default (rt_default t)
              (longest_prefix (rt_prefix t) eventType (String.length eventType))
  end.

(** ** The invariant of the prefix list *)

Definition longer (a b : prefixRoute) : Prop :=
  (String.length (prefix b) <= String.length (prefix a))%nat.

Record prefixes_ok (pre : gmap string string) (l : list prefixRoute) : Prop := {
  px_sorted : StronglySorted longer l;
  px_once : NoDup (prefix <$> l);
  px_same : forall p u, mkPrefix p u ∈ l <-> pre !! p = Some u
}.

Lemma remove_prefix_elem p l r :
  NoDup (prefix <$> l) -> r ∈ remove_prefix p l <-> r ∈ l /\ prefix r <> p.
Proof.
  induction l as [|x l IH]; simpl; intros Hd.
  - split; [intros H; by apply not_elem_of_nil in H|intros [H _]; by apply not_elem_of_nil in H].
  - apply NoDup_cons in Hd as [Hn Hd]. destruct (String.eqb_spec (prefix x) p) as [E|E].
    + split.
      * intros Hr. split; [by right|]. intros Ep. apply Hn. rewrite E, <- Ep.
        by apply list_elem_of_fmap_2.
      * intros [[->|Hr]%elem_of_cons Hne]; done.
    + rewrite !elem_of_cons, IH by done. split; [intros [->|[? ?]]; auto|].
      intros [[->|?] ?]; auto.
Qed.

Lemma remove_prefix_sublist p l : sublist (remove_prefix p l) l.
Proof.
  induction l as [|x l IH]; simpl; [constructor|].
  destruct (String.eqb (prefix x) p); by constructor.
Qed.

Lemma insert_prefix_Permutation r l : insert_prefix r l ≡ₚ r :: l.
Proof.
  induction l as [|x l IH]; simpl; [done|]. destruct (_ <? _)%nat; [done|].
  rewrite IH. apply Permutation_swap.
Qed.

Lemma StronglySorted_sublist l l' :
  sublist l l' -> StronglySorted longer l' -> StronglySorted longer l.
Proof.
  induction 1 as [|x l l' Hs IH|x l l' Hs IH]; intros Hl; [done| |];
    apply StronglySorted_inv in Hl as [Hl Hx].
  - constructor; [by apply IH|]. rewrite Forall_forall in *. intros y Hy. apply Hx.
    by eapply elem_of_submseteq; [|apply sublist_submseteq, Hs].
  - by apply IH.
Qed.

Lemma insert_prefix_sorted r l :
  StronglySorted longer l -> StronglySorted longer (insert_prefix r l).
Proof.
  induction 1 as [|x l Hl IH Hx]; simpl; [by repeat constructor|].
  destruct (Nat.ltb_spec (String.length (prefix x)) (String.length (prefix r))) as [Hlt|Hle].
  - constructor; [by constructor|]. constructor; [unfold longer; lia|].
    rewrite Forall_forall in *. intros y Hy. specialize (Hx y Hy). unfold longer in *. lia.
  - constructor; [done|]. rewrite Forall_forall in *. intros y Hy.
    rewrite insert_prefix_Permutation in Hy. apply elem_of_cons in Hy as [->|Hy]; [done|].
    by apply Hx.
Qed.

Lemma register_prefix_ok pre l p u :
  prefixes_ok pre l ->
  prefixes_ok (<[p := u]> pre) (insert_prefix (mkPrefix p u) (remove_prefix p l)).
Proof.
  intros [Hs Hd Hm]. split.
  - apply insert_prefix_sorted. by apply (StronglySorted_sublist _ l), Hs; apply remove_prefix_sublist.
  - rewrite insert_prefix_Permutation, fmap_cons. apply NoDup_cons. split.
    + intros Hin. apply list_elem_of_fmap in Hin as (r & E & Hr).
      apply remove_prefix_elem in Hr as [_ Hne]; [by destruct Hne|done].
    + eapply sublist_NoDup; [exact Hd|].
      clear. induction (remove_prefix_sublist p l); [constructor|..];
        rewrite !fmap_cons; by constructor.
  - intros q v. rewrite insert_prefix_Permutation, elem_of_cons, (remove_prefix_elem p l) by done.
    rewrite lookup_insert, Hm. cbn [prefix]. case_decide as E.
    + subst q. split; [intros [[= ->]|[_ ?]]; done|]. intros [= ->]. by left.
    + split; [intros [[= -> _]|[? _]]; done|]. intros H. right. done.
Qed.

(** ** The first match is the longest *)

Lemma substring_length : forall n s, (n <= String.length s)%nat ->
  String.length (String.substring 0 n s) = n.
Proof.
  induction n as [|n IH]; intros [|c s] Hn; simpl in *; [done|done|lia|]. f_equal.
  apply IH. lia.
Qed.

(** The prefix of length [n] is the only one of its length. *)
Lemma has_prefix_iff s p :
  has_prefix s p = true <->
  (String.length p <= String.length s)%nat /\ p = String.substring 0 (String.length p) s.
Proof.
  unfold has_prefix. rewrite andb_true_iff, Nat.leb_le, String.eqb_eq. split; intros [H E]; auto.
Qed.

(** The url of the longest match with at most [n] characters. *)
Lemma first_match_longest pre l s : prefixes_ok pre l ->
  forall n, (n <= String.length s)%nat ->
  (forall p, p ∈ prefix <$> l -> has_prefix s p = true -> (String.length p <= n)%nat) ->
  first_match s l = longest_prefix pre s n.
Proof.
  intros [Hs Hd Hm]. induction n as [n IH] using lt_wf_ind. intros Hn Hmax.
  assert (Hfirst : forall u, pre !! String.substring 0 n s = Some u -> first_match s l = Some u).
  { intros u Hu. apply Hm in Hu. clear IH Hm.
    induction l as [|r l IHl]; [by apply not_elem_of_nil in Hu|].
    apply StronglySorted_inv in Hs as [Hs Hr]. rewrite fmap_cons in Hd.
    apply NoDup_cons in Hd as [Hnd Hd]. cbn [first_match].
    assert (Hlen : String.length (String.substring 0 n s) = n) by (by apply substring_length).
    assert (Hpre : has_prefix s (String.substring 0 n s) = true)
      by (apply has_prefix_iff; rewrite Hlen; done).
    apply elem_of_cons in Hu as [<-|Hu].
    - cbn [prefix pr_queueURL]. by rewrite Hpre.
    - destruct (has_prefix s (prefix r)) eqn:Er.
      + exfalso. rewrite Forall_forall in Hr. specialize (Hr _ Hu). unfold longer in Hr.
        cbn [prefix] in Hr. rewrite Hlen in Hr.
        assert (Hle : (String.length (prefix r) <= n)%nat)
          by (apply Hmax; [by apply list_elem_of_here|done]).
        apply has_prefix_iff in Er as [_ Er].
        assert (E : String.length (prefix r) = n) by lia. rewrite E in Er.
        apply Hnd. rewrite Er. by apply (list_elem_of_fmap_2 prefix l _ Hu).
      + apply IHl; [done|done| |done]. intros p Hp. apply Hmax. by apply list_elem_of_further. }
  destruct n as [|n]; cbn [longest_prefix].
  - destruct (pre !! String.substring 0 0 s) as [u|] eqn:E; [by apply Hfirst|].
    clear Hfirst IH Hs Hd.
    assert (Hnone : forall r, r ∈ l -> has_prefix s (prefix r) = false).
    { intros r Hr. apply not_true_iff_false. intros Hp.
      assert (Hle : (String.length (prefix r) <= 0)%nat)
        by (apply Hmax; [by apply list_elem_of_fmap_2|done]).
      apply has_prefix_iff in Hp as [_ Hp].
      assert (E0 : String.length (prefix r) = 0%nat) by lia. rewrite E0 in Hp.
      destruct r as [p u]. simpl in Hp. rewrite <- Hp in E. apply Hm in Hr. congruence. }
    clear Hm Hmax E. induction l as [|r l IHl]; [done|]. cbn [first_match].
    rewrite Hnone by (by apply list_elem_of_here). apply IHl. intros x Hx. apply Hnone.
    by apply list_elem_of_further.
  - destruct (pre !! String.substring 0 (S n) s) as [u|] eqn:E; [by apply Hfirst|].
    apply IH; [lia|lia|]. intros p Hp Hhas. specialize (Hmax p Hp Hhas).
    destruct (decide (String.length p = S n)) as [El|El]; [|lia]. exfalso.
    apply has_prefix_iff in Hhas as [_ Hhas]. rewrite El in Hhas. rewrite <- Hhas in E.
    apply list_elem_of_fmap in Hp as ([q v] & -> & Hq). apply Hm in Hq. simpl in E. congruence.
Qed.

Definition represents (t : RouteTable) (m : EventTypeQueueMap) : Prop :=
  routes m = rt_exact t /\ prefixes_ok (rt_prefix t) (prefixes m)
  /\ defaultQueue m = rt_default t.

Lemma represents_register t m r :
  represents t m -> represents (spec_register t r) (impl_register m r).
Proof.
  intros (He & Hp & Hd). destruct r as [e u|p u]; unfold represents; cbn.
  - by rewrite He.
  - split; [done|]. split; [|done]. by apply register_prefix_ok.
Qed.

Lemma represents_QueueURL t m eventType :
  represents t m -> QueueURL m eventType = spec_QueueURL t eventType.
Proof.
  intros (He & Hp & Hd). unfold QueueURL, spec_QueueURL. rewrite He, Hd.
  rewrite (first_match_longest (rt_prefix t) _ eventType Hp (String.length eventType)).
  - destruct (rt_exact t !! eventType); [done|]. by destruct (longest_prefix _ _ _).
  - done.
  - intros p _ Hhas. by apply has_prefix_iff in Hhas as [? _].
Qed.

(** C33: whatever was registered, in whatever order and however often, an event
    type goes to the queue last registered for exactly it; without one, to the
    queue last registered for its longest registered prefix; and else to the
    default queue. *)
Theorem QueueURL_refines (default : string) (rs : list Registration) (eventType : string) :
  QueueURL (foldl impl_register (NewEventTypeQueueMap default) rs) eventType
  = spec_QueueURL (foldl spec_register (mkTable ∅ ∅ default) rs) eventType.
Proof.
  apply represents_QueueURL.
  assert (H : forall t m, represents t m ->
    represents (foldl spec_register t rs) (foldl impl_register m rs)).
  { induction rs as [|r rs IH]; intros t m Htm; [done|]. by apply IH, represents_register. }
  apply H. split; [done|]. split; [|done]. split; [constructor|constructor|].
  intros p u. split; [intros Hin; by apply not_elem_of_nil in Hin|done].
Qed.
