(* ===== verification/SqsPublisher.v ===== *)
(** * contrib/sqs/publisher.go: publishing to SQS

    The message attributes, the single and the batch publishers, and the
    multi-queue batch publisher, whose goroutines share the slice of results
    under a mutex and are modelled as threads driven by a schedule.  The SQS
    client is an interface. *)

From Stdlib Require Import ZArith Lia Ascii Permutation.
From stdpp Require Import base option list strings gmap fin_maps pretty.
From S2P Require Import Prelude Errors Model Ports SqsRouter.

Set Default Goal Selector "!".
Open Scope string_scope.
Open Scope list_scope.
Open Scope Z_scope.

Definition MaxSQSMessageSize : Z := 256 * 1024.

(** ** Requests *)

Record MessageAttributeValue : Type := mkAttr {
  DataType : option string;
  StringValue : option string
}.

Definition string_attr (s : string) : MessageAttributeValue := mkAttr (Some "String") (Some s).

Definition buildMessageAttributes (msg : Outbox) : gmap string MessageAttributeValue :=
  let attrs : gmap string MessageAttributeValue :=
    <["event_type" := string_attr (EventType msg)]>
      (<["outbox_id" := string_attr (ID msg)]>
        (<["idempotency_key" := string_attr (IdempotencyKey msg)]> ∅)) in
  if (0 <? raw_len (Metadata msg))%nat
  then <["metadata" := string_attr (raw_string (Metadata msg))]> attrs
  else attrs.

(** [SendMessageInput] and [SendMessageBatchRequestEntry]. *)
Record SendMessageInput : Type := mkInput {
  in_QueueUrl : string;
  in_MessageBody : string;
  in_MessageAttributes : gmap string MessageAttributeValue;
  in_MessageGroupId : option string;
  in_MessageDeduplicationId : option string
}.

Record BatchEntry : Type := mkEntry {
  en_Id : string;
  en_MessageBody : string;
  en_MessageAttributes : gmap string MessageAttributeValue;
  en_MessageGroupId : option string;
  en_MessageDeduplicationId : option string
}.

Definition fifo_only (queueURL s : string) : option string :=
  if isFifoQueue queueURL then Some s else None.

Definition buildSendMessageInput (queueURL : string) (msg : Outbox) : SendMessageInput :=
  mkInput queueURL (raw_string (Payload msg)) (buildMessageAttributes msg)
    (fifo_only queueURL (EventType msg)) (fifo_only queueURL (IdempotencyKey msg)).

Definition buildBatchEntry (queueURL : string) (msg : Outbox) : BatchEntry :=
  mkEntry (ID msg) (raw_string (Payload msg)) (buildMessageAttributes msg)
    (fifo_only queueURL (EventType msg)) (fifo_only queueURL (IdempotencyKey msg)).

(** ** The client *)

(** [SendMessageBatchOutput]: pointers may be nil. *)
Record BatchOutput : Type := mkOutput {
  Successful : list (option string * option string);          (* Id, MessageId *)
  Failed : list (option string * option string * option string)  (* Id, Code, Message *)
}.

Class SQSClient (W : Type) : Type := {
  SendMessage : Context -> SendMessageInput -> GoM W (option error);
  SendMessageBatch : Context -> string -> list BatchEntry -> GoM W (result error BatchOutput)
}.

(** The client does not panic. *)
Class SQSClientLaws (W : Type) `{SQSClient W} : Prop := {
  send_batch_returns : forall ctx url entries w,
    exists w' answer, SendMessageBatch ctx url entries w = (w', Ret answer)
}.

(** [aws.ToString] *)
Definition ToString (p : option string) : string := default "" p.

(** ** Publish *)

Definition too_large (msg : Outbox) : bool :=
  MaxSQSMessageSize <? Z.of_nat (raw_len (Payload msg)).

Definition payload_error (msg : Outbox) : error :=
  NewPermanentError (Some (errorf_sentinel ErrPayloadTooLarge
    ("payload size " +:+ pretty (raw_len (Payload msg)) +:+ " bytes exceeds SQS limit of "
     +:+ pretty MaxSQSMessageSize +:+ " bytes"))).

Section Publish.
Context {W : Type} `{!SQSClient W}.

(** [Publisher] and [BatchPublisher] hold the url of one queue. *)
Definition sqs_Publish (queueURL : string) (ctx : Context) (msg : Outbox)
    : GoM W (option error) :=
  if too_large msg then mret (Some (payload_error msg))
  else
    err ← SendMessage ctx (buildSendMessageInput queueURL msg);
    mret match err with
         | Some e => Some (errorf_wrap "sqs publish failed" e)
         | None => None
         end.

(** [MultiQueuePublisher] and [MultiBatchPublisher] ask their router. *)
Definition multi_Publish {R} `{!EventTypeQueueRouter R} (router : R) (ctx : Context)
    (msg : Outbox) : GoM W (option error) :=
  if too_large msg then mret (Some (payload_error msg))
  else
    let queueURL := route_of router (EventType msg) in
    err ← SendMessage ctx (buildSendMessageInput queueURL msg);
    mret match err with
         | Some e => Some (errorf_wrap ("sqs publish to " +:+ queueURL +:+ " failed") e)
         | None => None
         end.
End Publish.

(** ** PublishBatch *)

(** A message with its index in the results. *)
Definition indexedMessage : Type := nat * Outbox.

(** A loop over messages that updates the result of each in place. *)
Definition for_group (f : Outbox -> PublishResult -> PublishResult)
    (group : list indexedMessage) (results : list PublishResult) : list PublishResult :=
  foldl (fun rs im => alter (f im.2) im.1 rs) results group.

Definition initial_result (msg : Outbox) : PublishResult := mkResult (ID msg) "" false None.

Definition with_error (e : error) (r : PublishResult) : PublishResult :=
  mkResult (OutboxID r) (MessageID r) false (Some e).

Definition validate (msg : Outbox) (r : PublishResult) : PublishResult :=
  if too_large msg then with_error (payload_error msg) r else r.

Definition valid_entries (queueURL : string) (group : list indexedMessage) : list BatchEntry :=
  buildBatchEntry queueURL <$> List.filter (fun msg => negb (too_large msg)) (snd <$> group).

Definition has_error (r : PublishResult) : bool :=
  match Error r with Some _ => true | None => false end.

Definition fail_rest (e : error) (msg : Outbox) (r : PublishResult) : PublishResult :=
  if has_error r then r else with_error e r.

(** Later entries overwrite earlier ones. *)
Definition successMap (out : BatchOutput) : gmap string string :=
  foldl (fun m s => <[ToString s.1 := ToString s.2]> m) ∅ (Successful out).
Definition failureMap (out : BatchOutput) : gmap string error :=
  foldl (fun m f =>
    <[ToString f.1.1 :=
        EWrapf ("sqs batch entry failed: code=" +:+ ToString f.1.2
                +:+ ", message=" +:+ ToString f.2) []]> m) ∅ (Failed out).

Definition map_result (out : BatchOutput) (msg : Outbox) (r : PublishResult) : PublishResult :=
  if has_error r then r
  else match successMap out !! ID msg with
       | Some messageID => mkResult (OutboxID r) messageID true (Error r)
       | None =>
           match failureMap out !! ID msg with
           | Some err => with_error err r
           | None => with_error (EWrapf ("sqs batch: no result for message " +:+ ID msg) []) r
           end
       end.

(** What the answer to a request makes of the results of its messages. *)
Definition record_answer (failed : error -> error) (answer : result error BatchOutput)
    : Outbox -> PublishResult -> PublishResult :=
  match answer with
  | Err e => fail_rest (failed e)
  | Ok out => map_result out
  end.

Definition sqsMaxBatchSize : Z := 10.

Section Batch.
Context {W : Type} `{!SQSClient W}.

Definition single_PublishBatch (queueURL : string) (ctx : Context) (msgs : list Outbox)
    : GoM W (list PublishResult) :=
  match msgs with
  | [] => mret []
  | _ =>
      let group := imap pair msgs in
      let results := for_group validate group (initial_result <$> msgs) in
      match valid_entries queueURL group with
      | [] => mret results
      | entries =>
          output ← SendMessageBatch ctx queueURL entries;
          mret (for_group (record_answer (errorf_wrap "sqs batch publish failed") output)
                  group results)
      end
  end.
End Batch.

(** *** Several queues *)

(** How far the goroutine of a queue is: not launched; before [mu.Lock]; in its first
    critical section; before the [mu.Unlock] of it; before the call; before the
    second [mu.Lock]; in the second section; before the deferred [mu.Unlock]; before
    the deferred [wg.Done]; at its end. *)
Inductive Phase : Type :=
| Unstarted
| Idle
| Checking
| Checked
| Validated
| Answered (output : result error BatchOutput)
| Recording (output : result error BatchOutput)
| Recorded (output : result error BatchOutput)
| Returning (output : option (result error BatchOutput))
| Finished (output : option (result error BatchOutput)).

(** The goroutine of [PublishBatch]: [n] goroutines launched, and after the last
    one in [wg.Wait]; past it. *)
Inductive Launcher : Type :=
| Spawning (n : nat)
| Returned.

(** Whose turn it is. *)
Inductive Turn : Type :=
| MainTurn
| ThreadTurn (k : nat).

Section Threads.
Context {W : Type} `{!SQSClient W} (ctx : Context).
(** The queue and the messages of each goroutine. *)
Variable threads : list (string * list indexedMessage).

(** [mu] and the counter of [wg] are shared too. *)
Record Shared : Type := mkShared {
  sh_results : list PublishResult;
  sh_phases : list Phase;
  sh_locked : bool;
  sh_wg : Z;
  sh_main : Launcher
}.

Definition set_phase (k : nat) (p : Phase) (s : Shared) : Shared :=
  mkShared (sh_results s) (<[k := p]> (sh_phases s)) (sh_locked s) (sh_wg s) (sh_main s).
Definition set_results (results : list PublishResult) (s : Shared) : Shared :=
  mkShared results (sh_phases s) (sh_locked s) (sh_wg s) (sh_main s).
Definition set_locked (b : bool) (s : Shared) : Shared :=
  mkShared (sh_results s) (sh_phases s) b (sh_wg s) (sh_main s).
Definition add_wg (d : Z) (s : Shared) : Shared :=
  mkShared (sh_results s) (sh_phases s) (sh_locked s) (sh_wg s + d) (sh_main s).
Definition set_main (m : Launcher) (s : Shared) : Shared :=
  mkShared (sh_results s) (sh_phases s) (sh_locked s) (sh_wg s) m.

(** [mu.Lock] waits while the mutex is locked. *)
Definition mu_Lock (k : nat) (next : Phase) (s : Shared) : GoM W Shared :=
  mret (if sh_locked s then s else set_phase k next (set_locked true s)).
Definition mu_Unlock (k : nat) (next : Phase) (s : Shared) : GoM W Shared :=
  if sh_locked s then mret (set_phase k next (set_locked false s))
  else go_panic "sync: unlock of unlocked mutex".
Definition wg_Done (k : nat) (next : Phase) (s : Shared) : GoM W Shared :=
  if 0 <? sh_wg s then mret (set_phase k next (add_wg (-1) s))
  else go_panic "sync: negative WaitGroup counter".

Definition multi_failed (queueURL : string) : error -> error :=
  errorf_wrap ("sqs batch publish to " +:+ queueURL +:+ " failed").

(** One step of [publishBatchToQueueWithLock] in goroutine [k]; what is done with the
    mutex held is one step. *)
Definition thread_step (k : nat) (s : Shared) : GoM W Shared :=
  match threads !! k, sh_phases s !! k with
  | Some (queueURL, group), Some phase =>
      match phase with
      | Unstarted => mret s
      | Idle => mu_Lock k Checking s
      | Checking =>
          mret (set_phase k Checked (set_results (for_group validate group (sh_results s)) s))
      | Checked =>
          mu_Unlock k (match valid_entries queueURL group with
                       | [] => Returning None
                       | _ => Validated
                       end) s
      | Validated =>
          output ← SendMessageBatch ctx queueURL (valid_entries queueURL group);
          mret (set_phase k (Answered output) s)
      | Answered output => mu_Lock k (Recording output) s
      | Recording output =>
          mret (set_phase k (Recorded output)
                  (set_results
                     (for_group (record_answer (multi_failed queueURL) output) group (sh_results s)) s))
      | Recorded output => mu_Unlock k (Returning (Some output)) s
      | Returning output => wg_Done k (Finished output) s
      | Finished _ => mret s
      end
  | _, _ => mret s
  end.

(** One step of [PublishBatch]: [wg.Add(1)] and the launch of the next goroutine, or
    [wg.Wait], which waits while the counter is not zero. *)
Definition main_step (s : Shared) : GoM W Shared :=
  mret match sh_main s with
       | Spawning n =>
           if (n <? length threads)%nat
           then set_main (Spawning (S n)) (set_phase n Idle (add_wg 1 s))
           else if sh_wg s =? 0 then set_main Returned s else s
       | Returned => s
       end.

Definition turn_step (t : Turn) (s : Shared) : GoM W Shared :=
  match t with MainTurn => main_step s | ThreadTurn k => thread_step k s end.

(** The goroutines along a schedule. *)
Fixpoint run_threads (schedule : list Turn) (s : Shared) : GoM W Shared :=
  match schedule with
  | [] => mret s
  | t :: schedule' => s' ← turn_step t s; run_threads schedule' s'
  end.

Definition finished (s : Shared) : Prop :=
  Forall (fun p => exists o, p = Finished o) (sh_phases s).

Lemma run_threads_app schedule schedule' s w :
  run_threads (schedule ++ schedule') s w = (run_threads schedule s ≫= run_threads schedule') w.
Proof.
  revert s w. induction schedule as [|t schedule IH]; intros s w; [done|]. cbn [app run_threads].
  unfold mbind, GoM_bind in *. destruct (turn_step t s w) as [w1 [s1|why]]; [apply IH|done].
Qed.
End Threads.

Section MultiBatch.
Context {R : Type} `{!EventTypeQueueRouter R} (router : R).

Definition queue_of (im : indexedMessage) : string := route_of router (EventType im.2).

(** [queueGroups[queueURL] = append(queueGroups[queueURL], ...)] *)
Definition queueGroups (l : list indexedMessage) : gmap string (list indexedMessage) :=
  foldl (fun m im => <[queue_of im := default [] (m !! queue_of im) ++ [im]]> m) ∅ l.

Context {W : Type} `{!SQSClient W}.

Definition before_launch (results : list PublishResult) (n : nat) : Shared :=
  mkShared results (replicate n Unstarted) false 0 (Spawning 0).

(** [threads] is the order Go iterates the map in, [schedule] the
    interleaving; the call returns when [wg.Wait] has, in a state with
    [sh_main s = Returned]. *)
Definition multi_PublishBatch (threads : list (string * list indexedMessage))
    (schedule : list Turn) (ctx : Context) (msgs : list Outbox) : GoM W Shared :=
  run_threads ctx threads schedule
    (before_launch (initial_result <$> msgs) (length threads)).
End MultiBatch.

(** ** The in-place loops *)

Lemma for_group_cons f im g rs :
  for_group f (im :: g) rs = for_group f g (alter (f im.2) im.1 rs).
Proof. reflexivity. Qed.

Lemma for_group_other f g : forall rs i, i ∉ g.*1 -> for_group f g rs !! i = rs !! i.
Proof.
  induction g as [|[j m] g IH]; intros rs i Hi; [done|].
  rewrite fmap_cons, not_elem_of_cons in Hi. destruct Hi as [Hne Hi].
  rewrite for_group_cons, IH by done. cbn [fst snd] in *. by rewrite list_lookup_alter_ne.
Qed.

Lemma for_group_in f g : forall rs i m,
  NoDup g.*1 -> (i, m) ∈ g -> for_group f g rs !! i = f m <$> rs !! i.
Proof.
  induction g as [|[j m'] g IH]; intros rs i m Hd Hin; [by apply not_elem_of_nil in Hin|].
  rewrite fmap_cons in Hd. apply NoDup_cons in Hd as [Hn Hd]. rewrite for_group_cons.
  cbn [fst snd] in *.
  apply elem_of_cons in Hin as [[= <- <-]|Hin].
  - rewrite for_group_other by done. by rewrite list_lookup_alter_eq.
  - rewrite (IH _ _ m) by done. rewrite list_lookup_alter_ne; [done|].
    intros ->. apply Hn. by apply (list_elem_of_fmap_2 fst g (i, m)).
Qed.

Lemma for_group_length f g : forall rs, length (for_group f g rs) = length rs.
Proof.
  induction g as [|im g IH]; intros rs; [done|].
  by rewrite for_group_cons, IH, length_alter.
Qed.

(** The indexed messages of a batch. *)
Lemma indexed_lookup (msgs : list Outbox) i m : (i, m) ∈ imap pair msgs <-> msgs !! i = Some m.
Proof.
  rewrite list_elem_of_lookup. split.
  - intros [k Hk]. rewrite list_lookup_imap in Hk.
    destruct (msgs !! k) eqn:E; simpl in Hk; congruence.
  - intros Hi. exists i. by rewrite list_lookup_imap, Hi.
Qed.

Lemma indexed_fst (msgs : list Outbox) : (imap pair msgs).*1 = seq 0 (length msgs).
Proof.
  apply list_eq. intros i. rewrite list_lookup_fmap, list_lookup_imap.
  destruct (msgs !! i) eqn:E; simpl.
  - apply lookup_lt_Some in E. by rewrite lookup_seq_lt.
  - apply lookup_ge_None in E. by rewrite lookup_seq_ge.
Qed.

Lemma indexed_NoDup (msgs : list Outbox) : NoDup (imap pair msgs).*1.
Proof. rewrite indexed_fst. apply NoDup_seq. Qed.

Lemma NoDup_filter_fst (f : indexedMessage -> bool) l :
  NoDup l.*1 -> NoDup (List.filter f l).*1.
Proof.
  induction l as [|im l IH]; [done|]. rewrite fmap_cons. intros [Hn Hd]%NoDup_cons.
  cbn [List.filter]. destruct (f im); [|by apply IH]. rewrite fmap_cons. apply NoDup_cons.
  split; [|by apply IH]. intros Hin. apply Hn. apply list_elem_of_fmap in Hin as (x & E & Hx).
  apply list_elem_of_fmap. exists x. split; [done|].
  apply list_elem_of_In, List.filter_In in Hx as [Hx _]. by apply list_elem_of_In.
Qed.

(** ** What a message's result comes to *)

(** The result of a message whose request was answered so. *)
Definition final_result (failed : error -> error) (answer : option (result error BatchOutput))
    (msg : Outbox) : PublishResult :=
  let r := validate msg (initial_result msg) in
  match answer with
  | None => r
  | Some a => record_answer failed a msg r
  end.

Lemma has_error_validate msg : has_error (validate msg (initial_result msg)) = too_large msg.
Proof. unfold validate. by destruct (too_large msg). Qed.

Lemma final_result_ok failed answer msg :
  (answer = None -> too_large msg = true) -> result_ok msg (final_result failed answer msg).
Proof.
  intros Hnone. unfold final_result, result_ok. destruct answer as [[out|e]|]; simpl.
  - unfold map_result. rewrite has_error_validate. unfold validate.
    destruct (too_large msg); [done|].
    destruct (successMap out !! ID msg); [done|]. by destruct (failureMap out !! ID msg).
  - unfold fail_rest. rewrite has_error_validate. unfold validate. by destruct (too_large msg).
  - unfold validate. by rewrite Hnone.
Qed.

Lemma valid_entries_nil url group :
  valid_entries url group = [] -> forall i m, (i, m) ∈ group -> too_large m = true.
Proof.
  unfold valid_entries. intros E i m Him. apply fmap_nil_inv in E.
  destruct (too_large m) eqn:Et; [done|]. exfalso.
  assert (Hin : m ∈ List.filter (fun msg => negb (too_large msg)) (snd <$> group)).
  { apply list_elem_of_In, List.filter_In. rewrite Et. split; [|done].
    apply list_elem_of_In. by apply (list_elem_of_fmap_2 snd group (i, m)). }
  rewrite E in Hin. by apply not_elem_of_nil in Hin.
Qed.

(** ** One queue *)

Section Single.
Context {W : Type} `{!SQSClient W} `{!SQSClientLaws W}.
Context (queueURL : string).

Lemma single_run ctx msgs w :
  exists w' answer results,
    single_PublishBatch queueURL ctx msgs w = (w', Ret results)
    /\ length results = length msgs
    /\ (answer = None -> Forall (fun m => too_large m = true) msgs)
    /\ forall i m, msgs !! i = Some m ->
       results !! i = Some (final_result (errorf_wrap "sqs batch publish failed") answer m).
Proof.
  unfold single_PublishBatch. destruct msgs as [|m0 ms]; [by exists w, None, []|].
  set (msgs := m0 :: ms). set (group := imap pair msgs).
  assert (Hval : forall i m, msgs !! i = Some m ->
    for_group validate group (initial_result <$> msgs) !! i
    = Some (validate m (initial_result m))).
  { intros i m Hi. rewrite (for_group_in _ _ _ i m).
    - by rewrite list_lookup_fmap, Hi.
    - apply indexed_NoDup.
    - by apply indexed_lookup. }
  destruct (valid_entries queueURL group) as [|e es] eqn:E.
  - exists w, None, (for_group validate group (initial_result <$> msgs)).
    split; [done|]. split; [by rewrite for_group_length, length_fmap|].
    split; [|done]. intros _. apply Forall_lookup. intros i m Hi.
    apply (valid_entries_nil _ _ E i). by apply indexed_lookup.
  - destruct (send_batch_returns ctx queueURL (e :: es) w) as (w' & answer & Es).
    unfold mbind, GoM_bind. rewrite Es. eexists w', (Some answer), _.
    split; [done|]. split; [by rewrite !for_group_length, length_fmap|]. split; [done|].
    intros i m Hi. rewrite (for_group_in _ _ _ i m).
    + by rewrite (Hval i m Hi).
    + apply indexed_NoDup.
    + by apply indexed_lookup.
Qed.

#[export] Instance sqs_publisher : Publisher W := { Publish := sqs_Publish queueURL }.
#[export] Instance sqs_batch_publisher : BatchPublisher W := {
  batch_publisher_base := sqs_publisher;
  PublishBatch := single_PublishBatch queueURL;
  MaxBatchSize := sqsMaxBatchSize
}.

#[export] Instance sqs_batch_publisher_laws : BatchPublisherLaws W.
Proof.
  split. intros ctx msgs w.
  destruct (single_run ctx msgs w) as (w' & answer & results & E & Hlen & Hnone & Hres).
  exists w', results. split; [done|]. apply Forall2_same_length_lookup. split; [done|].
  intros i m r Hi Hr. rewrite (Hres i m Hi) in Hr. injection Hr as <-.
  apply final_result_ok. intros Ha. specialize (Hnone Ha). rewrite Forall_lookup in Hnone.
  by apply (Hnone i).
Qed.
End Single.

(** ** The mutex and the counter of a multi-queue batch *)

Definition critical (p : Phase) : nat :=
  match p with Checking | Checked | Recording _ | Recorded _ => 1 | _ => 0 end.
Definition running (p : Phase) : nat :=
  match p with Unstarted | Finished _ => 0 | _ => 1 end.

Definition count (f : Phase -> nat) (s : Shared) : nat := sum_list (f <$> sh_phases s).

Lemma sum_insert (l : list nat) k x y :
  l !! k = Some x -> (sum_list (<[k := y]> l) + x = sum_list l + y)%nat.
Proof.
  revert k. induction l as [|a l IH]; intros [|k] H; simplify_eq/=; [lia|].
  specialize (IH k H). lia.
Qed.

Lemma count_insert f s s' k p p' :
  sh_phases s !! k = Some p -> sh_phases s' = <[k := p']> (sh_phases s) ->
  (count f s' + f p = count f s + f p')%nat.
Proof.
  intros Hp E. unfold count. rewrite E, list_fmap_insert. apply sum_insert.
  by rewrite list_lookup_fmap, Hp.
Qed.

#[export] Instance unstarted_dec p : Decision (p = Unstarted).
Proof. destruct p; (left; reflexivity) || (right; discriminate). Defined.

(** The goroutines before the next one to launch are launched. *)
Definition launched_before (m : Launcher) (k : nat) : Prop :=
  match m with Spawning n => (k < n)%nat | Returned => True end.

Section Sync.
Context {W : Type} `{!SQSClient W} (ctx : Context) (threads : list (string * list indexedMessage)).

(** The mutex is locked exactly while one goroutine is in a critical section, and
    the counter of [wg] counts the goroutines that run. *)
Record sync_ok (s : Shared) : Prop := {
  sy_lock : count critical s = Nat.b2n (sh_locked s);
  sy_wg : sh_wg s = Z.of_nat (count running s);
  sy_phases : length (sh_phases s) = length threads;
  sy_launched : forall k p, sh_phases s !! k = Some p ->
    p <> Unstarted <-> launched_before (sh_main s) k;
  sy_main : match sh_main s with
            | Spawning n => (n <= length threads)%nat
            | Returned => sh_wg s = 0
            end
}.

Lemma initial_sync_ok results : sync_ok (before_launch results (length threads)).
Proof.
  assert (H : forall f n, f Unstarted = 0%nat -> sum_list (f <$> replicate n Unstarted) = 0%nat).
  { intros f n Hf. induction n as [|n IH]; [done|]. cbn. by rewrite Hf. }
  split; unfold count; simpl; rewrite ?H; try done.
  - apply length_replicate.
  - intros k p Hp. apply lookup_replicate in Hp as [-> _]. split; [done|lia].
  - lia.
Qed.

(** The next one to launch is not. *)
Lemma next_unstarted s n :
  sync_ok s -> sh_main s = Spawning n -> (n < length threads)%nat ->
  sh_phases s !! n = Some Unstarted.
Proof.
  intros [_ _ H3 H4 _] E Hlt. rewrite E in H4.
  destruct (lookup_lt_is_Some_2 (sh_phases s) n ltac:(lia)) as [p Hp]. rewrite Hp. f_equal.
  destruct (decide (p = Unstarted)) as [|Hne]; [done|]. apply (H4 n p Hp) in Hne. cbn in Hne. lia.
Qed.

(** A goroutine that runs moves on. *)
Lemma sync_ok_move s s' k p p' :
  sync_ok s -> sh_phases s !! k = Some p -> running p = 1%nat -> p' <> Unstarted ->
  sh_phases s' = <[k := p']> (sh_phases s) -> sh_main s' = sh_main s ->
  (Nat.b2n (sh_locked s') + critical p = Nat.b2n (sh_locked s) + critical p')%nat ->
  sh_wg s' + 1 = sh_wg s + Z.of_nat (running p') -> sync_ok s'.
Proof.
  intros [H1 H2 H3 H4 H5] Hp Hr Hu Eph Em Hlock Hwg.
  pose proof (count_insert critical s s' k p p' Hp Eph) as Hc.
  pose proof (count_insert running s s' k p p' Hp Eph) as Hn. split.
  - lia.
  - lia.
  - by rewrite Eph, length_insert.
  - intros j q Hq. rewrite Em. rewrite Eph in Hq. destruct (decide (j = k)) as [->|Hne].
    + rewrite list_lookup_insert_eq in Hq by (by eapply lookup_lt_Some). injection Hq as <-.
      split; [|done]. intros _. apply (H4 k p Hp). by intros ->.
    + rewrite list_lookup_insert_ne in Hq by done. by apply H4.
  - rewrite Em. destruct (sh_main s) eqn:E; [done|].
    assert (running p' <= 1)%nat by (destruct p'; cbn; lia). lia.
Qed.

Lemma thread_step_sync k s w w' s' :
  sync_ok s -> thread_step ctx threads k s w = (w', Ret s') -> sync_ok s'.
Proof.
  intros Hs. unfold thread_step, mu_Lock, mu_Unlock, wg_Done.
  destruct (threads !! k) as [[url g]|] eqn:Hk; [|by intros [= <- <-]].
  destruct (sh_phases s !! k) as [p|] eqn:Hp; [|by intros [= <- <-]].
  pose proof (fun s1 p' => sync_ok_move s s1 k p p' Hs Hp) as Hmove.
  destruct p as [| | | | |output|output|output|o|o]; try (by intros [= <- <-]).
  - destruct (sh_locked s) eqn:El; intros [= <- <-]; [done|].
    apply (Hmove _ Checking); cbn; rewrite ?El; done || lia.
  - intros [= <- <-]. by apply (Hmove _ Checked).
  - destruct (sh_locked s) eqn:El; [|done]. intros [= <- <-].
    destruct (valid_entries url g); [apply (Hmove _ (Returning None))|apply (Hmove _ Validated)];
      cbn; rewrite ?El; done || lia.
  - unfold mbind, GoM_bind.
    destruct (SendMessageBatch ctx url (valid_entries url g) w) as [w1 [a|why]]; [|done].
    intros [= <- <-]. by apply (Hmove _ (Answered a)).
  - destruct (sh_locked s) eqn:El; intros [= <- <-]; [done|].
    apply (Hmove _ (Recording output)); cbn; rewrite ?El; done || lia.
  - intros [= <- <-]. by apply (Hmove _ (Recorded output)).
  - destruct (sh_locked s) eqn:El; [|done]. intros [= <- <-].
    apply (Hmove _ (Returning (Some output))); cbn; rewrite ?El; done || lia.
  - destruct (0 <? sh_wg s); [|done]. intros [= <- <-].
    apply (Hmove _ (Finished o)); cbn; done || lia.
Qed.

Lemma main_step_sync s w w' s' : sync_ok s -> main_step (W := W) threads s w = (w', Ret s') -> sync_ok s'.
Proof.
  intros Hs [= <- <-]. destruct (sh_main s) as [n|] eqn:E; [|done].
  pose proof Hs as [H1 H2 H3 H4 H5]. rewrite E in H4, H5. cbn [launched_before] in H4.
  destruct (Nat.ltb_spec n (length threads)) as [Hlt|Hge].
  - pose proof (next_unstarted s n Hs E Hlt) as Hp. set (s' := set_main _ _).
    pose proof (count_insert critical s s' n Unstarted Idle Hp eq_refl) as Hc.
    pose proof (count_insert running s s' n Unstarted Idle Hp eq_refl) as Hn.
    cbn [critical running] in Hc, Hn. split;
      cbn [s' set_main set_phase add_wg sh_phases sh_locked sh_wg sh_main launched_before]; try lia.
    + by rewrite length_insert.
    + intros j q Hq. destruct (decide (j = n)) as [->|Hne].
      * rewrite list_lookup_insert_eq in Hq by lia. injection Hq as <-. split; [lia|done].
      * rewrite list_lookup_insert_ne in Hq by done. rewrite (H4 j q Hq). lia.
  - destruct (Z.eqb_spec (sh_wg s) 0) as [Hz|]; [|done]. split; cbn; try done.
    intros j q Hq. rewrite (H4 j q Hq). split; [done|]. intros _.
    apply lookup_lt_Some in Hq. lia.
Qed.

Lemma turn_step_sync t s w w' s' :
  sync_ok s -> turn_step ctx threads t s w = (w', Ret s') -> sync_ok s'.
Proof. destruct t; [apply main_step_sync|apply thread_step_sync]. Qed.

Lemma threads_zero f s p k : count f s = 0%nat -> sh_phases s !! k = Some p -> f p = 0%nat.
Proof.
  unfold count. revert k. induction (sh_phases s) as [|q l IH]; intros k H Hk; [done|].
  cbn [fmap list_fmap sum_list sum_list_with id] in H.
  destruct k as [|k]; cbn in Hk; [injection Hk as <-; lia|]. apply (IH k); [lia|done].
Qed.
Lemma count_positive f s : count f s <> 0%nat -> exists k p, sh_phases s !! k = Some p /\ f p <> 0%nat.
Proof.
  unfold count. induction (sh_phases s) as [|q l IH]; [done|]. intros H.
  cbn [fmap list_fmap sum_list sum_list_with id] in H.
  destruct (decide (f q = 0%nat)) as [E|E]; [|by exists 0%nat, q].
  destruct IH as (k & p & Hk & Hp); [lia|]. by exists (S k), p.
Qed.

(** [wg.Wait] returns when every goroutine has ended. *)
Lemma returned_finished s : sync_ok s -> sh_main s = Returned -> finished s.
Proof.
  intros [_ H2 _ H4 H5] Hr. rewrite Hr in H4, H5. apply Forall_lookup. intros k p Hp.
  pose proof (threads_zero running s p k ltac:(lia) Hp) as Hz.
  apply H4 in Hp as [_ Hp]. specialize (Hp I). destruct p; try done. by eexists.
Qed.
End Sync.

(** ** The groups of a multi-queue batch *)

Section Groups.
Context {R : Type} `{!EventTypeQueueRouter R} (router : R).

Definition to_queue (url : string) (im : indexedMessage) : bool :=
  bool_decide (queue_of router im = url).

Lemma queueGroups_lookup l url :
  queueGroups router l !! url
  = match List.filter (to_queue url) l with [] => None | g => Some g end.
Proof.
  unfold queueGroups. induction l as [|im l IH] using rev_ind; [done|].
  rewrite foldl_app, List.filter_app. cbn [foldl List.filter]. unfold to_queue at 2.
  case_bool_decide as E.
  - rewrite E, lookup_insert_eq, IH. by destruct (List.filter (to_queue url) l).
  - rewrite lookup_insert_ne by done. by rewrite IH, app_nil_r.
Qed.

Lemma queueGroups_elem l url g :
  queueGroups router l !! url = Some g ->
  g = List.filter (to_queue url) l.
Proof. rewrite queueGroups_lookup. by destruct (List.filter (to_queue url) l); intros [= <-]. Qed.

(** The threads of a batch: its groups in some order. *)
Variable msgs : list Outbox.
Variable threads : list (string * list indexedMessage).
Hypothesis Hthreads : Permutation threads (map_to_list (queueGroups router (imap pair msgs))).

Lemma thread_group k url g :
  threads !! k = Some (url, g) -> g = List.filter (to_queue url) (imap pair msgs).
Proof.
  intros Hk. apply list_elem_of_lookup_2 in Hk. rewrite Hthreads in Hk.
  apply elem_of_map_to_list in Hk. by apply queueGroups_elem.
Qed.

Lemma thread_elem k url g i m :
  threads !! k = Some (url, g) ->
  (i, m) ∈ g <-> msgs !! i = Some m /\ route_of router (EventType m) = url.
Proof.
  intros Hk. rewrite (thread_group k url g Hk).
  rewrite list_elem_of_In, List.filter_In, <- list_elem_of_In, indexed_lookup.
  unfold to_queue, queue_of. by rewrite bool_decide_eq_true.
Qed.

Lemma thread_NoDup k url g : threads !! k = Some (url, g) -> NoDup g.*1.
Proof.
  intros Hk. rewrite (thread_group k url g Hk). apply NoDup_filter_fst, indexed_NoDup.
Qed.

Lemma thread_of i m :
  msgs !! i = Some m -> exists k g, threads !! k = Some (route_of router (EventType m), g).
Proof.
  intros Hi. set (url := route_of router (EventType m)).
  assert (Hin : (i, m) ∈ List.filter (to_queue url) (imap pair msgs)).
  { apply list_elem_of_In, List.filter_In. split.
    - apply list_elem_of_In. by apply indexed_lookup.
    - unfold to_queue, queue_of. by apply bool_decide_eq_true. }
  assert (Hg : exists g, queueGroups router (imap pair msgs) !! url = Some g).
  { rewrite queueGroups_lookup. destruct (List.filter (to_queue url) (imap pair msgs));
      [by apply not_elem_of_nil in Hin|eauto]. }
  destruct Hg as [g Hg]. apply elem_of_map_to_list in Hg. rewrite <- Hthreads in Hg.
  apply list_elem_of_lookup in Hg as [k Hk]. eauto.
Qed.

Lemma thread_distinct j k url g g' :
  threads !! j = Some (url, g) -> threads !! k = Some (url, g') -> j = k.
Proof.
  intros Hj Hk. assert (Hd : NoDup threads.*1) by (rewrite Hthreads; apply NoDup_fst_map_to_list).
  apply (NoDup_lookup threads.*1 j k url Hd); by rewrite list_lookup_fmap, ?Hj, ?Hk.
Qed.

(** *** Interleavings *)

Context {W : Type} `{!SQSClient W} (ctx : Context).

(** What the result of a message of a thread is in each of its phases. *)
Definition phase_result (url : string) (p : Phase) (m : Outbox) : PublishResult :=
  match p with
  | Unstarted | Idle | Checking => initial_result m
  | Checked | Validated | Answered _ | Recording _ => validate m (initial_result m)
  | Recorded output => final_result (multi_failed url) (Some output) m
  | Returning answer | Finished answer => final_result (multi_failed url) answer m
  end.

Definition phase_ok (url : string) (g : list indexedMessage) (p : Phase) : Prop :=
  p = Returning None \/ p = Finished None -> forall i m, (i, m) ∈ g -> too_large m = true.

Record threads_ok (s : Shared) : Prop := {
  th_length : length (sh_results s) = length msgs;
  th_phases : length (sh_phases s) = length threads;
  th_results : forall k url g p i m,
    threads !! k = Some (url, g) -> sh_phases s !! k = Some p -> (i, m) ∈ g ->
    sh_results s !! i = Some (phase_result url p m);
  th_ok : forall k url g p,
    threads !! k = Some (url, g) -> sh_phases s !! k = Some p -> phase_ok url g p
}.

(** Moving thread [k] to phase [p'] while updating the results of its own
    messages keeps the invariant. *)
Lemma threads_ok_update s s' k url g p p' f :
  threads_ok s -> threads !! k = Some (url, g) -> sh_phases s !! k = Some p ->
  (forall i m, (i, m) ∈ g -> f m (phase_result url p m) = phase_result url p' m) ->
  phase_ok url g p' ->
  sh_results s' = for_group f g (sh_results s) -> sh_phases s' = <[k := p']> (sh_phases s) ->
  threads_ok s'.
Proof.
  intros [Hl Hp Hr Ho] Hk Hkp Hf Hp' Eres Eph. split; rewrite ?Eres, ?Eph.
  - by rewrite for_group_length.
  - by rewrite length_insert.
  - intros j url' g' q i m Hj Hq Him.
    destruct (decide (j = k)) as [->|Hne].
    + rewrite Hk in Hj. injection Hj as <- <-.
      rewrite list_lookup_insert_eq in Hq by (by eapply lookup_lt_Some).
      injection Hq as <-. rewrite (for_group_in f g _ i m (thread_NoDup k url g Hk) Him).
      rewrite (Hr k url g p i m Hk Hkp Him). simpl. by rewrite (Hf i m Him).
    + rewrite list_lookup_insert_ne in Hq by done. rewrite for_group_other.
      * by apply (Hr j url' g' q i m).
      * intros Hin. apply list_elem_of_fmap in Hin as ([i' m'] & E & Hin). simpl in E. subst i'.
        apply (thread_elem k url g i m' Hk) in Hin as [Hi Hu].
        apply (thread_elem j url' g' i m Hj) in Him as [Hi' Hu'].
        assert (m' = m) by congruence. subst m'.
        apply Hne. apply (thread_distinct j k url g' g); [congruence|done].
  - intros j url' g' q Hj Hq. destruct (decide (j = k)) as [->|Hne].
    + rewrite Hk in Hj. injection Hj as <- <-.
      rewrite list_lookup_insert_eq in Hq by (by eapply lookup_lt_Some). by injection Hq as <-.
    + rewrite list_lookup_insert_ne in Hq by done. by apply (Ho j url' g' q).
Qed.

Lemma for_group_id g rs : for_group (fun _ r => r) g rs = rs.
Proof.
  revert rs. induction g as [|im g IH]; intros rs; [done|]. rewrite for_group_cons, IH.
  apply list_eq. intros i. destruct (decide (i = im.1)) as [->|Hne].
  - rewrite list_lookup_alter_eq. by destruct (rs !! im.1).
  - by rewrite list_lookup_alter_ne.
Qed.

Lemma threads_ok_move s s' k url g p p' :
  threads_ok s -> threads !! k = Some (url, g) -> sh_phases s !! k = Some p ->
  (forall i m, (i, m) ∈ g -> phase_result url p m = phase_result url p' m) ->
  phase_ok url g p' ->
  sh_results s' = sh_results s -> sh_phases s' = <[k := p']> (sh_phases s) -> threads_ok s'.
Proof.
  intros Hs Hk Hp Hf Hp' Eres. apply (threads_ok_update s s' k url g p p' (fun _ r => r)); try done.
  by rewrite for_group_id.
Qed.

Lemma threads_ok_same s s' :
  threads_ok s -> sh_results s' = sh_results s -> sh_phases s' = sh_phases s -> threads_ok s'.
Proof. intros [H1 H2 H3 H4] Er Ep. by split; rewrite ?Er, ?Ep. Qed.

Lemma thread_step_ok k s w w' s' :
  threads_ok s -> thread_step ctx threads k s w = (w', Ret s') -> threads_ok s'.
Proof.
  intros Hs. unfold thread_step.
  destruct (threads !! k) as [[url g]|] eqn:Hk; [|by intros [= <- <-]].
  destruct (sh_phases s !! k) as [p|] eqn:Hp; [|by intros [= <- <-]].
  assert (Hmove : forall p' s1, phase_ok url g p' ->
    (forall i m, (i, m) ∈ g -> phase_result url p m = phase_result url p' m) ->
    sh_results s1 = sh_results s -> sh_phases s1 = <[k := p']> (sh_phases s) -> threads_ok s1)
    by (intros; by eapply threads_ok_move).
  pose proof (th_ok s Hs k url g p Hk Hp) as Hpok. unfold phase_ok in *.
  unfold mu_Lock, mu_Unlock, wg_Done.
  destruct p as [| | | | |output|output|output|o|o].
  - by intros [= <- <-].
  - destruct (sh_locked s); intros [= <- <-]; [done|]. by apply (Hmove Checking); [intros []|..].
  - intros [= <- <-]. apply (threads_ok_update s _ k url g Checking Checked validate); try done.
    by intros [].
  - destruct (sh_locked s); [|done]. intros [= <- <-].
    destruct (valid_entries url g) eqn:E; [apply (Hmove (Returning None))|apply (Hmove Validated)];
      try done; [|by intros []]. intros _ i m. by apply (valid_entries_nil url g E i).
  - unfold mbind, GoM_bind.
    destruct (SendMessageBatch ctx url (valid_entries url g) w) as [w1 [a|why]]; [|done].
    intros [= <- <-]. by apply (Hmove (Answered a)); [intros []|..].
  - destruct (sh_locked s); intros [= <- <-]; [done|]. by apply (Hmove (Recording output)); [intros []|..].
  - intros [= <- <-]. eapply (threads_ok_update s _ k url g (Recording output) (Recorded output));
      [done|done|done| |by intros []|done|done]. done.
  - destruct (sh_locked s); [|done]. intros [= <- <-].
    by apply (Hmove (Returning (Some output))); [intros []|..].
  - destruct (0 <? sh_wg s); [|done]. intros [= <- <-].
    apply (Hmove (Finished o)); try done. intros [|[= ->]]; [done|]. apply Hpok. by left.
  - by intros [= <- <-].
Qed.

Lemma main_step_ok s w w' s' :
  threads_ok s -> (forall n, sh_main s = Spawning n -> (n < length threads)%nat ->
    sh_phases s !! n = Some Unstarted) ->
  main_step (W := W) threads s w = (w', Ret s') -> threads_ok s'.
Proof.
  intros Hs Hn [= <- <-]. destruct (sh_main s) as [n|] eqn:E; [|done].
  destruct (Nat.ltb_spec n (length threads)) as [Hlt|_].
  - destruct (lookup_lt_is_Some_2 threads n Hlt) as [[url g] Hk].
    by apply (threads_ok_move s _ n url g Unstarted Idle Hs Hk (Hn n eq_refl Hlt)); [..|intros []|done|done].
  - destruct (sh_wg s =? 0); [|done]. by apply (threads_ok_same s).
Qed.

Lemma run_threads_ok schedule : forall s w w' s',
  threads_ok s -> sync_ok threads s -> run_threads ctx threads schedule s w = (w', Ret s') ->
  threads_ok s' /\ sync_ok threads s'.
Proof.
  induction schedule as [|t schedule IH]; intros s w w' s' Hs Hy; cbn [run_threads].
  - by intros [= <- <-].
  - intros H. apply go_bind_inv in H as (w1 & s1 & H1 & H2).
    pose proof (turn_step_sync ctx threads t s w w1 s1 Hy H1) as Hy1. apply (IH s1 w1 w'); [|done|done].
    destruct t as [|k]; [|by apply (thread_step_ok k s w w1)].
    apply (main_step_ok s w w1); [done| |done]. intros n. by apply next_unstarted.
Qed.

Lemma initial_threads_ok :
  threads_ok (before_launch (initial_result <$> msgs) (length threads)).
Proof.
  split; simpl.
  - apply length_fmap.
  - apply length_replicate.
  - intros k url g p i m Hk Hp Him. apply lookup_replicate in Hp as [-> _].
    apply (thread_elem k url g i m Hk) in Him as [Hi _]. by rewrite list_lookup_fmap, Hi.
  - intros k url g p _ Hp. apply lookup_replicate in Hp as [-> _]. by intros [].
Qed.

End Groups.

Section MultiResults.
Context {R W : Type} `{!EventTypeQueueRouter R} `{!SQSClient W} (router : R).
Context (msgs : list Outbox) (threads : list (string * list indexedMessage))
  (Hthreads : Permutation threads (map_to_list (queueGroups router (imap pair msgs)))).
Context (schedule : list Turn) (ctx : Context).

Lemma multi_invariant w w' s :
  multi_PublishBatch threads schedule ctx msgs w = (w', Ret s) ->
  threads_ok msgs threads s /\ sync_ok threads s.
Proof.
  intros Hrun. eapply run_threads_ok; [done|apply (initial_threads_ok router); exact Hthreads|
    apply initial_sync_ok|exact Hrun].
Qed.

(** The result of a message is what its goroutine left. *)
Lemma multi_result_of w w' s i m :
  multi_PublishBatch threads schedule ctx msgs w = (w', Ret s) -> finished s ->
  msgs !! i = Some m -> exists k g answer,
    threads !! k = Some (route_of router (EventType m), g) /\ (i, m) ∈ g
    /\ sh_phases s !! k = Some (Finished answer)
    /\ sh_results s !! i
       = Some (final_result (multi_failed (route_of router (EventType m))) answer m).
Proof.
  intros Hrun Hdone Hi. pose proof (multi_invariant w w' s Hrun) as [Hok _].
  destruct (thread_of router msgs threads Hthreads i m Hi) as (k & g & Hk).
  assert (Him : (i, m) ∈ g)
    by (by apply (thread_elem router msgs threads Hthreads k (route_of router (EventType m)) g)).
  assert (Hp : exists p, sh_phases s !! k = Some p).
  { apply lookup_lt_is_Some_2. rewrite (th_phases _ _ _ Hok). by eapply lookup_lt_Some. }
  destruct Hp as [p Hp]. unfold finished in Hdone. rewrite Forall_lookup in Hdone.
  destruct (Hdone k p Hp) as [answer ->]. exists k, g, answer.
  split; [done|]. split; [done|]. split; [done|].
  by rewrite (th_results _ _ _ Hok k _ g _ i m Hk Hp Him).
Qed.

Lemma multi_results_ok w w' s :
  multi_PublishBatch threads schedule ctx msgs w = (w', Ret s) -> finished s ->
  Forall2 result_ok msgs (sh_results s).
Proof.
  intros Hrun Hdone. pose proof (multi_invariant w w' s Hrun) as [Hok _].
  apply Forall2_same_length_lookup. split; [by rewrite (th_length _ _ _ Hok)|]. intros i m r Hi Hr.
  destruct (multi_result_of w w' s i m Hrun Hdone Hi) as (k & g & answer & Hk & Him & Hp & E).
  rewrite E in Hr. injection Hr as <-. apply final_result_ok. intros ->.
  by apply (th_ok _ _ _ Hok k _ g _ Hk Hp (or_intror eq_refl) i m).
Qed.
End MultiResults.


(** ** Every fair schedule ends *)

(** The steps a phase is from its end. *)
Definition phase_left (p : Phase) : nat :=
  match p with
  | Unstarted | Idle => 8
  | Checking => 7
  | Checked => 6
  | Validated => 5
  | Answered _ => 4
  | Recording _ => 3
  | Recorded _ => 2
  | Returning _ => 1
  | Finished _ => 0
  end.

Definition main_left (n : nat) (m : Launcher) : nat :=
  match m with Spawning k => n - k + 1 | Returned => 0 end.

(** The steps that [n] goroutines and the one that launches them make. *)
Definition all_steps (n : nat) : nat := 9 * n + 1.

Section Progress.
Context {W : Type} `{!SQSClient W} `{!SQSClientLaws W}.
Context (ctx : Context) (threads : list (string * list indexedMessage)).

Definition steps_left (s : Shared) : nat :=
  main_left (length threads) (sh_main s) + count phase_left s.

(** Whoever has the turn does not wait. *)
Definition moves (t : Turn) (s : Shared) : bool :=
  match t with
  | MainTurn =>
      match sh_main s with
      | Spawning n => (n <? length threads)%nat || (sh_wg s =? 0)
      | Returned => false
      end
  | ThreadTurn k =>
      match sh_phases s !! k with
      | None | Some Unstarted | Some (Finished _) => false
      | Some Idle | Some (Answered _) => negb (sh_locked s)
      | Some _ => true
      end
  end.

Lemma thread_left s s' k p p' :
  sh_phases s !! k = Some p -> sh_phases s' = <[k := p']> (sh_phases s) ->
  sh_main s' = sh_main s -> (phase_left p' < phase_left p)%nat -> (steps_left s' < steps_left s)%nat.
Proof.
  intros Hp Eph Em Hlt. pose proof (count_insert phase_left s s' k p p' Hp Eph).
  unfold steps_left. rewrite Em. lia.
Qed.

(** A turn returns, and is a step nearer to the end unless it waits. *)
Definition turn_left (s : Shared) (b : bool) (r : W * outcome Shared) : Prop :=
  exists w' s', r = (w', Ret s')
    /\ if b then (steps_left s' < steps_left s)%nat else s' = s.

Lemma thread_turn_left k s w :
  sync_ok threads s -> turn_left s (moves (ThreadTurn k) s) (thread_step ctx threads k s w).
Proof.
  intros Hs. unfold thread_step, moves, mu_Lock, mu_Unlock, wg_Done.
  destruct (sh_phases s !! k) as [p|] eqn:Hp;
    [|destruct (threads !! k) as [[]|]; by eexists _, _].
  destruct (lookup_lt_is_Some_2 threads k) as [[url g] ->];
    [rewrite <- (sy_phases _ _ Hs); by eapply lookup_lt_Some|].
  pose proof (fun s1 p' => thread_left s s1 k p p' Hp) as Hleft.
  pose proof (count_insert critical s (set_phase k Idle s) k p Idle Hp eq_refl) as Hc.
  pose proof (count_insert running s (set_phase k (Finished None) s) k p (Finished None) Hp eq_refl) as Hr.
  pose proof (sy_lock _ _ Hs) as Hlock. pose proof (sy_wg _ _ Hs) as Hwg.
  destruct p as [| | | | |output|output|output|o|o]; cbn [critical running] in Hc, Hr.
  - by eexists _, _.
  - destruct (sh_locked s); eexists _, _; (split; [done|]); [done|].
    by apply (Hleft _ Checking); [..|cbn; lia].
  - eexists _, _. split; [done|]. by apply (Hleft _ Checked); [..|cbn; lia].
  - destruct (sh_locked s); [|cbn in Hlock; lia]. eexists _, _. split; [done|].
    destruct (valid_entries url g); [apply (Hleft _ (Returning None))|apply (Hleft _ Validated)];
      done || (cbn; lia).
  - destruct (send_batch_returns ctx url (valid_entries url g) w) as (w' & answer & E).
    unfold mbind, GoM_bind. rewrite E. eexists _, _. split; [done|].
    by apply (Hleft _ (Answered answer)); [..|cbn; lia].
  - destruct (sh_locked s); eexists _, _; (split; [done|]); [done|].
    by apply (Hleft _ (Recording output)); [..|cbn; lia].
  - eexists _, _. split; [done|]. by apply (Hleft _ (Recorded output)); [..|cbn; lia].
  - destruct (sh_locked s); [|cbn in Hlock; lia]. eexists _, _. split; [done|].
    by apply (Hleft _ (Returning (Some output))); [..|cbn; lia].
  - destruct (Z.ltb_spec 0 (sh_wg s)); [|lia]. eexists _, _. split; [done|].
    by apply (Hleft _ (Finished o)); [..|cbn; lia].
  - by eexists _, _.
Qed.

Lemma main_turn_left s w :
  sync_ok threads s -> turn_left s (moves MainTurn s) (main_step threads s w).
Proof.
  intros Hs. eexists _, _. split; [done|]. unfold moves, steps_left.
  destruct (sh_main s) as [n|] eqn:E; [|done].
  destruct (Nat.ltb_spec n (length threads)) as [Hlt|Hge]; cbn [orb].
  - pose proof (next_unstarted threads s n Hs E Hlt) as Hp. set (s' := set_main _ _). pose proof (count_insert phase_left s s' n Unstarted Idle Hp eq_refl) as Hc.
    cbn [phase_left] in Hc. change (sh_main s') with (Spawning (S n)). cbn [main_left]. lia.
  - destruct (sh_wg s =? 0); [|done]. change (count phase_left (set_main Returned s)) with (count phase_left s).
    cbn [set_main sh_main main_left]. lia.
Qed.

(** Until [wg.Wait] returns there is someone who does not wait. *)
Lemma someone_moves s :
  sync_ok threads s -> sh_main s <> Returned ->
  moves MainTurn s = true \/ exists k, (k < length threads)%nat /\ moves (ThreadTurn k) s = true.
Proof.
  intros [H1 H2 H3 H4 H5] Hm. unfold moves at 1. destruct (sh_main s) as [n|] eqn:E; [|done].
  destruct (Nat.ltb_spec n (length threads)) as [|Hge]; [by left|].
  destruct (Z.eqb_spec (sh_wg s) 0) as [|Hne]; [by left|right].
  assert (Hsome : exists k p, sh_phases s !! k = Some p
    /\ (if sh_locked s then critical p else running p) <> 0%nat).
  { destruct (sh_locked s); [apply (count_positive critical)|apply (count_positive running)];
      [cbn in H1|]; lia. }
  destruct Hsome as (k & p & Hp & Hn). exists k.
  split; [rewrite <- H3; by eapply lookup_lt_Some|]. unfold moves. rewrite Hp.
  by destruct (sh_locked s), p.
Qed.

(** A round: everyone has a turn. *)
Definition covers (n : nat) (round : list Turn) : Prop :=
  MainTurn ∈ round /\ forall k, (k < n)%nat -> ThreadTurn k ∈ round.

Lemma turns_left schedule : forall s w, sync_ok threads s ->
  exists w' s', run_threads ctx threads schedule s w = (w', Ret s') /\ sync_ok threads s'
    /\ ((steps_left s' < steps_left s)%nat
        \/ s' = s /\ forall t, t ∈ schedule -> moves t s = false).
Proof.
  induction schedule as [|t schedule IH]; intros s w Hs; cbn [run_threads].
  { exists w, s. split; [done|]. split; [done|]. right. split; [done|]. intros t Ht.
    by apply not_elem_of_nil in Ht. }
  assert (Ht : turn_left s (moves t s) (turn_step ctx threads t s w))
    by (destruct t; [by apply main_turn_left|by apply thread_turn_left]).
  destruct Ht as (w1 & s1 & E & Hcase).
  pose proof (turn_step_sync ctx threads t s w w1 s1 Hs E) as Hs1.
  destruct (IH s1 w1 Hs1) as (w2 & s2 & E2 & Hs2 & Hcase2). exists w2, s2.
  split; [by rewrite (go_bind_ret _ _ _ _ _ E)|]. split; [done|].
  destruct (moves t s) eqn:Em.
  - left. destruct Hcase2 as [|[-> _]]; lia.
  - subst s1. destruct Hcase2 as [|[-> Hno]]; [by left|]. right. split; [done|].
    intros t' [->|Ht']%elem_of_cons; [done|by apply Hno].
Qed.

Lemma round_left round s w :
  sync_ok threads s -> covers (length threads) round ->
  exists w' s', run_threads ctx threads round s w = (w', Ret s') /\ sync_ok threads s'
    /\ (sh_main s' = Returned \/ (steps_left s' < steps_left s)%nat).
Proof.
  intros Hs [Hmain Hround]. destruct (turns_left round s w Hs) as (w' & s' & E & Hs' & Hcase).
  exists w', s'. split; [done|]. split; [done|]. destruct Hcase as [|[-> Hno]]; [by right|left].
  destruct (sh_main s) eqn:Em; [|done]. exfalso.
  destruct (someone_moves s Hs) as [H|(k & Hk & H)]; [by rewrite Em|..].
  - by rewrite (Hno MainTurn Hmain) in H.
  - by rewrite (Hno (ThreadTurn k) (Hround k Hk)) in H.
Qed.
Lemma rounds_left rounds : forall s w,
  sync_ok threads s -> Forall (covers (length threads)) rounds ->
  exists w' s', run_threads ctx threads (concat rounds) s w = (w', Ret s') /\ sync_ok threads s'
    /\ (sh_main s' = Returned \/ (steps_left s' + length rounds <= steps_left s)%nat).
Proof.
  induction rounds as [|r rounds IH]; intros s w Hs Hr.
  { exists w, s. split; [done|]. split; [done|]. right. cbn. lia. }
  apply Forall_cons in Hr as [Hr Hrs]. destruct (round_left r s w Hs Hr) as (w1 & s1 & E1 & Hs1 & H1).
  destruct (IH s1 w1 Hs1 Hrs) as (w2 & s2 & E2 & Hs2 & H2). exists w2, s2.
  split; [cbn [concat]; by rewrite run_threads_app, (go_bind_ret _ _ _ _ _ E1)|].
  split; [done|]. destruct H2 as [|H2]; [by left|]. destruct H1 as [H1|H1]; [|right; cbn; lia].
  left. assert (Hz : steps_left s1 = 0%nat).
  { unfold steps_left. rewrite H1. pose proof (returned_finished threads s1 Hs1 H1) as Hf.
    cbn [main_left]. unfold count. induction Hf as [|p l [o ->] _ IHf]; [done|]. exact IHf. }
  destruct (sh_main s2) eqn:Em; [|done]. exfalso. unfold steps_left at 1 in H2. rewrite Em in H2.
  cbn [main_left] in H2. lia.
Qed.

(** As many rounds as there are steps, and whatever comes then. *)
Definition fair (n : nat) (schedule : list Turn) : Prop :=
  exists rounds rest, schedule = concat rounds ++ rest
    /\ Forall (covers n) rounds /\ (all_steps n <= length rounds)%nat.

Lemma fair_ends schedule s w :
  sync_ok threads s -> (steps_left s <= all_steps (length threads))%nat ->
  fair (length threads) schedule ->
  exists w' s', run_threads ctx threads schedule s w = (w', Ret s') /\ sh_main s' = Returned.
Proof.
  intros Hs Hl (rounds & rest & -> & Hr & Hn).
  destruct (rounds_left rounds s w Hs Hr) as (w1 & s1 & E1 & Hs1 & H1).
  assert (Hret : sh_main s1 = Returned).
  { destruct H1 as [|H1]; [done|]. destruct (sh_main s1) eqn:Em; [|done].
    unfold steps_left at 1 in H1. rewrite Em in H1. cbn [main_left] in H1. lia. }
  destruct (turns_left rest s1 w1 Hs1) as (w2 & s2 & E2 & Hs2 & H2). exists w2, s2.
  split; [by rewrite run_threads_app, (go_bind_ret _ _ _ _ _ E1)|].
  destruct H2 as [H2|[-> _]]; [|done]. pose proof (returned_finished threads s1 Hs1 Hret) as Hf.
  assert (Hz : steps_left s1 = 0%nat); [|lia].
  unfold steps_left. rewrite Hret. cbn [main_left]. unfold count.
  induction Hf as [|p l [o ->] _ IHf]; [done|]. exact IHf.
Qed.
End Progress.

Lemma multi_ends {R W : Type} `{!EventTypeQueueRouter R} `{!SQSClient W} `{!SQSClientLaws W}
  (router : R) (msgs : list Outbox) threads schedule ctx w :
  Permutation threads (map_to_list (queueGroups router (imap pair msgs))) ->
  fair (length threads) schedule ->
  exists w' s, multi_PublishBatch threads schedule ctx msgs w = (w', Ret s)
    /\ sh_main s = Returned /\ finished s /\ length (sh_results s) = length msgs.
Proof.
  intros Hthreads Hfair.
  destruct (fair_ends ctx threads schedule
    (before_launch (initial_result <$> msgs) (length threads)) w) as (w' & s & E & Hret);
    [apply initial_sync_ok| |done|].
  { unfold steps_left, count, all_steps. cbn [before_launch sh_main sh_phases main_left].
    assert (H : forall n, sum_list (phase_left <$> replicate n Unstarted) = (8 * n)%nat).
    { intros n. induction n as [|n IH]; [done|].
      cbn [replicate fmap list_fmap sum_list sum_list_with id phase_left].
      change (sum_list_with _ ?l) with (sum_list l). lia. }
    rewrite H. lia. }
  exists w', s. split; [exact E|]. split; [done|].
  destruct (multi_invariant router msgs threads Hthreads schedule ctx w w' s E) as [Hok Hs].
  split; [by apply (returned_finished threads)|apply (th_length msgs threads _ Hok)].
Qed.

(** C24: the multi-queue publisher ends.  With a client that does not panic, every
    schedule that comes round to everyone as often as there are steps to make (nine
    for each goroutine and one) ends: nobody waits for the mutex or the wait group
    for ever, the mutex is not unlocked nor the counter lowered too often, [wg.Wait]
    returns with all goroutines at their end, and the batch has its results. *)
Theorem multi_PublishBatch_terminates {R W : Type} `{!EventTypeQueueRouter R} `{!SQSClient W}
  `{!SQSClientLaws W} (router : R) (msgs : list Outbox)
  (threads : list (string * list indexedMessage)) (schedule : list Turn) (ctx : Context) (w : W)
  (Hthreads : Permutation threads (map_to_list (queueGroups router (imap pair msgs))))
  (Hfair : fair (length threads) schedule) :
  exists w' s, multi_PublishBatch threads schedule ctx msgs w = (w', Ret s)
    /\ sh_main s = Returned /\ finished s /\ length (sh_results s) = length msgs.
Proof. by apply (multi_ends router). Qed.

(** ** The multi-queue publishers behind the interface *)

(** What Go leaves open: the order in which a map is walked, and the interleaving
    of the goroutines, each of which gets its turns. *)
Record Scheduler (W : Type) : Type := mkScheduler {
  map_order : W -> list (string * list indexedMessage) -> list (string * list indexedMessage);
  interleaving : W -> nat -> list Turn;
  map_order_ok w l : Permutation (map_order w l) l;
  interleaving_fair w n : fair n (interleaving w n)
}.
Arguments map_order {W}.
Arguments interleaving {W}.
Arguments map_order_ok {W}.
Arguments interleaving_fair {W}.

(** One that is fair: the order of the map, and everyone in turn. *)
Definition everyone (n : nat) : list Turn := MainTurn :: (ThreadTurn <$> seq 0 n).

Lemma everyone_covers n : covers n (everyone n).
Proof. split; [by left|]. intros k Hk. right. apply list_elem_of_fmap_2, elem_of_seq. lia. Qed.

Definition in_turn (n : nat) : list Turn := concat (replicate (all_steps n) (everyone n)).

Lemma in_turn_fair n : fair n (in_turn n).
Proof.
  exists (replicate (all_steps n) (everyone n)), []. rewrite app_nil_r. split; [done|].
  split; [|by rewrite length_replicate]. apply Forall_replicate, everyone_covers.
Qed.

Definition round_robin (W : Type) : Scheduler W :=
  mkScheduler W (fun _ l => l) (fun _ => in_turn) (fun _ l => Permutation_refl l) (fun _ => in_turn_fair).

Section MultiPublisher.
Context {R W : Type} `{!EventTypeQueueRouter R} `{!SQSClient W} (router : R) (go : Scheduler W).

Definition MultiBatchPublisher_PublishBatch (ctx : Context) (msgs : list Outbox)
    : GoM W (list PublishResult) :=
  match msgs with
  | [] => mret []
  | _ => fun w =>
      let threads := map_order go w (map_to_list (queueGroups router (imap pair msgs))) in
      (s ← multi_PublishBatch threads (interleaving go w (length threads)) ctx msgs;
       mret (sh_results s)) w
  end.

#[export] Instance multi_publisher : Publisher W := { Publish := multi_Publish router }.
#[export] Instance multi_batch_publisher : BatchPublisher W := {
  batch_publisher_base := multi_publisher;
  PublishBatch := MultiBatchPublisher_PublishBatch;
  MaxBatchSize := sqsMaxBatchSize
}.

#[export] Instance multi_batch_publisher_laws `{!SQSClientLaws W} : BatchPublisherLaws W.
Proof.
  split. intros ctx msgs w. cbn [PublishBatch multi_batch_publisher].
  unfold MultiBatchPublisher_PublishBatch. destruct msgs as [|m ms]; [by exists w, []|].
  set (msgs := m :: ms). set (threads := map_order go w _).
  assert (Hthreads : Permutation threads (map_to_list (queueGroups router (imap pair msgs))))
    by apply map_order_ok.
  destruct (multi_ends router msgs threads (interleaving go w (length threads)) ctx w Hthreads)
    as (w' & s & Hrun & _ & Hdone & _); [apply interleaving_fair|].
  exists w', (sh_results s). unfold mbind, GoM_bind. rewrite Hrun. split; [done|].
  by apply (multi_results_ok router msgs threads Hthreads (interleaving go w (length threads)) ctx w w').
Qed.
End MultiPublisher.

(** How the outcome of a single publish is classified.  A payload over the
    limit never reaches SQS: nothing is called, the error is [ErrPayloadTooLarge]
    and not retryable.  Otherwise there is one request; without an error the
    publish succeeded, and an error of the client keeps its own classification
    through the wrapping (an error that says nothing is retryable). *)
Theorem Publish_classifies {W : Type} `{!SQSClient W} (queueURL : string) (ctx : Context)
  (msg : Outbox) (w : W) :
  if MaxSQSMessageSize <? Z.of_nat (raw_len (Payload msg))
  then exists e, sqs_Publish queueURL ctx msg w = (w, Ret (Some e))
       /\ IsRetryable (Some e) = false /\ errors_Is e ErrPayloadTooLarge = true
  else forall w' answer, SendMessage ctx (buildSendMessageInput queueURL msg) w = (w', Ret answer) ->
       match answer with
       | None => sqs_Publish queueURL ctx msg w = (w', Ret None)
       | Some e => exists e', sqs_Publish queueURL ctx msg w = (w', Ret (Some e'))
                   /\ IsRetryable (Some e') = IsRetryable (Some e)
                   /\ forall s, errors_Is e' s = errors_Is e s
       end.
Proof.
  unfold sqs_Publish, too_large. destruct (MaxSQSMessageSize <? _).
  - by eexists.
  - intros w' answer E. unfold mbind, GoM_bind. rewrite E. destruct answer as [e|]; [|done].
    eexists. split; [done|]. split.
    + unfold IsRetryable. cbn [errorf_wrap retryable_found first_some].
      by destruct (retryable_found e).
    + intros s. cbn [errorf_wrap errors_Is existsb]. by rewrite orb_false_r.
Qed.

(** ** The batch properties at work

    A client that accepts every entry of the first queue and fails for the
    second; two messages, one for each; the goroutines alternate. *)

Definition demo_accept (entries : list BatchEntry) : BatchOutput :=
  mkOutput ((fun e => (Some (en_Id e), Some ("sqs-" +:+ en_Id e))) <$> entries) [].
#[local] Instance demo_client : SQSClient (list string) := {
  SendMessage _ input := fun w => (w ++ [in_QueueUrl input], Ret None);
  SendMessageBatch _ url entries := fun w =>
    (w ++ [url], Ret (if bool_decide (url = "q1") then Ok (demo_accept entries)
                      else Err (EUser "throttled" None [])))
}.
#[local] Instance demo_client_laws : SQSClientLaws (list string).
Proof. constructor. intros ctx url entries w. eexists _, _. reflexivity. Qed.

Definition demo_outbox (id eventType : string) : Outbox :=
  mkOutbox id eventType (Some "{}") None id PUBLISHING None 1 3 None 0 0.
Definition demo_batch : list Outbox := [demo_outbox "m1" "order.created"; demo_outbox "m2" "user.updated"].
Definition demo_router : EventTypeQueueMap :=
  Register "order.created" "q1" (NewEventTypeQueueMap "q2").
Definition demo_threads : list (string * list indexedMessage) :=
  map_to_list (queueGroups demo_router (imap pair demo_batch)).
(** The first goroutine waits for the mutex while the second checks its messages. *)
Definition demo_schedule : list Turn :=
  [MainTurn; MainTurn; ThreadTurn 1; ThreadTurn 0; ThreadTurn 1; ThreadTurn 1] ++ in_turn 2.

Lemma demo_fair : fair (length demo_threads) demo_schedule.
Proof.
  replace (length demo_threads) with 2%nat by (vm_compute; reflexivity).
  exists ((take 6 demo_schedule ++ everyone 2) :: replicate (pred (all_steps 2)) (everyone 2)), [].
  split; [by vm_compute|]. split; [|by vm_compute; lia]. constructor.
  - split; [by left|]. intros [|[|k]] Hk; [..|lia]; apply elem_of_app; right; vm_compute;
      repeat (first [by left|right]).
  - apply Forall_replicate, everyone_covers.
Qed.

Lemma multi_PublishBatch_terminates_witness :
  exists w' s, multi_PublishBatch demo_threads demo_schedule (mkContext true None []) demo_batch []
               = (w', Ret s) /\ sh_main s = Returned /\ finished s /\ length (sh_results s) = 2%nat.
Proof.
  exact (multi_PublishBatch_terminates demo_router demo_batch demo_threads demo_schedule
           (mkContext true None []) [] (Permutation_refl _) demo_fair).
Defined.

