(* ===== verification/Consumer.v ===== *)
(** * contrib/sqs/consumer: the consumer service

    model.go, handler.go, registry.go, hooks.go and service.go: parsing a
    message, routing it to a handler, processing it, and the loops of a worker.
    The SQS client, the UUID parser and JSON decoding are parameters; the
    parallel loop is a pool of goroutines under a semaphore. *)

From Stdlib Require Import ZArith Lia Ascii Permutation.
From stdpp Require Import base option list strings gmap fin_maps pretty.
From S2P Require Import Prelude Errors Model Ports SqsRouter SqsPublisher Worker Dispatcher.

Set Default Goal Selector "!".
Open Scope string_scope.
Open Scope list_scope.
Open Scope Z_scope.

(** ** Messages *)

(** [sqstypes.Message]: nil pointers are [None]. *)
Record Message : Type := mkMessage {
  MessageId : option string;
  msg_ReceiptHandle : option string;
  msg_Body : option string;
  Attributes : gmap string string;
  MessageAttributes : gmap string MessageAttributeValue
}.

Definition uuid_Nil : UUID := "00000000-0000-0000-0000-000000000000".

Record SQSMessage : Type := mkSQS {
  sqs_MessageID : string;
  ReceiptHandle : string;
  Body : RawMessage;
  sqs_EventType : string;
  EventID : UUID;
  sqs_IdempotencyKey : string;
  sqs_Metadata : RawMessage;
  ReceiveCount : Z
}.

(** *** strconv.Atoi *)

Definition digit_value (c : ascii) : option Z :=
  let n := Z.of_nat (nat_of_ascii c) - 48 in
  if (0 <=? n) && (n <=? 9) then Some n else None.

Fixpoint digits (acc : Z) (s : string) : option Z :=
  match s with
  | EmptyString => Some acc
  | String c s' => n ← digit_value c; digits (acc * 10 + n) s'
  end.

Definition in_range (z : Z) : option Z :=
  if (- 2 ^ 63 <=? z) && (z <? 2 ^ 63) then Some z else None.

(** [None] is an error: no digits, another character, or out of range. *)
Definition Atoi (s : string) : option Z :=
  match s with
  | EmptyString => None
  | String c s' =>
      if Ascii.eqb c "-" then
        match s' with EmptyString => None | _ => n ← digits 0 s'; in_range (- n) end
      else if Ascii.eqb c "+" then
        match s' with EmptyString => None | _ => n ← digits 0 s'; in_range n end
      else n ← digits 0 s; in_range n
  end.

(** ** parseSQSMessage *)

Section Parse.
(** [uuid.Parse]; [None] is an error. *)
Variable uuid_Parse : string -> option UUID.

Definition attr_value (m : Message) (name : string) : option string :=
  ToString ∘ StringValue <$> MessageAttributes m !! name.

Definition parse_EventID (m : Message) : UUID :=
  match attr_value m "outbox_id" with
  | None => uuid_Nil
  | Some idStr =>
      if bool_decide (idStr = "") then uuid_Nil
      else match uuid_Parse idStr with
           | Some eventID => eventID
           | None => uuid_Nil
           end
  end.

Definition parseSQSMessage (m : Message) : SQSMessage :=
  {| sqs_MessageID := ToString (MessageId m);
     ReceiptHandle := ToString (msg_ReceiptHandle m);
     Body := Some (ToString (msg_Body m));
     sqs_EventType := default "" (attr_value m "event_type");
     EventID := parse_EventID m;
     sqs_IdempotencyKey := default "" (attr_value m "idempotency_key");
     sqs_Metadata :=
       match attr_value m "metadata" with
       | None => None
       | Some s => if bool_decide (s = "") then None else Some s
       end;
     ReceiveCount :=
       match Attributes m !! "ApproximateReceiveCount" with
       | None => 0
       | Some rcStr => default 0 (Atoi rcStr)
       end |}.
End Parse.

(** ** handler.go and registry.go *)

Definition Handler (W : Type) : Type := Context -> SQSMessage -> GoM W (option error).

Inductive UnknownEventTypeBehavior : Type :=
| UnknownEventTypeError
| UnknownEventTypeIgnore.

Record EventTypeRouter (W : Type) : Type := mkRouter {
  handlers : gmap string (Handler W);
  fallback : option (Handler W);
  unknownEventTypeBehavior : UnknownEventTypeBehavior
}.
Arguments mkRouter {W}.
Arguments handlers {W}.
Arguments fallback {W}.
Arguments unknownEventTypeBehavior {W}.

Section Router.
Context {W : Type}.
Implicit Types (r : EventTypeRouter W) (h : Handler W).

Definition NewEventTypeRouter : EventTypeRouter W := mkRouter ∅ None UnknownEventTypeError.

(** [Register] and [RegisterFunc]. *)
Definition RegisterHandler (eventType : string) h r : EventTypeRouter W :=
  mkRouter (<[eventType := h]> (handlers r)) (fallback r) (unknownEventTypeBehavior r).
Definition SetFallback h r : EventTypeRouter W :=
  mkRouter (handlers r) (Some h) (unknownEventTypeBehavior r).
Definition SetUnknownEventTypeBehavior (b : UnknownEventTypeBehavior) r : EventTypeRouter W :=
  mkRouter (handlers r) (fallback r) b.
(** In Go's map order. *)
Definition EventTypes r : list string := (map_to_list (handlers r)).*1.

(** [r.handlers[eventType]] *)
Definition handler_of r (eventType : string) : option (Handler W) := handlers r !! eventType.

Definition router_Handle r : Handler W := fun ctx msg =>
  match handler_of r (sqs_EventType msg) with
  | Some h => h ctx msg
  | None =>
      match fallback r with
      | Some h => h ctx msg
      | None =>
          match unknownEventTypeBehavior r with
          | UnknownEventTypeIgnore => mret None
          | UnknownEventTypeError =>
              mret (Some (errorf_sentinel ErrUnknownEventType (sqs_EventType msg)))
          end
      end
  end.

(** [TypedHandler[T]]: [unmarshal] is [json.Unmarshal] into a [T]. *)
Definition typed_Handle {T} (unmarshal : string -> result error T)
    (fn : Context -> SQSMessage -> T -> GoM W (option error)) : Handler W := fun ctx msg =>
  match unmarshal (raw_string (Body msg)) with
  | Err err =>
      mret (Some (NewPermanentError (Some (errorf_wrap "failed to unmarshal message body" err))))
  | Ok payload => fn ctx msg payload
  end.

(** [EventTypeRouterRegistry]: routers by group; [setup] configures a new
    router. *)
Definition Registry : Type := gmap string (EventTypeRouter W).
Definition RegisterGroup (group : string) (setup : EventTypeRouter W -> EventTypeRouter W)
    (reg : Registry) : Registry := <[group := setup NewEventTypeRouter]> reg.
Definition GetRouter (group : string) (reg : Registry) : option (EventTypeRouter W) :=
  reg !! group.
Definition ValidGroups (reg : Registry) : list string := (map_to_list reg).*1.
End Router.

(** ** hooks.go *)

Record ConsumerHooks (W : Type) : Type := mkConsumerHooks {
  OnConsumeStart : option (Context -> SQSMessage -> GoM W unit);
  OnConsumeSuccess : option (Context -> SQSMessage -> Z -> GoM W unit);
  OnConsumeFailure : option (Context -> SQSMessage -> error -> Z -> bool -> GoM W unit);
  OnConsumeDead : option (Context -> SQSMessage -> error -> GoM W unit);
  OnDeleteFailure : option (Context -> SQSMessage -> error -> GoM W unit)
}.
Arguments mkConsumerHooks {W}.
Arguments OnConsumeStart {W}.
Arguments OnConsumeSuccess {W}.
Arguments OnConsumeFailure {W}.
Arguments OnConsumeDead {W}.
Arguments OnDeleteFailure {W}.

Section HookCalls.
Context {W : Type} (h : option (ConsumerHooks W)) (ctx : Context) (msg : SQSMessage).

Definition callOnConsumeStart : GoM W unit :=
  call_hook h OnConsumeStart (fun f => f ctx msg).
Definition callOnConsumeSuccess (duration : Z) : GoM W unit :=
  call_hook h OnConsumeSuccess (fun f => f ctx msg duration).
Definition callOnConsumeFailure (err : error) (duration : Z) (retryable : bool) : GoM W unit :=
  call_hook h OnConsumeFailure (fun f => f ctx msg err duration retryable).
Definition callOnConsumeDead (err : error) : GoM W unit :=
  call_hook h OnConsumeDead (fun f => f ctx msg err).
Definition callOnDeleteFailure (err : error) : GoM W unit :=
  call_hook h OnDeleteFailure (fun f => f ctx msg err).
End HookCalls.

(** ** service.go: configuration *)

Record ServiceConfig : Type := mkService {
  QueueUrl : string;
  MaxNumberOfMessages : Z;
  WaitTimeSeconds : Z;
  VisibilityTimeout : Z;
  sv_MaxAttempts : Z;
  sv_WorkerCount : Z;
  MessageConcurrency : Z;
  sv_ShutdownTimeout : Z;
  sv_ForceTimeout : Z;
  sv_OnForceShutdown : option ForceAction
}.

Definition DefaultServiceConfig (queueURL : string) : ServiceConfig :=
  mkService queueURL 10 20 30 5 1 1 (30 * Second) (60 * Second) (Some ExitProcess).

(** The configuration [NewService] keeps; it validates nothing. *)
Definition NewService (c : ServiceConfig) : ServiceConfig :=
  let or_default := Single.or_default in
  let shutdown := or_default (sv_ShutdownTimeout c) (30 * Second) in
  mkService (QueueUrl c) (or_default (MaxNumberOfMessages c) 10)
    (or_default (WaitTimeSeconds c) 20) (or_default (VisibilityTimeout c) 30)
    (or_default (sv_MaxAttempts c) 5) (or_default (sv_WorkerCount c) 1)
    (or_default (MessageConcurrency c) 1) shutdown
    (or_default (sv_ForceTimeout c) (wrap64 (shutdown * 2)))
    (match sv_OnForceShutdown c with None => Some ExitProcess | a => a end).

(** [isFIFO] *)
Definition isFIFO (queueURL : string) : bool :=
  (5 <=? String.length queueURL)%nat
  && String.eqb (String.substring (String.length queueURL - 5) 5 queueURL) ".fifo".

(** *** Life cycle

    A service has the flags, the cancel function and the wait group of a
    dispatcher, without recovery and requeue. *)
Definition service_life (c : ServiceConfig) : LifeConfig :=
  mkLife (sv_WorkerCount c) false 0
    (mkShutdown (sv_ShutdownTimeout c) (sv_ForceTimeout c) (sv_OnForceShutdown c)).

Definition fifo_concurrency (c : ServiceConfig) : bool :=
  (1 <? MessageConcurrency c) && isFIFO (QueueUrl c).

Definition Service_Start (c : ServiceConfig) (s : Dispatcher) : Dispatcher * option error :=
  if fifo_concurrency c then
    (s, Some (EWrapf ("MessageConcurrency>1 is not compatible with FIFO queues (queue: "
                      +:+ QueueUrl c
                      +:+ "): parallel processing breaks message ordering guarantees") []))
  else if d_running s then (s, None)
  else (fst (Start s), None).

Definition Service_Stop (s : Dispatcher) : Dispatcher := Stop s.

(** ** service.go: processing *)

Record ReceiveInput : Type := mkReceive {
  rq_QueueUrl : string;
  rq_MaxNumberOfMessages : Z;
  rq_WaitTimeSeconds : Z;
  rq_VisibilityTimeout : Z
}.

Class ConsumerClient (W : Type) : Type := {
  ReceiveMessage : Context -> ReceiveInput -> GoM W (result error (list Message));
  DeleteMessage : Context -> string -> string -> GoM W (option error)
}.

(** [ctx.Err() != nil] *)
Class Cancellation (W : Type) : Type := { ctx_Err : Context -> GoM W bool }.

Section Service.
Context {W : Type} `{!Runtime W, !ConsumerClient W, !Cancellation W}.
Variable uuid_Parse : string -> option UUID.

Record Service : Type := mkServiceRec {
  config : ServiceConfig;
  handler : Handler W;
  hooks : option (ConsumerHooks W);
  (** the store to [lastProcessedAt] *)
  store_processed : Z -> GoM W unit
}.
Variable s : Service.

Definition handleFailure (ctx : Context) (msg : SQSMessage) (handleErr : error)
    (duration : Z) : GoM W unit :=
  if sv_MaxAttempts (config s) <=? ReceiveCount msg then
    _ ← callOnConsumeDead (hooks s) ctx msg handleErr;
    _ ← DeleteMessage ctx (QueueUrl (config s)) (ReceiptHandle msg);
    mret tt
  else callOnConsumeFailure (hooks s) ctx msg handleErr duration true.

Definition processMessage (ctx : Context) (sqsMsg : Message) : GoM W unit :=
  let msg := parseSQSMessage uuid_Parse sqsMsg in
  _ ← callOnConsumeStart (hooks s) ctx msg;
  startTime ← time_Now;
  handleErr ← handler s ctx msg;
  now ← time_Now;
  let duration := saturate64 (now - startTime) in
  match handleErr with
  | Some err => handleFailure ctx msg err duration
  | None =>
      deleteErr ← DeleteMessage ctx (QueueUrl (config s)) (ReceiptHandle msg);
      _ ← match deleteErr with
          | Some err => callOnDeleteFailure (hooks s) ctx msg err
          | None => mret tt
          end;
      _ ← callOnConsumeSuccess (hooks s) ctx msg duration;
      now' ← time_Now;
      store_processed s now'
  end.

(** The sequential loop, which stops when the context is done. *)
Fixpoint process_all (ctx : Context) (messages : list Message) : GoM W unit :=
  match messages with
  | [] => mret tt
  | m :: messages' =>
      done ← ctx_Err ctx;
      if (done : bool) then mret tt
      else _ ← processMessage ctx m; process_all ctx messages'
  end.

Definition receive_input : ReceiveInput :=
  mkReceive (QueueUrl (config s)) (MaxNumberOfMessages (config s))
    (WaitTimeSeconds (config s)) (VisibilityTimeout (config s)).

(** [pollAndProcess] up to its parallel loop, which the pool below models:
    [parallel] processes the messages there.  The sleep after an error is
    not observable. *)
Definition pollAndProcess (parallel : Context -> list Message -> GoM W unit) (ctx : Context)
    : GoM W unit :=
  done ← ctx_Err ctx;
  if (done : bool) then mret tt
  else
    output ← ReceiveMessage ctx receive_input;
    match output with
    | Err err => _ ← ctx_Err ctx; mret tt
    | Ok messages =>
        if MessageConcurrency (config s) <=? 1 then process_all ctx messages
        else parallel ctx messages
    end.

(** [runWorker] for at most [n] polls. *)
Fixpoint runWorker (parallel : Context -> list Message -> GoM W unit) (n : nat)
    (ctx : Context) : GoM W unit :=
  match n with
  | O => mret tt
  | S n' =>
      done ← ctx_Err ctx;
      if (done : bool) then mret tt
      else _ ← pollAndProcess parallel ctx; runWorker parallel n' ctx
  end.
End Service.
Arguments Service : clear implicits.
Arguments mkServiceRec {W}.
Arguments config {W}.
Arguments handler {W}.
Arguments hooks {W}.
Arguments store_processed {W}.

(** ** The pool of the parallel loop

    The loop starts a goroutine per message while the semaphore has room and
    the context is live; [wg.Wait] returns when none is running. *)
Record Pool : Type := mkPool {
  p_waiting : list Message;
  p_running : list Message;
  p_finished : list Message;
  p_stopped : bool
}.

Inductive PoolEvent : Type :=
| PStart
| PFinish (i : nat)
| PCancel.

Definition pool_step (concurrency : Z) (e : PoolEvent) (p : Pool) : option Pool :=
  match e with
  | PStart =>
      match p_waiting p with
      | m :: waiting =>
          if p_stopped p then None
          else if Z.of_nat (length (p_running p)) <? concurrency
          then Some (mkPool waiting (p_running p ++ [m]) (p_finished p) (p_stopped p))
          else None
      | [] => None
      end
  | PFinish i =>
      m ← p_running p !! i;
      Some (mkPool (p_waiting p) (delete i (p_running p)) (p_finished p ++ [m]) (p_stopped p))
  | PCancel => Some (mkPool (p_waiting p) (p_running p) (p_finished p) true)
  end.

Definition pool_run (concurrency : Z) (es : list PoolEvent) (p : Pool) : option Pool :=
  foldl (fun acc e => acc ≫= pool_step concurrency e) (Some p) es.

(** [wg.Wait] after the loop: nothing runs, and the loop is over. *)
Definition pool_returned (p : Pool) : Prop :=
  p_running p = [] /\ (p_waiting p = [] \/ p_stopped p = true).

(** ** A world that records calls (as in History.v) *)

Inductive ConsumerCall : Type :=
| QCtx
| QNow
| QReceive (input : ReceiveInput)
| QHandle (msg : SQSMessage)
| QDelete (queueURL receipt : string)
| QStart (msg : SQSMessage)
| QSuccess (msg : SQSMessage) (duration : Z)
| QFailure (msg : SQSMessage) (err : error) (duration : Z) (retryable : bool)
| QDead (msg : SQSMessage) (err : error)
| QDeleteFailure (msg : SQSMessage) (err : error)
| QProcessed (now : Z).

Definition chistory : Type := list ConsumerCall.

Record ConsumerOracle : Type := mkOracle {
  co_done : chistory -> bool;
  co_now : chistory -> Z;
  co_receive : chistory -> result error (list Message);
  co_handle : chistory -> outcome (option error);
  co_delete : chistory -> option error;
  co_hook : chistory -> outcome unit
}.

Section Recorded.
Variable o : ConsumerOracle.

Definition ask {A} (c : ConsumerCall) (f : chistory -> outcome A) : GoM chistory A :=
  fun h => (h ++ [c], f h).
Definition ask_ret {A} (c : ConsumerCall) (f : chistory -> A) : GoM chistory A :=
  ask c (fun h => Ret (f h)).

#[export] Instance crt : Runtime chistory := { time_Now := ask_ret QNow (co_now o) }.
#[export] Instance cctx : Cancellation chistory :=
  { ctx_Err _ := ask_ret QCtx (co_done o) }.
#[export] Instance cclient : ConsumerClient chistory := {
  ReceiveMessage _ input := ask_ret (QReceive input) (co_receive o);
  DeleteMessage _ url receipt := ask_ret (QDelete url receipt) (co_delete o)
}.

Definition chooks : ConsumerHooks chistory := {|
  OnConsumeStart := Some (fun _ m => ask (QStart m) (co_hook o));
  OnConsumeSuccess := Some (fun _ m d => ask (QSuccess m d) (co_hook o));
  OnConsumeFailure := Some (fun _ m e d r => ask (QFailure m e d r) (co_hook o));
  OnConsumeDead := Some (fun _ m e => ask (QDead m e) (co_hook o));
  OnDeleteFailure := Some (fun _ m e => ask (QDeleteFailure m e) (co_hook o))
|}.

Definition recorded_service (c : ServiceConfig) : Service chistory := {|
  config := c;
  handler := fun _ m => ask (QHandle m) (co_handle o);
  hooks := Some chooks;
  store_processed := fun now => ask_ret (QProcessed now) (fun _ => tt)
|}.
End Recorded.

(** The calls that matter for delivery: handler calls and deletions, the other
    ones dropped. *)
Definition is_delivery (c : ConsumerCall) : bool :=
  match c with QHandle _ | QDelete _ _ => true | _ => false end.
Definition deliveries (h : chistory) : chistory := List.filter is_delivery h.

Lemma deliveries_app h1 h2 : deliveries (h1 ++ h2) = deliveries h1 ++ deliveries h2.
Proof. apply List.filter_app. Qed.

Definition exhausted (c : ServiceConfig) (msg : SQSMessage) : bool :=
  sv_MaxAttempts c <=? ReceiveCount msg.

Lemma chook_run o F field (sel : F) (call : F -> GoM chistory unit) c h :
  field (chooks o) = Some sel -> call sel = ask c (co_hook o) ->
  call_hook (Some (chooks o)) field call h = (h ++ [c], Ret tt).
Proof. intros Hf Hc. rewrite call_hook_ret. simpl. by rewrite Hf, Hc. Qed.

(** What a message's processing adds to the deliveries, for the handler's
    answer. *)
Definition delivery_of (c : ServiceConfig) (msg : SQSMessage) (answer : option error) : chistory :=
  QHandle msg ::
  match answer with
  | None => [QDelete (QueueUrl c) (ReceiptHandle msg)]
  | Some _ => if exhausted c msg then [QDelete (QueueUrl c) (ReceiptHandle msg)] else []
  end.

Ltac delivered := rewrite !deliveries_app; simpl; rewrite <- ?app_assoc, ?app_nil_r.

Section Process.
Variables (o : ConsumerOracle) (uuid_Parse : string -> option UUID) (c : ServiceConfig)
          (ctx : Context).
Abbreviation process :=
  (@processMessage chistory (crt o) (cclient o) uuid_Parse (recorded_service o c) ctx).

(** The history when the handler is called. *)
Definition at_handle (h : chistory) (msg : SQSMessage) : chistory := h ++ [QStart msg; QNow].

Lemma process_run m h p :
  let msg := parseSQSMessage uuid_Parse m in
  co_handle o (at_handle h msg) = Ret p ->
  exists h', process m h = (h', Ret tt)
    /\ deliveries h' = deliveries h ++ delivery_of c msg p.
Proof.
  intros msg Hp. unfold processMessage. fold msg. unfold mbind, GoM_bind.
  unfold callOnConsumeStart. cbn [recorded_service hooks].
  erewrite (chook_run o) by reflexivity. cbn [time_Now crt handler recorded_service].
  unfold ask_ret, ask. rewrite <- app_assoc. cbn [app].
  unfold at_handle in Hp. rewrite Hp.
  destruct p as [e|]; unfold handleFailure, delivery_of, exhausted; cbv beta iota zeta;
    cbn [config recorded_service hooks DeleteMessage cclient store_processed].
  - destruct (sv_MaxAttempts c <=? ReceiveCount msg); unfold mbind, GoM_bind;
      unfold callOnConsumeDead, callOnConsumeFailure; erewrite (chook_run o) by reflexivity;
      (eexists; split; [reflexivity|]); by delivered.
  - unfold ask_ret, ask, mret, GoM_ret. cbv beta iota zeta.
    destruct (co_delete o _) as [e|]; unfold callOnDeleteFailure, callOnConsumeSuccess;
      rewrite ?call_hook_ret; cbv beta iota zeta; cbn;
      (eexists; split; [reflexivity|]); by delivered.
Qed.

Abbreviation process_list :=
  (@process_all chistory (crt o) (cclient o) (cctx o) uuid_Parse (recorded_service o c) ctx).

Lemma process_all_run : forall messages h,
  (forall h', co_done o h' = false) -> (forall h', exists p, co_handle o h' = Ret p) ->
  exists h' answers, process_list messages h = (h', Ret tt)
    /\ length answers = length messages
    /\ deliveries h' = deliveries h
         ++ concat (zip_with (fun m p => delivery_of c (parseSQSMessage uuid_Parse m) p)
                      messages answers).
Proof.
  induction messages as [|m messages IH]; intros h Hd Hh; cbn [process_all].
  - exists h, []. split; [done|]. split; [done|]. by rewrite app_nil_r.
  - unfold mbind at 1, GoM_bind at 1. cbn [ctx_Err cctx]. unfold ask_ret, ask at 1. rewrite Hd.
    set (h1 := h ++ [QCtx]).
    destruct (Hh (at_handle h1 (parseSQSMessage uuid_Parse m))) as [p Hp].
    destruct (process_run m h1 p Hp) as (h2 & E & Ed).
    destruct (IH h2 Hd Hh) as (h3 & answers & E3 & Hl & Ed3).
    exists h3, (p :: answers). split.
    + unfold mbind at 1, GoM_bind at 1. rewrite E. exact E3.
    + split; [simpl; by rewrite Hl|]. rewrite Ed3, Ed. unfold h1. rewrite deliveries_app.
      cbn [zip_with concat]. simpl (deliveries [QCtx]). by rewrite app_nil_r, <- app_assoc.
Qed.
End Process.

(** C25: a message is handed to the handler exactly once per receipt, and is
    deleted from the queue exactly when the handler returned nil or the
    message has been received [MaxAttempts] times; otherwise it stays for
    redelivery.  This holds whatever the hooks do (a panic in one is
    recovered), whatever the clock says and whether or not the deletion
    succeeds; a permanent error of the handler makes no difference. *)
Theorem processMessage_spec (o : ConsumerOracle) (uuid_Parse : string -> option UUID)
  (c : ServiceConfig) (ctx : Context) (m : Message) (h : chistory) (answer : option error)
  (Hhandle : co_handle o (at_handle h (parseSQSMessage uuid_Parse m)) = Ret answer) :
  let msg := parseSQSMessage uuid_Parse m in
  let delete := QDelete (QueueUrl c) (ReceiptHandle msg) in
  exists h',
    @processMessage chistory (crt o) (cclient o) uuid_Parse (recorded_service o c) ctx m h
      = (h', Ret tt)
    /\ deliveries h' = deliveries h ++ QHandle msg ::
         (if bool_decide (answer = None) || (sv_MaxAttempts c <=? ReceiveCount msg)
          then [delete] else []).
Proof.
  destruct (process_run o uuid_Parse c ctx m h answer Hhandle) as (h' & E & Ed).
  exists h'. split; [done|]. rewrite Ed. unfold delivery_of, exhausted.
  by destruct answer; destruct (sv_MaxAttempts c <=? _).
Qed.

(** The sequential loop hands every message of a receive to the handler,
    in order, until the context is done.  A failure does not stop it: on a
    FIFO queue a message that stays for redelivery is overtaken by the later
    ones of the same receive, those of its own group included. *)
Theorem sequential_handles_all (o : ConsumerOracle) (uuid_Parse : string -> option UUID)
  (c : ServiceConfig) (ctx : Context) (messages : list Message) (h : chistory)
  (Hlive : forall h', co_done o h' = false)
  (Hreturns : forall h', exists answer, co_handle o h' = Ret answer) :
  exists h' answers,
    @process_all chistory (crt o) (cclient o) (cctx o) uuid_Parse (recorded_service o c) ctx
      messages h = (h', Ret tt)
    /\ length answers = length messages
    /\ deliveries h' = deliveries h
         ++ concat (zip_with (fun m p => delivery_of c (parseSQSMessage uuid_Parse m) p)
                      messages answers).
Proof. by apply process_all_run. Qed.

(** ** What arrives is what was sent *)

Lemma attributes_of msg :
  buildMessageAttributes msg !! "event_type" = Some (string_attr (EventType msg))
  /\ buildMessageAttributes msg !! "outbox_id" = Some (string_attr (ID msg))
  /\ buildMessageAttributes msg !! "idempotency_key" = Some (string_attr (IdempotencyKey msg))
  /\ buildMessageAttributes msg !! "metadata"
     = if (0 <? raw_len (Metadata msg))%nat then Some (string_attr (raw_string (Metadata msg)))
       else None.
Proof.
  unfold buildMessageAttributes. by destruct (0 <? raw_len (Metadata msg))%nat.
Qed.

Lemma parse_attributes (uuid_Parse : string -> option UUID) (msg : Outbox) (m : Message) :
  ID msg <> "" -> uuid_Parse (ID msg) = Some (ID msg) ->
  msg_Body m = Some (raw_string (Payload msg)) ->
  MessageAttributes m = buildMessageAttributes msg ->
  let r := parseSQSMessage uuid_Parse m in
  sqs_EventType r = EventType msg /\ EventID r = ID msg
  /\ sqs_IdempotencyKey r = IdempotencyKey msg
  /\ raw_string (Body r) = raw_string (Payload msg)
  /\ raw_string (sqs_Metadata r) = raw_string (Metadata msg).
Proof.
  intros Hid Huuid Hb Ha. cbv zeta. destruct (attributes_of msg) as (E1 & E2 & E3 & E4).
  unfold parseSQSMessage, parse_EventID, attr_value. rewrite Hb, Ha, E1, E2, E3, E4.
  cbn [fmap option_fmap option_map compose sqs_EventType EventID sqs_IdempotencyKey Body
    sqs_Metadata ToString StringValue string_attr default raw_string].
  unfold compose, ToString. cbn.
  rewrite bool_decide_eq_false_2, Huuid by done. split_and!; try done.
  destruct (Metadata msg) as [[|a s]|]; done.
Qed.

(** C26: parsing undoes the encoding of the publisher: a message delivered with
    the body and attributes of its request (either kind) has the event type,
    event id, idempotency key, payload and metadata of the outbox message. *)
Theorem parse_published (uuid_Parse : string -> option UUID) (queueURL : string) (msg : Outbox)
  (m : Message)
  (Hid : ID msg <> "") (Huuid : uuid_Parse (ID msg) = Some (ID msg))
  (Hsent : (msg_Body m = Some (in_MessageBody (buildSendMessageInput queueURL msg))
            /\ MessageAttributes m = in_MessageAttributes (buildSendMessageInput queueURL msg))
           \/ (msg_Body m = Some (en_MessageBody (buildBatchEntry queueURL msg))
               /\ MessageAttributes m = en_MessageAttributes (buildBatchEntry queueURL msg))) :
  let r := parseSQSMessage uuid_Parse m in
  sqs_EventType r = EventType msg /\ EventID r = ID msg
  /\ sqs_IdempotencyKey r = IdempotencyKey msg
  /\ raw_string (Body r) = raw_string (Payload msg)
  /\ raw_string (sqs_Metadata r) = raw_string (Metadata msg).
Proof.
  destruct Hsent as [[Hb Ha]|[Hb Ha]]; by apply parse_attributes.
Qed.

(** ** The parallel loop *)

Definition pool_messages (p : Pool) : list Message := p_finished p ++ p_running p ++ p_waiting p.

Lemma pool_step_inv n e p p' :
  1 <= n -> Z.of_nat (length (p_running p)) <= n -> pool_step n e p = Some p' ->
  Z.of_nat (length (p_running p')) <= n /\ pool_messages p' ≡ₚ pool_messages p.
Proof.
  intros Hn Hle Hs. unfold pool_messages. destruct e as [|i|]; simpl in Hs.
  - destruct (p_waiting p) as [|m ws] eqn:Ew; [discriminate|].
    destruct (p_stopped p); [discriminate|]. destruct (_ <? n) eqn:El; [|discriminate].
    injection Hs as <-. apply Z.ltb_lt in El. simpl. rewrite length_app. simpl.
    split; [lia|]. by rewrite <- app_assoc.
  - destruct (p_running p !! i) as [m|] eqn:Ei; simpl in Hs; [|discriminate].
    injection Hs as <-. simpl. split.
    + rewrite length_delete by (by eexists). lia.
    + pose proof (delete_Permutation _ _ _ Ei) as Hperm.
      rewrite <- app_assoc. apply Permutation_app_head. simpl.
      by rewrite app_comm_cons, <- Hperm.
  - injection Hs as <-. done.
Qed.

Lemma pool_run_inv n es : forall p p',
  1 <= n -> Z.of_nat (length (p_running p)) <= n -> pool_run n es p = Some p' ->
  Z.of_nat (length (p_running p')) <= n /\ pool_messages p' ≡ₚ pool_messages p.
Proof.
  unfold pool_run. induction es as [|e es IH]; intros p p' Hn Hle Hs; simpl in Hs.
  - by injection Hs as <-.
  - destruct (pool_step n e p) as [p1|] eqn:E.
    + destruct (pool_step_inv n e p p1 Hn Hle E) as [Hle1 Hp1].
      destruct (IH p1 p' Hn Hle1 Hs) as [Hle2 Hp2]. split; [done|]. by rewrite Hp2.
    + exfalso. clear -Hs. induction es; simpl in *; [discriminate|by apply IHes].
Qed.

(** The parallel loop never has more than [MessageConcurrency] messages in
    processing, starts no message twice, and when [wg.Wait] lets it return
    every message it started is finished; if the context stayed live these
    are all messages of the receive, each once. *)
Theorem pool_bounded (n : Z) (messages : list Message) (es : list PoolEvent) (p : Pool)
  (Hn : 1 <= n) (Hrun : pool_run n es (mkPool messages [] [] false) = Some p) :
  Z.of_nat (length (p_running p)) <= n
  /\ Permutation (p_finished p ++ p_running p ++ p_waiting p) messages
  /\ (pool_returned p -> p_stopped p = false -> Permutation (p_finished p) messages).
Proof.
  destruct (pool_run_inv n es (mkPool messages [] [] false) p Hn) as [Hle Hperm];
    [simpl; lia|done|].
  split; [done|]. split; [exact Hperm|]. intros [Hr [Hw|Hs]] Hns; [|congruence].
  unfold pool_messages in Hperm. rewrite Hr, Hw in Hperm. simpl in Hperm.
  by rewrite !app_nil_r in Hperm.
Qed.

(** ** Routing *)

(** The event type router calls the handler last registered for the event
    type of the message, else the fallback, and only then decides by the
    unknown-type behaviour: an [ErrUnknownEventType], or nil, which makes the
    service delete the message unhandled. *)
Theorem router_spec {W : Type} (r : EventTypeRouter W) (ctx : Context) (msg : SQSMessage)
  (regs : list (string * Handler W)) :
  let r' := foldl (fun r eh => RegisterHandler eh.1 eh.2 r) r regs in
  router_Handle r' ctx msg
  = match last (List.filter (fun eh => String.eqb eh.1 (sqs_EventType msg)) regs) with
    | Some eh => eh.2 ctx msg
    | None =>
        match handler_of r (sqs_EventType msg), fallback r, unknownEventTypeBehavior r with
        | Some h, _, _ => h ctx msg
        | None, Some h, _ => h ctx msg
        | None, None, UnknownEventTypeIgnore => mret None
        | None, None, UnknownEventTypeError =>
            mret (Some (EWrapf ("unknown event_type: " +:+ sqs_EventType msg)
                          [ESentinel ErrUnknownEventType]))
        end
    end.
Proof.
  cbv zeta.
  assert (Hf : forall (regs : list (string * Handler W)) (r : EventTypeRouter W),
               fallback (foldl (fun r eh => RegisterHandler eh.1 eh.2 r) r regs)
                 = fallback r
               /\ unknownEventTypeBehavior (foldl (fun r eh => RegisterHandler eh.1 eh.2 r) r regs)
                 = unknownEventTypeBehavior r).
  { clear. induction regs as [|eh regs IH]; intros r; [done|]. simpl.
    by destruct (IH (RegisterHandler eh.1 eh.2 r)) as [-> ->]. }
  assert (Hl : handler_of (foldl (fun r eh => RegisterHandler eh.1 eh.2 r) r regs)
                 (sqs_EventType msg)
               = match last (List.filter (fun eh => String.eqb eh.1 (sqs_EventType msg)) regs) with
                 | Some eh => Some eh.2
                 | None => handler_of r (sqs_EventType msg)
                 end).
  { clear Hf. unfold handler_of.
    induction regs as [|eh regs IH] using rev_ind; [done|].
    rewrite foldl_app, List.filter_app. cbn [foldl List.filter RegisterHandler handlers].
    destruct (String.eqb_spec eh.1 (sqs_EventType msg)) as [E|E].
    - by rewrite last_snoc, E, lookup_insert_eq.
    - by rewrite app_nil_r, lookup_insert_ne. }
  unfold router_Handle. rewrite Hl. destruct (Hf regs r) as [-> ->].
  destruct (last _); [done|]. destruct (handler_of r (sqs_EventType msg)); [done|].
  destruct (fallback r); [done|]. by destruct (unknownEventTypeBehavior r).
Qed.

(** ** The properties at work *)

Definition demo_message : Message :=
  mkMessage (Some "sqs-1") (Some "receipt") (Some "{}")
    (<["ApproximateReceiveCount" := "5"]> ∅)
    (buildMessageAttributes (demo_outbox "m1" "order.created")).
Definition demo_handler_error : error := PermanentError (Some (EUser "bad body" None [])).
Definition demo_consumer : ConsumerOracle :=
  mkOracle (fun _ => false) (fun _ => 0) (fun _ => Ok [demo_message])
    (fun _ => Ret (Some demo_handler_error)) (fun _ => None) (fun _ => Panic "hook").
Definition demo_parse (s : string) : option UUID :=
  if bool_decide (s = "") then None else Some s.

(** The fifth receipt of a failing message: it is dropped. *)
Lemma processMessage_spec_witness :
  let c := DefaultServiceConfig "q1" in
  let msg := parseSQSMessage demo_parse demo_message in
  exists h',
    @processMessage chistory (crt demo_consumer) (cclient demo_consumer) demo_parse
      (recorded_service demo_consumer c) (mkContext true None []) demo_message [] = (h', Ret tt)
    /\ deliveries h' = [QHandle msg; QDelete "q1" "receipt"].
Proof.
  exact (processMessage_spec demo_consumer demo_parse (DefaultServiceConfig "q1")
           (mkContext true None []) demo_message [] (Some demo_handler_error) eq_refl).
Defined.

Lemma pool_bounded_witness :
  exists p,
    pool_run 1 [PStart; PFinish 0; PStart] (mkPool [demo_message; demo_message] [] [] false)
    = Some p
    /\ Z.of_nat (length (p_running p)) <= 1.
Proof.
  destruct (pool_run 1 [PStart; PFinish 0; PStart]
              (mkPool [demo_message; demo_message] [] [] false)) as [p|] eqn:E.
  - exists p. split; [reflexivity|].
    exact (proj1 (pool_bounded 1 _ [PStart; PFinish 0; PStart] p ltac:(lia) E)).
  - discriminate E.
Defined.

Lemma parse_published_witness :
  EventID (parseSQSMessage demo_parse demo_message) = "m1".
Proof.
  refine (proj1 (proj2 (parse_published demo_parse "q1" (demo_outbox "m1" "order.created")
            demo_message _ _ _))).
  - discriminate.
  - reflexivity.
  - left. split; reflexivity.
Defined.
