(* ===== verification/ConsumerPool.v ===== *)
(** * The consumer service in parallel

    contrib/sqs/consumer/service.go: the goroutines of the parallel loop of
    [pollAndProcess], each [processMessage] call by call, interleaved; and the
    wait and the flags of the service ([Stop], [IsRunning], [HealthStatus]). *)

From Stdlib Require Import ZArith Lia Permutation.
From stdpp Require Import base option list strings gmap.
From S2P Require Import Prelude Errors Model Ports Dispatcher Consumer.

Set Default Goal Selector "!".
Open Scope list_scope.
Open Scope Z_scope.

(** ** Goroutines *)

(** A goroutine: its next call and what it does with the answer. *)
Inductive Task (W : Type) : Type :=
| Finished
| Call {A : Type} (m : GoM W A) (k : A -> Task W).
Arguments Finished {W}.
Arguments Call {W A} m k.

Fixpoint task_run {W} (t : Task W) : GoM W unit :=
  match t with
  | Finished => mret tt
  | Call m k => a ← m; task_run (k a)
  end.

Section Tasks.
Context {W : Type} `{!Runtime W, !ConsumerClient W}.
Variable uuid_Parse : string -> option UUID.
Variable s : Service W.

Definition handleFailure_task (ctx : Context) (msg : SQSMessage) (handleErr : error)
    (duration : Z) : Task W :=
  if sv_MaxAttempts (config s) <=? ReceiveCount msg then
    Call (callOnConsumeDead (hooks s) ctx msg handleErr) (fun _ =>
    Call (DeleteMessage ctx (QueueUrl (config s)) (ReceiptHandle msg)) (fun _ => Finished))
  else Call (callOnConsumeFailure (hooks s) ctx msg handleErr duration true) (fun _ => Finished).

(** [processMessage], call by call. *)
Definition process_task (ctx : Context) (sqsMsg : Message) : Task W :=
  let msg := parseSQSMessage uuid_Parse sqsMsg in
  Call (callOnConsumeStart (hooks s) ctx msg) (fun _ =>
  Call time_Now (fun startTime =>
  Call (handler s ctx msg) (fun handleErr =>
  Call time_Now (fun now =>
  let duration := saturate64 (now - startTime) in
  match handleErr with
  | Some err => handleFailure_task ctx msg err duration
  | None =>
      Call (DeleteMessage ctx (QueueUrl (config s)) (ReceiptHandle msg)) (fun deleteErr =>
      let done :=
        Call (callOnConsumeSuccess (hooks s) ctx msg duration) (fun _ =>
        Call time_Now (fun now' =>
        Call (store_processed s now') (fun _ => Finished))) in
      match deleteErr with
      | Some err => Call (callOnDeleteFailure (hooks s) ctx msg err) (fun _ => done)
      | None => done
      end)
  end)))).

Lemma go_bind_ext {A B} (m : GoM W A) (k k' : A -> GoM W B) w :
  (forall a w, k a w = k' a w) -> (m ≫= k) w = (m ≫= k') w.
Proof. intros H. unfold mbind, GoM_bind. destruct (m w) as [w' [a|why]]; [apply H|done]. Qed.

Lemma go_bind_ret_r {A} (m : GoM W A) (f : A -> unit) w :
  (m ≫= fun a => mret (f a)) w = (m ≫= fun a => mret tt) w.
Proof. apply go_bind_ext. intros a w'. by destruct (f a). Qed.

(** Run alone, the task is [processMessage]. *)
Lemma process_task_run ctx m w :
  task_run (process_task ctx m) w = processMessage uuid_Parse s ctx m w.
Proof.
  unfold process_task, processMessage. cbn [task_run].
  do 4 (apply go_bind_ext; intros ? ?).
  destruct a1 as [err|].
  - unfold handleFailure_task, handleFailure. destruct (_ <=? _); [done|]. cbn [task_run].
    unfold mbind, GoM_bind. by destruct (callOnConsumeFailure _ _ _ _ _ _ _) as [w' [[]|why]].
  - apply go_bind_ext. intros [err|] w4; cbn [task_run].
    + unfold mbind, GoM_bind.
      destruct (callOnDeleteFailure _ _ _ _ _) as [w5 [[]|why]]; [|done].
      destruct (callOnConsumeSuccess _ _ _ _ _) as [w6 [[]|why]]; [|done].
      destruct (time_Now w6) as [w7 [now'|why]]; [|done].
      by destruct (store_processed s now' w7) as [w8 [[]|why]].
    + unfold mbind, GoM_bind, mret, GoM_ret.
      destruct (callOnConsumeSuccess _ _ _ _ _) as [w6 [[]|why]]; [|done].
      destruct (time_Now w6) as [w7 [now'|why]]; [|done].
      by destruct (store_processed s now' w7) as [w8 [[]|why]].
Qed.

(** ** The parallel loop *)

Record Parallel : Type := mkParallel {
  pl_waiting : list Message;
  pl_running : list (Message * Task W);
  pl_finished : list Message;
  pl_stopped : bool
}.

(** The loop takes the semaphore and starts the next goroutine; goroutine [i]
    makes its next call, or ends and releases the semaphore; the loop sees that
    the context is done. *)
Inductive ParallelEvent : Type :=
| GStart
| GCall (i : nat)
| GEnd (i : nat)
| GCancel.

(** [None]: the event cannot happen; a panic ends the process. *)
Definition parallel_step (ctx : Context) (e : ParallelEvent) (w : W) (p : Parallel)
    : option (W * outcome Parallel) :=
  match e with
  | GStart =>
      match pl_waiting p with
      | m :: waiting =>
          if negb (pl_stopped p)
             && (Z.of_nat (length (pl_running p)) <? MessageConcurrency (config s))
          then Some (w, Ret (mkParallel waiting (pl_running p ++ [(m, process_task ctx m)])
                               (pl_finished p) (pl_stopped p)))
          else None
      | [] => None
      end
  | GCall i =>
      match pl_running p !! i with
      | Some (m, Call f k) =>
          Some (match f w with
                | (w', Ret a) =>
                    (w', Ret (mkParallel (pl_waiting p) (<[i := (m, k a)]> (pl_running p))
                                (pl_finished p) (pl_stopped p)))
                | (w', Panic why) => (w', Panic why)
                end)
      | _ => None
      end
  | GEnd i =>
      match pl_running p !! i with
      | Some (m, Finished) =>
          Some (w, Ret (mkParallel (pl_waiting p) (delete i (pl_running p))
                          (pl_finished p ++ [m]) (pl_stopped p)))
      | _ => None
      end
  | GCancel =>
      Some (w, Ret (mkParallel (pl_waiting p) (pl_running p) (pl_finished p) true))
  end.

Fixpoint parallel_run (ctx : Context) (es : list ParallelEvent) (w : W) (p : Parallel)
    : option (W * outcome Parallel) :=
  match es with
  | [] => Some (w, Ret p)
  | e :: es =>
      match parallel_step ctx e w p with
      | Some (w', Ret p') => parallel_run ctx es w' p'
      | x => x
      end
  end.

Definition parallel_start (messages : list Message) : Parallel := mkParallel messages [] [] false.

(** [wg.Wait] returns. *)
Definition parallel_returned (p : Parallel) : Prop :=
  pl_running p = [] /\ (pl_waiting p = [] \/ pl_stopped p = true).

(** *** The pool of Consumer.v is what this is without the calls *)




End Tasks.

(** ** Deliveries *)


(** [t] ends after at most [n] calls, none of which panics. *)
Fixpoint ends_within (n : nat) (t : Task chistory) {struct t} : Prop :=
  match t with
  | Finished => True
  | Call m k =>
      match n with
      | O => False
      | S n => (forall h, exists h' a, m h = (h', Ret a)) /\ forall a, ends_within n (k a)
      end
  end.

Section Deliveries.
Variables (o : ConsumerOracle) (uuid_Parse : string -> option UUID) (c : ServiceConfig)
          (ctx : Context).
Abbreviation service := (recorded_service o c).
Abbreviation task := (@process_task chistory (crt o) (cclient o) uuid_Parse service ctx).
Abbreviation step := (@parallel_step chistory (crt o) (cclient o) uuid_Parse service ctx).
Abbreviation run := (@parallel_run chistory (crt o) (cclient o) uuid_Parse service ctx).
Abbreviation parse := (parseSQSMessage uuid_Parse).












(** *** The loop returns *)

Hypothesis handler_returns : forall h, exists answer, co_handle o h = Ret answer.

Lemma hook_returns {F} (field : ConsumerHooks chistory -> option F) (call : F -> GoM chistory unit) h :
  exists h' a, call_hook (hooks service) field call h = (h', Ret a).
Proof. rewrite call_hook_ret. by eexists _, _. Qed.

Lemma ask_returns {A} call (f : chistory -> A) h : exists h' a, ask_ret call f h = (h', Ret a).
Proof. by eexists _, _. Qed.

Lemma task_ends m : ends_within 9 (task m).
Proof.
  assert (Hh : forall msg h, exists h' a, ask (QHandle msg) (co_handle o) h = (h', Ret a)).
  { intros msg h. destruct (handler_returns h) as [a E]. unfold ask. rewrite E. by eexists _, _. }
  unfold process_task, handleFailure_task.
  repeat first
    [ exact I
    | intros ?
    | match goal with
      | |- ends_within _ Finished => exact I
      | |- ends_within _ (match ?x with _ => _ end) => destruct x
      | |- ends_within (S _) (Call _ _) => split; [intros h|]
      | |- ends_within _ (if ?b then _ else _) => destruct b
      end
    | apply hook_returns | apply ask_returns | apply Hh
    | progress cbv zeta ].
Qed.

Lemma ends_mono t : forall n n', (n <= n')%nat -> ends_within n t -> ends_within n' t.
Proof.
  induction t as [|A f k IH]; intros [|n] [|n'] Hle H; cbn in *; try done; [lia|].
  destruct H as [H1 H2]. split; [done|]. intros a. apply (IH a n n'); [lia|apply H2].
Qed.

Definition all_end (p : Parallel) : Prop := Forall (fun mt => ends_within 9 mt.2) (pl_running p).

Lemma all_end_step e h p :
  all_end p -> match step e h p with
               | Some (_, Ret p') => all_end p'
               | Some (_, Panic _) => False
               | None => True
               end.
Proof.
  intros Hp. destruct e as [|i|i|]; cbn [parallel_step].
  - destruct (pl_waiting p) as [|m ws]; [done|]. destruct (_ && _); [|done].
    apply Forall_app. split; [done|]. apply Forall_singleton, task_ends.
  - destruct (pl_running p !! i) as [[m [|A f k]]|] eqn:Ei; try done.
    pose proof (proj1 (Forall_lookup _ _) Hp i _ Ei) as [Hf Hk].
    destruct (Hf h) as (h' & a & ->). apply Forall_insert; [done|].
    apply (ends_mono _ 8); [lia|apply Hk].
  - destruct (pl_running p !! i) as [[m [|A f k]]|] eqn:Ei; try done.
    by apply Forall_delete.
  - done.
Qed.

Lemma all_end_run es : forall h p,
  all_end p -> match run es h p with
               | Some (_, Ret p') => all_end p'
               | Some (_, Panic _) => False
               | None => True
               end.
Proof.
  induction es as [|e es IH]; intros h p Hp; [done|]. cbn [parallel_run].
  pose proof (all_end_step e h p Hp). destruct (step e h p) as [[h1 [p1|why]]|]; [by apply IH|done..].
Qed.

Lemma parallel_run_app es1 es2 h p h1 p1 :
  run es1 h p = Some (h1, Ret p1) -> run (es1 ++ es2) h p = run es2 h1 p1.
Proof.
  revert h p. induction es1 as [|e es1 IH]; intros h p; [by intros [= <- <-]|]. cbn.
  destruct (step e h p) as [[h' [p'|why]]|]; [apply IH|done..].
Qed.

(** The first goroutine runs to its end. *)
Lemma drain_first n : forall m t rest h ws fin b,
  ends_within n t ->
  exists es h', run es h (mkParallel ws ((m, t) :: rest) fin b)
    = Some (h', Ret (mkParallel ws rest (fin ++ [m]) b)).
Proof.
  induction n as [|n IH]; intros m [|A f k] rest h ws fin b H; try done.
  1, 2: by exists [GEnd 0], h.
  destruct H as [Hf Hk]. destruct (Hf h) as (h1 & a & E).
  destruct (IH m (k a) rest h1 ws fin b (Hk a)) as (es & h' & Hrun).
  exists (GCall 0 :: es), h'. cbn. by rewrite E.
Qed.

Lemma drain : forall running h ws fin b,
  Forall (fun mt => ends_within 9 mt.2) running ->
  exists es h' fin', run es h (mkParallel ws running fin b) = Some (h', Ret (mkParallel ws [] fin' b)).
Proof.
  induction running as [|[m t] running IH]; intros h ws fin b H; [by exists [], h, fin|].
  apply Forall_cons in H as [Ht H].
  destruct (drain_first 9 m t running h ws fin b Ht) as (es1 & h1 & H1).
  destruct (IH h1 ws (fin ++ [m]) b H) as (es2 & h2 & fin2 & H2).
  exists (es1 ++ es2), h2, fin2. by rewrite (parallel_run_app _ _ _ _ _ _ H1).
Qed.

Lemma parallel_finishes : forall ws running h fin b,
  1 <= MessageConcurrency c -> Forall (fun mt => ends_within 9 mt.2) running ->
  exists es h' p', run es h (mkParallel ws running fin b) = Some (h', Ret p') /\ parallel_returned p'.
Proof.
  induction ws as [|m ws IH]; intros running h fin b Hc H.
  - destruct (drain running h [] fin b H) as (es & h' & fin' & Hrun).
    eexists es, h', _. split; [exact Hrun|]. split; [done|by left].
  - destruct (drain running h (m :: ws) fin b H) as (es & h1 & fin1 & Hrun). destruct b.
    { eexists es, h1, _. split; [exact Hrun|]. split; [done|by right]. }
    destruct (IH [(m, task m)] h1 fin1 false Hc) as (es2 & h2 & p2 & Hrun2 & Hret).
    { apply Forall_singleton, task_ends. }
    exists (es ++ GStart :: es2), h2, p2. rewrite (parallel_run_app _ _ _ _ _ _ Hrun).
    cbn [parallel_run parallel_step pl_waiting pl_stopped pl_running pl_finished negb andb length].
    replace (Z.of_nat 0 <? MessageConcurrency (config service)) with true; [done|].
    symmetry. apply Z.ltb_lt. cbn. lia.
Qed.
End Deliveries.

(** ** Properties *)


(** The parallel loop can always return.  With handlers that do not panic,
    whatever has happened, no goroutine has panicked and the ones that run can
    all be brought to their end, those that wait started, and [wg.Wait]
    returns. *)
Theorem parallel_returns (o : ConsumerOracle) (uuid_Parse : string -> option UUID)
  (c : ServiceConfig) (ctx : Context) (messages : list Message) (es : list ParallelEvent)
  (h h' : chistory) (answer : outcome (Parallel (W := chistory)))
  (Hc : 1 <= MessageConcurrency c)
  (Hhandler : forall h, exists err, co_handle o h = Ret err)
  (Hrun : @parallel_run chistory (crt o) (cclient o) uuid_Parse (recorded_service o c) ctx es h
            (parallel_start messages) = Some (h', answer)) :
  exists p, answer = Ret p /\ exists more h'' p',
    @parallel_run chistory (crt o) (cclient o) uuid_Parse (recorded_service o c) ctx more h' p
      = Some (h'', Ret p')
    /\ parallel_returned p'.
Proof.
  pose proof (all_end_run o uuid_Parse c ctx Hhandler es h (parallel_start messages)
                (Forall_nil_2 _)) as Hall.
  rewrite Hrun in Hall. destruct answer as [p|why]; [|done]. exists p. split; [done|].
  destruct p as [ws running fin b].
  destruct (parallel_finishes o uuid_Parse c ctx Hhandler ws running h' fin b Hc Hall)
    as (more & h'' & p' & H1 & H2).
  by exists more, h'', p'.
Qed.

(** ** Stop *)

(** What [Stop] of a running service does: the flags, and the outcome of its
    wait for the goroutines, the last of which ends at [done_at]. *)
Definition Service_Stop_wait (tie1 tie2 : bool) (done_at : option Z) (c : ServiceConfig)
    : ShutdownOutcome * Z :=
  if select_done tie1 0 done_at (sv_ShutdownTimeout c)
  then (StoppedGracefully, Z.max 0 (default 0 done_at))
  else
    let now := Z.max 0 (sv_ShutdownTimeout c) in
    let remainingTime := wrap64 (sv_ForceTimeout c - sv_ShutdownTimeout c) in
    if select_done tie2 now done_at (now + remainingTime)
    then (StoppedLate, Z.max now (default 0 done_at))
    else (ForcedShutdown (sv_OnForceShutdown c), now + Z.max 0 remainingTime).

Definition Service_IsRunning (s : Dispatcher) : bool := d_running s.
Definition Service_HealthStatus (s : Dispatcher) : HealthStatus :=
  mkHealth (d_running s) (d_lastProcessedAt s) (l_WorkerCount (d_config s)) (d_pendingShutdown s).

(** It is the shutdown of the dispatchers, written out. *)
Lemma Service_Stop_wait_shared tie1 tie2 done_at c :
  Service_Stop_wait tie1 tie2 done_at c
  = GracefulShutdown tie1 tie2 done_at
      (mkShutdown (sv_ShutdownTimeout c) (sv_ForceTimeout c) (sv_OnForceShutdown c)).
Proof. reflexivity. Qed.

(** ** Witnesses *)

Open Scope string_scope.
Definition two_at_once : ServiceConfig :=
  mkService "q1" 10 20 30 5 1 2 (30 * Second) (60 * Second) (Some ExitProcess).
Abbreviation demo_run es := (@parallel_run chistory (crt demo_consumer) (cclient demo_consumer)
  demo_parse (recorded_service demo_consumer two_at_once) (mkContext true None []) es []
  (parallel_start [demo_message; demo_message])).



(** From the middle of it. *)
Lemma parallel_returns_witness :
  exists h p, demo_run [GStart; GCall 0; GCall 0] = Some (h, Ret p)
    /\ exists more h' p',
      @parallel_run chistory (crt demo_consumer) (cclient demo_consumer)
        demo_parse (recorded_service demo_consumer two_at_once) (mkContext true None []) more h p
      = Some (h', Ret p') /\ parallel_returned p'.
Proof.
  destruct (demo_run [GStart; GCall 0; GCall 0]) as [[h answer]|] eqn:E; [|discriminate E].
  destruct (parallel_returns demo_consumer demo_parse two_at_once (mkContext true None [])
              [demo_message; demo_message] [GStart; GCall 0; GCall 0] [] h answer
              ltac:(by vm_compute) (fun _ => ex_intro _ _ eq_refl) E) as (p & -> & H).
  exists h, p. by split.
Defined.
