(* ===== verification/Inbox.v ===== *)
(** * The consumer inbox: core/inbox_repository.go, contrib/pgx/inbox_repo.go,
    contrib/gorm/inbox_repo.go

    The table of completed events, its repositories, the handlers of the
    example application that use it in a transaction, and what the inbox does
    and does not give: one effect per event when an event is handled one
    delivery at a time, and no protection between concurrent deliveries. *)

From Stdlib Require Import ZArith Lia Permutation.
From stdpp Require Import base option list strings gmap fin_maps.
From S2P Require Import Prelude Errors Model Ports Store Consumer.

Set Default Goal Selector "!".
Open Scope string_scope.
Open Scope list_scope.
Open Scope Z_scope.

(** ** The interface *)

Record ConsumerInbox : Type := mkInbox {
  ConsumerName : string;
  ib_EventID : UUID;
  CompletedAt : Z
}.

Class InboxRepository (W : Type) : Type := {
  IsProcessed : Context -> string -> UUID -> GoM W (result error bool);
  Complete : Context -> string -> UUID -> GoM W (option error);
  GetByEventID : Context -> string -> UUID -> GoM W (result error ConsumerInbox)
}.

Class InboxCleaner (W : Type) : Type := {
  InboxDeleteOlderThan : Context -> Z -> GoM W (result error Z)
}.

(** [NopInboxRepository] *)
Definition nop_inbox {W} : InboxRepository W := {|
  IsProcessed _ _ _ := mret (Ok false);
  Complete _ _ _ := mret None;
  GetByEventID _ _ _ := mret (Err (ESentinel ErrNotFound))
|}.
Definition nop_cleaner {W} : InboxCleaner W := {| InboxDeleteOlderThan _ _ := mret (Ok 0) |}.

(** ** The table and its statements *)

(** [consumer_inbox]: its primary key and [completed_at]. *)
Abbreviation inbox_table := (gmap (string * UUID) Z).

Definition queryInboxCheckExists (key : string * UUID) (t : inbox_table) : inbox_table * bool :=
  (t, bool_decide (is_Some (t !! key))).

(** INSERT ... ON CONFLICT DO NOTHING; the answer is whether a row was
    inserted, which no caller reads. *)
Definition queryInboxComplete (now : Z) (key : string * UUID) (t : inbox_table)
    : inbox_table * bool :=
  match t !! key with
  | Some _ => (t, false)
  | None => (<[key := now]> t, true)
  end.

Definition queryInboxGetByEventID (key : string * UUID) (t : inbox_table)
    : inbox_table * option ConsumerInbox :=
  (t, mkInbox key.1 key.2 <$> t !! key).

Definition queryInboxDeleteOlderThan (now age_us : Z) (t : inbox_table) : inbox_table * Z :=
  (filter (fun kv => ~ kv.2 < now - age_us) t,
   Z.of_nat (size (filter (fun kv => kv.2 < now - age_us) t))).

(** ** Connections *)

(** The inbox with the clock and the failure, if any, of each call: before or
    after it took effect. *)
Record InboxDB : Type := mkInboxDB {
  ib_table : inbox_table;
  ib_clock : nat -> Z;
  ib_fault : nat -> option (error * bool);
  ib_calls : nat
}.

Definition ib_exec {A} (stmt : Z -> inbox_table -> inbox_table * A) : GoM InboxDB (result error A) :=
  fun db =>
    let n := ib_calls db in
    let '(t', a) := stmt (ib_clock db n) (ib_table db) in
    let after t := mkInboxDB t (ib_clock db) (ib_fault db) (S n) in
    match ib_fault db n with
    | None => (after t', Ret (Ok a))
    | Some (e, applied) => (after (if applied then t' else ib_table db), Ret (Err e))
    end.

(** *** contrib/pgx/inbox_repo.go: the transaction if there is one, the pool
    otherwise, with the same queries *)

Definition pgx_IsProcessed (ctx : Context) (consumerName : string) (eventID : UUID)
    : GoM InboxDB (result error bool) :=
  answer ← ib_exec (fun _ => queryInboxCheckExists (consumerName, eventID));
  mret match answer with
       | Err err => Err (errorf_wrap "failed to check inbox record" err)
       | Ok exists_ => Ok exists_
       end.

Definition pgx_Complete (ctx : Context) (consumerName : string) (eventID : UUID)
    : GoM InboxDB (option error) :=
  answer ← ib_exec (fun now => queryInboxComplete now (consumerName, eventID));
  mret match answer with
       | Err err => Some (errorf_wrap "failed to insert inbox completion record" err)
       | Ok _ => None
       end.

(** [Scan] of no row is [pgx.ErrNoRows]. *)
Definition pgx_GetByEventID (ctx : Context) (consumerName : string) (eventID : UUID)
    : GoM InboxDB (result error ConsumerInbox) :=
  answer ← ib_exec (fun _ => queryInboxGetByEventID (consumerName, eventID));
  let scanned := match answer with
                 | Ok (Some inbox) => Ok inbox
                 | Ok None => Err (ESentinel PgxErrNoRows)
                 | Err e => Err e
                 end in
  mret match scanned with
       | Err err => if errors_Is err PgxErrNoRows then Err (ESentinel ErrNotFound)
                    else Err (errorf_wrap "failed to get inbox record" err)
       | Ok inbox => Ok inbox
       end.

Definition pgx_InboxDeleteOlderThan (ctx : Context) (olderThan : Z)
    : GoM InboxDB (result error Z) :=
  answer ← ib_exec (fun now => queryInboxDeleteOlderThan now (microseconds olderThan));
  mret match answer with
       | Err err => Err (errorf_wrap "failed to delete old inbox records" err)
       | Ok n => Ok n
       end.

#[export] Instance pgx_inbox : InboxRepository InboxDB := {
  IsProcessed := pgx_IsProcessed;
  Complete := pgx_Complete;
  GetByEventID := pgx_GetByEventID
}.
Definition pgx_inbox_cleaner : InboxCleaner InboxDB :=
  {| InboxDeleteOlderThan := pgx_InboxDeleteOlderThan |}.

(** *** contrib/gorm/inbox_repo.go *)

(** [Count(&count)] of the rows of a key. *)
Definition count_rows (key : string * UUID) (t : inbox_table) : inbox_table * Z :=
  (t, Z.of_nat (size (filter (fun kv => kv.1 = key) t))).

Definition gorm_IsProcessed (ctx : Context) (consumerName : string) (eventID : UUID)
    : GoM InboxDB (result error bool) :=
  answer ← ib_exec (fun _ => count_rows (consumerName, eventID));
  mret match answer with
       | Err err => Err (errorf_wrap "failed to check inbox record" err)
       | Ok count => Ok (0 <? count)
       end.

Definition gorm_Complete (ctx : Context) (consumerName : string) (eventID : UUID)
    : GoM InboxDB (option error) :=
  answer ← ib_exec (fun now => queryInboxComplete now (consumerName, eventID));
  mret match answer with
       | Err err => Some (errorf_wrap "failed to insert inbox completion record" err)
       | Ok _ => None
       end.

(** [First] of no row is [gorm.ErrRecordNotFound]. *)
Definition gorm_GetByEventID (ctx : Context) (consumerName : string) (eventID : UUID)
    : GoM InboxDB (result error ConsumerInbox) :=
  answer ← ib_exec (fun _ => queryInboxGetByEventID (consumerName, eventID));
  let found := match answer with
               | Ok (Some model) => Ok model
               | Ok None => Err (ESentinel GormErrRecordNotFound)
               | Err e => Err e
               end in
  mret match found with
       | Err err => if errors_Is err GormErrRecordNotFound then Err (ESentinel ErrNotFound)
                    else Err (errorf_wrap "failed to get inbox record" err)
       | Ok model => Ok model
       end.

Definition gorm_InboxDeleteOlderThan (ctx : Context) (olderThan : Z)
    : GoM InboxDB (result error Z) :=
  answer ← ib_exec (fun now => queryInboxDeleteOlderThan now (microseconds olderThan));
  mret match answer with
       | Err err => Err (errorf_wrap "failed to delete old inbox records" err)
       | Ok n => Ok n
       end.

Definition gorm_inbox : InboxRepository InboxDB := {|
  IsProcessed := gorm_IsProcessed;
  Complete := gorm_Complete;
  GetByEventID := gorm_GetByEventID
|}.

(** ** Properties of the repositories *)

Definition ib_quiet (db : InboxDB) : Prop := forall n, ib_fault db n = None.

(** [Complete] is idempotent and definite: after it, whatever the table
    held, the event is processed, for this consumer and no other; the first
    completion time stands; and the record is found under the event's id. *)
Theorem complete_then_processed (ctx : Context) (name : string) (ev : UUID) (db : InboxDB)
  (Hquiet : ib_quiet db) :
  exists db',
    pgx_Complete ctx name ev db = (db', Ret None)
    /\ snd (pgx_IsProcessed ctx name ev db') = Ret (Ok true)
    /\ (forall key, key <> (name, ev) -> ib_table db' !! key = ib_table db !! key)
    /\ snd (pgx_GetByEventID ctx name ev db')
       = Ret (Ok (mkInbox name ev
                    (default (ib_clock db (ib_calls db)) (ib_table db !! (name, ev)))))
    /\ ib_table (fst (pgx_Complete ctx name ev db')) = ib_table db'.
Proof.
  set (db' := (pgx_Complete ctx name ev db).1).
  assert (Hdb : pgx_Complete ctx name ev db = (db', Ret None)
    /\ ib_fault db' = ib_fault db
    /\ ib_table db' = (queryInboxComplete (ib_clock db (ib_calls db)) (name, ev) (ib_table db)).1).
  { unfold db', pgx_Complete, mbind, GoM_bind, ib_exec.
    destruct (queryInboxComplete _ _ _) as [t' b]. by rewrite Hquiet. }
  destruct Hdb as (Hrun & Hf & Ht). clearbody db'. exists db'.
  assert (Hquiet' : ib_quiet db') by (intros n; rewrite Hf; apply Hquiet).
  assert (Hkey : ib_table db' !! (name, ev)
                 = Some (default (ib_clock db (ib_calls db)) (ib_table db !! (name, ev)))).
  { rewrite Ht. unfold queryInboxComplete.
    destruct (ib_table db !! (name, ev)) eqn:E; [done|apply lookup_insert_eq]. }
  split; [exact Hrun|].
  assert (Hc : forall now, queryInboxComplete now (name, ev) (ib_table db') = (ib_table db', false)).
  { intros now. unfold queryInboxComplete. by rewrite Hkey. }
  unfold pgx_IsProcessed, pgx_GetByEventID, pgx_Complete, mbind, GoM_bind, ib_exec,
    queryInboxCheckExists, queryInboxGetByEventID.
  rewrite !Hquiet', Hc, Hkey. split; [done|]. split; [|done].
  intros key Hne. rewrite Ht. unfold queryInboxComplete.
  destruct (ib_table db !! (name, ev)); [done|by apply lookup_insert_ne].
Qed.

Definition inbox_transport_ok (db : InboxDB) : Prop :=
  forall n e applied, ib_fault db n = Some (e, applied) ->
    errors_Is e PgxErrNoRows = false /\ errors_Is e GormErrRecordNotFound = false.

(** The GORM inbox and the pgx inbox are interchangeable: same table, same
    answers, errors included. *)
Theorem gorm_inbox_agrees (ctx : Context) (name : string) (ev : UUID) (olderThan : Z)
  (db : InboxDB) (Htransport : inbox_transport_ok db) :
  gorm_IsProcessed ctx name ev db = pgx_IsProcessed ctx name ev db
  /\ gorm_Complete ctx name ev db = pgx_Complete ctx name ev db
  /\ gorm_GetByEventID ctx name ev db = pgx_GetByEventID ctx name ev db
  /\ gorm_InboxDeleteOlderThan ctx olderThan db = pgx_InboxDeleteOlderThan ctx olderThan db.
Proof.
  split; [|split; [done|split; [|done]]].
  - unfold gorm_IsProcessed, pgx_IsProcessed, mbind, GoM_bind, ib_exec, count_rows,
      queryInboxCheckExists.
    destruct (ib_fault db (ib_calls db)) as [[e [|]]|]; try done.
    unfold mret, GoM_ret. do 4 f_equal.
    assert (Hf : filter (fun kv : (string * UUID) * Z => kv.1 = (name, ev)) (ib_table db)
                 = match ib_table db !! (name, ev) with
                   | Some c => {[ (name, ev) := c ]} | None => ∅ end).
    { apply map_eq. intros key. apply option_eq. intros c.
      rewrite map_lookup_filter_Some. cbn.
      destruct (ib_table db !! (name, ev)) as [c0|] eqn:E.
      - rewrite lookup_singleton_Some. split; [intros [H ->]; split; congruence|].
        intros [<- <-]. done.
      - rewrite lookup_empty. split; [intros [H ->]; congruence|done]. }
    rewrite Hf. destruct (ib_table db !! (name, ev)).
    + rewrite map_size_singleton. by rewrite bool_decide_eq_true_2.
    + rewrite map_size_empty. rewrite bool_decide_eq_false_2; [done|by intros [? ?]].
  - unfold gorm_GetByEventID, pgx_GetByEventID, mbind, GoM_bind, ib_exec, queryInboxGetByEventID.
    destruct (ib_fault db (ib_calls db)) as [[e applied]|] eqn:Ef.
    + destruct (Htransport _ e applied Ef) as [H1 H2]. unfold mret, GoM_ret.
      by destruct applied; rewrite H1, H2.
    + by destruct (ib_table db !! (name, ev)).
Qed.

(** A delivery without a valid outbox id has the nil event id.  Completing
    one such message completes them all: any later one, whatever its content,
    is taken for processed and acknowledged without being handled. *)
Theorem nil_event_ids_collide (uuid_Parse : string -> option UUID) (ctx : Context)
  (name : string) (m1 m2 : Message) (db : InboxDB) (Hquiet : ib_quiet db)
  (H1 : MessageAttributes m1 !! "outbox_id" = None)
  (H2 : MessageAttributes m2 !! "outbox_id" = None) :
  let id m := EventID (parseSQSMessage uuid_Parse m) in
  id m1 = id m2
  /\ snd (pgx_IsProcessed ctx name (id m2) (fst (pgx_Complete ctx name (id m1) db)))
     = Ret (Ok true).
Proof.
  cbv zeta. cbn [EventID parseSQSMessage]. unfold parse_EventID, attr_value. rewrite H1, H2.
  split; [done|]. cbn [fmap option_fmap option_map].
  unfold pgx_Complete, pgx_IsProcessed, ib_exec, mbind, GoM_bind, queryInboxComplete,
    queryInboxCheckExists.
  destruct (ib_table db !! (name, uuid_Nil)) as [c|] eqn:E; rewrite Hquiet; cbn; rewrite Hquiet;
    cbn; [rewrite E|rewrite lookup_insert_eq]; by rewrite bool_decide_eq_true_2.
Qed.
