(* ===== verification/Handlers.v ===== *)
(** * The transactional handlers of examples/app/internal/consumer

    [UserRegisteredHandler.Handle] (user_handler.go) and
    [OrderConfirmedHandler.Handle] (order_handler.go): begin, look in the inbox,
    insert the effect, complete, commit.  A handler is a program of database
    statements; deliveries run it concurrently, statement by statement, on one
    PostgreSQL database at READ COMMITTED, with failing statements, ambiguous
    commits and crashes.  JSON decoding is a parameter. *)

From Stdlib Require Import ZArith Lia Ascii.
From stdpp Require Import base option list strings gmap fin_maps.
From S2P Require Import Prelude Regex Errors Model Ports Store Consumer.

Set Default Goal Selector "!".
Open Scope string_scope.
Open Scope list_scope.
Open Scope Z_scope.

(** ** Programs of statements *)

(** The rows the two handlers insert, without the event id and the time. *)
Inductive Effect : Type :=
| WelcomeCredit (user_id : UUID) (credit_amount : Z)
| OrderConfirmation (order_id user_id : UUID) (product_id : string) (quantity : Z).

Inductive Stmt : Type :=
| BEGIN
| SELECT_EXISTS (consumerName : string) (eventID : UUID)
| INSERT_EFFECT (eventID : UUID) (row : Effect)
| INSERT_INBOX (consumerName : string) (eventID : UUID)
| COMMIT
| ROLLBACK.

(** A statement answers with an error or with a boolean: what SELECT EXISTS
    found, whether an INSERT inserted a row. *)
Inductive Prog : Type :=
| Return (err : option error)
| Do (s : Stmt) (k : result error bool -> Prog).

(** [defer f()]: [f] runs on every return. *)
Fixpoint defer (p : Prog) (f : option error -> Prog) : Prog :=
  match p with
  | Return err => f err
  | Do s k => Do s (fun a => defer (k a) f)
  end.

(** [InboxRepository.IsProcessed] and [Complete] of [h.inbox.WithTx(tx)]. *)
Definition inboxTx_IsProcessed (consumerName : string) (eventID : UUID)
    (k : result error bool -> Prog) : Prog :=
  Do (SELECT_EXISTS consumerName eventID) (fun a =>
    k match a with
      | Err err => Err (errorf_wrap "failed to check inbox record" err)
      | Ok exists_ => Ok exists_
      end).

Definition inboxTx_Complete (consumerName : string) (eventID : UUID)
    (k : option error -> Prog) : Prog :=
  Do (INSERT_INBOX consumerName eventID) (fun a =>
    k match a with
      | Err err => Some (errorf_wrap "failed to insert inbox completion record" err)
      | Ok _ => None
      end).

(** The two handlers, after [json.Unmarshal] into their event type. *)
Section Handle.
Variables (consumerName errEffect : string) (msg : SQSMessage).

(** The body of the transaction, from the check of the inbox. *)
Definition in_transaction (row : Effect) : Prog :=
  inboxTx_IsProcessed consumerName (EventID msg) (fun processed =>
  match processed with
  | Err err => Return (Some (errorf_wrap "failed to check inbox" err))
  | Ok true => Return None
  | Ok false =>
      Do (INSERT_EFFECT (EventID msg) row) (fun answer =>
      match answer with
      | Err err => Return (Some (errorf_wrap errEffect err))
      | Ok _ =>
          inboxTx_Complete consumerName (EventID msg) (fun err =>
          match err with
          | Some err => Return (Some (errorf_wrap "failed to mark as completed" err))
          | None =>
              Do COMMIT (fun answer =>
              match answer with
              | Err err => Return (Some (errorf_wrap "failed to commit transaction" err))
              | Ok _ => Return None
              end)
          end)
      end)
  end).

Definition transactional (event : result error Effect) : Prog :=
  match event with
  | Err err => Return (Some (errorf_wrap "failed to unmarshal event" err))
  | Ok row =>
      Do BEGIN (fun answer =>
      match answer with
      | Err err => Return (Some (errorf_wrap "failed to begin transaction" err))
      | Ok _ => defer (in_transaction row) (fun err => Do ROLLBACK (fun _ => Return err))
      end)
  end.
End Handle.

Record UserRegisteredEvent : Type := mkUserRegistered {
  UserID : UUID;
  Email : string;
  UserName : string
}.

Record OrderConfirmedEvent : Type := mkOrderConfirmed {
  OrderID : UUID;
  oc_UserID : UUID;
  ProductID : string;
  Quantity : Z
}.

Definition UserRegisteredHandler_Handle (unmarshal : string -> result error UserRegisteredEvent)
    (msg : SQSMessage) : Prog :=
  transactional "user" "failed to insert welcome credit" msg
    match unmarshal (raw_string (Body msg)) with
    | Err err => Err err
    | Ok event => Ok (WelcomeCredit (UserID event) 1000)
    end.

Definition OrderConfirmedHandler_Handle (unmarshal : string -> result error OrderConfirmedEvent)
    (msg : SQSMessage) : Prog :=
  transactional "order" "failed to insert order confirmation" msg
    match unmarshal (raw_string (Body msg)) with
    | Err err => Err err
    | Ok event =>
        Ok (OrderConfirmation (OrderID event) (oc_UserID event) (ProductID event) (Quantity event))
    end.

(** ** Sessions on a database at READ COMMITTED *)

(** The columns of the effects tables (migrations/002_app_tables.sql):
    [credit_amount] and [quantity] are INTEGER, which pgx refuses to encode an
    [int] for before it sends anything; [product_id] is VARCHAR(255), of UTF-8
    without a zero byte, which the server checks.  Why a row is refused, and
    whether the server was asked. *)
Definition zero_byte : ascii := ascii_of_nat 0.
Definition pg_text (s : string) : bool :=
  ValidString (bytes_of s) && forallb (fun c => negb (Ascii.eqb c zero_byte)) (bytes_of s).
Definition bad_text : error := PgError "22021" "invalid byte sequence for encoding UTF8".

Definition refused (row : Effect) : option (error * bool) :=
  match row with
  | WelcomeCredit _ amount => if in_int4 amount then None else Some (encode_error, false)
  | OrderConfirmation _ _ product_id quantity =>
      if negb (in_int4 quantity) then Some (encode_error, false)
      else if negb (pg_text product_id) then Some (bad_text, true)
      else if negb (varchar 255 product_id) then Some (too_long, true)
      else None
  end.
Definition fits (row : Effect) : bool := match refused row with None => true | Some _ => false end.

(** What a transaction wrote and nobody else sees; after a failed statement it
    is aborted, and has let go of what it wrote. *)
Record Tx : Type := mkTx {
  tx_rows : list (UUID * Effect);
  tx_inbox : list (string * UUID);
  tx_aborted : bool
}.

Record Session : Type := mkSession {
  s_msg : SQSMessage;
  s_prog : Prog;
  s_tx : option Tx
}.

(** The committed rows, in insertion order, and the deliveries in progress;
    [returned] lists the events and answers of the deliveries that ended. *)
Record Database : Type := mkDatabase {
  rows : list (UUID * Effect);
  inbox : list (string * UUID);
  sessions : gmap nat Session;
  returned : list (UUID * option error)
}.

Definition unique_violation : error :=
  PgError "23505" "duplicate key value violates unique constraint".
Definition in_failed_transaction : error :=
  PgError "25P02" "current transaction is aborted".

Definition holds_row (ev : UUID) (s : Session) : bool :=
  match s_tx s with
  | Some tx => bool_decide (ev ∈ (tx_rows tx).*1)
  | None => false
  end.
Definition holds_inbox (key : string * UUID) (s : Session) : bool :=
  match s_tx s with
  | Some tx => bool_decide (key ∈ tx_inbox tx)
  | None => false
  end.

(** Does a session other than [d] hold the key? *)
Definition other_holds (holds : Session -> bool) (d : nat) (m : gmap nat Session) : bool :=
  existsb (fun kv => holds kv.2) (map_to_list (delete d m)).

(** What one statement does to the committed tables and the transaction of the
    session [d], with its answer; [None]: it waits for another transaction.
    [unique]: the effects table has [event_id] as its primary key. *)
Definition stmt_step (unique : bool) (db : Database) (d : nat) (tx : option Tx) (s : Stmt)
    : option (list (UUID * Effect) * list (string * UUID) * option Tx * result error bool) :=
  match s, tx with
  | BEGIN, _ => Some (rows db, inbox db, Some (mkTx [] [] false), Ok true)
  | ROLLBACK, _ => Some (rows db, inbox db, None, Ok true)
  | COMMIT, Some tx =>
      if tx_aborted tx then Some (rows db, inbox db, None, Err in_failed_transaction)
      else Some (rows db ++ tx_rows tx, inbox db ++ tx_inbox tx, None, Ok true)
  | SELECT_EXISTS name ev, Some tx =>
      if tx_aborted tx then Some (rows db, inbox db, Some tx, Err in_failed_transaction)
      else Some (rows db, inbox db, Some tx,
                 Ok (bool_decide ((name, ev) ∈ inbox db ++ tx_inbox tx)))
  | INSERT_EFFECT ev row, Some tx =>
      if tx_aborted tx then Some (rows db, inbox db, Some tx, Err in_failed_transaction)
      else match refused row with
      | Some (err, asked) =>
          Some (rows db, inbox db, Some (if asked then mkTx [] [] true else tx), Err err)
      | None =>
          if unique && bool_decide (ev ∈ (rows db ++ tx_rows tx).*1) then
            Some (rows db, inbox db, Some (mkTx [] [] true), Err unique_violation)
          else if unique && other_holds (holds_row ev) d (sessions db) then None
          else Some (rows db, inbox db,
                     Some (mkTx (tx_rows tx ++ [(ev, row)]) (tx_inbox tx) false), Ok true)
      end
  | INSERT_INBOX name ev, Some tx =>
      if tx_aborted tx then Some (rows db, inbox db, Some tx, Err in_failed_transaction)
      else if bool_decide ((name, ev) ∈ inbox db ++ tx_inbox tx) then
        Some (rows db, inbox db, Some tx, Ok false)
      else if other_holds (holds_inbox (name, ev)) d (sessions db) then None
      else Some (rows db, inbox db,
                 Some (mkTx (tx_rows tx) (tx_inbox tx ++ [(name, ev)]) false), Ok true)
  | _, None => Some (rows db, inbox db, None, Err (EUser "no transaction" None []))
  end.

(** A statement that fails for another reason aborts the transaction; a COMMIT
    that fails ends it, committed ([applied]) or not. *)
Definition stmt_fail (db : Database) (tx : option Tx) (s : Stmt) (applied : bool)
    : list (UUID * Effect) * list (string * UUID) * option Tx :=
  match s, tx with
  | (BEGIN | ROLLBACK), _ | _, None => (rows db, inbox db, None)
  | COMMIT, Some tx =>
      if applied && negb (tx_aborted tx)
      then (rows db ++ tx_rows tx, inbox db ++ tx_inbox tx, None)
      else (rows db, inbox db, None)
  | _, Some tx => (rows db, inbox db, Some (mkTx [] [] true))
  end.

(** A delivery starts ([Deliver]), executes its next statement ([Step]), has it
    fail ([Failing]), returns, or dies with its process ([Crash]). *)
Inductive Event : Type :=
| Deliver (d : nat) (msg : SQSMessage)
| Step (d : nat)
| Failing (d : nat) (err : error) (applied : bool)
| Crash (d : nat).

Section Run.
Variables (Handle : SQSMessage -> Prog) (unique : bool).

Definition db_step (db : Database) (e : Event) : option Database :=
  match e with
  | Deliver d msg =>
      match sessions db !! d with
      | Some _ => None
      | None => Some (mkDatabase (rows db) (inbox db)
                        (<[d := mkSession msg (Handle msg) None]> (sessions db)) (returned db))
      end
  | Step d =>
      s ← sessions db !! d;
      match s_prog s with
      | Return err =>
          Some (mkDatabase (rows db) (inbox db) (delete d (sessions db))
                  (returned db ++ [(EventID (s_msg s), err)]))
      | Do stmt k =>
          '(rows', inbox', tx', answer) ← stmt_step unique db d (s_tx s) stmt;
          Some (mkDatabase rows' inbox'
                  (<[d := mkSession (s_msg s) (k answer) tx']> (sessions db)) (returned db))
      end
  | Failing d err applied =>
      s ← sessions db !! d;
      match s_prog s with
      | Return _ => None
      | Do stmt k =>
          let '(rows', inbox', tx') := stmt_fail db (s_tx s) stmt applied in
          Some (mkDatabase rows' inbox'
                  (<[d := mkSession (s_msg s) (k (Err err)) tx']> (sessions db)) (returned db))
      end
  | Crash d => Some (mkDatabase (rows db) (inbox db) (delete d (sessions db)) (returned db))
  end.

Fixpoint db_run (db : Database) (es : list Event) : option Database :=
  match es with
  | [] => Some db
  | e :: es' => db' ← db_step db e; db_run db' es'
  end.
End Run.

Definition empty_db : Database := mkDatabase [] [] ∅ [].

(** ** The discipline of a handler

    What the database needs of a handler, whatever the statements answer:
    the state of the transaction, and whether the handler knows that the event
    is processed. *)

Inductive Phase : Type :=
| NoTx
| Begun
| Inserted
| Completed
| Aborted.

Fixpoint disciplined (name : string) (ev : UUID) (ph : Phase) (known : bool) (p : Prog) : Prop :=
  match p with
  | Return err => err = None -> known = true
  | Do BEGIN k =>
      ph = NoTx /\ disciplined name ev Begun known (k (Ok true))
      /\ forall e, disciplined name ev NoTx known (k (Err e))
  | Do (SELECT_EXISTS n i) k =>
      ph = Begun /\ n = name /\ i = ev
      /\ (forall b, disciplined name ev ph (b || known) (k (Ok b)))
      /\ forall e, disciplined name ev Aborted known (k (Err e))
  | Do (INSERT_EFFECT i _) k =>
      ph = Begun /\ i = ev
      /\ disciplined name ev Inserted known (k (Ok true))
      /\ forall e, disciplined name ev Aborted known (k (Err e))
  | Do (INSERT_INBOX n i) k =>
      ph = Inserted /\ n = name /\ i = ev
      /\ (forall b, disciplined name ev Completed known (k (Ok b)))
      /\ forall e, disciplined name ev Aborted known (k (Err e))
  | Do COMMIT k =>
      ph = Completed /\ disciplined name ev NoTx true (k (Ok true))
      /\ forall e, disciplined name ev NoTx known (k (Err e))
  | Do ROLLBACK k => forall a, disciplined name ev NoTx known (k a)
  end.

(** The contract: the handler of the inbox consumer [name]. *)
Class TransactionalHandler (name : string) (Handle : SQSMessage -> Prog) : Prop := {
  handle_disciplined msg : disciplined name (EventID msg) NoTx false (Handle msg)
}.

Lemma transactional_disciplined name errEffect msg event :
  disciplined name (EventID msg) NoTx false (transactional name errEffect msg event).
Proof.
  destruct event as [row|err]; [|done]. cbn.
  repeat first [progress intros | split | discriminate | reflexivity | match goal with b : bool |- _ => destruct b; cbn in * end].
Qed.

#[export] Instance user_registered_handler unmarshal :
  TransactionalHandler "user" (UserRegisteredHandler_Handle unmarshal).
Proof. constructor. intros msg. apply transactional_disciplined. Qed.

#[export] Instance order_confirmed_handler unmarshal :
  TransactionalHandler "order" (OrderConfirmedHandler_Handle unmarshal).
Proof. constructor. intros msg. apply transactional_disciplined. Qed.

(** ** The invariant *)

Definition sees (name : string) (ev : UUID) (ph : Phase) (tx : option Tx) : Prop :=
  match ph with
  | NoTx => tx = None
  | Begun => tx = Some (mkTx [] [] false)
  | Inserted => exists row, tx = Some (mkTx [(ev, row)] [] false)
  | Completed => exists row, tx = Some (mkTx [(ev, row)] [(name, ev)] false)
  | Aborted => exists aborted, tx = Some (mkTx [] [] aborted)
  end.

Record SessionOk (name : string) (effects : list UUID) (s : Session) : Prop := {
  ok_prog : exists ph known,
    sees name (EventID (s_msg s)) ph (s_tx s)
    /\ disciplined name (EventID (s_msg s)) ph known (s_prog s)
    /\ (known = true -> EventID (s_msg s) ∈ effects);
  ok_fresh ev : holds_row ev s = true -> ev ∉ effects
}.

Record DbInv (name : string) (db : Database) : Prop := {
  di_nodup : NoDup (rows db).*1;
  di_agree ev : ev ∈ (rows db).*1 <-> (name, ev) ∈ inbox db;
  di_sessions d s : sessions db !! d = Some s -> SessionOk name (rows db).*1 s;
  di_exclusive d1 d2 s1 s2 ev :
    d1 <> d2 -> sessions db !! d1 = Some s1 -> sessions db !! d2 = Some s2 ->
    holds_row ev s1 = true -> holds_row ev s2 = false;
  di_returned ev : (ev, None) ∈ returned db -> ev ∈ (rows db).*1
}.

Lemma other_holds_spec holds d m :
  other_holds holds d m = false <->
  forall d' s, d' <> d -> m !! d' = Some s -> holds s = false.
Proof.
  unfold other_holds. rewrite <- not_true_iff_false, existsb_exists. split.
  - intros Hno d' s Hne Hs. apply not_true_iff_false. intros Hh. apply Hno.
    exists (d', s). split; [|done].
    apply list_elem_of_In, elem_of_map_to_list. by rewrite lookup_delete_ne.
  - intros Hall ((d' & s) & Hin & Hh). cbn in Hh.
    apply list_elem_of_In, elem_of_map_to_list in Hin.
    apply lookup_delete_Some in Hin as [Hne Hs].
    rewrite (Hall d' s) in Hh; done.
Qed.

Section Preserve.
Context (name : string).
Implicit Types (db : Database) (d : nat) (s : Session).

(** A session whose transaction holds no row fits any database. *)
Lemma holds_nothing ev msg p : holds_row ev (mkSession msg p None) = false.
Proof. done. Qed.

(** A session changes, the committed tables do not. *)
Lemma inv_session db d s' :
  DbInv name db ->
  SessionOk name (rows db).*1 s' ->
  (forall ev d' s, holds_row ev s' = true -> d' <> d -> sessions db !! d' = Some s ->
     holds_row ev s = false) ->
  DbInv name (mkDatabase (rows db) (inbox db) (<[d := s']> (sessions db)) (returned db)).
Proof.
  intros [Hnd Hag Hses Hex Hret] Hok Hfree. constructor; cbn; try done.
  - intros d' s. rewrite lookup_insert_Some. intros [[<- <-]|[_ Hs]]; [done|eauto].
  - intros d1 d2 s1 s2 ev Hne. rewrite !lookup_insert_Some.
    intros [[<- <-]|[Hn1 H1]] [[<- <-]|[Hn2 H2]] Hh.
    + done.
    + by apply (Hfree ev d2 s2).
    + apply not_true_iff_false. intros Hh2.
      by rewrite (Hfree ev d1 s1) in Hh.
    + by apply (Hex d1 d2 s1 s2 ev).
Qed.

Lemma inv_delete db d ret :
  DbInv name db ->
  (forall ev, (ev, None) ∈ ret -> ev ∈ (rows db).*1) ->
  DbInv name (mkDatabase (rows db) (inbox db) (delete d (sessions db)) ret).
Proof.
  intros [Hnd Hag Hses Hex Hret] Hr. constructor; cbn; try done.
  - intros d' s [_ Hs]%lookup_delete_Some. eauto.
  - intros d1 d2 s1 s2 ev Hne [_ H1]%lookup_delete_Some [_ H2]%lookup_delete_Some. eauto.
Qed.

(** The transaction of session [d] commits its row and its record. *)
Lemma inv_commit db d s p ev row :
  DbInv name db -> sessions db !! d = Some s ->
  EventID (s_msg s) = ev ->
  s_tx s = Some (mkTx [(ev, row)] [(name, ev)] false) ->
  (exists known, disciplined name ev NoTx known p) ->
  DbInv name (mkDatabase (rows db ++ [(ev, row)]) (inbox db ++ [(name, ev)])
                (<[d := mkSession (s_msg s) p None]> (sessions db)) (returned db)).
Proof.
  intros [Hnd Hag Hses Hex Hret] Hs Hev Htx [known Hp].
  assert (Hh : forall ev', holds_row ev' s = bool_decide (ev' ∈ [ev])).
  { intros ev'. unfold holds_row. by rewrite Htx. }
  assert (Hnew : ev ∉ (rows db).*1).
  { apply (ok_fresh _ _ _ (Hses _ _ Hs)). rewrite Hh.
    apply bool_decide_eq_true. set_solver. }
  assert (Hrows : forall ev', ev' ∈ (rows db ++ [(ev, row)]).*1 <-> ev' ∈ (rows db).*1 \/ ev' = ev).
  { intros ev'. rewrite fmap_app, elem_of_app. set_solver. }
  constructor; cbn [rows inbox sessions returned].
  - rewrite fmap_app. apply NoDup_app. split; [done|]. split; [set_solver|apply NoDup_singleton].
  - intros ev'. rewrite Hrows, elem_of_app, Hag. set_solver.
  - intros d' s'. rewrite lookup_insert_Some. intros [[<- <-]|[Hne Hs']].
    + constructor; [|done]. exists NoTx, known. split; [done|]. cbn. rewrite Hev.
      split; [done|]. intros _. apply Hrows. by right.
    + destruct (Hses _ _ Hs') as [(ph & kn & H1 & H2 & H3) Hf]. constructor.
      * exists ph, kn. split; [done|]. split; [done|]. intros Hk. apply Hrows. left. auto.
      * intros ev' Hh' [Hin| ->]%Hrows; [by apply (Hf ev')|].
        rewrite (Hex d d' s s' ev) in Hh'; try done.
        rewrite Hh. apply bool_decide_eq_true. set_solver.
  - intros d1 d2 s1 s2 ev' Hne. rewrite !lookup_insert_Some.
    intros [[<- <-]|[Hn1 H1]] [[<- <-]|[Hn2 H2]] Hh'; try done. by apply (Hex d1 d2 s1 s2 ev').
  - intros ev' Hin. apply Hrows. auto.
Qed.
End Preserve.

Section Steps.
Context (name : string).
Implicit Types (db : Database) (d : nat) (s : Session).

(** The session [s] goes on with [p], in a transaction that holds no row it
    did not hold before. *)
Lemma inv_continue db d s p tx ph known :
  DbInv name db -> sessions db !! d = Some s ->
  sees name (EventID (s_msg s)) ph tx ->
  disciplined name (EventID (s_msg s)) ph known p ->
  (known = true -> EventID (s_msg s) ∈ (rows db).*1) ->
  (forall ev, holds_row ev (mkSession (s_msg s) p tx) = true -> holds_row ev s = true) ->
  DbInv name (mkDatabase (rows db) (inbox db)
                (<[d := mkSession (s_msg s) p tx]> (sessions db)) (returned db)).
Proof.
  intros Hinv Hs Hsees Hp Hknown Hholds. apply inv_session; [done| |].
  - constructor; [by exists ph, known|]. intros ev Hh.
    apply (ok_fresh _ _ _ (di_sessions _ _ Hinv _ _ Hs)). auto.
  - intros ev d' s' Hh Hne Hs'. apply (di_exclusive _ _ Hinv d d' s s'); try done. auto.
Qed.

(** It inserts its row, which nobody holds and which is not committed. *)
Lemma inv_insert db d s p row known :
  DbInv name db -> sessions db !! d = Some s ->
  let ev := EventID (s_msg s) in
  ev ∉ (rows db).*1 ->
  other_holds (holds_row ev) d (sessions db) = false ->
  disciplined name ev Inserted known p ->
  (known = true -> ev ∈ (rows db).*1) ->
  DbInv name (mkDatabase (rows db) (inbox db)
                (<[d := mkSession (s_msg s) p (Some (mkTx [(ev, row)] [] false))]> (sessions db))
                (returned db)).
Proof.
  intros Hinv Hs ev Hnew Hfree Hp Hknown.
  assert (Hh : forall ev', holds_row ev' (mkSession (s_msg s) p (Some (mkTx [(ev, row)] [] false)))
                      = bool_decide (ev' ∈ [ev])) by done.
  apply inv_session; [done| |].
  - constructor.
    + exists Inserted, known. split; [by exists row|done].
    + intros ev'. rewrite Hh. intros H%bool_decide_eq_true. set_solver.
  - intros ev' d' s'. rewrite Hh. intros H%bool_decide_eq_true Hne Hs'.
    apply list_elem_of_singleton in H as ->.
    by apply (proj1 (other_holds_spec _ _ _) Hfree d' s').
Qed.

(** A transaction that has its row and no record cannot find the record, nor
    wait for it. *)
Lemma no_record db d s row :
  DbInv name db -> sessions db !! d = Some s ->
  let ev := EventID (s_msg s) in
  s_tx s = Some (mkTx [(ev, row)] [] false) ->
  (name, ev) ∉ inbox db /\ other_holds (holds_inbox (name, ev)) d (sessions db) = false.
Proof.
  intros Hinv Hs ev Htx.
  assert (Hh : holds_row ev s = true).
  { unfold holds_row. rewrite Htx. apply bool_decide_eq_true. set_solver. }
  split.
  - rewrite <- (di_agree _ _ Hinv). apply (ok_fresh _ _ _ (di_sessions _ _ Hinv _ _ Hs) ev Hh).
  - apply other_holds_spec. intros d' s' Hne Hs'.
    destruct (ok_prog _ _ _ (di_sessions _ _ Hinv _ _ Hs')) as (ph & known & Hsees & _ & _).
    pose proof (di_exclusive _ _ Hinv d d' s s' ev (not_eq_sym Hne) Hs Hs' Hh) as Hno.
    unfold holds_inbox. unfold holds_row in Hno.
    destruct ph; cbn in Hsees; [by rewrite Hsees|by rewrite Hsees|..];
      destruct Hsees as [row' E]; rewrite E in *; cbn in *; [done| |done].
    apply bool_decide_eq_false in Hno. apply bool_decide_eq_false. set_solver.
Qed.

(** Every statement, executed or failing, keeps the invariant. *)
Lemma stmt_inv db d s stmt k r' i' tx' a :
  DbInv name db -> sessions db !! d = Some s -> s_prog s = Do stmt k ->
  stmt_step true db d (s_tx s) stmt = Some (r', i', tx', a) ->
  DbInv name (mkDatabase r' i' (<[d := mkSession (s_msg s) (k a) tx']> (sessions db))
                (returned db)).
Proof.
  intros Hinv Hs Hk Hstep.
  destruct (ok_prog _ _ _ (di_sessions _ _ Hinv _ _ Hs)) as (ph & known & Hsees & Hp & Hkn).
  rewrite Hk in Hp.
  destruct stmt as [|n i|i row|n i| |]; cbn [disciplined] in Hp.
  - destruct Hp as (-> & Hp & _). simplify_eq/=. by apply (inv_continue _ _ _ _ _ Begun known).
  - destruct Hp as (-> & -> & -> & Hp & _). cbn in Hsees. rewrite Hsees in Hstep.
    simplify_eq/=. rewrite app_nil_r.
    eapply (inv_continue _ _ _ _ _ Begun); [done|done|done|apply Hp| |done].
    rewrite orb_true_iff, bool_decide_eq_true, <- (di_agree _ _ Hinv). intros [H|H]; auto.
  - destruct Hp as (-> & -> & Hp & He). cbn in Hsees. rewrite Hsees in Hstep. cbn in Hstep.
    rewrite app_nil_r in Hstep.
    destruct (refused row) as [[err asked]|].
    { simplify_eq. apply (inv_continue _ _ _ _ _ Aborted known); try done.
      - exists asked. by destruct asked.
      - intros ev. by destruct asked. }
    destruct (decide (EventID (s_msg s) ∈ (rows db).*1)) as [Hin|Hnew].
    + rewrite bool_decide_eq_true_2 in Hstep by done. simplify_eq.
      apply (inv_continue _ _ _ _ _ Aborted known); try done. by exists true.
    + rewrite bool_decide_eq_false_2 in Hstep by done.
      destruct (other_holds _ _ _) eqn:Hfree; [done|]. simplify_eq.
      by apply (inv_insert _ _ _ _ _ known).
  - destruct Hp as (-> & -> & -> & Hp & _). destruct Hsees as [row Htx].
    destruct (no_record _ _ _ _ Hinv Hs Htx) as [Hno Hfree].
    rewrite Htx in Hstep. cbn in Hstep.
    rewrite app_nil_r, bool_decide_eq_false_2, Hfree in Hstep by done. simplify_eq.
    apply (inv_continue _ _ _ _ _ Completed known); try done; [by exists row|].
    intros ev. unfold holds_row. by rewrite Htx.
  - destruct Hp as (-> & Hp & _). destruct Hsees as [row Htx]. rewrite Htx in Hstep.
    simplify_eq/=. by apply (inv_commit name db d s); eauto.
  - simplify_eq/=. by apply (inv_continue _ _ _ _ _ NoTx known).
Qed.

Lemma fail_inv db d s stmt k err applied r' i' tx' :
  DbInv name db -> sessions db !! d = Some s -> s_prog s = Do stmt k ->
  stmt_fail db (s_tx s) stmt applied = (r', i', tx') ->
  DbInv name (mkDatabase r' i' (<[d := mkSession (s_msg s) (k (Err err)) tx']> (sessions db))
                (returned db)).
Proof.
  intros Hinv Hs Hk Hfail.
  destruct (ok_prog _ _ _ (di_sessions _ _ Hinv _ _ Hs)) as (ph & known & Hsees & Hp & Hkn).
  rewrite Hk in Hp.
  destruct stmt as [|n i|i row|n i| |]; cbn [disciplined] in Hp.
  - destruct Hp as (-> & _ & Hp). simplify_eq/=. by apply (inv_continue _ _ _ _ _ NoTx known).
  - destruct Hp as (-> & -> & -> & _ & Hp). cbn in Hsees. rewrite Hsees in Hfail.
    simplify_eq/=. apply (inv_continue _ _ _ _ _ Aborted known); try done. by exists true.
  - destruct Hp as (-> & -> & _ & Hp). cbn in Hsees. rewrite Hsees in Hfail.
    simplify_eq/=. apply (inv_continue _ _ _ _ _ Aborted known); try done. by exists true.
  - destruct Hp as (-> & -> & -> & _ & Hp). destruct Hsees as [row Htx]. rewrite Htx in Hfail.
    simplify_eq/=. apply (inv_continue _ _ _ _ _ Aborted known); try done. by exists true.
  - destruct Hp as (-> & _ & Hp). destruct Hsees as [row Htx]. rewrite Htx in Hfail.
    destruct applied; simplify_eq/=; [by apply (inv_commit name db d s); eauto|].
    by apply (inv_continue _ _ _ _ _ NoTx known).
  - simplify_eq/=. by apply (inv_continue _ _ _ _ _ NoTx known).
Qed.

Context (Handle : SQSMessage -> Prog) `{!TransactionalHandler name Handle}.

Lemma db_step_inv db e db' :
  DbInv name db -> db_step Handle true db e = Some db' -> DbInv name db'.
Proof.
  intros Hinv. destruct e as [d msg|d|d err applied|d]; cbn [db_step].
  - destruct (sessions db !! d); intros; simplify_eq. apply inv_session; [done| |done].
    constructor; [|done]. exists NoTx, false. split; [done|]. split; [|done].
    apply (handle_disciplined (Handle := Handle) msg).
  - destruct (sessions db !! d) as [s|] eqn:Hs; [|done]. cbn.
    destruct (s_prog s) as [err|stmt k] eqn:Hp.
    + intros; simplify_eq. apply inv_delete; [done|]. intros ev.
      rewrite elem_of_app, list_elem_of_singleton. intros [Hin|E].
      * by apply (di_returned _ _ Hinv).
      * destruct (ok_prog _ _ _ (di_sessions _ _ Hinv _ _ Hs)) as (ph & kn & _ & H & Hkn).
        rewrite Hp in H. simplify_eq. auto.
    + destruct (stmt_step true db d (s_tx s) stmt) as [[[[r' i'] tx'] a]|] eqn:E; [|done].
      intros; simplify_eq/=. by apply (stmt_inv db d s stmt k).
  - destruct (sessions db !! d) as [s|] eqn:Hs; [|done]. cbn.
    destruct (s_prog s) as [|stmt k] eqn:Hp; [done|].
    destruct (stmt_fail db (s_tx s) stmt applied) as [[r' i'] tx'] eqn:E.
    intros; simplify_eq/=. by apply (fail_inv db d s stmt k err applied).
  - intros; simplify_eq. apply inv_delete; [done|]. apply (di_returned _ _ Hinv).
Qed.

Lemma db_run_inv db es db' :
  DbInv name db -> db_run Handle true db es = Some db' -> DbInv name db'.
Proof.
  revert db; induction es as [|e es IH]; cbn; intros db Hinv Hrun; [by simplify_eq|].
  destruct (db_step Handle true db e) as [db1|] eqn:E; [|done].
  apply (IH db1); [by apply (db_step_inv db e)|done].
Qed.
End Steps.

Lemma empty_db_inv name : DbInv name empty_db.
Proof.
  constructor; cbn; try done.
  - constructor.
  - intros ev. by rewrite !elem_of_nil.
  - intros ev H. by apply elem_of_nil in H.
Qed.

(** ** Properties *)

(** Exactly-once effects. Whatever the interleaving of deliveries, the
    statements that fail, the commits whose answer is lost and the processes that
    die: an event never has two effects, it has its effect exactly when it is in
    the inbox, and a delivery acknowledged by the handler has it. *)
Theorem handler_exactly_once (name : string) (Handle : SQSMessage -> Prog)
  (Hhandler : TransactionalHandler name Handle) (es : list Event) (db : Database)
  (Hrun : db_run Handle true empty_db es = Some db) :
  NoDup (rows db).*1
  /\ (forall ev, ev ∈ (rows db).*1 <-> (name, ev) ∈ inbox db)
  /\ (forall ev, (ev, None) ∈ returned db -> ev ∈ (rows db).*1).
Proof.
  destruct (db_run_inv name Handle empty_db es db (empty_db_inv name) Hrun). auto.
Qed.

(** *** A delivery that runs alone *)

Section Alone.
Context (Handle : SQSMessage -> Prog) (d : nat) (msg : SQSMessage).

Definition alone r i p tx ret : Database := mkDatabase r i {[ d := mkSession msg p tx ]} ret.

Lemma other_holds_alone holds s : other_holds holds d {[ d := s ]} = false.
Proof. unfold other_holds. by rewrite delete_singleton_eq, map_to_list_empty. Qed.

Lemma step_alone r i stmt k tx ret r' i' tx' a es :
  stmt_step true (alone r i (Do stmt k) tx ret) d tx stmt = Some (r', i', tx', a) ->
  db_run Handle true (alone r i (Do stmt k) tx ret) (Step d :: es)
  = db_run Handle true (alone r' i' (k a) tx' ret) es.
Proof.
  intros E. unfold alone in E. unfold alone; cbn [db_run db_step sessions].
  rewrite lookup_singleton_eq. cbn [mbind option_bind s_prog s_tx s_msg]. rewrite E.
  cbn [mbind option_bind returned]. by rewrite insert_singleton_eq.
Qed.

Lemma return_alone r i err tx ret :
  db_run Handle true (alone r i (Return err) tx ret) [Step d]
  = Some (mkDatabase r i ∅ (ret ++ [(EventID msg, err)])).
Proof.
  unfold alone; cbn [db_run db_step sessions].
  rewrite lookup_singleton_eq. cbn [mbind option_bind s_prog s_tx s_msg rows inbox sessions returned].
  by rewrite delete_singleton_eq.
Qed.
End Alone.

Lemma transactional_alone name errEffect Handle d msg row r i ret :
  Handle msg = transactional name errEffect msg (Ok row) -> fits row = true ->
  (EventID msg ∈ r.*1 <-> (name, EventID msg) ∈ i) ->
  exists n i',
    db_run Handle true (mkDatabase r i ∅ ret) (Deliver d msg :: replicate n (Step d))
    = Some (mkDatabase (r ++ if decide (EventID msg ∈ r.*1) then [] else [(EventID msg, row)])
              i' ∅ (ret ++ [(EventID msg, None)])).
Proof.
  intros HH Hfits Hagree.
  assert (Hstart : forall es, db_run Handle true (mkDatabase r i ∅ ret) (Deliver d msg :: es)
    = db_run Handle true (alone d msg r i (transactional name errEffect msg (Ok row)) None ret) es).
  { intros es. cbn [db_run db_step sessions]. rewrite lookup_empty, HH. done. }
  case_decide as Hin.
  - exists 4%nat, i. rewrite Hstart, app_nil_r. cbn [transactional replicate].
    erewrite step_alone by reflexivity. cbn [in_transaction inboxTx_IsProcessed defer].
    erewrite step_alone by reflexivity. cbn [tx_inbox inbox alone].
    rewrite app_nil_r, bool_decide_eq_true_2 by (by apply Hagree). cbn [defer].
    erewrite step_alone by reflexivity. apply return_alone.
  - assert (Hi : (name, EventID msg) ∉ i) by (by rewrite <- Hagree).
    exists 7%nat, (i ++ [(name, EventID msg)]). rewrite Hstart. cbn [transactional replicate].
    erewrite step_alone by reflexivity. cbn [in_transaction inboxTx_IsProcessed defer].
    erewrite step_alone by reflexivity. cbn [tx_inbox inbox alone].
    rewrite app_nil_r, bool_decide_eq_false_2 by done. cbn [defer].
    erewrite step_alone.
    2: { unfold fits in Hfits. cbn. destruct (refused row); [done|].
         rewrite app_nil_r, bool_decide_eq_false_2 by done.
         unfold alone; cbn [sessions]. by rewrite other_holds_alone. }
    cbn [inboxTx_Complete defer].
    erewrite step_alone.
    2: { cbn. rewrite app_nil_r, bool_decide_eq_false_2 by done.
         unfold alone; cbn [sessions]. by rewrite other_holds_alone. }
    cbn [defer app]. erewrite step_alone by reflexivity. cbn [defer].
    erewrite step_alone by reflexivity. apply return_alone.
Qed.

(** Redelivery recovers. After any history, however many deliveries failed
    or died, one more delivery of a decodable message that meets no failure ends,
    is acknowledged, and leaves the event with its one effect. *)
Theorem redelivery_completes (unmarshal : string -> result error UserRegisteredEvent)
  (es : list Event) (db : Database) (d : nat) (msg : SQSMessage) (event : UserRegisteredEvent)
  (Hrun : db_run (UserRegisteredHandler_Handle unmarshal) true empty_db es = Some db)
  (Hidle : sessions db = ∅)
  (Hbody : unmarshal (raw_string (Body msg)) = Ok event) :
  let Handle := UserRegisteredHandler_Handle unmarshal in
  let ev := EventID msg in
  exists n db',
    db_run Handle true db (Deliver d msg :: replicate n (Step d)) = Some db'
    /\ returned db' = returned db ++ [(ev, None)]
    /\ rows db' = rows db ++ (if decide (ev ∈ (rows db).*1) then []
                              else [(ev, WelcomeCredit (UserID event) 1000)])
    /\ ("user", ev) ∈ inbox db'.
Proof.
  intros Handle ev. pose proof (db_run_inv "user" Handle _ _ _ (empty_db_inv _) Hrun) as Hinv.
  destruct (transactional_alone "user" "failed to insert welcome credit" Handle d msg
              (WelcomeCredit (UserID event) 1000) (rows db) (inbox db) (returned db))
    as (n & i' & Hn).
  { unfold Handle, UserRegisteredHandler_Handle. by rewrite Hbody. }
  { done. }
  { apply (di_agree _ _ Hinv). }
  assert (Hdb : db = mkDatabase (rows db) (inbox db) ∅ (returned db)).
  { rewrite <- Hidle. by destruct db. }
  rewrite <- Hdb in Hn. eexists n, _. split; [exact Hn|].
  split; [done|]. split; [done|].
  pose proof (db_run_inv "user" Handle _ _ _ Hinv Hn) as Hinv'.
  apply (di_agree _ _ Hinv'). apply (di_returned _ _ Hinv'). cbn.
  apply elem_of_app. right. by apply list_elem_of_singleton.
Qed.

(** *** Without a key on the effects table *)

Definition demo_unmarshal (body : string) : result error UserRegisteredEvent :=
  if bool_decide (body = "") then Err (EUser "unexpected end of JSON input" None [])
  else Ok (mkUserRegistered body "a@example.com" "A").
Definition demo_delivery (receipt : string) : SQSMessage :=
  mkSQS "m" receipt (Some "u1") "user.registered" "e1" "k" None 1.

(** An order.confirmed event whose quantity is no INTEGER decodes, and no delivery
    of it succeeds. *)
Example oversized_quantity_fails :
  let unmarshal _ := Ok (mkOrderConfirmed "o1" "u1" "p1" 3000000000) in
  match db_run (OrderConfirmedHandler_Handle unmarshal) true empty_db
          (Deliver 1 (demo_delivery "r1") :: replicate 5 (Step 1)) with
  | Some db => rows db = []
      /\ returned db = [("e1", Some (errorf_wrap "failed to insert order confirmation" encode_error))]
  | None => False
  end.
Proof. vm_compute. by split. Qed.

(** Two deliveries of the same event, the second from the republication of the
    outbox, whose statements alternate until the second must wait. *)
Definition alternate : list Event :=
  [Deliver 1 (demo_delivery "r1"); Deliver 2 (demo_delivery "r2");
   Step 1; Step 2; Step 1; Step 2; Step 1; Step 2; Step 1;
   Step 1; Step 2; Step 2].

(** The inbox alone does not deduplicate. The record's ON CONFLICT DO
    NOTHING is no error, and its answer is dropped: when the effects table has no
    key of its own, as in the usage pattern of the interface, two overlapping
    deliveries of one event both pass the check, both commit, and both are
    acknowledged, with two effects for one record. With the key, the second
    insertion waits. *)
Theorem inbox_alone_does_not_deduplicate :
  let Handle := UserRegisteredHandler_Handle demo_unmarshal in
  (exists db,
    db_run Handle false empty_db (alternate ++ [Step 1; Step 1; Step 2; Step 2]) = Some db
    /\ rows db = [("e1", WelcomeCredit "u1" 1000); ("e1", WelcomeCredit "u1" 1000)]
    /\ inbox db = [("user", "e1")]
    /\ returned db = [("e1", None); ("e1", None)])
  /\ db_run Handle true empty_db alternate = None.
Proof. split; [eexists; split; [vm_compute; reflexivity|done]|vm_compute; reflexivity]. Qed.

(** ** The other properties at work *)

(** A commit whose answer is lost: it took effect, the handler sees an error and
    its process dies. *)
Definition lost_commit : list Event :=
  [Deliver 1 (demo_delivery "r1"); Step 1; Step 1; Step 1; Step 1;
   Failing 1 (EUser "connection reset" None []) true; Crash 1].

Lemma lost_commit_result :
  match db_run (UserRegisteredHandler_Handle demo_unmarshal) true empty_db lost_commit with
  | Some db => (rows db).*1 = ["e1"] /\ sessions db = ∅
  | None => False
  end.
Proof. vm_compute. by split. Qed.

Lemma lost_commit_run :
  exists db, db_run (UserRegisteredHandler_Handle demo_unmarshal) true empty_db lost_commit
             = Some db /\ (rows db).*1 = ["e1"] /\ sessions db = ∅.
Proof.
  pose proof lost_commit_result as H.
  destruct (db_run _ true empty_db lost_commit) as [db|]; [by exists db|done].
Qed.

Lemma handler_exactly_once_witness :
  exists db, db_run (UserRegisteredHandler_Handle demo_unmarshal) true empty_db lost_commit
             = Some db /\ ("user", "e1") ∈ inbox db.
Proof.
  destruct lost_commit_run as (db & Hrun & Hrows & _). exists db. split; [exact Hrun|].
  apply (proj1 (proj2 (handler_exactly_once "user" (UserRegisteredHandler_Handle demo_unmarshal)
           (user_registered_handler demo_unmarshal) lost_commit db Hrun)) "e1").
  rewrite Hrows. by left.
Defined.

Lemma redelivery_completes_witness :
  exists db n db',
    db_run (UserRegisteredHandler_Handle demo_unmarshal) true empty_db lost_commit = Some db
    /\ db_run (UserRegisteredHandler_Handle demo_unmarshal) true db
         (Deliver 2 (demo_delivery "r2") :: replicate n (Step 2)) = Some db'
    /\ rows db' = rows db.
Proof.
  destruct lost_commit_run as (db & Hrun & Hrows & Hidle).
  destruct (redelivery_completes demo_unmarshal lost_commit db 2 (demo_delivery "r2")
              (mkUserRegistered "u1" "a@example.com" "A") Hrun Hidle eq_refl)
    as (n & db' & H1 & _ & H2 & _).
  exists db, n, db'. split; [exact Hrun|]. split; [exact H1|]. rewrite H2.
  rewrite decide_True; [apply app_nil_r|]. rewrite Hrows. by left.
Defined.
