(* ===== verification/Pipeline.v ===== *)
(** * From the outbox to the effect

    The dispatchers (System.v), the queue between the publisher
    (SqsPublisher.v) and the consumer (Consumer.v), and the transactional
    handlers (Handlers.v) in one system: what the broker accepted is delivered
    any number of times, in any order, at any time, and what the handlers leave
    in their database is tied to the rows of the outbox. *)

From Stdlib Require Import ZArith Lia.
From stdpp Require Import base option list strings gmap fin_maps sorting.
From S2P Require Import Prelude Errors Model Ports Store PgxRepo OutboxSafety System SqsPublisher.
From S2P Require Import Consumer Handlers.

Set Default Goal Selector "!".
Open Scope string_scope.
Open Scope list_scope.
Open Scope Z_scope.

(** ** Messages keep the content of their row *)

(** What a message and a row of its id have in common. *)
Definition same_content (r m : Outbox) : Prop :=
  EventType r = EventType m /\ Payload r = Payload m /\ Metadata r = Metadata m
  /\ IdempotencyKey r = IdempotencyKey m.

Definition content_of (t : table) (m : Outbox) : Prop :=
  forall r, t !! ID m = Some r -> same_content r m.

Lemma change_content c r r' m : change c r r' -> same_content r m -> same_content r' m.
Proof. by destruct 1. Qed.

#[local] Arguments repo_call : simpl never.

Section Content.
Context (jsonb : string -> option string) (repo : OutboxRepo) (ctx : Context).
Abbreviation step := (sys_step jsonb repo ctx).

Lemma content_step e s s' m :
  Inv s -> step e s = Some s' -> ID m ∈ s_used s -> content_of (s_table s) m ->
  content_of (s_table s') m.
Proof.
  intros Hinv Hs Hu Hm.
  destruct (step_call jsonb repo ctx e s s' Hs) as [->|(c & Hc & _ & Hins & ->)]; [done|].
  intros r' Hr'.
  destruct (inv_call_rows jsonb repo ctx s c Hinv Hc (ID m) r' Hr')
    as [(r & Hr & Hch)|(p & -> & _ & Hid & _)].
  - apply (change_content c r); [done|by apply Hm].
  - destruct (Hins p eq_refl). by rewrite <- Hid.
Qed.

(** What a fetch gives are rows of the table. *)
Lemma fetch_content limit db msgs m :
  env_ok (current_env db) -> keyed (db_table db) ->
  snd (pgx_FetchLockAndMarkPublishing ctx limit db) = Ret (Ok msgs) -> m ∈ msgs ->
  exists r, db_table db !! ID m = Some r /\ same_content r m.
Proof.
  intros Henv Hk. unfold pgx_FetchLockAndMarkPublishing, exec, queryFetchLockAndMarkPublishing.
  destruct (limit <? 0); [by destruct (e_fault _) as [[? ?]|]|].
  destruct (e_fault _) as [[? ?]|]; [done|]. intros [= <-] Hm.
  apply list_elem_of_fmap in Hm as (m' & -> & Hm). rewrite (scan_ok _ Henv) in Hm.
  apply list_elem_of_fmap in Hm as (r & -> & Hr). exists r.
  pose proof (locked_in_table _ Henv (Z.to_nat limit) _ Hk) as Hin.
  rewrite Forall_forall in Hin. split; [exact (Hin r Hr)|by repeat split].
Qed.

Lemma held_step e s s' h' :
  Inv s -> step e s = Some s' -> h' ∈ s_held s' ->
  (exists h, h ∈ s_held s /\ h_msg h' = h_msg h)
  \/ exists r, s_table s !! ID (h_msg h') = Some r /\ same_content r (h_msg h').
Proof.
  intros Hinv Hs Hh. destruct e as [p|w limit|i answer accepted|i|w|w| | |ss age]; simpl in Hs.
  - case_bool_decide; [discriminate|]. injection Hs as <-. left. by exists h'.
  - destruct (existsb _ _); [discriminate|]. injection Hs as <-. cbn [s_held call] in Hh.
    apply elem_of_app in Hh as [Hh|Hh]; [left; by exists h'|right].
    apply list_elem_of_fmap in Hh as (m & -> & Hm).
    destruct (snd _) as [[msgs|?]|?] eqn:E; try by apply not_elem_of_nil in Hm.
    apply (fetch_content limit _ msgs m); [apply (inv_env s Hinv)|apply (inv_wf s Hinv)|done|done].
  - destruct (s_held s !! i) as [h|] eqn:Ei; simpl in Hs; [|discriminate].
    assert (Hin : h' ∈ <[i := mkHeld (h_worker h) (h_msg h) (Some answer)]> (s_held s)).
    { destruct (h_answer h), answer, accepted; try discriminate; by injection Hs as <-. }
    left. apply list_elem_of_lookup in Hin as [j Hj].
    destruct (decide (j = i)) as [->|Hne].
    + rewrite list_lookup_insert_eq in Hj by (by eapply lookup_lt_Some). injection Hj as <-.
      exists h. split; [by eapply list_elem_of_lookup_2|done].
    + rewrite list_lookup_insert_ne in Hj by done. exists h'.
      split; [by eapply list_elem_of_lookup_2|done].
  - destruct (s_held s !! i) as [h|] eqn:Ei; simpl in Hs; [|discriminate].
    destruct (closing_call h) as [c|]; simpl in Hs; [|discriminate]. injection Hs as <-.
    left. exists h'. split; [|done].
    eapply elem_of_submseteq; [exact Hh|]. apply sublist_submseteq, sublist_delete.
  - injection Hs as <-. left. exists h'. cbn in Hh.
    by apply list_elem_of_In, List.filter_In in Hh as [Hh%list_elem_of_In _].
  - injection Hs as <-. left. exists h'. cbn in Hh.
    by apply list_elem_of_In, List.filter_In in Hh as [Hh%list_elem_of_In _].
  - injection Hs as <-. left. by exists h'.
  - injection Hs as <-. left. by exists h'.
  - injection Hs as <-. left. by exists h'.
Qed.

(** The message of a publish that reached the broker. *)
Definition accepted_by (e : System.Event) (s : Sys) : list Outbox :=
  match e with
  | EPublish i _ true => match s_held s !! i with Some h => [h_msg h] | None => [] end
  | _ => []
  end.

#[local] Ltac nothing_published :=
  cbn [call s_sent s_used s_db]; rewrite ?repo_call_env;
  repeat (split; [first [done|by left]|]); by intros ? ?%not_elem_of_nil.

Lemma accepted_step e s s' :
  step e s = Some s' ->
  s_sent s' = (ID <$> accepted_by e s) ++ s_sent s
  /\ (forall id, id ∈ s_used s -> id ∈ s_used s')
  /\ (forall n, db_env (s_db s') n = db_env (s_db s) n)
  /\ (forall id, id ∈ s_used s' -> id ∈ s_used s \/ id = e_uuid (current_env (s_db s)))
  /\ forall m, m ∈ accepted_by e s -> exists h, h ∈ s_held s /\ m = h_msg h.
Proof.
  intros Hs. destruct e as [p|w limit|i answer accepted|i|w|w| | |ss age]; simpl in Hs |- *.
  - case_bool_decide; [discriminate|]. injection Hs as <-. cbn. rewrite repo_call_env.
    split; [done|]. split; [by right|]. split; [done|]. split; [|by intros ? ?%not_elem_of_nil].
    intros id [->|Hid]%elem_of_cons; [by right|by left].
  - destruct (existsb _ _); [discriminate|]. injection Hs as <-. nothing_published.
  - destruct (s_held s !! i) as [h|] eqn:Ei; simpl in Hs; [|discriminate].
    assert (Hin : h ∈ s_held s) by (by eapply list_elem_of_lookup_2).
    destruct (h_answer h), answer, accepted; try discriminate; injection Hs as <-;
      try nothing_published; cbn;
      (split; [done|]; split; [done|]; split; [done|]; split; [by left|]; intros m Hm);
      apply list_elem_of_singleton in Hm as ->; by exists h.
  - destruct (s_held s !! i) as [h|] eqn:Ei; simpl in Hs; [|discriminate].
    destruct (closing_call h) as [c|]; simpl in Hs; [|discriminate]. injection Hs as <-.
    nothing_published.
  - injection Hs as <-. nothing_published.
  - injection Hs as <-. nothing_published.
  - injection Hs as <-. nothing_published.
  - injection Hs as <-. nothing_published.
  - injection Hs as <-. nothing_published.
Qed.
End Content.

(** ** Where the effects of a handler come from *)

(** Every effect a program inserts is for the event [ev] and satisfies [P]. *)
Fixpoint writes (ev : UUID) (P : Effect -> Prop) (p : Prog) : Prop :=
  match p with
  | Return _ => True
  | Do s k =>
      match s with INSERT_EFFECT ev' row => ev' = ev /\ P row | _ => True end
      /\ forall a, writes ev P (k a)
  end.

Lemma writes_mono ev (P Q : Effect -> Prop) p :
  (forall row, P row -> Q row) -> writes ev P p -> writes ev Q p.
Proof.
  intros HPQ. induction p as [err|s k IH]; [done|]. intros [Hs Hk].
  split; [|intros a; by apply IH]. destruct s; try done. destruct Hs; auto.
Qed.

Lemma transactional_writes name errEffect msg event (P : Effect -> Prop) :
  (forall row, event = Ok row -> P row) ->
  writes (EventID msg) P (transactional name errEffect msg event).
Proof.
  intros HP. destruct event as [row|err]; [|done]. specialize (HP row eq_refl). cbn.
  repeat first [progress intros | split | done
               | match goal with |- context [match ?a with _ => _ end] => destruct a end; cbn].
Qed.

Section Provenance.
Context (From : UUID -> Effect -> Prop).

Abbreviation from_all l := (Forall (fun kv => From kv.1 kv.2) l).

Record DbFrom (db : Database) : Prop := {
  from_rows : from_all (rows db);
  from_sessions d s : sessions db !! d = Some s ->
    writes (EventID (s_msg s)) (From (EventID (s_msg s))) (s_prog s)
    /\ forall tx, s_tx s = Some tx -> from_all (tx_rows tx)
}.

Lemma stmt_from db d tx s ev rows' inbox' tx' answer :
  from_all (rows db) -> (forall t, tx = Some t -> from_all (tx_rows t)) ->
  match s with INSERT_EFFECT ev' row => ev' = ev /\ From ev row | _ => True end ->
  stmt_step true db d tx s = Some (rows', inbox', tx', answer) ->
  from_all rows' /\ forall t, tx' = Some t -> from_all (tx_rows t).
Proof.
  intros Hr Ht Hs E. destruct tx as [tx|]; destruct s; cbn [stmt_step] in E;
    try specialize (Ht tx eq_refl); repeat (break_hyp E; try discriminate);
    injection E as <- <- <- <-; split; try done; try (by apply Forall_app);
    intros t [= <-]; cbn [tx_rows]; try done; try (by constructor).
  all: try (by apply Forall_app; split; [done|constructor; [by destruct Hs as [-> ?]|done]]).
Qed.

Lemma fail_from db tx s applied rows' inbox' tx' :
  from_all (rows db) -> (forall t, tx = Some t -> from_all (tx_rows t)) ->
  stmt_fail db tx s applied = (rows', inbox', tx') ->
  from_all rows' /\ forall t, tx' = Some t -> from_all (tx_rows t).
Proof.
  intros Hr Ht E. destruct tx as [tx|]; destruct s; cbn [stmt_fail] in E;
    try specialize (Ht tx eq_refl); repeat (break_hyp E; try discriminate);
    injection E as <- <- <-; split; try done; try (by apply Forall_app);
    intros t [= <-]; by constructor.
Qed.

Lemma db_step_from Handle db e db' :
  DbFrom db ->
  (forall d msg, e = Deliver d msg -> writes (EventID msg) (From (EventID msg)) (Handle msg)) ->
  db_step Handle true db e = Some db' -> DbFrom db'.
Proof.
  intros [Hrows Hsess] Hd Hs.
  assert (Hinsert : forall d s r i ret, from_all r ->
    writes (EventID (s_msg s)) (From (EventID (s_msg s))) (s_prog s) ->
    (forall tx, s_tx s = Some tx -> from_all (tx_rows tx)) ->
    DbFrom (mkDatabase r i (<[d := s]> (sessions db)) ret)).
  { intros d s r i ret Hr Hw Ht. split; [done|]. intros d' s'. cbn [sessions].
    rewrite lookup_insert. case_decide; [by intros [= <-]|by apply Hsess]. }
  assert (Hdelete : forall d ret,
    DbFrom (mkDatabase (rows db) (inbox db) (delete d (sessions db)) ret)).
  { intros d ret. split; [done|]. intros d' s'. cbn [sessions].
    rewrite lookup_delete. case_decide; [done|by apply Hsess]. }
  destruct e as [d msg|d|d err applied|d]; cbn [db_step] in Hs.
  - destruct (sessions db !! d); [discriminate|]. injection Hs as <-.
    apply Hinsert; [done|by apply (Hd d)|done].
  - destruct (sessions db !! d) as [s|] eqn:Ed; [|discriminate]. cbn in Hs.
    destruct (Hsess d s Ed) as [Hw Ht]. destruct (s_prog s) as [err|stmt k].
    { by injection Hs as <-. }
    destruct (stmt_step true db d (s_tx s) stmt) as [[[[r i] tx] a]|] eqn:E; [|discriminate].
    cbn in Hs. injection Hs as <-. destruct Hw as [Hw Hk].
    destruct (stmt_from db d (s_tx s) stmt (EventID (s_msg s)) r i tx a Hrows Ht) as [Hr Ht'];
      [by destruct stmt|done|apply Hinsert; [done|by apply Hk|done]].
  - destruct (sessions db !! d) as [s|] eqn:Ed; [|discriminate]. cbn in Hs.
    destruct (Hsess d s Ed) as [Hw Ht]. destruct (s_prog s) as [|stmt k]; [discriminate|].
    destruct (stmt_fail db (s_tx s) stmt applied) as [[r i] tx] eqn:E. injection Hs as <-.
    destruct (fail_from db (s_tx s) stmt applied r i tx Hrows Ht E) as [Hr Ht'].
    apply Hinsert; [done|by apply Hw|done].
  - by injection Hs as <-.
Qed.
End Provenance.

Lemma db_from_mono (P Q : UUID -> Effect -> Prop) db :
  (forall ev row, P ev row -> Q ev row) -> DbFrom P db -> DbFrom Q db.
Proof.
  intros HPQ [Hr Hs]. split; [eapply Forall_impl; [exact Hr|intros kv; apply HPQ]|].
  intros d s Hd. destruct (Hs d s Hd) as [Hw Ht].
  split; [apply (writes_mono _ (P (EventID (s_msg s)))); [intros row; apply HPQ|done]|]. intros tx Htx.
  eapply Forall_impl; [by apply Ht|intros kv; apply HPQ].
Qed.

(** ** The whole *)

Record Pipeline : Type := mkPipeline {
  p_outbox : Sys;
  (** what the broker accepted, in order *)
  p_queue : list Outbox;
  p_consumer : Database;
  (** the message of each delivery, as its place in the queue *)
  p_taken : gmap nat nat;
  (** what the handler returned for a delivered message *)
  p_answers : list (nat * SQSMessage * option error);
  (** the places of the deleted messages *)
  p_deleted : gset nat
}.

(** An event of the dispatchers; the delivery [d] of the message at [k], with the
    identifiers and attributes SQS gives it (a deleted message may, rarely, come
    again); any other event of a delivery; the deletion of a message after
    answer [i]. *)
Inductive PipeEvent : Type :=
| POutbox (e : System.Event)
| PDeliver (d k : nat) (id receipt : string) (attributes : gmap string string)
| PConsumer (e : Handlers.Event)
| PDelete (i : nat).

(** A handler that decodes the body into its effect, in one transaction. *)
Class DecodingHandler (name : string) (decode : string -> result error Effect)
    (Handle : SQSMessage -> Prog) : Prop := {
  decoding_transactional : exists errEffect, forall msg,
    Handle msg = transactional name errEffect msg (decode (raw_string (Body msg)))
}.

Definition decode_user (unmarshal : string -> result error UserRegisteredEvent) (body : string)
    : result error Effect :=
  match unmarshal body with
  | Err err => Err err
  | Ok event => Ok (WelcomeCredit (UserID event) 1000)
  end.

Definition decode_order (unmarshal : string -> result error OrderConfirmedEvent) (body : string)
    : result error Effect :=
  match unmarshal body with
  | Err err => Err err
  | Ok event =>
      Ok (OrderConfirmation (OrderID event) (oc_UserID event) (ProductID event) (Quantity event))
  end.

#[export] Instance user_decoding unmarshal :
  DecodingHandler "user" (decode_user unmarshal) (UserRegisteredHandler_Handle unmarshal).
Proof. constructor. by exists "failed to insert welcome credit". Qed.

#[export] Instance order_decoding unmarshal :
  DecodingHandler "order" (decode_order unmarshal) (OrderConfirmedHandler_Handle unmarshal).
Proof. constructor. by exists "failed to insert order confirmation". Qed.

Section Pipe.
Context (jsonb : string -> option string) (repo : OutboxRepo) (ctx : Context)
  (envs : nat -> StmtEnv) (uuid_Parse : string -> option UUID).
(** The queue, the event type the handler is registered for, and the
    configuration of the consumer service. *)
Context (queueURL eventType : string) (config : ServiceConfig).
Context (name : string) (decode : string -> result error Effect) (Handle : SQSMessage -> Prog)
  `{!DecodingHandler name decode Handle}.

(** What SQS delivers of the message that [sqs_Publish] sent. *)
Definition delivered (sent : Outbox) (id receipt : string) (attributes : gmap string string)
    : Message :=
  let input := buildSendMessageInput queueURL sent in
  mkMessage (Some id) (Some receipt) (Some (in_MessageBody input)) attributes
    (in_MessageAttributes input).

(** [processMessage] deletes a message that was handled, or received
    [MaxAttempts] times (Consumer.v). *)
Definition deletes (msg : SQSMessage) (answer : option error) : bool :=
  match answer with None => true | Some _ => exhausted config msg end.

Lemma deletes_spec msg answer :
  delivery_of config msg answer
  = QHandle msg :: if deletes msg answer then [QDelete (QueueUrl config) (ReceiptHandle msg)] else [].
Proof. by destruct answer. Qed.

(** The answer of delivery [d], if its handler returns now. *)
Definition returning (d : nat) (p : Pipeline) : list (nat * SQSMessage * option error) :=
  match sessions (p_consumer p) !! d, p_taken p !! d with
  | Some s, Some k =>
      match s_prog s with Return answer => [(k, s_msg s, answer)] | Do _ _ => [] end
  | _, _ => []
  end.

(** The router hands a message to the handler of its event type. *)
Definition pipe_step (e : PipeEvent) (p : Pipeline) : option Pipeline :=
  match e with
  | POutbox e =>
      s' ← sys_step jsonb repo ctx e (p_outbox p);
      Some (mkPipeline s' (p_queue p ++ accepted_by e (p_outbox p)) (p_consumer p) (p_taken p)
              (p_answers p) (p_deleted p))
  | PDeliver d k id receipt attributes =>
      sent ← p_queue p !! k;
      let msg := parseSQSMessage uuid_Parse (delivered sent id receipt attributes) in
      if bool_decide (sqs_EventType msg = eventType) then
        db' ← db_step Handle true (p_consumer p) (Deliver d msg);
        Some (mkPipeline (p_outbox p) (p_queue p) db' (<[d := k]> (p_taken p)) (p_answers p)
                (p_deleted p))
      else None
  | PConsumer (Deliver _ _) => None
  | PConsumer e =>
      db' ← db_step Handle true (p_consumer p) e;
      let answers := match e with Step d => returning d p | _ => [] end in
      Some (mkPipeline (p_outbox p) (p_queue p) db' (p_taken p) (p_answers p ++ answers)
              (p_deleted p))
  | PDelete i =>
      '(k, msg, answer) ← p_answers p !! i;
      if deletes msg answer
      then Some (mkPipeline (p_outbox p) (p_queue p) (p_consumer p) (p_taken p) (p_answers p)
                   ({[k]} ∪ p_deleted p))
      else None
  end.

Fixpoint pipe_run (es : list PipeEvent) (p : Pipeline) : option Pipeline :=
  match es with
  | [] => Some p
  | e :: es' => p' ← pipe_step e p; pipe_run es' p'
  end.

Definition pipe_start : Pipeline := mkPipeline (initial envs) [] empty_db ∅ [] ∅.

(** The identifiers are UUIDs in the form [uuid.Parse] reads back. *)
Definition parsable (id : string) : Prop := id <> "" /\ uuid_Parse id = Some id.

(** An effect is what its message says. *)
Definition explained (p : Pipeline) (ev : UUID) (row : Effect) : Prop :=
  exists m, m ∈ p_queue p /\ ID m = ev /\ EventType m = eventType
    /\ decode (raw_string (Payload m)) = Ok row.

Record PipeInv (p : Pipeline) : Prop := {
  pi_inv : Inv (p_outbox p);
  pi_ids n : parsable (e_uuid (db_env (s_db (p_outbox p)) n));
  pi_parsable id : id ∈ s_used (p_outbox p) -> parsable id;
  pi_held h : h ∈ s_held (p_outbox p) -> content_of (s_table (p_outbox p)) (h_msg h);
  pi_queue m : m ∈ p_queue p ->
    content_of (s_table (p_outbox p)) m /\ ID m ∈ s_used (p_outbox p);
  pi_sent id : id ∈ s_sent (p_outbox p) <-> id ∈ ID <$> p_queue p;
  pi_db : DbInv name (p_consumer p);
  pi_from : DbFrom (explained p) (p_consumer p)
}.

Lemma held_used s h : Inv s -> h ∈ s_held s -> ID (h_msg h) ∈ s_used s.
Proof.
  intros Hinv Hh. pose proof (inv_held_used s Hinv) as Hu. rewrite Forall_forall in Hu.
  by apply Hu.
Qed.

Lemma outbox_step_inv e p p' : PipeInv p -> pipe_step (POutbox e) p = Some p' -> PipeInv p'.
Proof.
  intros [Hinv Hids Hpar Hheld Hq Hsent Hdb Hfrom] Hs. cbn [pipe_step] in Hs.
  destruct (sys_step jsonb repo ctx e (p_outbox p)) as [s'|] eqn:E; [|discriminate].
  injection Hs as <-. pose proof (inv_step jsonb repo ctx _ _ _ Hinv E) as Hinv'.
  destruct (accepted_step jsonb repo ctx e _ s' E) as (Es & Hu & Henv & Hu' & Hacc).
  assert (Hkeep : forall m, ID m ∈ s_used (p_outbox p) -> content_of (s_table (p_outbox p)) m ->
    content_of (s_table s') m) by (intros m; by apply (content_step jsonb repo ctx e)).
  split; cbn [p_outbox p_queue p_consumer]; try done.
  - intros n. rewrite Henv. apply Hids.
  - intros id Hid. destruct (Hu' id Hid) as [Hold| ->]; [by apply Hpar|apply Hids].
  - intros h' Hh'. destruct (held_step jsonb repo ctx e _ s' h' Hinv E Hh')
      as [(h & Hh & Eh)|(r & Hr & Hc)]; [rewrite Eh|].
    + apply Hkeep; [by apply held_used|by apply Hheld].
    + apply Hkeep.
      * by apply (inv_used _ Hinv _ r).
      * intros r' Hr'. by assert (r' = r) as -> by congruence.
  - intros m Hm. apply elem_of_app in Hm as [Hm|Hm].
    + destruct (Hq m Hm) as [Hc Hm']. split; [by apply Hkeep|by apply Hu].
    + destruct (Hacc m Hm) as (h & Hh & ->). pose proof (held_used _ h Hinv Hh).
      split; [|by apply Hu]. apply Hkeep; [done|by apply Hheld].
  - intros id. rewrite Es, fmap_app, !elem_of_app, Hsent. tauto.
  - apply (db_from_mono (explained p)); [|done]. intros ev row (m & Hm & H).
    exists m. split; [apply elem_of_app; by left|done].
Qed.

Lemma consumer_step_inv e p db' taken answers deleted :
  PipeInv p -> db_step Handle true (p_consumer p) e = Some db' ->
  (forall d msg, e = Deliver d msg ->
     writes (EventID msg) (explained p (EventID msg)) (Handle msg)) ->
  PipeInv (mkPipeline (p_outbox p) (p_queue p) db' taken answers deleted).
Proof.
  intros [Hinv Hids Hpar Hheld Hq Hsent Hdb Hfrom] Hs Hd.
  assert (TransactionalHandler name Handle).
  { constructor. intros msg. destruct decoding_transactional as [errEffect E]. rewrite E.
    apply transactional_disciplined. }
  split; try done; cbn [p_outbox p_queue p_consumer].
  - by apply (db_step_inv name Handle (p_consumer p) e).
  - by apply (db_step_from (explained p) Handle (p_consumer p) e).
Qed.

Lemma consumer_event e p p' :
  pipe_step (PConsumer e) p = Some p' -> exists db',
    db_step Handle true (p_consumer p) e = Some db'
    /\ p' = mkPipeline (p_outbox p) (p_queue p) db' (p_taken p)
              (p_answers p ++ match e with Step d => returning d p | _ => [] end) (p_deleted p)
    /\ forall d msg, e <> Deliver d msg.
Proof.
  intros Hs. destruct e as [d msg|d|d err applied|d]; [discriminate|..]; cbn [pipe_step] in Hs;
    destruct (db_step _ _ _ _) as [db'|]; try discriminate; injection Hs as <-; by exists db'.
Qed.

Lemma pipe_step_inv e p p' : PipeInv p -> pipe_step e p = Some p' -> PipeInv p'.
Proof.
  intros Hp Hs. destruct e as [e|d k id receipt attributes|e|i].
  - by apply (outbox_step_inv e p).
  - cbn [pipe_step] in Hs. destruct (p_queue p !! k) as [sent|] eqn:Ek; [|discriminate].
    cbn [mbind option_bind] in Hs. set (m := delivered sent id receipt attributes) in *.
    set (msg := parseSQSMessage uuid_Parse m) in *. case_bool_decide as Htype; [|discriminate].
    destruct (db_step _ _ _ _) as [db'|] eqn:E; [|discriminate]. injection Hs as <-.
    apply (consumer_step_inv (Deliver d msg)); [done|done|]. intros d' msg' [= -> <-].
    assert (Hin : sent ∈ p_queue p) by (by eapply list_elem_of_lookup_2).
    destruct (pi_parsable p Hp (ID sent)) as [Hne Huuid]; [by apply (pi_queue p Hp)|].
    destruct (parse_attributes uuid_Parse sent m Hne Huuid eq_refl eq_refl)
      as (Et & Eid & _ & Eb & _).
    fold msg in Et, Eid, Eb. destruct decoding_transactional as [errEffect ->].
    apply transactional_writes. intros row Hrow. exists sent. rewrite <- Eb. split; [done|].
    split; [done|]. split; [congruence|done].
  - destruct (consumer_event e p p' Hs) as (db' & E & -> & Hne).
    apply (consumer_step_inv e); [done|done|]. intros d msg ->. by destruct (Hne d msg).
  - cbn [pipe_step] in Hs. destruct (p_answers p !! i) as [[[k msg] answer]|]; [|discriminate].
    cbn [mbind option_bind] in Hs. destruct (deletes msg answer); [|discriminate].
    injection Hs as <-. by destruct Hp.
Qed.

(** ** Deliveries, answers and deletions *)

Record DeliveryInv (p : Pipeline) : Prop := {
  dv_taken d s : sessions (p_consumer p) !! d = Some s -> exists k sent,
    p_taken p !! d = Some k /\ p_queue p !! k = Some sent /\ EventID (s_msg s) = ID sent;
  dv_answers k msg answer : (k, msg, answer) ∈ p_answers p -> exists sent,
    p_queue p !! k = Some sent /\ EventID msg = ID sent
    /\ (answer = None -> ID sent ∈ (rows (p_consumer p)).*1);
  dv_deleted k : k ∈ p_deleted p -> exists sent, p_queue p !! k = Some sent
    /\ (ID sent ∈ (rows (p_consumer p)).*1
        \/ exists msg err, (k, msg, Some err) ∈ p_answers p /\ exhausted config msg = true)
}.

(** What the invariant needs of a step of the consumer's database. *)
Lemma db_step_facts db e db' :
  db_step Handle true db e = Some db' ->
  (forall ev, ev ∈ (rows db).*1 -> ev ∈ (rows db').*1)
  /\ (forall d s', sessions db' !! d = Some s' ->
       (exists s, sessions db !! d = Some s /\ s_msg s' = s_msg s)
       \/ exists msg, e = Deliver d msg /\ s_msg s' = msg)
  /\ forall d s answer, e = Step d -> sessions db !! d = Some s -> s_prog s = Return answer ->
       returned db' = returned db ++ [(EventID (s_msg s), answer)].
Proof.
  assert (Hinsert : forall d s0 s d' s', s_msg s = s_msg s0 -> sessions db !! d = Some s0 ->
    <[d := s]> (sessions db) !! d' = Some s' ->
    exists s1, sessions db !! d' = Some s1 /\ s_msg s' = s_msg s1).
  { intros d s0 s d' s' Em E0. rewrite lookup_insert.
    case_decide as Hd; [intros [= <-]; subst d'; by exists s0|intros Hs'; by exists s']. }
  assert (Hgrow : forall l ev, ev ∈ (rows db).*1 -> ev ∈ (rows db ++ l).*1)
    by (intros l ev Hev; rewrite fmap_app; apply elem_of_app; by left).
  assert (Hdelete : forall d d' s', delete d (sessions db) !! d' = Some s' ->
    exists s1, sessions db !! d' = Some s1 /\ s_msg s' = s_msg s1).
  { intros d d' s'. rewrite lookup_delete. case_decide; [done|intros H'; by exists s']. }
  destruct e as [d msg|d|d err applied|d]; cbn [db_step].
  - destruct (sessions db !! d) eqn:Ed; [discriminate|]. intros [= <-].
    split; [done|]. split; [|done]. intros d' s'. cbn [sessions]. rewrite lookup_insert.
    case_decide as Hd; [intros [= <-]; subst d'; right; by exists msg|intros Hs'; left; by exists s'].
  - destruct (sessions db !! d) as [s|] eqn:Ed; [|discriminate]. cbn [mbind option_bind].
    destruct (s_prog s) as [answer|stmt k] eqn:Ep.
    { intros [= <-]. split; [done|]. split; [intros d' s' Hs'; left; by eapply Hdelete|].
      intros d1 s1 a1 [= <-] Hs1 Ha1. rewrite Ed in Hs1. injection Hs1 as <-. cbn. congruence. }
    destruct (stmt_step true db d (s_tx s) stmt) as [[[[r i] tx] a]|] eqn:E; [|discriminate].
    intros [= <-]. split; [|split].
    + destruct (s_tx s) as [t|], stmt; cbn [stmt_step] in E;
        repeat (break_hyp E; try discriminate); injection E as <- <- <- <-; cbn; auto.
    + intros d' s' Hs'. left. eapply (Hinsert d s); [|exact Ed|exact Hs']. done.
    + intros d1 s1 a1 [= <-] Hs1 Ha1. rewrite Ed in Hs1. injection Hs1 as <-. congruence.
  - destruct (sessions db !! d) as [s|] eqn:Ed; [|discriminate]. cbn [mbind option_bind].
    destruct (s_prog s) as [|stmt k]; [discriminate|].
    destruct (stmt_fail db (s_tx s) stmt applied) as [[r i] tx] eqn:E. intros [= <-].
    split; [|split; [|done]].
    + destruct (s_tx s) as [t|], stmt; cbn [stmt_fail] in E;
        repeat (break_hyp E; try discriminate); injection E as <- <- <-; cbn; auto.
    + intros d' s' Hs'. left. eapply (Hinsert d s); [|exact Ed|exact Hs']. done.
  - intros [= <-]. split; [done|]. split; [|done]. intros d' s' Hs'. left. by eapply Hdelete.
Qed.

Lemma outbox_delivery_inv e p p' :
  DeliveryInv p -> pipe_step (POutbox e) p = Some p' -> DeliveryInv p'.
Proof.
  intros [Htaken Hans Hdel] Hs. cbn [pipe_step] in Hs.
  destruct (sys_step _ _ _ _ _) as [s'|]; [|discriminate]. injection Hs as <-.
  assert (Hq : forall k sent, p_queue p !! k = Some sent ->
    (p_queue p ++ accepted_by e (p_outbox p)) !! k = Some sent)
    by (intros; by apply lookup_app_l_Some).
  split; cbn [p_queue p_consumer p_taken p_answers p_deleted].
  - intros d s Hds. destruct (Htaken d s Hds) as (k & sent & ? & ? & ?). exists k, sent. auto.
  - intros k msg a Ha. destruct (Hans k msg a Ha) as (sent & ? & ?). exists sent. auto.
  - intros k Hk. destruct (Hdel k Hk) as (sent & ? & ?). exists sent. auto.
Qed.

Lemma deliver_delivery_inv d k id receipt attributes p p' :
  PipeInv p -> DeliveryInv p -> pipe_step (PDeliver d k id receipt attributes) p = Some p' ->
  DeliveryInv p'.
Proof.
  intros Hp [Htaken Hans Hdel] Hs. cbn [pipe_step] in Hs.
  destruct (p_queue p !! k) as [sent|] eqn:Ek; [|discriminate].
  cbn [mbind option_bind] in Hs. set (msg := parseSQSMessage uuid_Parse _) in *.
  case_bool_decide; [|discriminate]. cbn [db_step] in Hs.
  destruct (sessions (p_consumer p) !! d) eqn:Ed; [discriminate|].
  cbn [mbind option_bind] in Hs. injection Hs as <-.
  split; cbn [p_queue p_consumer p_taken p_answers p_deleted rows sessions]; [|done|done].
  intros d' s'. rewrite !lookup_insert. case_decide; [intros [= <-]|by apply Htaken].
  exists k, sent. split; [done|]. split; [done|]. cbn [s_msg].
  assert (Hin : sent ∈ p_queue p) by (by eapply list_elem_of_lookup_2).
  destruct (pi_parsable p Hp (ID sent)) as [Hne Huuid]; [by apply (pi_queue p Hp)|].
  by apply (parse_attributes uuid_Parse sent _ Hne Huuid).
Qed.

(** The answer of a delivery belongs to its message, and without an error the
    effect is there. *)
Lemma returning_answers d p db' k msg answer :
  DeliveryInv p -> db_step Handle true (p_consumer p) (Step d) = Some db' -> DbInv name db' ->
  (k, msg, answer) ∈ returning d p -> exists sent, p_queue p !! k = Some sent
    /\ EventID msg = ID sent /\ (answer = None -> ID sent ∈ (rows db').*1).
Proof.
  intros [Htaken _ _] E Hdb Ha. destruct (db_step_facts _ _ _ E) as (_ & _ & Hret).
  unfold returning in Ha.
  destruct (sessions (p_consumer p) !! d) as [s|] eqn:Es; [|by apply not_elem_of_nil in Ha].
  destruct (Htaken d s Es) as (k' & sent & Ek & Hsent & Eid). rewrite Ek in Ha.
  destruct (s_prog s) as [answer'|] eqn:Eprog; [|by apply not_elem_of_nil in Ha].
  apply list_elem_of_singleton in Ha as [= -> -> ->]. exists sent. split; [done|].
  split; [done|]. intros ->. rewrite <- Eid. apply (di_returned _ _ Hdb).
  rewrite (Hret d s None eq_refl Es Eprog). apply elem_of_app. right. by left.
Qed.

Lemma delivery_step_inv e p p' :
  PipeInv p -> DeliveryInv p -> pipe_step e p = Some p' -> DeliveryInv p'.
Proof.
  intros Hp Hd Hs. pose proof (pipe_step_inv e p p' Hp Hs) as Hp'.
  pose proof Hd as [Htaken Hans Hdel]. destruct e as [e|d k id receipt attributes|e|i].
  - by apply (outbox_delivery_inv e p).
  - by apply (deliver_delivery_inv d k id receipt attributes p).
  - destruct (consumer_event e p p' Hs) as (db' & E & -> & Hne).
    destruct (db_step_facts _ _ _ E) as (Hgrow & Hsess & _).
    split; cbn [p_queue p_consumer p_taken p_answers p_deleted].
    + intros d s' Hs'. destruct (Hsess d s' Hs') as [(s & Hds & ->)|(msg & Ee & _)];
        [by apply Htaken|by destruct (Hne d msg)].
    + intros k msg a Ha. apply elem_of_app in Ha as [Ha|Ha].
      { destruct (Hans k msg a Ha) as (sent & ? & ? & ?). exists sent. auto. }
      destruct e as [|d| |]; try (by apply not_elem_of_nil in Ha).
      by apply (returning_answers d p); [..|apply (pi_db _ Hp')|].
    + intros k Hk. destruct (Hdel k Hk) as (sent & Hq & Hor). exists sent. split; [done|].
      destruct Hor as [?|(msg & err & ? & ?)]; [left; auto|right].
      exists msg, err. split; [apply elem_of_app; by left|done].
  - cbn [pipe_step] in Hs. destruct (p_answers p !! i) as [[[k msg] answer]|] eqn:Ei; [|discriminate].
    cbn [mbind option_bind] in Hs. destruct (deletes msg answer) eqn:Edel; [|discriminate].
    injection Hs as <-. apply list_elem_of_lookup_2 in Ei.
    split; cbn [p_queue p_consumer p_taken p_answers p_deleted]; [done|done|].
    intros k' [->%elem_of_singleton|Hk]%elem_of_union; [|by apply Hdel].
    destruct (Hans k msg answer Ei) as (sent & Hq & _ & Hnone). exists sent. split; [done|].
    destruct answer as [err|]; [right; by exists msg, err|left; by apply Hnone].
Qed.

Lemma pipe_run_inv es : forall p p',
  PipeInv p -> DeliveryInv p -> pipe_run es p = Some p' -> PipeInv p' /\ DeliveryInv p'.
Proof.
  induction es as [|e es IH]; intros p p' Hp Hd Hs; cbn in Hs; [by injection Hs as <-|].
  destruct (pipe_step e p) as [p1|] eqn:E; [|discriminate].
  apply (IH p1); [by apply (pipe_step_inv e p)|by apply (delivery_step_inv e p)|done].
Qed.

Lemma pipe_start_inv :
  (forall n, env_ok (envs n)) -> (forall n, parsable (e_uuid (envs n))) -> PipeInv pipe_start.
Proof.
  intros Henvs Hids. split; cbn [p_outbox p_queue p_consumer pipe_start].
  - by apply inv_initial.
  - exact Hids.
  - by intros id ?%not_elem_of_nil.
  - by intros h ?%not_elem_of_nil.
  - by intros m ?%not_elem_of_nil.
  - done.
  - apply empty_db_inv.
  - split; [by constructor|]. intros d s. cbn. by rewrite lookup_empty.
Qed.

Lemma delivery_start_inv : DeliveryInv pipe_start.
Proof.
  split; cbn.
  - intros d s. by rewrite lookup_empty.
  - by intros k msg answer ?%not_elem_of_nil.
  - by intros k ?%not_elem_of_empty.
Qed.

(** An effect agrees with the row of its event, as long as there is one. *)
Lemma explained_row p ev row r :
  PipeInv p -> explained p ev row -> s_table (p_outbox p) !! ev = Some r ->
  EventType r = eventType /\ decode (raw_string (Payload r)) = Ok row.
Proof.
  intros Hp (m & Hm & <- & Et & Hd) Hr. destruct (pi_queue p Hp m Hm) as [Hc _].
  destruct (Hc r Hr) as (E1 & E2 & _). split; [congruence|by rewrite E2].
Qed.

Lemma pipe_consumer_run es : forall p db',
  Forall (fun e => forall d msg, e <> Deliver d msg) es ->
  db_run Handle true (p_consumer p) es = Some db' ->
  exists answers, pipe_run (PConsumer <$> es) p
    = Some (mkPipeline (p_outbox p) (p_queue p) db' (p_taken p) answers (p_deleted p)).
Proof.
  induction es as [|e es IH]; intros p db' Hes Hs; cbn in Hs.
  { injection Hs as <-. exists (p_answers p). by destruct p. }
  apply Forall_cons in Hes as [He Hes]. cbn [fmap list_fmap pipe_run].
  destruct (db_step Handle true (p_consumer p) e) as [db1|] eqn:E; [|discriminate].
  assert (exists answers, pipe_step (PConsumer e) p
    = Some (mkPipeline (p_outbox p) (p_queue p) db1 (p_taken p) answers (p_deleted p)))
    as [answers ->].
  { destruct e as [d msg|d|d err applied|d]; [by destruct (He d msg)|..]; cbn [pipe_step];
      rewrite E; by eexists. }
  cbn [mbind option_bind].
  by apply (IH (mkPipeline (p_outbox p) (p_queue p) db1 (p_taken p) answers (p_deleted p))).
Qed.

(** C12: from the outbox to the effect, at most once.  Whatever crashes, fails and
    interleaves on both sides, and however often and late SQS delivers: an event
    has at most one effect, only when the broker accepted a message of it, and
    the effect is what the payload of its outbox row says; an acknowledged
    delivery has its effect. *)
Theorem effects_match_outbox (es : list PipeEvent) (p : Pipeline)
  (Henvs : forall n, env_ok (envs n)) (Hids : forall n, parsable (e_uuid (envs n)))
  (Hrun : pipe_run es pipe_start = Some p) :
  NoDup (rows (p_consumer p)).*1
  /\ (forall ev row, (ev, row) ∈ rows (p_consumer p) ->
       ev ∈ s_sent (p_outbox p)
       /\ forall r, s_table (p_outbox p) !! ev = Some r ->
            EventType r = eventType /\ decode (raw_string (Payload r)) = Ok row)
  /\ (forall ev, (ev, None) ∈ returned (p_consumer p) -> ev ∈ (rows (p_consumer p)).*1).
Proof.
  destruct (pipe_run_inv es _ p (pipe_start_inv Henvs Hids) delivery_start_inv Hrun) as [Hp _].
  pose proof (pi_db p Hp) as Hdb. split; [apply Hdb|]. split; [|apply Hdb].
  intros ev row Hrow. pose proof (from_rows _ _ (pi_from p Hp)) as Hfrom.
  rewrite Forall_forall in Hfrom. specialize (Hfrom _ Hrow). cbn [fst snd] in Hfrom.
  split; [|intros r Hr; by apply (explained_row p ev row r Hp)].
  destruct Hfrom as (m & Hm & <- & _). apply (pi_sent p Hp). by apply list_elem_of_fmap_2.
Qed.

(** The broker has accepted what is PUBLISHED. *)
Lemma published_queued p id r :
  PipeInv p -> s_table (p_outbox p) !! id = Some r -> Status r = PUBLISHED ->
  exists k sent, p_queue p !! k = Some sent /\ ID sent = id /\ same_content r sent /\ parsable id.
Proof.
  intros Hp Hrow Hpub. pose proof (inv_outcomes _ (pi_inv p Hp) id r Hrow) as Hsent.
  unfold outcome_ok in Hsent. rewrite Hpub, (pi_sent p Hp) in Hsent.
  apply list_elem_of_fmap in Hsent as (sent & -> & Hin).
  destruct (pi_queue p Hp sent Hin) as [Hcontent Hused].
  apply list_elem_of_lookup in Hin as [k Hk]. exists k, sent. split; [done|]. split; [done|].
  split; [by apply Hcontent|by apply (pi_parsable p Hp)].
Qed.

(** The effect of an event that has one. *)
Lemma effect_of_row p id r row :
  PipeInv p -> s_table (p_outbox p) !! id = Some r -> decode (raw_string (Payload r)) = Ok row ->
  id ∈ (rows (p_consumer p)).*1 -> (id, row) ∈ rows (p_consumer p).
Proof.
  intros Hp Hr Hdecode Hin. apply list_elem_of_fmap in Hin as ([ev row'] & E & Hin). cbn in E.
  subst ev. pose proof (from_rows _ _ (pi_from p Hp)) as Hfrom. rewrite Forall_forall in Hfrom.
  destruct (explained_row p _ row' r Hp (Hfrom _ Hin) Hr) as [_ Hd].
  by assert (row' = row) as <- by congruence.
Qed.

(** A delivery that nothing disturbs. *)
Lemma undisturbed_delivery p k sent row d :
  PipeInv p -> p_queue p !! k = Some sent -> parsable (ID sent) -> EventType sent = eventType ->
  decode (raw_string (Payload sent)) = Ok row -> fits row = true ->
  sessions (p_consumer p) = ∅ ->
  ID sent ∉ (rows (p_consumer p)).*1 -> exists n p',
    pipe_run (PDeliver d k "" "" ∅ :: replicate n (PConsumer (Step d))) p = Some p'
    /\ p_outbox p' = p_outbox p
    /\ (ID sent, row) ∈ rows (p_consumer p') /\ (ID sent, None) ∈ returned (p_consumer p').
Proof.
  intros Hp Hk [Hne Huuid] Htype Hdecode Hfits Hidle Hnew.
  set (m := delivered sent "" "" ∅). set (msg := parseSQSMessage uuid_Parse m).
  destruct (parse_attributes uuid_Parse sent m Hne Huuid eq_refl eq_refl)
    as (Emt & Eid & _ & Eb & _). fold msg in Emt, Eid, Eb.
  destruct decoding_transactional as [errEffect HH].
  destruct (transactional_alone name errEffect Handle d msg row (rows (p_consumer p))
    (inbox (p_consumer p)) (returned (p_consumer p))) as (n & i' & Hn).
  { by rewrite HH, Eb, Hdecode. }
  { done. }
  { apply (di_agree _ _ (pi_db p Hp)). }
  rewrite decide_False in Hn by (by rewrite Eid).
  assert (Hdb : p_consumer p = mkDatabase (rows (p_consumer p)) (inbox (p_consumer p)) ∅
    (returned (p_consumer p))) by (rewrite <- Hidle; by destruct (p_consumer p)).
  rewrite <- Hdb in Hn. cbn [db_run] in Hn.
  destruct (db_step Handle true (p_consumer p) (Deliver d msg)) as [db1|] eqn:Ed; [|discriminate].
  destruct (pipe_consumer_run (replicate n (Step d)) (mkPipeline (p_outbox p) (p_queue p) db1
    (<[d := k]> (p_taken p)) (p_answers p) (p_deleted p)) _ ltac:(by apply Forall_replicate) Hn)
    as [answers Hrun].
  exists n. eexists. split; [|split; [|split]].
  - cbn [pipe_run pipe_step]. rewrite Hk. cbn [mbind option_bind]. fold m msg.
    rewrite bool_decide_eq_true_2, Ed by congruence. cbn [mbind option_bind].
    replace (replicate n (PConsumer (Step d))) with (PConsumer <$> replicate n (Step d))
      by apply fmap_replicate. exact Hrun.
  - done.
  - cbn [p_consumer rows]. rewrite Eid. apply elem_of_app. right. by left.
  - cbn [p_consumer returned]. rewrite Eid. apply elem_of_app. right. by left.
Qed.

(** C13: and nothing is lost silently.  Whatever has happened, a PUBLISHED message
    whose payload decodes has its effect; or it was deleted after a delivery of
    it whose handler failed and which was at least the [MaxAttempts]-th; or it
    is still in the queue, and if its effect fits the columns of its table, one
    delivery that nothing disturbs, once those in progress have ended, leaves its
    effect and is acknowledged. *)
Theorem published_not_lost (es : list PipeEvent) (p : Pipeline) (id : string) (r : Outbox)
  (row : Effect)
  (Henvs : forall n, env_ok (envs n)) (Hids : forall n, parsable (e_uuid (envs n)))
  (Hrun : pipe_run es pipe_start = Some p)
  (Hrow : s_table (p_outbox p) !! id = Some r) (Hpublished : Status r = PUBLISHED)
  (Htype : EventType r = eventType) (Hdecode : decode (raw_string (Payload r)) = Ok row) :
  (id, row) ∈ rows (p_consumer p)
  \/ exists k sent, p_queue p !! k = Some sent /\ ID sent = id
     /\ if bool_decide (k ∈ p_deleted p)
        then exists msg err, (k, msg, Some err) ∈ p_answers p /\ EventID msg = id
             /\ sv_MaxAttempts config <= ReceiveCount msg
        else fits row = true -> sessions (p_consumer p) = ∅ -> forall d, exists n p',
             pipe_run (PDeliver d k "" "" ∅ :: replicate n (PConsumer (Step d))) p = Some p'
             /\ p_outbox p' = p_outbox p
             /\ (id, row) ∈ rows (p_consumer p') /\ (id, None) ∈ returned (p_consumer p').
Proof.
  destruct (pipe_run_inv es _ p (pipe_start_inv Henvs Hids) delivery_start_inv Hrun) as [Hp Hd].
  destruct (published_queued p id r Hp Hrow Hpublished)
    as (k & sent & Hk & <- & (Et & Epay & _) & Hid).
  destruct (decide (ID sent ∈ (rows (p_consumer p)).*1)) as [Hin|Hnew];
    [left; by apply (effect_of_row p _ r)|right].
  exists k, sent. split; [done|]. split; [done|]. case_bool_decide as Hdel.
  - destruct (dv_deleted p Hd k Hdel) as (sent' & Hk' & [Hin|(msg & err & Ha & Hex)]).
    + by assert (sent' = sent) as -> by congruence.
    + exists msg, err. split; [done|]. unfold exhausted in Hex. split; [|by apply Z.leb_le].
      destruct (dv_answers p Hd k msg (Some err) Ha) as (sent'' & Hk'' & -> & _). congruence.
  - intros Hfits Hidle d. apply (undisturbed_delivery p k sent row d Hp Hk Hid); try done;
      [congruence|by rewrite <- Epay].
Qed.
End Pipe.

(** ** The properties at work *)

Section Witnesses.
Abbreviation Handle := (UserRegisteredHandler_Handle demo_unmarshal).
Abbreviation demo_run :=
  (pipe_run demo_jsonb demo_repo demo_ctx Some "users" "user.registered"
     (DefaultServiceConfig "users") Handle).

(** The consumer of a first delivery dies before the dispatcher has recorded the
    publish. *)
Definition published_trace : list PipeEvent :=
  [POutbox (EInsert (mkParams "user.registered" (Some "u1") None "k1" 3)); POutbox (EFetch 1 10);
   POutbox (EPublish 0 None true); PDeliver 1 0 "s1" "r1" ∅;
   PConsumer (Step 1); PConsumer (Step 1); PConsumer (Step 1); PConsumer (Crash 1);
   POutbox (EClose 0)].

(** A second one ends. *)
Definition handled_trace : list PipeEvent :=
  published_trace ++ PDeliver 2 0 "s1" "r2" ∅ :: replicate 7 (PConsumer (Step 2)).

Lemma hourly_parsable n : parsable Some (e_uuid (hourly n)).
Proof. by split. Qed.

Lemma handled_result :
  match demo_run handled_trace (pipe_start hourly) with
  | Some p => rows (p_consumer p) = [("m1", WelcomeCredit "u1" 1000)]
  | None => False
  end.
Proof. vm_compute. reflexivity. Qed.

Lemma effects_match_outbox_witness :
  exists p, demo_run handled_trace (pipe_start hourly) = Some p /\ "m1" ∈ s_sent (p_outbox p).
Proof.
  pose proof handled_result as H.
  destruct (demo_run handled_trace (pipe_start hourly)) as [p|] eqn:E; [|destruct H].
  exists p. split; [reflexivity|].
  destruct (effects_match_outbox demo_jsonb demo_repo demo_ctx hourly Some "users"
    "user.registered" (DefaultServiceConfig "users") "user" (decode_user demo_unmarshal) Handle handled_trace p hourly_ok
    hourly_parsable E) as (_ & Heffects & _).
  apply (Heffects "m1" (WelcomeCredit "u1" 1000)). rewrite H. by left.
Defined.

Lemma published_result :
  match demo_run published_trace (pipe_start hourly) with
  | Some p => match s_table (p_outbox p) !! "m1" with
              | Some r => Status r = PUBLISHED /\ EventType r = "user.registered"
                  /\ raw_string (Payload r) = "u1" /\ sessions (p_consumer p) = ∅
                  /\ rows (p_consumer p) = [] /\ p_deleted p = ∅
              | None => False
              end
  | None => False
  end.
Proof. vm_compute. by repeat split. Qed.

Lemma published_not_lost_witness :
  exists p es p', demo_run published_trace (pipe_start hourly) = Some p
    /\ demo_run es p = Some p' /\ ("m1", WelcomeCredit "u1" 1000) ∈ rows (p_consumer p').
Proof.
  pose proof published_result as H.
  destruct (demo_run published_trace (pipe_start hourly)) as [p|] eqn:E; [|destruct H].
  destruct (s_table (p_outbox p) !! "m1") as [r|] eqn:Er; [|destruct H].
  destruct H as (Hst & Ht & Hp & Hidle & Hrows & Hdel).
  destruct (published_not_lost demo_jsonb demo_repo demo_ctx hourly Some "users"
    "user.registered" (DefaultServiceConfig "users") "user" (decode_user demo_unmarshal) Handle
    published_trace p "m1" r (WelcomeCredit "u1" 1000) hourly_ok hourly_parsable E Er Hst Ht
    ltac:(by rewrite Hp)) as [Hin|(k & sent & _ & _ & Hnext)].
  { rewrite Hrows in Hin. destruct (not_elem_of_nil _ Hin). }
  assert (Hb : bool_decide (k ∈ p_deleted p) = false)
    by (apply bool_decide_eq_false_2; rewrite Hdel; apply not_elem_of_empty).
  rewrite Hb in Hnext.
  destruct (Hnext eq_refl Hidle 2%nat) as (n & p' & Hrun & _ & Hrow & _).
  exists p, (PDeliver 2 k "" "" ∅ :: replicate n (PConsumer (Step 2))), p'.
  split; [reflexivity|]. split; [exact Hrun|exact Hrow].
Defined.
End Witnesses.
