(* ===== verification/Fleet.v ===== *)
(** * Consumer services on the pipeline

    Pipeline.v lets a delivery be handled and its message be deleted whenever the
    code could.  Here the consumer services of contrib/sqs/consumer/service.go
    are run themselves: any number of workers, each with the loop of
    [pollAndProcess], each goroutine [processMessage] call by call (the tasks of
    ConsumerPool.v), with the handler's statements, hooks, clocks, deletions and
    crashes in between.  What they do is what Pipeline allows. *)

From Stdlib Require Import ZArith Lia.
From stdpp Require Import base option list strings gmap fin_maps.
From S2P Require Import Prelude Errors Model Ports Store PgxRepo OutboxSafety System SqsPublisher.
From S2P Require Import Consumer ConsumerPool Handlers Pipeline.

Set Default Goal Selector "!".
Open Scope string_scope.
Open Scope list_scope.
Open Scope Z_scope.

(** ** The calls of a goroutine *)

(** What its next call is answered. *)
Record Reply : Type := mkReply {
  rp_now : Z;
  rp_hook : outcome unit;
  rp_handle : outcome (option error);
  rp_delete : option error
}.

(** A world with the answer of the next call, and the calls made. *)
Definition Probe : Type := Reply * list ConsumerCall.
Definition probe {A} (c : ConsumerCall) (f : Reply -> outcome A) : GoM Probe A :=
  fun w => ((w.1, w.2 ++ [c]), f w.1).

#[export] Instance probe_runtime : Runtime Probe :=
  { time_Now := probe QNow (fun r => Ret (rp_now r)) }.
(** A goroutine does not receive. *)
#[export] Instance probe_client : ConsumerClient Probe := {
  ReceiveMessage _ input := probe (QReceive input) (fun _ => Ret (Ok []));
  DeleteMessage _ url receipt := probe (QDelete url receipt) (fun r => Ret (rp_delete r))
}.

Definition probe_hooks : ConsumerHooks Probe := {|
  OnConsumeStart := Some (fun _ m => probe (QStart m) rp_hook);
  OnConsumeSuccess := Some (fun _ m d => probe (QSuccess m d) rp_hook);
  OnConsumeFailure := Some (fun _ m e d r => probe (QFailure m e d r) rp_hook);
  OnConsumeDead := Some (fun _ m e => probe (QDead m e) rp_hook);
  OnDeleteFailure := Some (fun _ m e => probe (QDeleteFailure m e) rp_hook)
|}.

(** The next call of a goroutine, and how it goes on; a panic ends the process. *)
Definition advance (t : Task Probe) (r : Reply) : option (list ConsumerCall * Task Probe) :=
  match t with
  | Finished => None
  | Call m k => match m (r, []) with ((_, calls), Ret a) => Some (calls, k a) | _ => None end
  end.

Definition handle_reply (answer : option error) : Reply := mkReply 0 (Ret tt) (Ret answer) None.

(** ** The system *)

(** A goroutine at its next call, or in session [d] of the handler. *)
Inductive Goroutine : Type :=
| Working (m : Message) (t : Task Probe)
| InHandler (m : Message) (d : nat) (t : Task Probe).

(** A worker: the messages of its last receive that have not been started. *)
Record ServiceWorker : Type := mkServiceWorker {
  sw_waiting : list Message;
  sw_running : list Goroutine;
  sw_stopped : bool
}.

Record Fleet : Type := mkFleet {
  fl_outbox : Sys;
  fl_queue : list Outbox;
  fl_db : Database;
  (** the place in the queue each receipt handle stands for *)
  fl_receipts : gmap string nat;
  fl_deleted : gset nat;
  fl_workers : list ServiceWorker;
  fl_next : nat
}.

(** A place in the queue with the identifiers and attributes of a receive. *)
Definition Delivery : Type := nat * (string * string * gmap string string).

(** An event of the dispatchers; worker [w] receives, starts the next message,
    sees that its context is done, or dies with its process; its goroutine [i]
    makes its next call, which is answered [reply] (a deletion whose answer is an
    error may have happened), enters the handler, leaves it, or ends; a
    statement of a handler. *)
Inductive FleetEvent : Type :=
| FOutbox (e : System.Event)
| FReceive (w : nat) (batch : list Delivery)
| FStart (w : nat)
| FCancel (w : nat)
| FCrash (w : nat)
| FCall (w i : nat) (reply : Reply) (applied : bool)
| FEnter (w i : nat)
| FReturn (w i : nat)
| FEnd (w i : nat)
| FStmt (e : Handlers.Event).

Definition idle_worker : ServiceWorker := mkServiceWorker [] [] false.

Definition session_of (g : Goroutine) : list nat :=
  match g with Working _ _ => [] | InHandler _ d _ => [d] end.

Section Fleet.
Context (jsonb : string -> option string) (repo : OutboxRepo) (ctx : Context)
  (envs : nat -> StmtEnv) (uuid_Parse : string -> option UUID).
Context (queueURL eventType : string) (config : ServiceConfig).
Context (Handle : SQSMessage -> Prog).
Abbreviation parse := (parseSQSMessage uuid_Parse).

(** A service whose router has the handler; the messages of other event types go
    to handlers that answer anything. *)
Definition fleet_service : Service Probe := {|
  Consumer.config := config;
  handler := router_Handle
    (RegisterHandler eventType (fun _ m => probe (QHandle m) rp_handle)
      (SetFallback (fun _ _ w => (w, rp_handle w.1)) NewEventTypeRouter));
  hooks := Some probe_hooks;
  store_processed := fun now => probe (QProcessed now) (fun _ => Ret tt)
|}.

Definition fleet_start (workers : nat) : Fleet :=
  mkFleet (initial envs) [] empty_db ∅ ∅ (replicate workers idle_worker) 0.

Definition set_worker (w : nat) (wk : ServiceWorker) (f : Fleet) : Fleet :=
  mkFleet (fl_outbox f) (fl_queue f) (fl_db f) (fl_receipts f) (fl_deleted f)
    (<[w := wk]> (fl_workers f)) (fl_next f).
Definition set_db (db : Database) (f : Fleet) : Fleet :=
  mkFleet (fl_outbox f) (fl_queue f) db (fl_receipts f) (fl_deleted f) (fl_workers f) (fl_next f).
Definition set_deleted (deleted : gset nat) (f : Fleet) : Fleet :=
  mkFleet (fl_outbox f) (fl_queue f) (fl_db f) (fl_receipts f) deleted (fl_workers f) (fl_next f).
Definition set_goroutine (i : nat) (g : Goroutine) (wk : ServiceWorker) : ServiceWorker :=
  mkServiceWorker (sw_waiting wk) (<[i := g]> (sw_running wk)) (sw_stopped wk).

(** SQS gives every receive its own handle. *)
Fixpoint receive (queue : list Outbox) (batch : list Delivery) (receipts : gmap string nat)
    : option (list Message * gmap string nat) :=
  match batch with
  | [] => Some ([], receipts)
  | (k, (id, receipt, attributes)) :: batch =>
      sent ← queue !! k;
      match receipts !! receipt with
      | Some _ => None
      | None =>
          '(messages, receipts') ← receive queue batch (<[receipt := k]> receipts);
          Some (delivered queueURL sent id receipt attributes :: messages, receipts')
      end
  end.

(** A deletion takes effect on the queue and the message its handle stands for. *)
Definition delete_message (calls : list ConsumerCall) (effective : bool) (f : Fleet) : Fleet :=
  match calls with
  | [QDelete url receipt] =>
      match fl_receipts f !! receipt with
      | Some k =>
          if effective && String.eqb url queueURL then set_deleted ({[k]} ∪ fl_deleted f) f else f
      | None => f
      end
  | _ => f
  end.

Definition fleet_step (e : FleetEvent) (f : Fleet) : option Fleet :=
  match e with
  | FOutbox e =>
      s' ← sys_step jsonb repo ctx e (fl_outbox f);
      Some (mkFleet s' (fl_queue f ++ accepted_by e (fl_outbox f)) (fl_db f) (fl_receipts f)
              (fl_deleted f) (fl_workers f) (fl_next f))
  | FReceive w batch =>
      wk ← fl_workers f !! w;
      match sw_waiting wk, sw_running wk, sw_stopped wk with
      | [], [], false =>
          if String.eqb (QueueUrl config) queueURL then
            '(messages, receipts) ← receive (fl_queue f) batch (fl_receipts f);
            Some (mkFleet (fl_outbox f) (fl_queue f) (fl_db f) receipts (fl_deleted f)
                    (<[w := mkServiceWorker messages [] false]> (fl_workers f)) (fl_next f))
          else None
      | _, _, _ => None
      end
  | FStart w =>
      wk ← fl_workers f !! w;
      match sw_waiting wk with
      | m :: waiting =>
          (* one by one, or as many as the semaphore has room for *)
          if negb (sw_stopped wk)
             && (Z.of_nat (length (sw_running wk)) <? Z.max 1 (MessageConcurrency config))
          then Some (set_worker w (mkServiceWorker waiting
                       (sw_running wk ++ [Working m (process_task uuid_Parse fleet_service ctx m)])
                       false) f)
          else None
      | [] => None
      end
  | FCancel w =>
      wk ← fl_workers f !! w;
      Some (set_worker w (mkServiceWorker (sw_waiting wk) (sw_running wk) true) f)
  | FCrash w =>
      wk ← fl_workers f !! w;
      db' ← db_run Handle true (fl_db f) (Crash <$> (sw_running wk ≫= session_of));
      Some (set_worker w idle_worker (set_db db' f))
  | FCall w i reply applied =>
      wk ← fl_workers f !! w;
      g ← sw_running wk !! i;
      match g with
      | InHandler _ _ _ => None
      | Working m t =>
          '(calls, t') ← advance t reply;
          match calls with
          | [QHandle _] => None
          | _ => Some (set_worker w (set_goroutine i (Working m t') wk)
                         (delete_message calls
                            (match rp_delete reply with None => true | Some _ => applied end) f))
          end
      end
  | FEnter w i =>
      wk ← fl_workers f !! w;
      g ← sw_running wk !! i;
      match g with
      | InHandler _ _ _ => None
      | Working m t =>
          '(calls, _) ← advance t (handle_reply None);
          match calls with
          | [QHandle msg] =>
              db' ← db_step Handle true (fl_db f) (Deliver (fl_next f) msg);
              let wk' := set_goroutine i (InHandler m (fl_next f) t) wk in
              Some (mkFleet (fl_outbox f) (fl_queue f) db' (fl_receipts f) (fl_deleted f)
                      (<[w := wk']> (fl_workers f)) (S (fl_next f)))
          | _ => None
          end
      end
  | FReturn w i =>
      wk ← fl_workers f !! w;
      g ← sw_running wk !! i;
      match g with
      | Working _ _ => None
      | InHandler m d t =>
          s ← sessions (fl_db f) !! d;
          match s_prog s with
          | Do _ _ => None
          | Return answer =>
              '(calls, t') ← advance t (handle_reply answer);
              match calls with
              | [QHandle _] =>
                  db' ← db_step Handle true (fl_db f) (Step d);
                  Some (set_worker w (set_goroutine i (Working m t') wk) (set_db db' f))
              | _ => None
              end
          end
      end
  | FEnd w i =>
      wk ← fl_workers f !! w;
      g ← sw_running wk !! i;
      match g with
      | Working _ Finished =>
          Some (set_worker w (mkServiceWorker (sw_waiting wk) (delete i (sw_running wk))
                                (sw_stopped wk)) f)
      | _ => None
      end
  | FStmt e =>
      match e with
      | Step d | Failing d _ _ =>
          s ← sessions (fl_db f) !! d;
          match s_prog s with
          | Return _ => None
          | Do _ _ => db' ← db_step Handle true (fl_db f) e; Some (set_db db' f)
          end
      | Deliver _ _ | Crash _ => None
      end
  end.

Fixpoint fleet_run (es : list FleetEvent) (f : Fleet) : option Fleet :=
  match es with
  | [] => Some f
  | e :: es => f' ← fleet_step e f; fleet_run es f'
  end.

(** ** What [processMessage] does with a message *)

(** A call that a goroutine with message [msg] may make, once its handler has
    [answered]: it hands over its message, once, and deletes its message only,
    and only for such an answer. *)
Definition call_ok (msg : SQSMessage) (answered : option (option error)) (calls : list ConsumerCall)
    : Prop :=
  match calls with
  | [QHandle m] => m = msg /\ answered = None /\ sqs_EventType msg = eventType
  | [QDelete _ receipt] =>
      receipt = ReceiptHandle msg
      /\ (sqs_EventType msg = eventType ->
           exists answer, answered = Some answer /\ deletes config msg answer = true)
  | _ => True
  end.

Definition answer_after (answered : option (option error)) (calls : list ConsumerCall) (r : Reply)
    : option (option error) :=
  match calls, rp_handle r with [QHandle _], Ret answer => Some answer | _, _ => answered end.

Fixpoint honest (msg : SQSMessage) (answered : option (option error)) (t : Task Probe) {struct t}
    : Prop :=
  match t with
  | Finished => True
  | Call m k => forall r w a, m (r, []) = (w, Ret a) ->
      call_ok msg answered w.2 /\ honest msg (answer_after answered w.2 r) (k a)
  end.

Lemma honest_advance msg answered t r calls t' :
  honest msg answered t -> advance t r = Some (calls, t') ->
  call_ok msg answered calls /\ honest msg (answer_after answered calls r) t'.
Proof.
  destruct t as [|A m k]; [done|]. cbn. intros Ht.
  destruct (m (r, [])) as [[r' calls'] [a|why]] eqn:E; [|done]. intros [= <- <-].
  apply (Ht r _ a E).
Qed.

(** A call that is neither. *)
Definition other_call (c : ConsumerCall) : bool :=
  match c with QHandle _ | QDelete _ _ => false | _ => true end.

Lemma honest_other {A} msg answered c (f : Reply -> outcome A) k :
  other_call c = true -> (forall a, honest msg answered (k a)) ->
  honest msg answered (Call (probe c f) k).
Proof. intros Hc Hk r w a [= <- _]. split; [by destruct c|]. by destruct c. Qed.

Lemma honest_hook {F} msg answered (field : ConsumerHooks Probe -> option F) sel call c k :
  field probe_hooks = Some sel -> call sel = probe c rp_hook -> other_call c = true ->
  honest msg answered (k tt) ->
  honest msg answered (Call (call_hook (hooks fleet_service) field call) k).
Proof.
  intros Hf Hcall Hc Hk r w []. rewrite call_hook_ret. cbn. rewrite Hf, Hcall. intros [= <-].
  split; [by destruct c|]. by destruct c.
Qed.

Lemma honest_delete msg answered k :
  (sqs_EventType msg = eventType ->
     exists answer, answered = Some answer /\ deletes config msg answer = true) ->
  (forall a, honest msg answered (k a)) ->
  honest msg answered
    (Call (DeleteMessage ctx (QueueUrl config) (ReceiptHandle msg)) k).
Proof. intros Hd Hk r w a [= <- _]. by split. Qed.

(** After the handler. *)
Lemma honest_failure msg answered err duration :
  (sqs_EventType msg = eventType -> answered = Some (Some err)) ->
  honest msg answered (handleFailure_task fleet_service ctx msg err duration).
Proof.
  intros Ha. unfold handleFailure_task, callOnConsumeDead, callOnConsumeFailure.
  cbn [Consumer.config fleet_service].
  destruct (sv_MaxAttempts config <=? ReceiveCount msg) eqn:E.
  - eapply honest_hook; [reflexivity|reflexivity|done|]. apply honest_delete; [|done].
    intros Ht. exists (Some err). split; [by apply Ha|exact E].
  - by eapply honest_hook.
Qed.

Lemma process_honest m :
  honest (parse m) None (process_task uuid_Parse fleet_service ctx m).
Proof.
  unfold process_task, callOnConsumeStart. set (msg := parse m).
  eapply honest_hook; [reflexivity|reflexivity|done|].
  apply honest_other; [done|]. intros start r w handleErr E.
  set (answered := answer_after None w.2 r).
  assert (Hcall : call_ok msg None w.2
    /\ (sqs_EventType msg = eventType -> answered = Some handleErr)).
  { revert E. cbn [handler fleet_service]. unfold router_Handle, handler_of, RegisterHandler.
    cbn [handlers fallback SetFallback NewEventTypeRouter]. rewrite lookup_insert.
    case_decide as Ht; [|rewrite lookup_empty].
    - unfold probe. cbn. intros [= <- Hr]. cbn. unfold answered. cbn. by rewrite Hr.
    - cbn. intros [= <- Hr]. cbn. split; [done|]. by intros <-. }
  destruct Hcall as [Hcall Ha]. split; [exact Hcall|].
  apply honest_other; [done|]. intros now.
  destruct handleErr as [err|]; [by apply honest_failure|].
  apply honest_delete; [intros Ht; exists None; split; [by apply Ha|done]|].
  unfold callOnDeleteFailure, callOnConsumeSuccess.
  intros [e|]; cbv zeta; repeat (eapply honest_hook; [reflexivity|reflexivity|done|]);
    (apply honest_other; [done|]); intros now'; (apply honest_other; [done|]); by intros _.
Qed.

(** ** The simulation *)

Abbreviation pstep := (pipe_step jsonb repo ctx uuid_Parse queueURL eventType config Handle).
Abbreviation prun := (pipe_run jsonb repo ctx uuid_Parse queueURL eventType config Handle).

(** [m] is a delivery of place [k]. *)
Definition known (f : Fleet) (m : Message) (k : nat) : Prop :=
  exists sent id receipt attributes, m = delivered queueURL sent id receipt attributes
    /\ fl_queue f !! k = Some sent /\ fl_receipts f !! receipt = Some k.

(** What a goroutine may still do is what Pipeline has recorded of it. *)
Definition goroutine_ok (f : Fleet) (p : Pipeline) (g : Goroutine) : Prop :=
  match g with
  | Working m t => exists k answered, known f m k /\ honest (parse m) answered t
      /\ forall answer, answered = Some answer -> (k, parse m, answer) ∈ p_answers p
  | InHandler m d t => exists k, known f m k /\ honest (parse m) None t
      /\ (d < fl_next f)%nat /\ p_taken p !! d = Some k
      /\ forall s, sessions (fl_db f) !! d = Some s -> s_msg s = parse m
  end.

Definition worker_ok (f : Fleet) (p : Pipeline) (wk : ServiceWorker) : Prop :=
  Forall (fun m => exists k, known f m k) (sw_waiting wk)
  /\ Forall (goroutine_ok f p) (sw_running wk).

(** Places of the event type of the handler. *)
Definition of_type (f : Fleet) (k : nat) : Prop :=
  exists sent, fl_queue f !! k = Some sent /\ EventType sent = eventType.

Record Simulates (f : Fleet) (p : Pipeline) : Prop := {
  sim_outbox : p_outbox p = fl_outbox f;
  sim_queue : p_queue p = fl_queue f;
  sim_db : p_consumer p = fl_db f;
  sim_deleted k : k ∈ p_deleted p -> k ∈ fl_deleted f;
  sim_deletes k : k ∈ fl_deleted f -> of_type f k -> k ∈ p_deleted p;
  sim_places k : k ∈ fl_deleted f -> is_Some (fl_queue f !! k);
  sim_next d s : sessions (fl_db f) !! d = Some s -> (d < fl_next f)%nat;
  sim_workers : Forall (worker_ok f p) (fl_workers f)
}.

(** Goroutine [i] of worker [w] is about to return from the handler, which
    [answered] the delivery [msg] of the message at [k]. *)
Definition returns (f : Fleet) (w i k : nat) (msg : SQSMessage) (answer : option error) : Prop :=
  exists wk m d t s, fl_workers f !! w = Some wk /\ sw_running wk !! i = Some (InHandler m d t)
    /\ known f m k /\ msg = parse m
    /\ sessions (fl_db f) !! d = Some s /\ s_prog s = Return answer.

(** What may change under a goroutine. *)
Record Grows (f : Fleet) (p : Pipeline) (f' : Fleet) (p' : Pipeline) : Prop := {
  gr_queue k sent : fl_queue f !! k = Some sent -> fl_queue f' !! k = Some sent;
  gr_receipts receipt k : fl_receipts f !! receipt = Some k -> fl_receipts f' !! receipt = Some k;
  gr_answers x : x ∈ p_answers p -> x ∈ p_answers p';
  gr_taken d : (d < fl_next f)%nat -> p_taken p' !! d = p_taken p !! d;
  gr_next : (fl_next f <= fl_next f')%nat;
  gr_sessions d s' : (d < fl_next f)%nat -> sessions (fl_db f') !! d = Some s' ->
    exists s, sessions (fl_db f) !! d = Some s /\ s_msg s' = s_msg s
}.

Lemma known_grows f p f' p' m k : Grows f p f' p' -> known f m k -> known f' m k.
Proof.
  intros H (sent & id & receipt & attributes & -> & Hq & Hr).
  exists sent, id, receipt, attributes. split; [done|]. split; by eapply H.
Qed.

Lemma goroutine_grows f p f' p' g : Grows f p f' p' -> goroutine_ok f p g -> goroutine_ok f' p' g.
Proof.
  intros H. destruct g as [m t|m d t]; cbn.
  - intros (k & answered & Hk & Ht & Ha). exists k, answered.
    split; [by eapply known_grows|]. split; [done|]. intros answer E. by apply H, Ha.
  - intros (k & Hk & Ht & Hd & Htaken & Hs). exists k.
    split; [by eapply known_grows|]. split; [done|]. split; [pose proof (gr_next _ _ _ _ H); lia|].
    split; [by rewrite (gr_taken _ _ _ _ H)|]. intros s' Hs'.
    destruct (gr_sessions _ _ _ _ H d s' Hd Hs') as (s & E & ->). by apply Hs.
Qed.

Lemma worker_grows f p f' p' wk : Grows f p f' p' -> worker_ok f p wk -> worker_ok f' p' wk.
Proof.
  intros H [Hw Hr]. split.
  - eapply Forall_impl; [exact Hw|]. intros m (k & Hk). exists k. by eapply known_grows.
  - eapply Forall_impl; [exact Hr|]. intros g. by apply goroutine_grows.
Qed.

Lemma grows_refl f p : Grows f p f p.
Proof. split; try done. intros d s' _ Hs. by exists s'. Qed.

(** One worker changes. *)
Lemma workers_grow f p f' p' w wk' :
  Grows f p f' p' -> Forall (worker_ok f p) (fl_workers f) -> worker_ok f' p' wk' ->
  Forall (worker_ok f' p') (<[w := wk']> (fl_workers f)).
Proof.
  intros H Hall Hwk. apply Forall_insert; [|done].
  eapply Forall_impl; [exact Hall|]. intros wk. by apply worker_grows.
Qed.

Lemma worker_lookup f p w wk :
  Forall (worker_ok f p) (fl_workers f) -> fl_workers f !! w = Some wk -> worker_ok f p wk.
Proof. intros H E. by apply (Forall_lookup_1 _ _ _ _ H E). Qed.

Lemma goroutine_lookup f p w wk i g :
  Forall (worker_ok f p) (fl_workers f) -> fl_workers f !! w = Some wk ->
  sw_running wk !! i = Some g -> worker_ok f p wk /\ goroutine_ok f p g.
Proof.
  intros H E Eg. pose proof (worker_lookup f p w wk H E) as [Hw Hr].
  split; [done|]. by apply (Forall_lookup_1 _ _ _ _ Hr Eg).
Qed.

(** One goroutine changes. *)
Lemma set_goroutine_ok f p f' p' i g wk :
  Grows f p f' p' -> worker_ok f p wk -> goroutine_ok f' p' g ->
  worker_ok f' p' (set_goroutine i g wk).
Proof.
  intros H Hwk Hg. destruct (worker_grows f p f' p' wk H Hwk) as [Hw Hr].
  split; [done|]. by apply Forall_insert.
Qed.

(** A received message has the event type and the handle of what was sent. *)
Lemma delivered_fields sent id receipt attributes :
  sqs_EventType (parse (delivered queueURL sent id receipt attributes)) = EventType sent
  /\ ReceiptHandle (parse (delivered queueURL sent id receipt attributes)) = receipt.
Proof.
  split; [|done]. destruct (attributes_of sent) as [E _].
  unfold parseSQSMessage, attr_value. cbn [sqs_EventType delivered MessageAttributes].
  change (in_MessageAttributes (buildSendMessageInput queueURL sent)) with (buildMessageAttributes sent).
  by rewrite E.
Qed.

(** *** Each event *)

Lemma sim_worker f p w wk' :
  Simulates f p -> worker_ok f p wk' -> Simulates (set_worker w wk' f) p.
Proof.
  intros [Ho Hq Hdb Hd Hd' Hpl Hn Hw] Hwk. split; try done.
  by apply (workers_grow f p _ p w wk' (grows_refl f p)).
Qed.

Lemma sim_grows f p f' p' :
  Simulates f p -> Grows f p f' p' -> fl_workers f' = fl_workers f ->
  Forall (worker_ok f' p') (fl_workers f').
Proof.
  intros Hsim H ->. eapply Forall_impl; [apply (sim_workers _ _ Hsim)|].
  intros wk. by apply worker_grows.
Qed.

Lemma sim_outbox_step e f p s' :
  Simulates f p -> sys_step jsonb repo ctx e (fl_outbox f) = Some s' ->
  let f' := mkFleet s' (fl_queue f ++ accepted_by e (fl_outbox f)) (fl_db f) (fl_receipts f)
              (fl_deleted f) (fl_workers f) (fl_next f) in
  exists p', pstep (POutbox e) p = Some p' /\ Simulates f' p' /\ p_answers p' = p_answers p.
Proof.
  intros Hsim Hs f'. pose proof Hsim as [Ho Hq Hdb Hd Hd' Hpl Hn Hw].
  exists (mkPipeline s' (p_queue p ++ accepted_by e (p_outbox p)) (p_consumer p) (p_taken p)
            (p_answers p) (p_deleted p)).
  cbn [pipe_step]. rewrite Ho, Hs. split; [done|].
  assert (Hkeep : forall k sent, fl_queue f !! k = Some sent -> fl_queue f' !! k = Some sent)
    by (intros; by apply lookup_app_l_Some).
  split; [|done]. split; try done; cbn [f' p_queue fl_queue].
  - by rewrite Hq.
  - intros k Hk (sent & Hl & Ht). apply Hd'; [done|]. destruct (Hpl k Hk) as [sent' Hl'].
    exists sent'. split; [done|]. pose proof (Hkeep k sent' Hl') as E.
    change (fl_queue f' !! k = Some sent) in Hl. rewrite Hl in E. by injection E as <-.
  - intros k Hk. destruct (Hpl k Hk) as [sent' Hl']. by exists sent'; apply Hkeep.
  - apply (sim_grows f p); [done| |done]. split; try done. intros d s1 _ Hs1. by exists s1.
Qed.

(** A statement of a handler, its return or its end with the process. *)
Lemma sim_stmt e f p db' :
  Simulates f p -> db_step Handle true (fl_db f) e = Some db' ->
  (forall d msg, e <> Deliver d msg) ->
  exists p', pstep (PConsumer e) p = Some p' /\ Simulates (set_db db' f) p'
    /\ Grows f p (set_db db' f) p'
    /\ p_answers p' = p_answers p ++ match e with Step d => returning d p | _ => [] end.
Proof.
  intros Hsim Hs Hne. pose proof Hsim as [Ho Hq Hdb Hd Hd' Hpl Hn Hw].
  destruct (db_step_facts Handle _ _ _ Hs) as (_ & Hsess & _).
  set (answers := match e with Step d => returning d p | _ => [] end).
  exists (mkPipeline (p_outbox p) (p_queue p) db' (p_taken p) (p_answers p ++ answers) (p_deleted p)).
  assert (Hold : forall d s', sessions db' !! d = Some s' ->
    exists s, sessions (fl_db f) !! d = Some s /\ s_msg s' = s_msg s).
  { intros d s' E. destruct (Hsess d s' E) as [?|(msg & Ee & _)]; [done|]. by destruct (Hne d msg). }
  assert (Hgrows : Grows f p (set_db db' f) (mkPipeline (p_outbox p) (p_queue p) db' (p_taken p)
    (p_answers p ++ answers) (p_deleted p))).
  { split; try done; cbn.
    - intros x Hx. apply elem_of_app. by left.
    - intros d s' _. apply Hold. }
  split; [|split; [|split; [exact Hgrows|done]]].
  - destruct e as [d msg|d|d err applied|d]; [by destruct (Hne d msg)|..]; cbn [pipe_step];
      by rewrite Hdb, Hs.
  - split; try done; [|by apply (sim_grows f p)].
    intros d s' E. destruct (Hold d s' E) as (s & Es & _). by apply (Hn d s).
Qed.

Lemma sim_crashes ds : forall f p db',
  Simulates f p -> db_run Handle true (fl_db f) (Crash <$> ds) = Some db' ->
  exists es p', prun es p = Some p' /\ Simulates (set_db db' f) p' /\ p_answers p' = p_answers p.
Proof.
  induction ds as [|d ds IH]; intros f p db' Hsim Hs; cbn in Hs.
  { injection Hs as <-. exists [], p. split; [done|]. by destruct f. }
  edestruct (sim_stmt (Crash d) f p) as (p1 & Hp1 & Hsim1 & _ & Ea); [done|done|by intros|].
  destruct (IH _ p1 db' Hsim1 Hs) as (es & p' & Hes & Hsim' & Ea').
  exists (PConsumer (Crash d) :: es), p'. cbn [pipe_run]. rewrite Hp1.
  split; [done|]. split; [done|]. by rewrite Ea', Ea, app_nil_r.
Qed.

Lemma receive_known batch : forall f receipts messages receipts',
  (forall receipt k, fl_receipts f !! receipt = Some k -> receipts !! receipt = Some k) ->
  receive (fl_queue f) batch receipts = Some (messages, receipts') ->
  (forall receipt k, receipts !! receipt = Some k -> receipts' !! receipt = Some k)
  /\ Forall (fun m => exists k sent id receipt attributes,
       m = delivered queueURL sent id receipt attributes /\ fl_queue f !! k = Some sent
       /\ receipts' !! receipt = Some k) messages.
Proof.
  induction batch as [|[k [[id receipt] attributes]] batch IH]; intros f receipts messages receipts' H;
    cbn [receive]; [by intros [= <- <-]|].
  destruct (fl_queue f !! k) as [sent|] eqn:Ek; [|done]. cbn [mbind option_bind].
  destruct (receipts !! receipt) eqn:Er; [done|].
  destruct (receive (fl_queue f) batch _) as [[ms r]|] eqn:E; [|done].
  cbn [mbind option_bind]. intros [= <- <-].
  assert (Hin : forall x y, receipts !! x = Some y -> <[receipt := k]> receipts !! x = Some y).
  { intros x y Hx. rewrite lookup_insert_ne; [done|]. intros ->. congruence. }
  destruct (IH f _ ms r (fun x y Hx => Hin x y (H x y Hx)) E) as [Hkeep Hms].
  split; [intros x y Hx; by apply Hkeep, Hin|]. constructor; [|done].
  exists k, sent, id, receipt, attributes. split; [done|]. split; [done|].
  apply Hkeep. apply lookup_insert_eq.
Qed.

Lemma sim_receive f p w batch messages receipts :
  Simulates f p -> receive (fl_queue f) batch (fl_receipts f) = Some (messages, receipts) ->
  Simulates (mkFleet (fl_outbox f) (fl_queue f) (fl_db f) receipts (fl_deleted f)
    (<[w := mkServiceWorker messages [] false]> (fl_workers f)) (fl_next f)) p.
Proof.
  intros [Ho Hq Hdb Hd Hd' Hpl Hn Hw] E.
  destruct (receive_known batch f (fl_receipts f) messages receipts (fun _ _ H => H) E)
    as [Hkeep Hms].
  split; try done. cbn [fl_workers]. apply (workers_grow f p); [|done|].
  - split; try done. intros d s' _ Hs. by exists s'.
  - split; [|constructor]. exact Hms.
Qed.

(** A goroutine makes a call that is not the handler's: at most a deletion, which
    its answer justifies. *)
Lemma delete_message_cases calls effective f :
  delete_message calls effective f = f
  \/ exists url receipt k, calls = [QDelete url receipt] /\ fl_receipts f !! receipt = Some k
       /\ delete_message calls effective f = set_deleted ({[k]} ∪ fl_deleted f) f.
Proof.
  unfold delete_message. destruct calls as [|c [|]]; [by left| |destruct c; by left].
  destruct c; try by left. destruct (fl_receipts f !! receipt) as [k|] eqn:E; [|by left].
  destruct (_ && _); [right|by left]. by eexists _, receipt, k.
Qed.

Lemma grows_deleted f p deleted pdeleted :
  Grows f p (set_deleted deleted f)
    (mkPipeline (p_outbox p) (p_queue p) (p_consumer p) (p_taken p) (p_answers p) pdeleted).
Proof. split; try done. intros d s' _ Hs. by exists s'. Qed.

Lemma sim_deleted_at f p k sent pdeleted :
  Simulates f p -> fl_queue f !! k = Some sent ->
  (forall j, j ∈ pdeleted -> j ∈ {[k]} ∪ p_deleted p) ->
  (forall j, j ∈ p_deleted p -> j ∈ pdeleted) ->
  (EventType sent = eventType -> k ∈ pdeleted) ->
  Simulates (set_deleted ({[k]} ∪ fl_deleted f) f)
    (mkPipeline (p_outbox p) (p_queue p) (p_consumer p) (p_taken p) (p_answers p) pdeleted).
Proof.
  intros [Ho Hq Hdb Hd Hd' Hpl Hn Hw] Hk Hsub Hsup Hin.
  split; try done; cbn [set_deleted p_deleted fl_deleted fl_queue].
  - intros j [Hj|Hj]%Hsub%elem_of_union; apply elem_of_union; auto.
  - intros j [->%elem_of_singleton|Hj]%elem_of_union Htj; [|by apply Hsup, Hd'].
    destruct Htj as (sent' & Hs & Ht'). apply Hin.
    change (fl_queue f !! k = Some sent') in Hs. rewrite Hk in Hs. by injection Hs as ->.
  - intros j [->%elem_of_singleton|Hj]%elem_of_union; [by exists sent|by apply Hpl].
Qed.

Lemma sim_delete f p m k answered calls effective :
  Simulates f p -> known f m k -> call_ok (parse m) answered calls ->
  (forall answer, answered = Some answer -> (k, parse m, answer) ∈ p_answers p) ->
  let f' := delete_message calls effective f in
  exists es p', prun es p = Some p' /\ Simulates f' p' /\ Grows f p f' p'
    /\ p_answers p' = p_answers p.
Proof.
  intros Hsim (sent & id & receipt & attributes & -> & Hk & Hr) Hok Ha f'.
  destruct (delivered_fields sent id receipt attributes) as [Et Erc].
  destruct (delete_message_cases calls effective f) as [E|(url & receipt' & k' & -> & Hr' & E)];
    unfold f'; rewrite E.
  { exists [], p. split; [done|]. split; [done|]. split; [apply grows_refl|done]. }
  destruct Hok as [-> Hok]. rewrite Erc in Hr'. assert (k' = k) as -> by congruence. clear E Hr'.
  destruct (decide (EventType sent = eventType)) as [Ht|Ht].
  - destruct (Hok ltac:(by rewrite Et)) as (answer & -> & Hdel).
    specialize (Ha answer eq_refl). apply list_elem_of_lookup in Ha as [i Hi].
    exists [PDelete i], (mkPipeline (p_outbox p) (p_queue p) (p_consumer p) (p_taken p)
      (p_answers p) ({[k]} ∪ p_deleted p)). cbn [pipe_run pipe_step].
    rewrite Hi. cbn [mbind option_bind]. rewrite Hdel. split; [done|].
    split; [|split; [apply grows_deleted|done]].
    apply (sim_deleted_at f p k sent); [done|done|done|..].
    + intros j Hj. apply elem_of_union. by right.
    + intros _. apply elem_of_union. left. by apply elem_of_singleton.
  - exists [], (mkPipeline (p_outbox p) (p_queue p) (p_consumer p) (p_taken p) (p_answers p)
      (p_deleted p)). split; [by destruct p|]. split; [|split; [apply grows_deleted|done]].
    apply (sim_deleted_at f p k sent); [done|done|..|done|done].
    intros j Hj. apply elem_of_union. by right.
Qed.

(** The call changes the goroutine too. *)
Lemma answered_after_call answered calls r :
  (forall msg, calls <> [QHandle msg]) -> answer_after answered calls r = answered.
Proof.
  intros H. unfold answer_after. destruct calls as [|c [|]]; [done|destruct c; try done|by destruct c].
  by destruct (H msg).
Qed.

Lemma sim_call f p w wk i m t reply calls t' effective :
  Simulates f p -> fl_workers f !! w = Some wk -> sw_running wk !! i = Some (Working m t) ->
  advance t reply = Some (calls, t') -> (forall msg, calls <> [QHandle msg]) ->
  exists es p', prun es p = Some p'
    /\ Simulates (set_worker w (set_goroutine i (Working m t') wk)
                    (delete_message calls effective f)) p'
    /\ p_answers p' = p_answers p.
Proof.
  intros Hsim Hwk Hi Hadv Hc.
  destruct (goroutine_lookup f p w wk i _ (sim_workers _ _ Hsim) Hwk Hi) as [Hok Hg].
  destruct Hg as (k & answered & Hknown & Ht & Ha).
  destruct (honest_advance _ _ _ _ _ _ Ht Hadv) as [Hcall Ht'].
  rewrite (answered_after_call _ _ _ Hc) in Ht'.
  destruct (sim_delete f p m k answered calls effective Hsim Hknown Hcall Ha)
    as (es & p' & Hes & Hsim' & Hgrows & Hans).
  exists es, p'. split; [done|]. split; [|done]. apply sim_worker; [done|].
  apply (set_goroutine_ok f p); [done|done|]. exists k, answered.
  split; [by eapply known_grows|]. split; [done|]. by rewrite Hans.
Qed.

Lemma sim_enter f p w wk i m t msg t' db' :
  Simulates f p -> fl_workers f !! w = Some wk -> sw_running wk !! i = Some (Working m t) ->
  advance t (handle_reply None) = Some ([QHandle msg], t') ->
  db_step Handle true (fl_db f) (Deliver (fl_next f) msg) = Some db' ->
  exists es p', prun es p = Some p'
    /\ Simulates (mkFleet (fl_outbox f) (fl_queue f) db' (fl_receipts f) (fl_deleted f)
         (<[w := set_goroutine i (InHandler m (fl_next f) t) wk]> (fl_workers f))
         (S (fl_next f))) p'
    /\ p_answers p' = p_answers p.
Proof.
  intros Hsim Hwk Hi Hadv Hdb.
  destruct (goroutine_lookup f p w wk i _ (sim_workers _ _ Hsim) Hwk Hi) as [Hok Hg].
  destruct Hg as (k & answered & Hknown & Ht & _).
  destruct (honest_advance _ _ _ _ _ _ Ht Hadv) as [(-> & -> & Htype) _].
  pose proof Hknown as (sent & id & receipt & attributes & Em & Hk & Hr).
  pose proof Hsim as [Ho Hq Hcons Hd Hd' Hpl Hn Hw]. set (d := fl_next f) in *.
  set (p' := mkPipeline (p_outbox p) (p_queue p) db' (<[d := k]> (p_taken p)) (p_answers p) (p_deleted p)).
  exists [PDeliver d k id receipt attributes], p'.
  cbn [pipe_run pipe_step]. rewrite Hq, Hk. cbn [mbind option_bind]. rewrite <- Em.
  rewrite bool_decide_eq_true_2, Hcons, Hdb by done. split; [cbn; unfold p'; by rewrite Hq|].
  cbn [db_step] in Hdb. destruct (sessions (fl_db f) !! d); [done|]. injection Hdb as <-.
  split; [|done]. match goal with |- Simulates ?g _ => set (f' := g) end.
  assert (Hgrows : Grows f p f' p').
  { split; try done; cbn.
    - intros j Hj. rewrite lookup_insert_ne; [done|lia].
    - lia.
    - intros j s' Hj. rewrite lookup_insert_ne by lia. intros E. by exists s'. }
  split; try done; cbn [f' fl_db fl_next fl_workers sessions].
  - intros j s. rewrite lookup_insert. case_decide; [lia|]. intros Hs. specialize (Hn j s Hs). lia.
  - apply (workers_grow f p); [exact Hgrows|done|]. apply (set_goroutine_ok f p); [done|done|].
    exists k. split; [by eapply known_grows|]. split; [done|]. cbn. split; [lia|].
    rewrite !lookup_insert_eq. split; [done|]. by intros s [= <-].
Qed.

Lemma sim_return f p w wk i m d t s answer msg t' db' :
  Simulates f p -> fl_workers f !! w = Some wk -> sw_running wk !! i = Some (InHandler m d t) ->
  sessions (fl_db f) !! d = Some s -> s_prog s = Return answer ->
  advance t (handle_reply answer) = Some ([QHandle msg], t') ->
  db_step Handle true (fl_db f) (Step d) = Some db' ->
  exists es p', prun es p = Some p'
    /\ Simulates (set_worker w (set_goroutine i (Working m t') wk) (set_db db' f)) p'
    /\ forall k msg a, (k, msg, a) ∈ p_answers p' ->
         (k, msg, a) ∈ p_answers p \/ returns f w i k msg a.
Proof.
  intros Hsim Hwk Hi Hs Hret Hadv Hdb.
  destruct (goroutine_lookup f p w wk i _ (sim_workers _ _ Hsim) Hwk Hi) as [Hok Hg].
  destruct Hg as (k & Hknown & Ht & Hd & Htaken & Hmsg).
  destruct (honest_advance _ _ _ _ _ _ Ht Hadv) as [_ Ht'].
  destruct (sim_stmt (Step d) f p db' Hsim Hdb ltac:(by intros)) as (p' & Hp' & Hsim' & Hgrows & Hans).
  assert (Er : returning d p = [(k, parse m, answer)]).
  { unfold returning. by rewrite (sim_db _ _ Hsim), Hs, Htaken, Hret, (Hmsg s Hs). }
  rewrite Er in Hans. exists [PConsumer (Step d)], p'. cbn [pipe_run]. rewrite Hp'. split; [done|].
  split.
  - apply sim_worker; [done|]. apply (set_goroutine_ok f p); [done|done|].
    exists k, (Some answer). split; [by eapply known_grows|]. split; [exact Ht'|].
    intros answer' [= <-]. rewrite Hans. apply elem_of_app. right. by left.
  - intros k' msg' a'. rewrite Hans, elem_of_app, list_elem_of_singleton.
    intros [?|[= -> -> ->]]; [by left|right]. by exists wk, m, d, t, s.
Qed.

(** *** Every run *)

Abbreviation fstep := (fleet_step).
Abbreviation frun := (fleet_run).

(** A run of Pipeline from [p] that ends where the services are, and whose new
    answers are [new]. *)
Definition simulated (new : nat -> SQSMessage -> option error -> Prop) (f : Fleet) (p : Pipeline)
    : Prop :=
  exists es p', prun es p = Some p' /\ Simulates f p'
    /\ forall k msg a, (k, msg, a) ∈ p_answers p' -> (k, msg, a) ∈ p_answers p \/ new k msg a.

Lemma simulated_here new f p : Simulates f p -> simulated new f p.
Proof. intros H. exists [], p. split; [done|]. split; [done|]. by left. Qed.

Lemma simulated_silent new f p :
  (exists es p', prun es p = Some p' /\ Simulates f p' /\ p_answers p' = p_answers p) ->
  simulated new f p.
Proof. intros (es & p' & H & Hsim & E). exists es, p'. rewrite E. auto. Qed.

(** The handler returned in an event. *)
Definition returns_in (e : FleetEvent) (f : Fleet) (k : nat) (msg : SQSMessage) (a : option error)
    : Prop :=
  match e with FReturn w i => returns f w i k msg a | _ => False end.

(** ... in the course of [es] from [f]. *)
Definition returned_in (es : list FleetEvent) (f : Fleet) (k : nat) (msg : SQSMessage)
    (a : option error) : Prop :=
  exists es1 e es2 f1, es = es1 ++ e :: es2 /\ frun es1 f = Some f1 /\ returns_in e f1 k msg a.

Lemma returned_in_app es1 : forall es2 f k msg a,
  returned_in (es1 ++ es2) f k msg a ->
  returned_in es1 f k msg a \/ exists f1, frun es1 f = Some f1 /\ returned_in es2 f1 k msg a.
Proof.
  induction es1 as [|e es1 IH]; intros es2 f k msg a Hin; [right; by exists f|].
  destruct Hin as (ea & e' & eb & f1 & E & Hf1 & Hr). destruct ea as [|e0 ea].
  { injection E as <- _. cbn in Hf1. injection Hf1 as <-. left. by exists [], e, es1, f. }
  injection E as <- E. cbn [fleet_run] in Hf1. bind_hyp Hf1 f0 Hf0.
  destruct (IH es2 f0 k msg a) as [(ec & e1 & ed & f2 & -> & Hf2 & Hr2)|(f2 & Hf2 & Hr2)];
    [by exists ea, e', eb, f1|left|right].
  - exists (e :: ec), e1, ed, f2. split; [done|]. cbn [fleet_run]. by rewrite Hf0.
  - exists f2. cbn [fleet_run]. by rewrite Hf0.
Qed.

Lemma sim_goroutine_event e f p f' :
  Simulates f p -> match e with FCall _ _ _ _ | FEnter _ _ | FReturn _ _ | FEnd _ _ => True | _ => False end ->
  fstep e f = Some f' -> simulated (returns_in e f) f' p.
Proof.
  intros Hsim He Hs. destruct e as [| | | | |w i reply applied|w i|w i|w i|]; try done;
    cbn [fleet_step] in Hs; bind_hyp Hs wk Hwk; bind_hyp Hs g Hg.
  - destruct g as [m t|m d t]; [|done]. bind_hyp Hs ct Hadv. destruct ct as [calls t'].
    assert (Hc : forall msg, calls <> [QHandle msg]) by (intros msg ->; done).
    eapply (sim_call f p w wk i m t reply calls t' _ Hsim Hwk Hg Hadv) in Hc.
    apply (simulated_silent (returns_in (FCall w i reply applied) f)) in Hc.
    destruct calls as [|c [|]]; [injection Hs as <-; exact Hc|destruct c; try done|destruct c];
      injection Hs as <-; exact Hc.
  - destruct g as [m t|m d t]; [|done]. bind_hyp Hs ct Hadv. destruct ct as [calls t'].
    destruct calls as [|c [|]]; [done| |by destruct c]. destruct c; try done.
    bind_hyp Hs db' Hdb. injection Hs as <-.
    by apply simulated_silent, (sim_enter f p w wk i m t msg t' db').
  - destruct g as [m t|m d t]; [done|]. bind_hyp Hs s Hds. destruct (s_prog s) eqn:Hret; [|done].
    bind_hyp Hs ct Hadv. destruct ct as [calls t'].
    destruct calls as [|c [|]]; [done| |by destruct c]. destruct c; try done.
    bind_hyp Hs db' Hdb. injection Hs as <-.
    by apply (sim_return f p w wk i m d t s err msg t' db').
  - destruct g as [m [|A f0 k]|]; try done. injection Hs as <-. apply simulated_here.
    apply sim_worker; [done|].
    destruct (worker_lookup f p w wk (sim_workers _ _ Hsim) Hwk) as [Hwait Hrun].
    split; [done|]. by apply Forall_delete.
Qed.

Lemma sim_event e f p f' :
  Simulates f p -> fstep e f = Some f' -> simulated (returns_in e f) f' p.
Proof.
  intros Hsim Hs. destruct e as [e|w batch|w|w|w|w i reply applied|w i|w i|w i|e];
    try (match type of Hs with fstep ?e0 _ = _ =>
         exact (sim_goroutine_event e0 f p f' Hsim I Hs) end); cbn [fleet_step] in Hs.
  - bind_hyp Hs s' Hsys. injection Hs as <-.
    destruct (sim_outbox_step e f p s' Hsim Hsys) as (p' & Hp' & Hsim').
    apply simulated_silent. exists [POutbox e], p'. cbn [pipe_run]. by rewrite Hp'.
  - bind_hyp Hs wk Hwk. destruct (sw_waiting wk), (sw_running wk), (sw_stopped wk); try done.
    destruct (String.eqb _ _); [|done].
    bind_hyp Hs mr Hrec. destruct mr as [messages receipts]. injection Hs as <-.
    apply simulated_here. by apply (sim_receive f p w batch).
  - bind_hyp Hs wk Hwk. destruct (worker_lookup f p w wk (sim_workers _ _ Hsim) Hwk) as [Hwait Hrun].
    destruct (sw_waiting wk) as [|m waiting]; [done|]. destruct (_ && _); [|done]. injection Hs as <-.
    apply Forall_cons in Hwait as [[k Hm] Hwait]. apply simulated_here, sim_worker; [done|].
    split; [done|]. apply Forall_app; split; [done|]. repeat constructor.
    exists k, None. split; [done|]. split; [apply process_honest|done].
  - bind_hyp Hs wk Hwk. injection Hs as <-. apply simulated_here, sim_worker; [done|].
    by apply (worker_lookup f p w wk (sim_workers _ _ Hsim)).
  - bind_hyp Hs wk Hwk. bind_hyp Hs db' Hdb. injection Hs as <-.
    destruct (sim_crashes _ f p db' Hsim Hdb) as (es & p' & Hes & Hsim' & Ea).
    apply simulated_silent. exists es, p'. split; [done|]. split; [|done].
    apply sim_worker; [done|]. by split; constructor.
  - assert (exists db', db_step Handle true (fl_db f) e = Some db' /\ f' = set_db db' f
      /\ (forall d msg, e <> Deliver d msg)
      /\ match e with Step d => returning d p | _ => [] end = []) as (db' & Hdb & -> & Hne & Hnone).
    { destruct e as [| d|d err b|]; try done; bind_hyp Hs s Hds;
        (destruct (s_prog s) eqn:Ep; [done|]); bind_hyp Hs db' Hdb; injection Hs as <-;
        exists db'; repeat (split; [done|]); [|done].
      unfold returning. rewrite (sim_db _ _ Hsim), Hds. destruct (p_taken p !! d); [by rewrite Ep|done]. }
    destruct (sim_stmt e f p db' Hsim Hdb Hne) as (p' & Hp' & Hsim' & _ & Ea).
    rewrite Hnone, app_nil_r in Ea. apply simulated_silent. exists [PConsumer e], p'.
    cbn [pipe_run]. by rewrite Hp'.
Qed.

Lemma pipe_run_app es1 es2 p : prun (es1 ++ es2) p = prun es1 p ≫= prun es2.
Proof.
  revert p. induction es1 as [|e es1 IH]; intros p; [done|]. cbn [app pipe_run].
  destruct (pstep e p) as [p1|]; [apply IH|done].
Qed.

Lemma sim_run es : forall f p f',
  Simulates f p -> frun es f = Some f' -> simulated (returned_in es f) f' p.
Proof.
  induction es as [|e es IH]; intros f p f' Hsim Hs; cbn [fleet_run] in Hs.
  { injection Hs as <-. by apply simulated_here. }
  bind_hyp Hs f1 Hf1. destruct (sim_event e f p f1 Hsim Hf1) as (es1 & p1 & Hp1 & Hsim1 & Ha1).
  destruct (IH f1 p1 f' Hsim1 Hs) as (es2 & p2 & Hp2 & Hsim2 & Ha2).
  exists (es1 ++ es2), p2. rewrite pipe_run_app, Hp1. split; [done|]. split; [done|].
  intros k msg a [Ha|(ea & e' & eb & f2 & -> & Hf2 & Hr)]%Ha2.
  - destruct (Ha1 k msg a Ha) as [|Hr]; [by left|right]. by exists [], e, es, f.
  - right. exists (e :: ea), e', eb, f2. split; [done|]. cbn [fleet_run]. by rewrite Hf1.
Qed.

Lemma sim_start n : Simulates (fleet_start n) (pipe_start envs).
Proof.
  split; try done; cbn.
  apply Forall_replicate. by split; constructor.
Qed.

(** C14: the consumer services do what the pipeline allows.  Whatever any number
    of workers, sequential or parallel, do with what they receive, call by call,
    with the statements, failures, clocks, hooks and crashes in between, some
    run of Pipeline has the same outbox, queue, database and, among the messages
    of the handler's event type, the same deletions. *)
Theorem fleet_refines (workers : nat) (es : list FleetEvent) (f : Fleet)
  (Hrun : frun es (fleet_start workers) = Some f) :
  exists es' p, prun es' (pipe_start envs) = Some p
    /\ p_outbox p = fl_outbox f /\ p_queue p = fl_queue f /\ p_consumer p = fl_db f
    /\ forall k sent, fl_queue f !! k = Some sent -> EventType sent = eventType ->
         (k ∈ p_deleted p <-> k ∈ fl_deleted f).
Proof.
  destruct (sim_run es _ _ f (sim_start workers) Hrun) as (es' & p & Hp & Hsim & _).
  exists es', p. split; [done|]. split; [apply Hsim|]. split; [apply Hsim|]. split; [apply Hsim|].
  intros k sent Hk Ht. split; [apply Hsim|]. intros Hd. apply (sim_deletes _ _ Hsim); [done|].
  by exists sent.
Qed.

End Fleet.

(** ** A run *)

Section Run.
Abbreviation Handle := (UserRegisteredHandler_Handle demo_unmarshal).
Abbreviation run :=
  (fleet_run demo_jsonb demo_repo demo_ctx Some "users" "user.registered"
     (DefaultServiceConfig "users") Handle).
Abbreviation call i := (FCall 0 i (handle_reply None) false).

(** A message is published and received twice, by two workers.  The process of
    the first dies in the handler; the second handles it and deletes it. *)
Definition two_workers : list FleetEvent :=
  [FOutbox (EInsert (mkParams "user.registered" (Some "u1") None "k1" 3)); FOutbox (EFetch 1 10);
   FOutbox (EPublish 0 None true);
   FReceive 1 [(0%nat, ("s1", "r1", ∅))]; FStart 1;
   FCall 1 0 (handle_reply None) false; FCall 1 0 (handle_reply None) false; FEnter 1 0;
   FStmt (Step 0); FStmt (Step 0); FStmt (Step 0); FCrash 1;
   FReceive 0 [(0%nat, ("s1", "r2", ∅))]; FStart 0; call 0; call 0; FEnter 0 0]
  ++ replicate 6 (FStmt (Step 1))
  ++ [FReturn 0 0; call 0; call 0; call 0; call 0; call 0; FEnd 0 0].

Lemma two_workers_result :
  match run two_workers (fleet_start hourly 2) with
  | Some f => rows (fl_db f) = [("m1", WelcomeCredit "u1" 1000)] /\ fl_deleted f = {[0%nat]}
      /\ ID <$> fl_queue f = ["m1"]
  | None => False
  end.
Proof. vm_compute. by repeat split. Qed.

Lemma fleet_refines_witness :
  exists f es p, run two_workers (fleet_start hourly 2) = Some f
    /\ pipe_run demo_jsonb demo_repo demo_ctx Some "users" "user.registered"
         (DefaultServiceConfig "users") Handle es (pipe_start hourly) = Some p
    /\ rows (p_consumer p) = [("m1", WelcomeCredit "u1" 1000)].
Proof.
  pose proof two_workers_result as H.
  destruct (run two_workers (fleet_start hourly 2)) as [f|] eqn:E; [|destruct H].
  destruct (fleet_refines demo_jsonb demo_repo demo_ctx hourly Some "users" "user.registered"
    (DefaultServiceConfig "users") Handle 2 two_workers f E) as (es & p & Hp & _ & _ & Hdb & _).
  exists f, es, p. split; [reflexivity|]. split; [exact Hp|]. rewrite Hdb. apply H.
Defined.
End Run.
