(* ===== verification/FleetDelivery.v ===== *)
(** * A consumer worker delivers

    From any state of the services of Fleet.v, after all their processes have
    died, a worker that receives a message and is not disturbed handles it, deletes
    it and waits for the next. *)

From Stdlib Require Import ZArith Lia.
From stdpp Require Import base option list strings gmap fin_maps.
From S2P Require Import Prelude Errors Model Ports Store PgxRepo OutboxSafety System SqsPublisher.
From S2P Require Import Consumer ConsumerPool Handlers Pipeline Fleet.

Set Default Goal Selector "!".
Open Scope string_scope.
Open Scope list_scope.
Open Scope Z_scope.

Section Delivery.
Context (jsonb : string -> option string) (repo : OutboxRepo) (ctx : Context)
  (envs : nat -> StmtEnv) (uuid_Parse : string -> option UUID).
Context (queueURL eventType : string) (config : ServiceConfig).
Context (name : string) (decode : string -> result error Effect) (Handle : SQSMessage -> Prog)
  `{!DecodingHandler name decode Handle}.
Abbreviation parse := (parseSQSMessage uuid_Parse).
Abbreviation fstep := (fleet_step jsonb repo ctx uuid_Parse queueURL eventType config Handle).
Abbreviation frun := (fleet_run jsonb repo ctx uuid_Parse queueURL eventType config Handle).
Abbreviation service := (fleet_service eventType config).
Abbreviation ok := (handle_reply None).

Lemma fleet_run_app es1 es2 f : frun (es1 ++ es2) f = frun es1 f ≫= frun es2.
Proof.
  revert f. induction es1 as [|e es1 IH]; intros f; [done|]. cbn [app fleet_run].
  destruct (fstep e f) as [f1|]; [apply IH|done].
Qed.

(** ** One worker with one goroutine *)

Definition with_goroutine (w : nat) (g : Goroutine) (f : Fleet) : Fleet :=
  set_worker w (mkServiceWorker [] [g] false) f.

Lemma with_goroutine_lookup w g f :
  (w < length (fl_workers f))%nat ->
  fl_workers (with_goroutine w g f) !! w = Some (mkServiceWorker [] [g] false).
Proof. intros H. by apply list_lookup_insert_eq. Qed.

Lemma set_worker_twice w a b f : set_worker w a (set_worker w b f) = set_worker w a f.
Proof. unfold set_worker. cbn. by rewrite list_insert_insert_eq. Qed.

Lemma delete_message_worker calls b w wk f :
  delete_message queueURL calls b (set_worker w wk f)
  = set_worker w wk (delete_message queueURL calls b f).
Proof.
  unfold delete_message. destruct calls as [|c [|]]; [done| |by destruct c].
  destruct c; try done. cbn [set_worker fl_receipts]. destruct (fl_receipts f !! _); [|done].
  by destruct (b && _).
Qed.

(** A call of the goroutine that is not the handler's, answered. *)
Lemma call_step w m t calls t' f :
  (w < length (fl_workers f))%nat -> advance t ok = Some (calls, t') ->
  (forall msg, calls <> [QHandle msg]) ->
  fstep (FCall w 0 ok false) (with_goroutine w (Working m t) f)
  = Some (with_goroutine w (Working m t') (delete_message queueURL calls true f)).
Proof.
  intros Hw Hadv Hc. cbn [fleet_step].
  rewrite with_goroutine_lookup by done. cbn [mbind option_bind sw_running lookup list_lookup].
  rewrite Hadv. cbn [mbind option_bind rp_delete handle_reply].
  assert (E : set_worker w (set_goroutine 0 (Working m t') (mkServiceWorker [] [Working m t] false))
    (delete_message queueURL calls true (with_goroutine w (Working m t) f))
    = with_goroutine w (Working m t') (delete_message queueURL calls true f))
    by (unfold with_goroutine; by rewrite delete_message_worker, set_worker_twice).
  destruct calls as [|c [|]]; [by rewrite E| |destruct c; by rewrite E].
  destruct c; try (by rewrite E). by destruct (Hc msg).
Qed.

Lemma handler_call msg (answer : option error) (k : option error -> Task Probe) :
  sqs_EventType msg = eventType ->
  advance (Call (handler service ctx msg) k) (handle_reply answer) = Some ([QHandle msg], k answer).
Proof.
  intros Ht. cbn [advance handler fleet_service]. unfold router_Handle, handler_of, RegisterHandler.
  cbn [handlers SetFallback NewEventTypeRouter]. by rewrite Ht, lookup_insert_eq.
Qed.

(** ** The statements of a handler that nothing disturbs *)

(** The steps of a delivery up to its end are statements and the return. *)
Lemma statements_alone n : forall d db db' s f,
  db_run Handle true db (replicate n (Step d)) = Some db' ->
  fl_db f = db -> sessions db !! d = Some s -> sessions db' = ∅ ->
  exists j db1 s1 answer,
    frun (replicate j (FStmt (Step d))) f = Some (set_db db1 f)
    /\ sessions db1 !! d = Some s1 /\ s_prog s1 = Return answer /\ s_msg s1 = s_msg s
    /\ db_step Handle true db1 (Step d) = Some db'
    /\ returned db' = returned db ++ [(EventID (s_msg s), answer)].
Proof.
  induction n as [|n IH]; intros d db db' s f Hrun Hf Hs Hend; cbn [replicate db_run] in Hrun.
  { injection Hrun as ->. by rewrite Hend, lookup_empty in Hs. }
  destruct (db_step Handle true db (Step d)) as [db1|] eqn:E; [|done]. cbn [mbind option_bind] in Hrun.
  pose proof E as E'. cbn [db_step] in E'. rewrite Hs in E'. cbn [mbind option_bind] in E'.
  destruct (s_prog s) as [answer|stmt k] eqn:Ep.
  - (* the return: nothing is left of the delivery *)
    injection E' as <-. destruct n as [|n].
    + injection Hrun as <-. exists 0%nat, db, s, answer. cbn. split; [by destruct f; cbn in *; subst|].
      split; [done|]. split; [done|]. split; [done|]. split; [|done]. by rewrite <- E.
    + exfalso. cbn [replicate db_run db_step] in Hrun. cbn [sessions] in Hrun.
      by rewrite lookup_delete_eq in Hrun.
  - destruct (stmt_step true db d (s_tx s) stmt) as [[[[r i] tx] a]|]; [|done].
    injection E' as <-. set (db1 := mkDatabase _ _ _ _) in *.
    destruct (IH d db1 db' (mkSession (s_msg s) (k a) tx) (set_db db1 f) Hrun eq_refl)
      as (j & db2 & s2 & answer & Hj & H2); [by apply lookup_insert_eq|done|].
    exists (S j), db2, s2, answer. split; [|exact H2].
    cbn [replicate fleet_run fleet_step]. rewrite Hf, Hs. cbn [mbind option_bind].
    rewrite Ep, E. cbn [mbind option_bind]. rewrite Hj. by destruct f.
Qed.

(** ** Who runs a session *)

Definition owns (d : nat) (wk : ServiceWorker) : Prop := exists m t, InHandler m d t ∈ sw_running wk.

(** Every session belongs to a goroutine in the handler. *)
Definition Owned (db : Database) (ws : list ServiceWorker) : Prop :=
  forall d s, sessions db !! d = Some s -> exists wk, wk ∈ ws /\ owns d wk.

Lemma owned_set db db' ws w wk wk' :
  Owned db ws -> ws !! w = Some wk ->
  (forall d s', sessions db' !! d = Some s' ->
     (exists s, sessions db !! d = Some s) /\ (owns d wk -> owns d wk')) ->
  Owned db' (<[w := wk']> ws).
Proof.
  intros H Hw Hd d s' Hs'. destruct (Hd d s' Hs') as [[s Hs] Hown].
  destruct (H d s Hs) as (wk1 & Hin & Hd1). apply list_elem_of_lookup in Hin as [j Hj].
  destruct (decide (j = w)) as [->|Hne].
  - assert (wk1 = wk) as -> by congruence. exists wk'. split; [|by apply Hown].
    apply list_elem_of_lookup. exists w. apply list_lookup_insert_eq. by eapply lookup_lt_Some.
  - exists wk1. split; [|done]. apply list_elem_of_lookup. exists j. by rewrite list_lookup_insert_ne.
Qed.

(** A goroutine that is not in the handler of [d] changes. *)
Lemma owns_set_goroutine i g g' wk d :
  sw_running wk !! i = Some g -> (forall m t, g <> InHandler m d t) ->
  owns d wk -> owns d (set_goroutine i g' wk).
Proof.
  intros Hi Hg (m & t & Hin). apply list_elem_of_lookup in Hin as [j Hj]. exists m, t.
  apply list_elem_of_lookup. exists j. cbn. rewrite list_lookup_insert_ne; [done|].
  intros ->. rewrite Hi in Hj. injection Hj as ->. by destruct (Hg m t).
Qed.

Lemma step_sessions e db db' :
  db_step Handle true db e = Some db' -> (forall d msg, e <> Deliver d msg) ->
  forall d s', sessions db' !! d = Some s' -> exists s, sessions db !! d = Some s.
Proof.
  intros Hs Hne d s' Hs'. destruct (db_step_facts Handle _ _ _ Hs) as (_ & H & _).
  destruct (H d s' Hs') as [(s & ? & _)|(msg & -> & _)]; [by exists s|by destruct (Hne d msg)].
Qed.

(** Sessions that are crashed, or return, are gone. *)
Lemma crash_sessions ds : forall db db',
  db_run Handle true db (Crash <$> ds) = Some db' ->
  forall d s, sessions db' !! d = Some s -> sessions db !! d = Some s /\ d ∉ ds.
Proof.
  induction ds as [|d0 ds IH]; intros db db' Hs d s Hd; cbn in Hs.
  { injection Hs as <-. split; [done|]. apply not_elem_of_nil. }
  destruct (IH _ _ Hs d s Hd) as [Hd1 Hnin]. cbn [sessions] in Hd1.
  rewrite lookup_delete in Hd1. case_decide; [done|]. split; [done|].
  rewrite elem_of_cons. intros [->|?]; done.
Qed.

Lemma return_session d db db' s answer :
  db_step Handle true db (Step d) = Some db' -> sessions db !! d = Some s -> s_prog s = Return answer ->
  sessions db' = delete d (sessions db).
Proof. cbn [db_step]. intros H E Er. rewrite E in H. cbn in H. rewrite Er in H. by injection H as <-. Qed.

Lemma delete_message_owned calls b f :
  fl_db (delete_message queueURL calls b f) = fl_db f
  /\ fl_workers (delete_message queueURL calls b f) = fl_workers f.
Proof. by destruct (delete_message_cases queueURL calls b f) as [->|(? & ? & ? & _ & _ & ->)]. Qed.

Lemma owned_goroutine_event e f f' :
  Owned (fl_db f) (fl_workers f) ->
  match e with FCall _ _ _ _ | FEnter _ _ | FReturn _ _ | FEnd _ _ => True | _ => False end ->
  fstep e f = Some f' -> Owned (fl_db f') (fl_workers f').
Proof.
  intros H He Hs. destruct e as [| | | | |w i reply applied|w i|w i|w i|]; try done;
    cbn [fleet_step] in Hs; bind_hyp Hs wk Hwk; bind_hyp Hs g Hg.
  - destruct g as [m t|m d t]; [|done]. bind_hyp Hs ct Hadv. destruct ct as [calls t'].
    set (b := match rp_delete reply with None => true | Some _ => applied end) in Hs.
    assert (f' = set_worker w (set_goroutine i (Working m t') wk) (delete_message queueURL calls b f)) as ->.
    { destruct calls as [|c [|]]; [|destruct c; try done|destruct c]; by injection Hs as <-. }
    destruct (delete_message_owned calls b f) as [Edb Ews].
    cbn [set_worker fl_db fl_workers]. rewrite Edb, Ews. apply (owned_set (fl_db f) _ _ _ wk); [done|done|].
    intros d s' Hs'. split; [by exists s'|]. by apply owns_set_goroutine with (Working m t).
  - destruct g as [m t|m d t]; [|done]. bind_hyp Hs ct Hadv. destruct ct as [calls t'].
    destruct calls as [|c [|]]; [done| |by destruct c]. destruct c; try done.
    bind_hyp Hs db' Hdb. injection Hs as <-. cbn [db_step] in Hdb.
    destruct (sessions (fl_db f) !! fl_next f); [done|]. injection Hdb as <-. cbn [fl_db fl_workers].
    intros d s' Hs'. cbn [sessions] in Hs'. rewrite lookup_insert in Hs'. case_decide as Hd.
    + subst d. eexists. split; [apply list_elem_of_lookup; exists w; apply list_lookup_insert_eq;
        by eapply lookup_lt_Some|].
      exists m, t. apply list_elem_of_lookup. exists i. apply list_lookup_insert_eq. by eapply lookup_lt_Some.
    + apply (owned_set (fl_db f) (fl_db f) _ _ wk) with (s := s'); [done|done| |done].
      intros d1 s1 Hs1. split; [by exists s1|]. by apply owns_set_goroutine with (Working m t).
  - destruct g as [m t|m d t]; [done|]. bind_hyp Hs s Hds. destruct (s_prog s) eqn:Hret; [|done].
    bind_hyp Hs ct Hadv. destruct ct as [calls t'].
    destruct calls as [|c [|]]; [done| |by destruct c]. destruct c; try done.
    bind_hyp Hs db' Hdb. injection Hs as <-. pose proof (return_session _ _ _ _ _ Hdb Hds Hret) as E.
    apply (owned_set (fl_db f) _ _ _ wk); [done|done|]. intros d1 s1 Hs1. cbn in Hs1. rewrite E in Hs1.
    rewrite lookup_delete in Hs1. case_decide; [done|]. split; [by exists s1|].
    apply owns_set_goroutine with (InHandler m d t); [done|]. by intros ? ? [= _ ? _].
  - destruct g as [m [|A f0 k]|]; try done. injection Hs as <-.
    apply (owned_set (fl_db f) _ _ _ wk); [done|done|]. intros d s' Hs'. split; [by exists s'|].
    intros (m1 & t1 & Hin). exists m1, t1. cbn. rewrite (delete_Permutation _ i _ Hg) in Hin.
    apply elem_of_cons in Hin as [[=]|Hin]. done.
Qed.

Lemma owned_event e f f' :
  Owned (fl_db f) (fl_workers f) -> fstep e f = Some f' -> Owned (fl_db f') (fl_workers f').
Proof.
  intros H Hs. destruct e as [e|w batch|w|w|w|w i reply applied|w i|w i|w i|e];
    try (match type of Hs with fstep ?e0 _ = _ => exact (owned_goroutine_event e0 f f' H I Hs) end);
    cbn [fleet_step] in Hs.
  - bind_hyp Hs s' Hsys. by injection Hs as <-.
  - bind_hyp Hs wk Hwk. destruct (sw_waiting wk), (sw_running wk) eqn:Er, (sw_stopped wk); try done.
    destruct (String.eqb _ _); [|done].
    bind_hyp Hs mr Hrec. destruct mr as [messages receipts]. injection Hs as <-.
    apply (owned_set (fl_db f) _ _ _ wk); [done|done|]. intros d s' Hs'. split; [by exists s'|].
    intros (m & t & Hin). rewrite Er in Hin. by apply not_elem_of_nil in Hin.
  - bind_hyp Hs wk Hwk. destruct (sw_waiting wk) as [|m waiting]; [done|]. destruct (_ && _); [|done].
    injection Hs as <-. apply (owned_set (fl_db f) _ _ _ wk); [done|done|].
    intros d s' Hs'. split; [by exists s'|]. intros (m1 & t1 & Hin). exists m1, t1. cbn.
    apply elem_of_app. by left.
  - bind_hyp Hs wk Hwk. injection Hs as <-. apply (owned_set (fl_db f) _ _ _ wk); [done|done|].
    intros d s' Hs'. by split; [exists s'|].
  - bind_hyp Hs wk Hwk. bind_hyp Hs db' Hdb. injection Hs as <-.
    apply (owned_set (fl_db f) _ _ _ wk); [done|done|]. intros d s' Hs'.
    destruct (crash_sessions _ _ _ Hdb d s' Hs') as [Hold Hnin]. split; [by exists s'|].
    intros (m & t & Hin). destruct Hnin. apply list_elem_of_bind. exists (InHandler m d t).
    split; [cbn; by apply list_elem_of_singleton|done].
  - assert (exists db', db_step Handle true (fl_db f) e = Some db' /\ f' = set_db db' f
      /\ forall d msg, e <> Deliver d msg) as (db' & Hdb & -> & Hne).
    { destruct e as [| d|d err b|]; try done; bind_hyp Hs s Hds;
        (destruct (s_prog s); [done|]); bind_hyp Hs db' Hdb; injection Hs as <-; by exists db'. }
    intros d s' Hs'. destruct (step_sessions e _ _ Hdb Hne d s' Hs') as [s Es]. by apply (H d s).
Qed.

Lemma owned_run es : forall f f',
  Owned (fl_db f) (fl_workers f) -> frun es f = Some f' -> Owned (fl_db f') (fl_workers f').
Proof.
  induction es as [|e es IH]; intros f f' H Hs; cbn [fleet_run] in Hs; [by injection Hs as <-|].
  bind_hyp Hs f1 Hf1. apply (IH f1); [|done]. by apply (owned_event e f).
Qed.

(** *** All processes die *)

Definition all_idle (ws : list ServiceWorker) : Prop := Forall (fun wk => wk = idle_worker) ws.

Lemma crash_step w f :
  (w < length (fl_workers f))%nat -> exists db',
    fstep (FCrash w) f = Some (set_worker w idle_worker (set_db db' f))
    /\ rows db' = rows (fl_db f) /\ returned db' = returned (fl_db f).
Proof.
  intros Hw. destruct (lookup_lt_is_Some_2 _ _ Hw) as [wk Hwk]. cbn [fleet_step]. rewrite Hwk.
  cbn [mbind option_bind].
  assert (Hc : forall ds db, exists db', db_run Handle true db (Crash <$> ds) = Some db'
    /\ rows db' = rows db /\ returned db' = returned db).
  { induction ds as [|d ds IH]; intros db; [by exists db|].
    exact (IH (mkDatabase (rows db) (inbox db) (delete d (sessions db)) (returned db))). }
  destruct (Hc (sw_running wk ≫= session_of) (fl_db f)) as (db' & E & Hr). rewrite E. by exists db'.
Qed.

(** What a restart of the services keeps. *)
Definition restarted (f f' : Fleet) : Prop :=
  fl_outbox f' = fl_outbox f /\ fl_queue f' = fl_queue f /\ fl_receipts f' = fl_receipts f
  /\ fl_deleted f' = fl_deleted f /\ rows (fl_db f') = rows (fl_db f)
  /\ returned (fl_db f') = returned (fl_db f) /\ length (fl_workers f') = length (fl_workers f).

Lemma crashes n : forall f, (n <= length (fl_workers f))%nat ->
  exists f', frun (FCrash <$> seq 0 n) f = Some f' /\ restarted f f'
    /\ forall w, (w < n)%nat -> fl_workers f' !! w = Some idle_worker.
Proof.
  induction n as [|n IH]; intros f Hn.
  { exists f. split; [done|]. split; [by repeat split|lia]. }
  destruct (IH f ltac:(lia)) as (f1 & E1 & (Ho & Hq & Hr & Hd & Hrows & Hret & Hl) & Hw).
  destruct (crash_step n f1 ltac:(lia)) as (db' & E & Erows & Eret).
  eexists. rewrite seq_S, fmap_app, fleet_run_app, E1. cbn [mbind option_bind fmap list_fmap fleet_run Nat.add].
  rewrite E. cbn [mbind option_bind]. split; [reflexivity|]. split.
  - repeat split; try done; cbn; try congruence. by rewrite length_insert.
  - intros w Hlt. cbn. destruct (decide (w = n)) as [->|Hne].
    + apply list_lookup_insert_eq. lia.
    + rewrite list_lookup_insert_ne by done. apply Hw. lia.
Qed.

(** No session is left. *)
Lemma quiet_after_crashes f : Owned (fl_db f) (fl_workers f) ->
  (forall w, (w < length (fl_workers f))%nat -> fl_workers f !! w = Some idle_worker) ->
  sessions (fl_db f) = ∅.
Proof.
  intros Hown Hidle. apply map_empty. intros d.
  destruct (sessions (fl_db f) !! d) as [s|] eqn:E; [|done].
  destruct (Hown d s E) as (wk & Hin & m & t & Hg). apply list_elem_of_lookup in Hin as [w Hw].
  rewrite (Hidle w) in Hw by (by eapply lookup_lt_Some). injection Hw as <-.
  by apply not_elem_of_nil in Hg.
Qed.

(** ** A delivery *)

(** The events of worker [w] from the receive of place [k] to the end of its
    goroutine, with [j] statements of session [d]. *)
Definition delivery_events (w k : nat) (receipt : string) (d j : nat) : list FleetEvent :=
  let call := FCall w 0 ok false in
  [FReceive w [(k, ("", receipt, ∅))]; FStart w; call; call; FEnter w 0]
  ++ replicate j (FStmt (Step d)) ++ [FReturn w 0; call; call; call; call; call; FEnd w 0].

(** [processMessage] after a deletion that succeeded, after its handler returned
    nil, and from its handler on. *)
Definition deleted_task (msg : SQSMessage) (duration : Z) : Task Probe :=
  Call (callOnConsumeSuccess (hooks service) ctx msg duration) (fun _ =>
  Call time_Now (fun now' =>
  Call (store_processed service now') (fun _ => Finished))).

Definition handled_task (msg : SQSMessage) (duration : Z) : Task Probe :=
  Call (DeleteMessage ctx (QueueUrl config) (ReceiptHandle msg)) (fun deleteErr =>
  match deleteErr with
  | Some err => Call (callOnDeleteFailure (hooks service) ctx msg err) (fun _ => deleted_task msg duration)
  | None => deleted_task msg duration
  end).

Definition received_task (msg : SQSMessage) (start : Z) : Task Probe :=
  Call (handler service ctx msg) (fun handleErr =>
  Call time_Now (fun now =>
    let duration := saturate64 (now - start) in
    match handleErr with
    | Some err => handleFailure_task service ctx msg err duration
    | None => handled_task msg duration
    end)).

Lemma received_call msg start :
  sqs_EventType msg = eventType ->
  advance (received_task msg start) ok
  = Some ([QHandle msg], Call time_Now (fun now => handled_task msg (saturate64 (now - start)))).
Proof. apply handler_call. Qed.

Lemma after_handler m msg start w f :
  (w < length (fl_workers f))%nat ->
  let call := FCall w 0 ok false in
  frun [call; call; call; call; call; FEnd w 0] (with_goroutine w (Working m (Call time_Now (fun now => handled_task msg (saturate64 (now - start))))) f)
  = Some (set_worker w idle_worker
      (delete_message queueURL [QDelete (QueueUrl config) (ReceiptHandle msg)] true f)).
Proof.
  intros Hw call. subst call. cbn [fleet_run]. set (f' := delete_message _ _ _ _).
  assert (Hw' : (w < length (fl_workers f'))%nat).
  { unfold f'. by destruct (delete_message_cases queueURL
      [QDelete (QueueUrl config) (ReceiptHandle msg)] true f) as [->|(? & ? & ? & _ & _ & ->)]. }
  erewrite call_step by (done || reflexivity). cbn [mbind option_bind].
  change (delete_message queueURL _ true f) with f.
  erewrite call_step by (done || reflexivity). cbn [mbind option_bind].
  change (delete_message queueURL _ true f) with f'.
  do 3 (erewrite call_step by (done || reflexivity); cbn [mbind option_bind];
        change (delete_message queueURL _ true f') with f').
  cbn [fleet_step]. rewrite with_goroutine_lookup by done. cbn. unfold with_goroutine.
  by rewrite set_worker_twice.
Qed.

Definition received (k : nat) (receipt : string) (f : Fleet) : Fleet :=
  mkFleet (fl_outbox f) (fl_queue f) (fl_db f) (<[receipt := k]> (fl_receipts f)) (fl_deleted f)
    (fl_workers f) (fl_next f).

Lemma receive_and_start w k sent receipt f es :
  fl_workers f !! w = Some idle_worker -> fl_queue f !! k = Some sent ->
  fl_receipts f !! receipt = None -> QueueUrl config = queueURL ->
  let m := delivered queueURL sent "" receipt ∅ in
  frun (FReceive w [(k, ("", receipt, ∅))] :: FStart w :: es) f
  = frun es (with_goroutine w (Working m (process_task uuid_Parse service ctx m)) (received k receipt f)).
Proof.
  intros Hwk Hk Hr Hurl m.
  assert (Hw : (w < length (fl_workers f))%nat) by (by eapply lookup_lt_Some).
  cbn [fleet_run fleet_step]. rewrite Hwk. cbn [mbind option_bind sw_waiting sw_running sw_stopped idle_worker].
  rewrite (proj2 (String.eqb_eq _ _) Hurl). cbn [receive]. rewrite Hk. cbn [mbind option_bind].
  rewrite Hr. cbn [mbind option_bind fl_workers]. fold m.
  rewrite list_lookup_insert_eq by done. cbn [mbind option_bind sw_waiting sw_running sw_stopped app length].
  rewrite (proj2 (Z.ltb_lt _ _)) by lia. cbn [negb andb mbind option_bind].
  f_equal. unfold with_goroutine, received, set_worker. cbn. by rewrite list_insert_insert_eq.
Qed.

Definition entered (m : Message) (f : Fleet) : Fleet :=
  mkFleet (fl_outbox f) (fl_queue f)
    (mkDatabase (rows (fl_db f)) (inbox (fl_db f))
       (<[fl_next f := mkSession (parse m) (Handle (parse m)) None]> (sessions (fl_db f)))
       (returned (fl_db f)))
    (fl_receipts f) (fl_deleted f) (fl_workers f) (S (fl_next f)).

Lemma call_and_enter w m f es :
  (w < length (fl_workers f))%nat -> sqs_EventType (parse m) = eventType ->
  sessions (fl_db f) !! fl_next f = None ->
  frun (FCall w 0 ok false :: FCall w 0 ok false :: FEnter w 0 :: es)
    (with_goroutine w (Working m (process_task uuid_Parse service ctx m)) f)
  = frun es (with_goroutine w (InHandler m (fl_next f) (received_task (parse m) 0)) (entered m f)).
Proof.
  intros Hw Ht Hs. cbn [fleet_run].
  do 2 (erewrite call_step by (done || reflexivity); cbn [mbind option_bind];
        change (delete_message queueURL _ true f) with f).
  cbn [fleet_step]. rewrite with_goroutine_lookup by done.
  cbn [mbind option_bind sw_running lookup list_lookup]. rewrite handler_call by done.
  cbn [mbind option_bind]. cbn [db_step fl_db with_goroutine set_worker fl_next]. rewrite Hs.
  cbn [mbind option_bind]. f_equal. unfold with_goroutine, entered, set_worker, set_goroutine. cbn.
  by rewrite list_insert_insert_eq.
Qed.

(** The statements, the return, and the rest of [processMessage]. *)
Lemma handle_and_delete w m d n f db' s :
  (w < length (fl_workers f))%nat -> sqs_EventType (parse m) = eventType ->
  sessions (fl_db f) !! d = Some s ->
  db_run Handle true (fl_db f) (replicate n (Step d)) = Some db' -> sessions db' = ∅ ->
  returned db' = returned (fl_db f) ++ [(EventID (s_msg s), None)] ->
  let call := FCall w 0 ok false in
  exists j, frun (replicate j (FStmt (Step d)) ++ [FReturn w 0; call; call; call; call; call; FEnd w 0])
      (with_goroutine w (InHandler m d (received_task (parse m) 0)) f)
    = Some (set_worker w idle_worker
        (delete_message queueURL [QDelete (QueueUrl config) (ReceiptHandle (parse m))] true
           (set_db db' f))).
Proof.
  intros Hw Ht Hs Hrun Hend Hret call.
  destruct (statements_alone n d (fl_db f) db' s
    (with_goroutine w (InHandler m d (received_task (parse m) 0)) f) Hrun eq_refl Hs Hend)
    as (j & db1 & s1 & answer & Hj & Hs1 & Hp1 & _ & Hstep & Hret').
  rewrite Hret in Hret'. apply app_inv_head in Hret' as [= <-].
  exists j. rewrite fleet_run_app, Hj. cbn [mbind option_bind fleet_run fleet_step].
  change (set_db db1 (with_goroutine w ?g f)) with (with_goroutine w g (set_db db1 f)).
  rewrite with_goroutine_lookup by done. cbn [mbind option_bind sw_running lookup list_lookup].
  cbn [fl_db set_db with_goroutine set_worker]. rewrite Hs1. cbn [mbind option_bind].
  rewrite Hp1, received_call by done. cbn [mbind option_bind].
  rewrite Hstep. cbn [mbind option_bind].
  rewrite <- (after_handler m (parse m) 0 w (set_db db' f)) by done.
  cbn [fleet_run]. f_equal. unfold with_goroutine, set_worker, set_db, set_goroutine. cbn.
  by rewrite list_insert_insert_eq.
Qed.

(** The handler, run alone on what is delivered of a message in the queue. *)
Lemma handler_alone workers es f k sent row receipt :
  (forall n, env_ok (envs n)) -> (forall n, parsable uuid_Parse (e_uuid (envs n))) ->
  frun es (fleet_start envs workers) = Some f -> fl_queue f !! k = Some sent ->
  EventType sent = eventType -> decode (raw_string (Payload sent)) = Ok row ->
  fits row = true ->
  let msg := parse (delivered queueURL sent "" receipt ∅) in
  sqs_EventType msg = eventType /\ EventID msg = ID sent /\ ReceiptHandle msg = receipt
  /\ exists n i', db_run Handle true
       (mkDatabase (rows (fl_db f)) (inbox (fl_db f))
          (<[fl_next f := mkSession msg (Handle msg) None]> ∅) (returned (fl_db f)))
       (replicate n (Step (fl_next f)))
     = Some (mkDatabase
         (rows (fl_db f) ++ (if decide (ID sent ∈ (rows (fl_db f)).*1) then [] else [(ID sent, row)]))
         i' ∅ (returned (fl_db f) ++ [(ID sent, None)])).
Proof.
  intros Henvs Hids Hrun Hsent Htype Hdecode Hfits msg.
  destruct (sim_run jsonb repo ctx uuid_Parse queueURL eventType config Handle es _ _ f
    (sim_start envs uuid_Parse queueURL eventType config workers) Hrun) as (es' & p & Hp & Hsim & _).
  destruct (pipe_run_inv jsonb repo ctx uuid_Parse queueURL eventType config name decode Handle
    es' _ p (pipe_start_inv envs uuid_Parse eventType name decode Henvs Hids)
    (delivery_start_inv envs config) Hp) as [Hinv _].
  assert (Hin : sent ∈ p_queue p)
    by (rewrite (sim_queue _ _ _ _ _ _ Hsim); by eapply list_elem_of_lookup_2).
  destruct (pi_parsable _ _ _ _ _ Hinv (ID sent)) as [Hne Huuid];
    [by apply (pi_queue _ _ _ _ _ Hinv)|].
  destruct (parse_attributes uuid_Parse sent (delivered queueURL sent "" receipt ∅) Hne Huuid
    eq_refl eq_refl) as (Et & Eid & _ & Eb & _). fold msg in Et, Eid, Eb.
  split; [congruence|]. split; [done|]. split; [by apply (delivered_fields uuid_Parse)|].
  pose proof (pi_db _ _ _ _ _ Hinv) as Hdb. rewrite (sim_db _ _ _ _ _ _ Hsim) in Hdb.
  destruct decoding_transactional as [errEffect HH].
  destruct (transactional_alone name errEffect Handle (fl_next f) msg row (rows (fl_db f))
    (inbox (fl_db f)) (returned (fl_db f))) as (n & i' & Hn);
    [by rewrite HH, Eb, Hdecode|done|rewrite Eid; by apply di_agree|].
  rewrite Eid in Hn. cbn [db_run db_step sessions] in Hn. rewrite lookup_empty in Hn.
  by exists n, i'.
Qed.

(** Once the deliveries in progress have ended, an idle worker delivers. *)
Lemma quiet_worker_delivers (workers : nat) (es : list FleetEvent) (f : Fleet) (w k : nat)
  (sent : Outbox) (row : Effect) (receipt : string)
  (Henvs : forall n, env_ok (envs n)) (Hids : forall n, parsable uuid_Parse (e_uuid (envs n)))
  (Hrun : frun es (fleet_start envs workers) = Some f)
  (Hidle : fl_workers f !! w = Some idle_worker) (Hquiet : sessions (fl_db f) = ∅)
  (Hsent : fl_queue f !! k = Some sent) (Htype : EventType sent = eventType)
  (Hdecode : decode (raw_string (Payload sent)) = Ok row) (Hfits : fits row = true)
  (Hreceipt : fl_receipts f !! receipt = None) (Hurl : QueueUrl config = queueURL) :
  exists j f', frun (delivery_events w k receipt (fl_next f) j) f = Some f'
    /\ fl_workers f' = fl_workers f /\ fl_outbox f' = fl_outbox f
    /\ fl_deleted f' = {[k]} ∪ fl_deleted f
    /\ rows (fl_db f') = rows (fl_db f)
         ++ (if decide (ID sent ∈ (rows (fl_db f)).*1) then [] else [(ID sent, row)])
    /\ returned (fl_db f') = returned (fl_db f) ++ [(ID sent, None)].
Proof.
  destruct (handler_alone workers es f k sent row receipt Henvs Hids Hrun Hsent Htype Hdecode Hfits)
    as (Et & Eid & Erc & n & i' & Hn). set (m := delivered queueURL sent "" receipt ∅) in *.
  assert (Hw : (w < length (fl_workers f))%nat) by (by eapply lookup_lt_Some).
  set (f1 := entered m (received k receipt f)).
  match type of Hn with _ = Some ?db =>
    destruct (handle_and_delete w m (fl_next f) n f1 db (mkSession (parse m) (Handle (parse m)) None))
      as (j & Hj) end;
    [exact Hw|exact Et|apply lookup_insert_eq| |done|by cbn [s_msg]; rewrite Eid|].
  { cbn [f1 entered received fl_db fl_next]. rewrite Hquiet. exact Hn. }
  rewrite Erc in Hj. cbn [delete_message set_db fl_receipts f1 entered received] in Hj.
  rewrite lookup_insert_eq, (proj2 (String.eqb_eq _ _) Hurl) in Hj. cbn [andb] in Hj.
  exists j. eexists. split.
  - unfold delivery_events. cbn [app]. rewrite (receive_and_start w k sent receipt f) by done. fold m.
    rewrite call_and_enter; [|exact Hw|exact Et|cbn; by rewrite Hquiet, lookup_empty].
    exact Hj.
  - split; [|done]. cbn. by apply list_insert_id.
Qed.

(** All processes die and a worker receives the message. *)
Lemma restart_delivers (workers : nat) (es : list FleetEvent) (f : Fleet) (w k : nat)
  (sent : Outbox) (row : Effect) (receipt : string)
  (Henvs : forall n, env_ok (envs n)) (Hids : forall n, parsable uuid_Parse (e_uuid (envs n)))
  (Hrun : frun es (fleet_start envs workers) = Some f) (Hw : (w < length (fl_workers f))%nat)
  (Hsent : fl_queue f !! k = Some sent) (Htype : EventType sent = eventType)
  (Hdecode : decode (raw_string (Payload sent)) = Ok row) (Hfits : fits row = true)
  (Hreceipt : fl_receipts f !! receipt = None) (Hurl : QueueUrl config = queueURL) :
  exists j f1 f', frun (FCrash <$> seq 0 (length (fl_workers f))) f = Some f1
    /\ frun (delivery_events w k receipt (fl_next f1) j) f1 = Some f'
    /\ all_idle (fl_workers f') /\ fl_outbox f' = fl_outbox f
    /\ fl_deleted f' = {[k]} ∪ fl_deleted f
    /\ rows (fl_db f') = rows (fl_db f)
         ++ (if decide (ID sent ∈ (rows (fl_db f)).*1) then [] else [(ID sent, row)])
    /\ returned (fl_db f') = returned (fl_db f) ++ [(ID sent, None)].
Proof.
  destruct (crashes (length (fl_workers f)) f (le_n _))
    as (f1 & Hf1 & (Ho & Hq & Hr & Hd & Hrows & Hret & Hl) & Hidle).
  assert (Hrun1 : frun (es ++ (FCrash <$> seq 0 (length (fl_workers f)))) (fleet_start envs workers) = Some f1)
    by (rewrite fleet_run_app, Hrun; exact Hf1).
  assert (Hown : Owned (fl_db f1) (fl_workers f1)).
  { apply (owned_run _ _ _) in Hrun1; [done|]. intros d s. cbn. by rewrite lookup_empty. }
  assert (Hall : all_idle (fl_workers f1)).
  { apply Forall_lookup_2. intros i wk Hi. rewrite Hidle in Hi; [by injection Hi as <-|].
    rewrite <- Hl. by eapply lookup_lt_Some. }
  destruct (quiet_worker_delivers workers _ f1 w k sent row receipt Henvs Hids Hrun1)
    as (j & f' & Hj & Ews & Eo & Ed & Er & Eret); [by apply Hidle| |congruence|done|done|done|congruence|done|].
  { apply quiet_after_crashes; [done|]. intros i Hi. apply Hidle. by rewrite <- Hl. }
  exists j, f1, f'. split; [done|]. split; [done|]. split; [by rewrite Ews|].
  split; [congruence|]. split; [congruence|]. split; [|congruence]. by rewrite Er, Hrows.
Qed.

(** C15: a restart delivers.  Whatever the dispatchers and services have done, and
    wherever their processes die: after that, any worker that receives a message
    of the event type whose payload decodes into an effect that fits the columns
    of its table, and whose calls do not fail, runs its handler, deletes the message and is idle again; the event has its effect, the
    delivery is acknowledged, and no other effect is touched. *)
Theorem worker_delivers (workers : nat) (es : list FleetEvent) (f : Fleet) (w k : nat)
  (sent : Outbox) (row : Effect) (receipt : string)
  (Henvs : forall n, env_ok (envs n)) (Hids : forall n, parsable uuid_Parse (e_uuid (envs n)))
  (Hrun : frun es (fleet_start envs workers) = Some f) (Hw : (w < length (fl_workers f))%nat)
  (Hsent : fl_queue f !! k = Some sent) (Htype : EventType sent = eventType)
  (Hdecode : decode (raw_string (Payload sent)) = Ok row) (Hfits : fits row = true)
  (Hreceipt : fl_receipts f !! receipt = None) (Hurl : QueueUrl config = queueURL) :
  exists j f1 f', frun (FCrash <$> seq 0 (length (fl_workers f))) f = Some f1
    /\ frun (delivery_events w k receipt (fl_next f1) j) f1 = Some f'
    /\ all_idle (fl_workers f') /\ fl_outbox f' = fl_outbox f
    /\ fl_deleted f' = {[k]} ∪ fl_deleted f
    /\ rows (fl_db f') = rows (fl_db f)
         ++ (if decide (ID sent ∈ (rows (fl_db f)).*1) then [] else [(ID sent, row)])
    /\ returned (fl_db f') = returned (fl_db f) ++ [(ID sent, None)].
Proof. by apply (restart_delivers workers es). Qed.
End Delivery.

(** ** At work *)

Section Witness.
Abbreviation Handle := (UserRegisteredHandler_Handle demo_unmarshal).
Abbreviation run :=
  (fleet_run demo_jsonb demo_repo demo_ctx Some "users" "user.registered"
     (DefaultServiceConfig "users") Handle).

(** A first worker is in the handler. *)
Definition first_attempt : list FleetEvent :=
  [FOutbox (EInsert (mkParams "user.registered" (Some "u1") None "k1" 3)); FOutbox (EFetch 1 10);
   FOutbox (EPublish 0 None true); FReceive 1 [(0%nat, ("s1", "r1", ∅))]; FStart 1;
   FCall 1 0 (handle_reply None) false; FCall 1 0 (handle_reply None) false; FEnter 1 0;
   FStmt (Step 0); FStmt (Step 0); FStmt (Step 0)].

Lemma first_attempt_result :
  match run first_attempt (fleet_start hourly 2) with
  | Some f => length (fl_workers f) = 2%nat /\ rows (fl_db f) = [] /\ fl_receipts f !! "r2" = None
      /\ match fl_queue f !! 0%nat with
         | Some sent => EventType sent = "user.registered" /\ raw_string (Payload sent) = "u1"
             /\ ID sent = "m1"
         | None => False
         end
  | None => False
  end.
Proof. vm_compute. by repeat split. Qed.

Lemma worker_delivers_witness :
  exists f es f', run first_attempt (fleet_start hourly 2) = Some f /\ run es f = Some f'
    /\ rows (fl_db f') = [("m1", WelcomeCredit "u1" 1000)] /\ 0%nat ∈ fl_deleted f'.
Proof.
  pose proof first_attempt_result as H.
  destruct (run first_attempt (fleet_start hourly 2)) as [f|] eqn:E; [|destruct H].
  destruct H as (Hl & Hr & Hrec & Hq).
  destruct (fl_queue f !! 0%nat) as [sent|] eqn:Eq; [|destruct Hq]. destruct Hq as (Ht & Hp & Hid).
  destruct (worker_delivers demo_jsonb demo_repo demo_ctx hourly Some "users" "user.registered"
    (DefaultServiceConfig "users") "user" (decode_user demo_unmarshal) Handle 2 first_attempt f 0 0
    sent (WelcomeCredit "u1" 1000) "r2" hourly_ok hourly_parsable E ltac:(rewrite Hl; lia) Eq Ht
    ltac:(rewrite Hp; reflexivity) eq_refl Hrec ltac:(reflexivity))
    as (j & f1 & f' & Hf1 & Hf' & _ & _ & Hd & Hrows & _).
  exists f, ((FCrash <$> seq 0 (length (fl_workers f))) ++ delivery_events 0 0 "r2" (fl_next f1) j), f'.
  split; [reflexivity|]. split; [by rewrite fleet_run_app, Hf1|]. split.
  - rewrite Hrows, Hr, Hid. reflexivity.
  - rewrite Hd. apply elem_of_union. left. by apply elem_of_singleton.
Defined.
End Witness.
