(* ===== verification/Settled.v ===== *)
(** * Which calls leave a message PUBLISHING

    A status update that does not fail leaves its message out of PUBLISHING,
    whatever happened to it before; a fetch that does not fail hands over what it
    made PUBLISHING; no other call makes a message PUBLISHING.  So the messages
    that are PUBLISHING are those some worker holds, as long as no worker dies and
    no call of a worker fails. *)

From Stdlib Require Import ZArith Lia.
From stdpp Require Import base option list strings gmap fin_maps.
From S2P Require Import Prelude Errors Model Ports Store PgxRepo OutboxSafety System.
From S2P Require Import Refinement BatchRefinement.

Set Default Goal Selector "!".
Open Scope list_scope.
Open Scope Z_scope.

Section Settled.
Context (jsonb : string -> option string) (repo : OutboxRepo) (ctx : Context).

(** What the statement of a worker's call does to the table, unless it fails. *)
Definition statement (c : RepoCall) (env : StmtEnv) (t : table) : result error table :=
  let table_of {A} (answer : result error (table * A)) :=
    match answer with Ok (t', _) => Ok t' | Err e => Err e end in
  match c with
  | RFetchBatch n => table_of (queryFetchLockAndMarkPublishing n env t)
  | RToPublished id => table_of (queryUpdateToPublished id env t)
  | RBatchToPublished ids => table_of (queryUpdateBatchToPublished ids env t)
  | RToFailed id m => table_of (queryUpdateToFailed (base_us repo) (max_us repo) id m env t)
  | RToDead id m => table_of (queryUpdateToDead id m env t)
  | _ => Ok t
  end.

(** The call neither fails nor loses its answer. *)
Definition call_works (c : RepoCall) (db : DB) : bool :=
  match statement c (current_env db) (db_table db), e_fault (current_env db) with
  | Ok _, None => true
  | _, _ => false
  end.

(** The calls that close messages. *)
Definition closes (c : RepoCall) : bool :=
  match c with
  | RToPublished _ | RBatchToPublished _ | RToFailed _ _ | RToDead _ _ => true
  | _ => false
  end.

Lemma exec_works {A} (stmt : StmtEnv -> table -> result error (table * A)) db t' a :
  stmt (current_env db) (db_table db) = Ok (t', a) -> e_fault (current_env db) = None ->
  exec stmt db = (after_call t' db, Ret (Ok a)).
Proof. intros E Hf. unfold exec. by rewrite E, Hf. Qed.

(** After an update of the PUBLISHING rows with [P] that worked, none is. *)
Lemma update_settles (P : Outbox -> bool) set code t t' n id r' :
  (forall r r2, set r = Some r2 -> Status r2 <> PUBLISHING) ->
  sql_update (fun r => P r && has_status PUBLISHING r) set code t = Ok (t', n) ->
  t' !! id = Some r' -> Status r' = PUBLISHING ->
  exists r, t !! id = Some r /\ Status r = PUBLISHING /\ P r = false.
Proof.
  intros Hset Hu Hr' Hpub. pose proof (lookup_update _ _ _ _ _ _ Hu id) as Hl. rewrite Hr' in Hl.
  destruct (t !! id) as [r|] eqn:Er; [|discriminate]. injection Hl as ->. exists r.
  destruct (P r) eqn:EP; cbn [andb] in Hpub; [|done].
  destruct (has_status PUBLISHING r) eqn:Es.
  - destruct (set r) as [r2|] eqn:E2; [by destruct (Hset r r2 E2)|].
    destruct (sql_update_poison (fun r => P r && has_status PUBLISHING r) set code t id r Er
                (andb_true_intro (conj EP Es)) E2) as [text Herr]. congruence.
  - apply has_status_eq in Hpub. cbn in Hpub. congruence.
Qed.

Lemma set_failed_status base max m env r r2 :
  set_failed base max m env r = Some r2 -> Status r2 <> PUBLISHING.
Proof.
  unfold set_failed. destruct (backoff_interval _ _ _); [|done]. destruct (in_int4 _); [|done].
  by intros [= <-].
Qed.

Lemma set_dead_status m env r r2 : set_dead m env r = Some r2 -> Status r2 <> PUBLISHING.
Proof. unfold set_dead. destruct (in_int4 _); [|done]. by intros [= <-]. Qed.

(** The closing updates, as an update of the rows that [chosen] selects. *)
Definition chosen (c : RepoCall) (r : Outbox) : bool :=
  match c with
  | RToPublished id | RToFailed id _ | RToDead id _ => has_id id r
  | RBatchToPublished ids => bool_decide (ID r ∈ ids)
  | _ => false
  end.

Lemma chosen_targets c r : closes c = true -> chosen c r = false -> ~ targets c (ID r).
Proof.
  destruct c; try done; cbn [chosen targets]; intros _ H; rewrite <- not_true_iff_false in H;
    intros Ht; apply H; first [by apply has_id_eq|by apply bool_decide_eq_true_2].
Qed.

(** The table after a call that works. *)
Lemma works_table c db t' :
  closes c = true -> (forall ids, c = RBatchToPublished ids -> ids <> []) ->
  statement c (current_env db) (db_table db) = Ok t' -> e_fault (current_env db) = None ->
  db_table (repo_call jsonb repo ctx c db) = t'.
Proof.
  intros Hc Hids Hst Hf. destruct c; try discriminate Hc; cbn [statement repo_call] in *;
    unfold pgx_UpdateToPublished, pgx_UpdateBatchToPublished, pgx_UpdateToFailed, pgx_UpdateToDead;
    try (destruct ids as [|i ids]; [by destruct (Hids [] eq_refl)|]);
    rewrite ?exec_bind;
    match type of Hst with match ?q with _ => _ end = _ =>
      destruct q as [[t n]|] eqn:Eq; [injection Hst as ->|discriminate Hst] end;
    by erewrite exec_works.
Qed.

Lemma statement_settles c env t t' id r' :
  closes c = true -> statement c env t = Ok t' -> t' !! id = Some r' -> Status r' = PUBLISHING ->
  exists r, t !! id = Some r /\ Status r = PUBLISHING /\ chosen c r = false.
Proof.
  intros Hc Hst Hr' Hpub. destruct c; try discriminate Hc; cbn [statement chosen] in *;
    match type of Hst with match ?q with _ => _ end = _ =>
      destruct q as [[t2 n]|] eqn:Eq; [injection Hst as ->|discriminate Hst] end;
    (eapply update_settles; [|exact Eq|exact Hr'|exact Hpub]); intros r r2.
  - by intros [= <-].
  - by intros [= <-].
  - apply set_failed_status.
  - apply set_dead_status.
Qed.

(** After a closing update that works, what is PUBLISHING was and is not one of
    its messages. *)
Lemma close_settles c db id r' :
  closes c = true -> keyed (db_table db) -> call_works c db = true ->
  db_table (repo_call jsonb repo ctx c db) !! id = Some r' -> Status r' = PUBLISHING ->
  exists r, db_table db !! id = Some r /\ Status r = PUBLISHING /\ ~ targets c id.
Proof.
  intros Hc Hk Hw Hr' Hpub. unfold call_works in Hw.
  destruct (statement c _ _) as [t'|] eqn:Est; [|discriminate].
  destruct (e_fault _) eqn:Ef; [discriminate|].
  assert (Hempty : c = RBatchToPublished [] \/ forall ids, c = RBatchToPublished ids -> ids <> []).
  { destruct c as [| | | |[|]| | | | | | |]; try (by right); [by left|right]. by intros ? [= <-]. }
  destruct Hempty as [->|Hne].
  { exists r'. split; [exact Hr'|]. split; [done|]. apply not_elem_of_nil. }
  rewrite (works_table c db t' Hc Hne Est Ef) in Hr'.
  destruct (statement_settles c _ _ t' id r' Hc Est Hr' Hpub) as (r & Hr & Hp & Hch).
  exists r. split; [done|]. split; [done|]. rewrite <- (Hk id r Hr). by apply chosen_targets.
Qed.

(** After a fetch that works, what is PUBLISHING was or has been handed over. *)
Lemma fetch_hands_over n db id r' :
  env_ok (current_env db) -> keyed (db_table db) -> call_works (RFetchBatch n) db = true ->
  db_table (repo_call jsonb repo ctx (RFetchBatch n) db) !! id = Some r' ->
  Status r' = PUBLISHING ->
  id ∈ ID <$> batch_fetched ctx n db
  \/ exists r, db_table db !! id = Some r /\ Status r = PUBLISHING.
Proof.
  intros Henv Hk Hw Hr' Hpub. unfold call_works in Hw. cbn [statement repo_call] in *.
  unfold batch_fetched, pgx_FetchLockAndMarkPublishing in *.
  destruct (queryFetchLockAndMarkPublishing n _ _) as [[t' msgs]|] eqn:Eq; [|discriminate].
  destruct (e_fault _) eqn:Ef; [discriminate|].
  rewrite (exec_works _ db t' msgs Eq Ef) in *. cbn [fst snd after_call db_table] in *.
  unfold queryFetchLockAndMarkPublishing in Eq. destruct (n <? 0); [discriminate|].
  injection Eq as <- <-. set (picked := locked _ (Z.to_nat n) _) in *.
  rewrite (fold_mark_lookup (current_env db)) in Hr'
    by first [by apply locked_NoDup | by apply locked_in_table].
  case_decide as Hin; [left|right; by exists r'].
  rewrite (scan_ok _ Henv), <- !list_fmap_compose. exact Hin.
Qed.

(** The other calls. *)
Lemma others_publishing s c id r' :
  Inv s -> system_call c = true -> (forall n, c <> RFetchBatch n) ->
  db_table (repo_call jsonb repo ctx c (s_db s)) !! id = Some r' -> Status r' = PUBLISHING ->
  exists r, s_table s !! id = Some r /\ Status r = PUBLISHING.
Proof.
  intros Hinv Hc Hf Hr' Hpub.
  destruct (inv_call_rows jsonb repo ctx s c Hinv Hc id r' Hr') as [(r & Hr & Hch)|(p & _ & _ & _ & _ & Hfr)].
  - exists r. split; [done|]. destruct Hch; cbn in Hpub; try discriminate Hpub; [done|].
    by destruct (Hf limit).
  - destruct Hfr as [E _]. congruence.
Qed.

(** Every PUBLISHING message is held by a worker. *)
Definition settled (s : Sys) : Prop :=
  forall id r, s_table s !! id = Some r -> Status r = PUBLISHING ->
    exists h, h ∈ s_held s /\ ID (h_msg h) = id.
End Settled.
