(* ===== verification/DispatchTasks.v ===== *)
(** * The dispatcher workers, call by call

    [processOne] of core/worker.go and [processBatch] of core/batch_dispatcher.go
    as tasks (ConsumerPool.v): the next call of the goroutine and what it does
    with the answer, so that other goroutines can run between two calls.  Run
    alone, a task is the function it stands for. *)

From Stdlib Require Import ZArith Lia.
From stdpp Require Import base option list strings.
From S2P Require Import Prelude Errors Model Ports Worker BatchDispatcher ConsumerPool.

Set Default Goal Selector "!".
Open Scope Z_scope.

(** A sequence of calls whose answers are not used. *)
Fixpoint for_each_task {W A} (f : A -> GoM W unit) (l : list A) (k : Task W) : Task W :=
  match l with
  | [] => k
  | x :: l' => Call (f x) (fun _ => for_each_task f l' k)
  end.

Definition panic_task {W} (why : string) : Task W :=
  Call (go_panic why) (fun _ : unit => Finished).

(** ** core/worker.go *)

Section SingleTask.
Context {W : Type} `{!Runtime W, !OutboxRepository W, !Publisher W}.

Definition settle_task (err : option error) (k : Task W) : Task W :=
  match err with
  | Some e => if errors_Is e ErrInvalidStatus then k else Finished
  | None => k
  end.

Definition failure_task (w : Worker W) (ctx : Context) (msg : Outbox) (publishErr : error)
    (duration : Z) : Task W :=
  let errMsg := TruncateErrorMessage (error_text publishErr) in
  Call time_Now (fun now =>
  let cleanupCtx := createCleanupContext now ctx (cleanupTimeout w) in
  if marks_dead msg publishErr then
    Call (UpdateToDead cleanupCtx (ID msg) errMsg) (fun err =>
    settle_task err
      (Call (callOnPublishFailure (w_hooks w) ctx msg publishErr duration false) (fun _ =>
       Call (callOnMessageDead (w_hooks w) ctx msg publishErr) (fun _ => Finished))))
  else
    Call (UpdateToFailed cleanupCtx (ID msg) errMsg) (fun err =>
    settle_task err
      (Call (callOnPublishFailure (w_hooks w) ctx msg publishErr duration true) (fun _ =>
       Finished)))).

(** [processOne]; what it returns only sets the interval to the next turn. *)
Definition process_one_task (w : Worker W) (ctx : Context) : Task W :=
  Call (FetchAndLockToPublishing ctx) (fun fetched =>
  match fetched with
  | Err _ => Finished
  | Ok msg =>
      Call (callOnPublishStart (w_hooks w) ctx msg) (fun _ =>
      Call time_Now (fun startTime =>
      Call (Publish ctx msg) (fun publishErr =>
      Call time_Now (fun now =>
      let duration := saturate64 (now - startTime) in
      match publishErr with
      | Some e => failure_task w ctx msg e duration
      | None =>
          Call time_Now (fun now' =>
          let cleanupCtx := createCleanupContext now' ctx (cleanupTimeout w) in
          Call (UpdateToPublished cleanupCtx (ID msg)) (fun err =>
          settle_task err
            (Call (callOnPublishSuccess (w_hooks w) ctx msg duration) (fun _ =>
             match onMessageProcessed w with
             | Some f => Call f (fun _ => Finished)
             | None => Finished
             end))))
      end))))
  end).
End SingleTask.

(** ** core/batch_dispatcher.go *)

Section BatchTask.
Context {W : Type} `{!Runtime W, !BatchOutboxRepository W, !BatchPublisher W}.

Definition batch_failure_task (d : BatchWorker W) (ctx : Context) (msg : Outbox)
    (publishErr : error) (duration : Z) (k : Task W) : Task W :=
  let errMsg := TruncateErrorMessage (error_text publishErr) in
  Call time_Now (fun now =>
  let cleanupCtx := createCleanupContext now ctx (b_CleanupTimeout d) in
  if marks_dead msg publishErr then
    Call (UpdateToDead cleanupCtx (ID msg) errMsg) (fun _ =>
    Call (callOnPublishFailure (b_hooks d) ctx msg publishErr duration false) (fun _ =>
    Call (callOnMessageDead (b_hooks d) ctx msg publishErr) (fun _ => k)))
  else
    Call (UpdateToFailed cleanupCtx (ID msg) errMsg) (fun _ =>
    Call (callOnPublishFailure (b_hooks d) ctx msg publishErr duration true) (fun _ => k))).

(** [for i, result := range results] *)
Fixpoint results_task (d : BatchWorker W) (ctx : Context) (msgs : list Outbox) (duration : Z)
    (i : nat) (results : list PublishResult) (t : Tally) (k : Tally -> Task W) : Task W :=
  match results with
  | [] => k t
  | result :: results' =>
      match msgs !! i with
      | None => panic_task "index out of range"
      | Some msg =>
          if Success result then
            results_task d ctx msgs duration (S i) results'
              (mkTally (successIDs t ++ [ID msg]) (successMsgs t ++ [msg]) (failureCount t)) k
          else
            match Error result with
            | None => panic_task "invalid memory address or nil pointer dereference"
            | Some err =>
                batch_failure_task d ctx msg err duration
                  (results_task d ctx msgs duration (S i) results'
                     (mkTally (successIDs t) (successMsgs t) (failureCount t + 1)) k)
            end
      end
  end.

Definition successes_task (d : BatchWorker W) (ctx : Context) (duration : Z) (t : Tally)
    (k : Task W) : Task W :=
  match successIDs t with
  | [] => k
  | ids =>
      Call time_Now (fun now =>
      let cleanupCtx := createCleanupContext now ctx (b_CleanupTimeout d) in
      Call (UpdateBatchToPublished cleanupCtx ids) (fun updated =>
      match updated with
      | Err _ => k
      | Ok updatedCount =>
          let n := Z.of_nat (length ids) in
          if updatedCount <? n
          then Call (callOnPartialBatchSuccess (b_hooks d) ctx n updatedCount duration) (fun _ => k)
          else for_each_task (fun msg => callOnPublishSuccess (b_hooks d) ctx msg duration)
                 (successMsgs t) k
      end))
  end.

(** [processBatch]; the count it returns only sets the interval. *)
Definition process_batch_task (d : BatchWorker W) (ctx : Context) : Task W :=
  Call (FetchLockAndMarkPublishing ctx (b_BatchSize d)) (fun fetched =>
  match fetched with
  | Err _ => Finished
  | Ok [] => Finished
  | Ok msgs =>
      Call (callOnBatchPublishStart (b_hooks d) ctx msgs) (fun _ =>
      Call time_Now (fun startTime =>
      Call (PublishBatch ctx msgs) (fun results =>
      Call time_Now (fun now =>
      let duration := saturate64 (now - startTime) in
      results_task d ctx msgs duration 0 results (mkTally [] [] 0) (fun t =>
      successes_task d ctx duration t
        (Call (callOnBatchPublishComplete (b_hooks d) ctx
                 (Z.of_nat (length (successIDs t))) (failureCount t) duration) (fun _ =>
         Call time_Now (fun now' =>
         Call (b_store d now') (fun _ => Finished)))))))))
  end).
End BatchTask.

(** ** Run alone *)

Section Alone.
Context {W : Type}.

Lemma go_bind_assoc {A B C} (m : GoM W A) (f : A -> GoM W B) (g : B -> GoM W C) w :
  ((m ≫= f) ≫= g) w = (m ≫= fun a => f a ≫= g) w.
Proof. unfold mbind, GoM_bind. by destruct (m w) as [w' [a|why]]. Qed.

(** A task that is a call function followed by [k]. *)
Lemma call_run {A B} (m : GoM W A) (f : A -> Task W) (g : A -> GoM W B) (k : B -> GoM W unit) w :
  (forall a w, task_run (f a) w = (g a ≫= k) w) ->
  task_run (Call m f) w = ((m ≫= g) ≫= k) w.
Proof. intros H. rewrite go_bind_assoc. cbn [task_run]. by apply go_bind_ext. Qed.

Lemma for_each_run {A} (f : A -> GoM W unit) l k w :
  task_run (for_each_task f l k) w = (for_each f l ≫= fun _ => task_run k) w.
Proof.
  revert w. induction l as [|x l IH]; intros w; [done|]. cbn [for_each_task for_each].
  apply call_run. intros _ w'. apply IH.
Qed.
End Alone.

Section SingleAlone.
Context {W : Type} `{!Runtime W, !OutboxRepository W, !Publisher W}.
Abbreviation ignore := (fun _ : option error => mret tt).

Lemma settle_run err (t : Task W) (k : GoM W (option error)) w :
  (forall w, task_run t w = (k ≫= ignore) w) ->
  task_run (settle_task err t) w = (settle err k ≫= ignore) w.
Proof. intros H. destruct err as [e|]; [|apply H]. cbn. by destruct (errors_Is _ _). Qed.

Lemma failure_task_run wk ctx msg e d w :
  task_run (failure_task wk ctx msg e d) w = (handlePublishFailure wk ctx msg e d ≫= ignore) w.
Proof.
  unfold failure_task, handlePublishFailure. cbv zeta. apply call_run. intros now w1.
  destruct (marks_dead msg e); apply call_run; intros err w2; apply settle_run; intros w3.
  - by do 2 (apply call_run; intros _ ?).
  - by apply call_run; intros _ ?.
Qed.

(** The task is [processOne]. *)
Lemma process_one_run wk ctx w :
  task_run (process_one_task wk ctx) w = (processOne wk ctx ≫= ignore) w.
Proof.
  unfold process_one_task, processOne. apply call_run. intros [msg|err] w1;
    [|by destruct (errors_Is _ _)].
  apply call_run. intros _ w2. apply call_run. intros start w3. apply call_run. intros p w4.
  apply call_run. intros now w5. cbv zeta. destruct p as [e|]; [apply failure_task_run|].
  do 2 (apply call_run; intros ? ?). apply settle_run. intros w8.
  apply call_run. intros _ w9. destruct (onMessageProcessed wk); [|done].
  by apply call_run; intros ? ?.
Qed.
End SingleAlone.

Section BatchAlone.
Context {W : Type} `{!Runtime W, !BatchOutboxRepository W, !BatchPublisher W}.

Lemma batch_failure_task_run (d : BatchWorker W) ctx msg e dur t w :
  task_run (batch_failure_task d ctx msg e dur t) w
  = (batch_handlePublishFailure d ctx msg e dur ≫= fun _ => task_run t) w.
Proof.
  unfold batch_failure_task, batch_handlePublishFailure. cbv zeta. apply call_run. intros now w1.
  by destruct (marks_dead msg e); repeat (apply call_run; intros ? ?).
Qed.

Lemma results_task_run (d : BatchWorker W) ctx msgs dur k : forall results i t w,
  task_run (results_task d ctx msgs dur i results t k) w
  = (process_results d ctx msgs dur i results t ≫= fun t => task_run (k t)) w.
Proof.
  induction results as [|r results IH]; intros i t w; [done|].
  cbn [results_task process_results]. destruct (msgs !! i) as [m|]; [|done].
  destruct (Success r); [apply IH|]. destruct (Error r) as [e|]; [|done].
  rewrite batch_failure_task_run, go_bind_assoc. apply go_bind_ext. intros _ w'. apply IH.
Qed.

Lemma successes_task_run (d : BatchWorker W) ctx dur t k w :
  task_run (successes_task d ctx dur t k) w
  = (update_successes d ctx dur t ≫= fun _ => task_run k) w.
Proof.
  unfold successes_task, update_successes. destruct (successIDs t) as [|i ids]; [done|].
  cbv zeta. apply call_run. intros now w1. apply call_run. intros [n|e] w2; [|done].
  destruct (_ <? _); [by apply go_bind_ext|apply for_each_run].
Qed.

(** The task is [processBatch]. *)
Lemma process_batch_run (d : BatchWorker W) ctx w :
  task_run (process_batch_task d ctx) w = (processBatch d ctx ≫= fun _ => mret tt) w.
Proof.
  unfold process_batch_task, processBatch. apply call_run. intros [[|m ms]|e] w1; [done| |done].
  do 4 (apply call_run; intros ? ?). cbv zeta. rewrite results_task_run, go_bind_assoc.
  apply go_bind_ext. intros t w5. rewrite successes_task_run, go_bind_assoc.
  apply go_bind_ext. intros _ w6. repeat (apply call_run; intros ? ?). by destruct a.
Qed.
End BatchAlone.
