(* ===== verification/Crew.v ===== *)
(** * Crews of dispatchers on the system

    System.v lets workers fetch, publish and close messages as the code could.
    Here the workers are the code: any number of goroutines, each a
    [processOne] of core/worker.go or a [processBatch] of
    core/batch_dispatcher.go call by call (DispatchTasks.v) on the pgx
    repository (PgxRepo.v), with the clocks, hooks, publishers, crashes,
    insertions, requeues, recoveries and deletions in between.  What they do is
    what System allows. *)

From Stdlib Require Import ZArith Lia.
From stdpp Require Import base option list strings gmap fin_maps.
From S2P Require Import Prelude Errors Model Ports History Worker BatchDispatcher Store PgxRepo.
From S2P Require Import OutboxSafety System Refinement BatchRefinement Pipeline ConsumerPool.
From S2P Require Import DispatchTasks.

Set Default Goal Selector "!".
Open Scope list_scope.
Open Scope Z_scope.

(** ** The world of a call *)

(** What a call is answered that the database does not answer. *)
Record DReply : Type := mkDReply {
  dr_now : Z;
  dr_hook : outcome unit;
  dr_publish : option error;
  dr_results : list PublishResult
}.

(** The database, the answer of a call, and the calls made. *)
Record DWorld : Type := mkDWorld {
  dw_db : DB;
  dw_reply : DReply;
  dw_calls : history
}.

(** A call answered by the reply, and one answered by the database. *)
Definition asks {A} (c : History.Call) (f : DReply -> outcome A) : GoM DWorld A := fun w =>
  (mkDWorld (dw_db w) (dw_reply w) (dw_calls w ++ [c]), f (dw_reply w)).
Definition on_db {A} (c : History.Call) (f : GoM DB A) : GoM DWorld A := fun w =>
  (mkDWorld (fst (f (dw_db w))) (dw_reply w) (dw_calls w ++ [c]), snd (f (dw_db w))).

#[export] Instance crew_runtime : Runtime DWorld :=
  { time_Now := asks CNow (fun r => Ret (dr_now r)) }.

(** A repository on the database, its calls recorded. *)
Definition on_repository (R : OutboxRepository DB) : OutboxRepository DWorld := {|
  Insert ctx params := on_db (CInsert ctx params) (Insert ctx params);
  FetchAndLockToPublishing ctx := on_db (CFetch ctx) (FetchAndLockToPublishing ctx);
  UpdateToPublished ctx id := on_db (CToPublished ctx id) (UpdateToPublished ctx id);
  UpdateToFailed ctx id m := on_db (CToFailed ctx id m) (UpdateToFailed ctx id m);
  UpdateToDead ctx id m := on_db (CToDead ctx id m) (UpdateToDead ctx id m);
  RequeueFailed ctx := on_db (CRequeue ctx) (RequeueFailed ctx);
  GetByID ctx id := on_db (CGetByID ctx id) (GetByID ctx id);
  GetByIdempotencyKey ctx t k := on_db (CGetByKey ctx t k) (GetByIdempotencyKey ctx t k)
|}.
Definition on_batch_repository (R : BatchOutboxRepository DB) : BatchOutboxRepository DWorld := {|
  batch_repo_base := on_repository batch_repo_base;
  FetchLockAndMarkPublishing ctx n := on_db (CFetchBatch ctx n) (FetchLockAndMarkPublishing ctx n);
  UpdateBatchToPublished ctx ids := on_db (CBatchToPublished ctx ids) (UpdateBatchToPublished ctx ids)
|}.

#[export] Instance crew_publisher : Publisher DWorld :=
  { Publish ctx msg := asks (CPublish ctx msg) (fun r => Ret (dr_publish r)) }.
(** Nothing in a turn reads [MaxBatchSize]. *)
#[export] Instance crew_batch_publisher : BatchPublisher DWorld := {
  PublishBatch ctx msgs := asks (CPublishBatch ctx msgs) (fun r => Ret (dr_results r));
  MaxBatchSize := 10
}.

Definition crew_hook (ctx : Context) (c : HookCall) : GoM DWorld unit := asks (CHook ctx c) dr_hook.
Definition crew_hooks : Hooks DWorld := {|
  OnPublishStart := Some (fun ctx m => crew_hook ctx (HPublishStart m));
  OnPublishSuccess := Some (fun ctx m d => crew_hook ctx (HPublishSuccess m d));
  OnPublishFailure := Some (fun ctx m e d r => crew_hook ctx (HPublishFailure m e d r));
  OnMessageDead := Some (fun ctx m e => crew_hook ctx (HMessageDead m e));
  OnBatchPublishStart := Some (fun ctx ms => crew_hook ctx (HBatchPublishStart ms));
  OnBatchPublishComplete :=
    Some (fun ctx s f d => crew_hook ctx (HBatchPublishComplete s f d));
  OnPartialBatchSuccess :=
    Some (fun ctx e a d => crew_hook ctx (HPartialBatchSuccess e a d))
|}.

(** ** The crew *)

(** A worker of a [Dispatcher] or of a [BatchDispatcher]. *)
Inductive Kind : Type :=
| OneByOne (cleanupTimeout : Z)
| InBatches (size cleanupTimeout : Z).

(** A message handed to the publisher: the answer, [None] when the process died
    before one, and whether the broker got it. *)
Record Handed : Type := mkHanded {
  hd_msg : Outbox;
  hd_answer : option (option error);
  hd_reached : bool
}.

Record Crew : Type := mkCrew {
  cw_db : DB;
  (** ids ever inserted *)
  cw_used : list string;
  (** oldest first *)
  cw_handed : list Handed;
  (** the rest of the turn of each worker that is in one *)
  cw_turns : list (option (Task DWorld))
}.

(** Worker [w] begins a turn; its next call meets the database, or is answered
    [reply], and what it publishes with an error may have reached the broker;
    its turn is over; it dies with its process, in a publish perhaps, of which
    some messages may have reached the broker. *)
Inductive CrewEvent : Type :=
| CrInsert (params : OutboxInsertParams)
| CrBegin (w : nat)
| CrCall (w : nat) (reply : DReply) (reached : list bool)
| CrEnd (w : nat)
| CrCrash (w : nat) (reached : list bool)
| CrRequeue
| CrRevive
| CrDelete (statuses : list OutboxStatus) (olderThan : Z).

(** What a call hands to the publisher, and with what answers. *)
Definition offered (calls : history) : list Outbox :=
  match calls with
  | [CPublish _ msg] => [msg]
  | [CPublishBatch _ msgs] => msgs
  | _ => []
  end.
Definition answers (calls : history) (r : DReply) : list (Outbox * option error) :=
  match calls with
  | [CPublish _ msg] => [(msg, dr_publish r)]
  | [CPublishBatch _ msgs] => zip_with (fun m res => (m, result_answer res)) msgs (dr_results r)
  | _ => []
  end.

(** What a call does to the database. *)
Definition repo_of (calls : history) : option RepoCall :=
  match calls with
  | [CFetch _] => Some (RFetchBatch 1)
  | [CFetchBatch _ n] => Some (RFetchBatch n)
  | [CToPublished _ id] => Some (RToPublished id)
  | [CToFailed _ id m] => Some (RToFailed id m)
  | [CToDead _ id m] => Some (RToDead id m)
  | [CBatchToPublished _ ids] => Some (RBatchToPublished ids)
  | _ => None
  end.

(** [PublishBatch] keeps its contract. *)
#[export] Instance result_ok_dec m r : Decision (result_ok m r).
Proof.
  unfold result_ok. destruct (Success r), (Error r); try apply _.
  all: right; tauto.
Defined.
Definition contract (calls : history) (r : DReply) : Prop :=
  match calls with
  | [CPublishBatch _ msgs] => Forall2 result_ok msgs (dr_results r)
  | _ => True
  end.
#[export] Instance contract_dec calls r : Decision (contract calls r).
Proof. unfold contract. repeat case_match; apply _. Defined.

(** An answer of nil means the broker has the message. *)
Fixpoint handing (l : list (Outbox * option error)) (reached : list bool) : list Handed :=
  match l with
  | [] => []
  | (m, answer) :: l =>
      mkHanded m (Some answer)
        (match answer with None => true | Some _ => default false (head reached) end)
      :: handing l (tail reached)
  end.
Definition interrupted (msgs : list Outbox) (reached : list bool) : list Handed :=
  zip_with (fun m got => mkHanded m None got) msgs reached.

Definition some_reply : DReply := mkDReply 0 (Ret tt) None [].

(** The next call of a task, for what it records. *)
Definition next_calls (t : Task DWorld) (db : DB) : history :=
  match t with
  | Finished => []
  | Call m _ => dw_calls (fst (m (mkDWorld db some_reply [])))
  end.

Definition crew_start (envs : nat -> StmtEnv) (kinds : list Kind) : Crew :=
  mkCrew (mkDB ∅ envs 0) [] [] (replicate (length kinds) None).

Section Crew.
Context (jsonb : string -> option string) (repo : OutboxRepo) (ctx : Context).

#[local] Instance crew_batch_repo : BatchOutboxRepository DWorld :=
  on_batch_repository (pgx_batch_repository jsonb repo).

(** The store to [lastProcessedAt]. *)
Definition crew_processed : GoM DWorld unit := asks (CHook ctx HProcessed) (fun _ => Ret tt).
Definition crew_worker (cleanup : Z) : Worker DWorld :=
  mkWorker 0 (Some crew_hooks) 0 0 cleanup (Some crew_processed).
Definition crew_batch_worker (size cleanup : Z) : BatchWorker DWorld :=
  mkBatchWorker (Some crew_hooks) size 0 0 cleanup (fun _ => crew_processed).

Definition turn (k : Kind) : Task DWorld :=
  match k with
  | OneByOne cleanup => process_one_task (crew_worker cleanup) ctx
  | InBatches size cleanup => process_batch_task (crew_batch_worker size cleanup) ctx
  end.

Definition set_turn (w : nat) (t : option (Task DWorld)) (c : Crew) : Crew :=
  mkCrew (cw_db c) (cw_used c) (cw_handed c) (<[w := t]> (cw_turns c)).
Definition run_call (call : RepoCall) (c : Crew) : Crew :=
  mkCrew (repo_call jsonb repo ctx call (cw_db c)) (cw_used c) (cw_handed c) (cw_turns c).

(** One event; [None] when it cannot happen. *)
Definition crew_step (kinds : list Kind) (e : CrewEvent) (c : Crew) : option Crew :=
  match e with
  | CrInsert p =>
      let id := e_uuid (current_env (cw_db c)) in
      if bool_decide (id ∈ cw_used c) then None
      else
        let c' := run_call (RInsert p) c in
        Some (mkCrew (cw_db c') (id :: cw_used c') (cw_handed c') (cw_turns c'))
  | CrBegin w =>
      k ← kinds !! w;
      match cw_turns c !! w with
      | Some None => Some (set_turn w (Some (turn k)) c)
      | _ => None
      end
  | CrCall w reply reached =>
      match cw_turns c !! w with
      | Some (Some (Call m k)) =>
          match m (mkDWorld (cw_db c) reply []) with
          | (world, Ret a) =>
              let calls := dw_calls world in
              if bool_decide (contract calls reply) then
                Some (mkCrew (dw_db world) (cw_used c)
                        (cw_handed c ++ handing (answers calls reply) reached)
                        (<[w := Some (k a)]> (cw_turns c)))
              else None
          | (_, Panic _) => None
          end
      | _ => None
      end
  | CrEnd w =>
      match cw_turns c !! w with
      | Some (Some Finished) => Some (set_turn w None c)
      | _ => None
      end
  | CrCrash w reached =>
      match cw_turns c !! w with
      | Some (Some t) =>
          let msgs := offered (next_calls t (cw_db c)) in
          Some (mkCrew (cw_db c) (cw_used c) (cw_handed c ++ interrupted msgs reached)
                  (<[w := None]> (cw_turns c)))
      | _ => None
      end
  | CrRequeue => Some (run_call RRequeue c)
  | CrRevive => Some (run_call RRevive c)
  | CrDelete statuses age => Some (run_call (RDelete statuses age) c)
  end.

Fixpoint crew_run (kinds : list Kind) (es : list CrewEvent) (c : Crew) : option Crew :=
  match es with
  | [] => Some c
  | e :: es => c' ← crew_step kinds e c; crew_run kinds es c'
  end.
(** ** What a turn may do *)

(** A message the worker fetched, with the answer of the publisher once it has
    one. *)
Definition Slot : Type := Outbox * option (option error).
Definition fresh (m : Outbox) : Slot := (m, None).
Definition told (mr : Outbox * option error) : Slot := (mr.1, Some mr.2).
Definition published_ok (m : Outbox) : Slot := (m, Some None).

(** The call of a worker that holds the slots, with what it [hands] to the
    publisher and what it asks of the repository, on the database [db]. *)
Inductive law (db : DB) : list Slot -> list (Outbox * option error) -> option RepoCall ->
    list Slot -> Prop :=
| law_quiet st : law db st [] None st
| law_fetch n : law db [] [] (Some (RFetchBatch n)) (fresh <$> batch_fetched ctx n db)
| law_publish hands : law db (fresh <$> hands.*1) hands None (told <$> hands)
| law_close pre m answer post c :
    closing_call (mkHeld 0 m (Some answer)) = Some c ->
    law db (pre ++ told (m, answer) :: post) [] (Some c) (pre ++ post)
| law_close_batch msgs :
    law db (published_ok <$> msgs) [] (Some (RBatchToPublished (ID <$> msgs))) [].

Definition after_repo (c : option RepoCall) (db : DB) : DB :=
  match c with Some c => repo_call jsonb repo ctx c db | None => db end.

(** A turn that keeps the law and does not panic, whatever the database, which
    others change, and the replies are, and ends with no message held.  Its next
    call is the same whatever it is answered. *)
Fixpoint lawful (st : list Slot) (t : Task DWorld) {struct t} : Prop :=
  match t with
  | Finished => st = []
  | Call m k => forall db reply world o,
      m (mkDWorld db reply []) = (world, o) -> (forall n, env_ok (db_env db n)) ->
      dw_calls world = next_calls (Call m k) db
      /\ dw_db world = after_repo (repo_of (dw_calls world)) db
      /\ (offered (dw_calls world) = [] \/ st = fresh <$> offered (dw_calls world))
      /\ (contract (dw_calls world) reply -> exists a st', o = Ret a
           /\ law db st (answers (dw_calls world) reply) (repo_of (dw_calls world)) st'
           /\ lawful st' (k a))
  end.

(** A call that publishes nothing. *)
Definition quiet_call (c : History.Call) : bool :=
  match c with CPublish _ _ | CPublishBatch _ _ => false | _ => true end.
(** Nor does it ask anything of the repository. *)
Definition idle_call (c : History.Call) : bool :=
  match c with CNow | CHook _ _ => true | _ => false end.

Lemma quiet_offers c r : quiet_call c = true -> offered [c] = [] /\ answers [c] r = [].
Proof. by destruct c. Qed.
Lemma idle_offers c r :
  idle_call c = true -> offered [c] = [] /\ answers [c] r = [] /\ repo_of [c] = None.
Proof. by destruct c. Qed.

Lemma lawful_asks {A} st c (f : DReply -> A) k :
  idle_call c = true -> (forall a, lawful st (k a)) ->
  lawful st (Call (asks c (fun r => Ret (f r))) k).
Proof.
  intros Hc Hk db reply world o [= <- <-] _. split; [done|]. cbn [dw_calls app dw_db].
  destruct (idle_offers c reply Hc) as (-> & -> & ->). split; [done|]. split; [by left|].
  intros _. exists (f reply), st. by split; [|split; [constructor|]].
Qed.

Lemma lawful_hook {F} st (field : Hooks DWorld -> option F) sel call c k :
  field crew_hooks = Some sel -> call sel = asks c dr_hook -> idle_call c = true ->
  lawful st (k tt) -> lawful st (Call (call_hook (Some crew_hooks) field call) k).
Proof.
  intros Hf Hcall Hc Hk db reply world o E _. unfold next_calls. rewrite call_hook_ret in E |- *.
  cbn [mbind option_bind] in E |- *. rewrite Hf, Hcall in E |- *. injection E as <- <-.
  split; [done|]. cbn [asks fst dw_calls app dw_db].
  destruct (idle_offers c reply Hc) as (-> & -> & ->). split; [done|]. split; [by left|].
  intros _. exists tt, st. by split; [|split; [constructor|]].
Qed.

Lemma lawful_on_db {A} st c rc (f : GoM DB A) k :
  quiet_call c = true -> repo_of [c] = Some rc ->
  (forall db, (forall n, env_ok (db_env db n)) ->
     exists a st', f db = (repo_call jsonb repo ctx rc db, Ret a)
       /\ law db st [] (Some rc) st' /\ lawful st' (k a)) ->
  lawful st (Call (on_db c f) k).
Proof.
  intros Hc Hrc Hk db reply world o [= <- <-] Henv. split; [done|]. cbn [dw_calls app dw_db].
  destruct (quiet_offers c reply Hc) as [-> ->]. rewrite Hrc.
  destruct (Hk db Henv) as (a & st' & -> & HL & Ht). split; [done|]. split; [by left|].
  intros _. by exists a, st'.
Qed.

(** A closing update. *)
Lemma lawful_close {A} pre m answer post cc c (f : GoM DB A) k :
  quiet_call cc = true -> repo_of [cc] = Some c -> closing_call (mkHeld 0 m (Some answer)) = Some c ->
  (forall db, exists a, f db = (repo_call jsonb repo ctx c db, Ret a)) ->
  (forall a, lawful (pre ++ post) (k a)) ->
  lawful (pre ++ told (m, answer) :: post) (Call (on_db cc f) k).
Proof.
  intros Hq Hrc Hc Hf Hk. apply (lawful_on_db _ _ c); [done|done|]. intros db _.
  destruct (Hf db) as [a ->]. exists a, (pre ++ post). by split; [|split; [constructor|]].
Qed.

(** The closing updates return. *)
Lemma update_returns {A} (stmt : StmtEnv -> table -> result error (table * Z)) (g : _ -> A) db :
  exists a, (answer ← exec stmt; mret (g answer)) db
            = (fst ((answer ← exec stmt; mret (g answer)) db), Ret a).
Proof.
  rewrite exec_bind_run. destruct (exec_ret stmt db) as [a E]. rewrite E. by eexists.
Qed.

Lemma lawful_settle err t : lawful [] t -> lawful [] (settle_task err t).
Proof. intros H. destruct err as [e|]; [cbn; by destruct (errors_Is _ _)|done]. Qed.

#[local] Ltac hook :=
  unfold callOnPublishStart, callOnPublishSuccess, callOnPublishFailure, callOnMessageDead,
    callOnBatchPublishStart, callOnBatchPublishComplete, callOnPartialBatchSuccess;
  eapply lawful_hook; [reflexivity|reflexivity|done|].
#[local] Ltac clock := apply lawful_asks; [done|intros ?].

Lemma failure_lawful cleanup m e d :
  lawful [told (m, Some e)] (failure_task (crew_worker cleanup) ctx m e d).
Proof.
  unfold failure_task. clock. pose proof (eq_refl (closing_call (mkHeld 0 m (Some (Some e))))) as Hc.
  unfold closing_call at 2 in Hc. cbn [h_answer h_msg] in Hc. cbv zeta.
  destruct (marks_dead m e); (eapply (lawful_close [] m (Some e) []); [done|reflexivity|exact Hc|intros db; apply update_returns|]);
    intros err; apply lawful_settle; repeat hook; done.
Qed.

Lemma process_one_lawful cleanup : lawful [] (process_one_task (crew_worker cleanup) ctx).
Proof.
  unfold process_one_task. apply (lawful_on_db _ _ (RFetchBatch 1)); [done|done|]. intros db Henv.
  destruct (fetch_run jsonb repo ctx db) as (answer & Hans & Hfetch).
  change (FetchAndLockToPublishing ctx db) with (pgx_FetchAndLockToPublishing ctx db).
  rewrite Hfetch. cbn [fst snd]. eexists _, (fresh <$> batch_fetched ctx 1 db).
  split; [done|]. split; [constructor|].
  assert (E : batch_fetched ctx 1 db = match scan_row answer with Ok m => [m] | Err _ => [] end).
  { unfold batch_fetched. rewrite Hans. destruct answer as [[|m [|m2 l]]|err]; [done|done| |done].
    pose proof (fetch_one_at_most ctx db _ (Henv _) Hans) as Hl. cbn in Hl. lia. }
  rewrite E. destruct (scan_row answer) as [m|err]; [|by destruct (errors_Is _ _)].
  hook. clock. intros db1 reply world o [= <- <-] _. split; [done|]. split; [done|].
  cbn [dw_calls app]. split; [by right|]. intros _. exists (dr_publish reply), [told (m, dr_publish reply)]. split; [done|].
  split; [apply (law_publish _ [(m, _)])|].
  clock. cbv zeta. destruct (dr_publish reply) as [e|]; [apply failure_lawful|].
  clock. apply (lawful_close [] m None [] _ (RToPublished (ID m)));
    [done|done|done|intros db2; apply update_returns|].
  intros err. apply lawful_settle. hook. by apply lawful_asks.
Qed.

(** *** The batch *)

Section Batch.
Context (size cleanup : Z).
Abbreviation d := (crew_batch_worker size cleanup).

Lemma batch_failure_lawful pre m e post dur k :
  lawful (pre ++ post) k ->
  lawful (pre ++ told (m, Some e) :: post) (batch_failure_task d ctx m e dur k).
Proof.
  intros Hk. unfold batch_failure_task. clock. cbv zeta.
  pose proof (eq_refl (closing_call (mkHeld 0 m (Some (Some e))))) as Hc.
  unfold closing_call at 2 in Hc. cbn [h_answer h_msg] in Hc.
  destruct (marks_dead m e); (eapply lawful_close; [done|reflexivity|exact Hc|intros db; apply update_returns|]);
    intros err; repeat hook; exact Hk.
Qed.

(** A tally whose ids are those of its messages. *)
Definition tallied (t : Tally) : Prop := successIDs t = ID <$> successMsgs t.

Lemma results_lawful msgs dur k : forall results i t,
  (forall t', tallied t' -> lawful (published_ok <$> successMsgs t') (k t')) ->
  tallied t -> Forall2 result_ok (drop i msgs) results ->
  lawful ((published_ok <$> successMsgs t)
            ++ (told <$> zip_with (fun m r => (m, result_answer r)) (drop i msgs) results))
    (results_task d ctx msgs dur i results t k).
Proof.
  induction results as [|r results IH]; intros i t Hk Ht Hok.
  { apply Forall2_nil_inv_r in Hok as ->. cbn. rewrite app_nil_r. by apply Hk. }
  apply Forall2_cons_inv_r in Hok as (m & ms & Hrm & Hok & Ed).
  assert (Ei : msgs !! i = Some m) by (rewrite <- (Nat.add_0_r i), <- lookup_drop, Ed; done).
  assert (Es : drop (S i) msgs = ms) by (rewrite <- Nat.add_1_r, <- drop_drop, Ed; done).
  rewrite Ed. cbn [zip_with fmap list_fmap results_task]. rewrite Ei. destruct Hrm as [_ Herr].
  unfold result_answer at 1. rewrite <- Es in Hok |- *. destruct (Success r).
  - specialize (IH (S i)
      (mkTally (successIDs t ++ [ID m]) (successMsgs t ++ [m]) (failureCount t)) Hk).
    cbn [successMsgs] in IH. rewrite fmap_app, <- app_assoc in IH. apply IH; [|done].
    unfold tallied in *. cbn. by rewrite fmap_app, Ht.
  - destruct (Error r) as [e|]; [|by destruct Herr]. apply batch_failure_lawful.
    by apply (IH (S i) (mkTally (successIDs t) (successMsgs t) (failureCount t + 1))).
Qed.

Lemma for_each_lawful {A} st (f : A -> GoM DWorld unit) l t :
  (forall x k, lawful st k -> lawful st (Call (f x) (fun _ => k))) ->
  lawful st t -> lawful st (for_each_task f l t).
Proof. intros Hf Ht. induction l as [|x l IH]; [done|]. by apply Hf. Qed.

Lemma successes_lawful dur t k :
  tallied t -> lawful [] k ->
  lawful (published_ok <$> successMsgs t) (successes_task d ctx dur t k).
Proof.
  unfold tallied, successes_task. intros Ht Hk.
  destruct (successMsgs t) as [|m ms] eqn:Em; [by rewrite Ht|].
  rewrite Ht. cbn [fmap list_fmap]. clock.
  apply (lawful_on_db _ _ (RBatchToPublished (ID <$> m :: ms))); [done|done|]. intros db _.
  destruct (exec_ret (queryUpdateBatchToPublished (ID m :: (ID <$> ms))) db) as [updated Hup].
  exists updated, []. split; [exact Hup|].
  split; [apply (law_close_batch _ (m :: ms))|]. destruct updated as [n|err]; [|done].
  cbv zeta. destruct (_ <? _); [by hook|]. apply for_each_lawful; [|done].
  intros x k' Hk'. by hook.
Qed.

Lemma process_batch_lawful : lawful [] (process_batch_task d ctx).
Proof.
  unfold process_batch_task. apply (lawful_on_db _ _ (RFetchBatch size)); [done|done|]. intros db _.
  destruct (exec_ret (queryFetchLockAndMarkPublishing size) db) as [fetched Hret].
  exists fetched, (fresh <$> match fetched with Ok msgs => msgs | Err _ => [] end).
  split; [exact Hret|]. split.
  { replace (match fetched with Ok msgs => msgs | Err _ => [] end)
      with (batch_fetched ctx size db); [constructor|].
    unfold batch_fetched, pgx_FetchLockAndMarkPublishing. by rewrite Hret. }
  destruct fetched as [[|m ms]|err]; [done| |done]. hook. clock.
  intros db1 reply world o [= <- <-] _. split; [done|]. split; [done|].
  cbn [dw_calls app]. split; [by right|]. intros Hok. cbn [contract] in Hok. cbn [dw_db answers].
  set (msgs := m :: ms) in *. set (hands := zip_with _ msgs (dr_results reply)).
  exists (dr_results reply), (told <$> hands). split; [done|]. split.
  { replace (fresh <$> msgs) with (fresh <$> hands.*1); [constructor|]. f_equal. unfold hands.
    clear -Hok. by induction Hok as [|x r xs rs _ _ IH]; [|cbn; f_equal]. }
  clock. cbv zeta. apply (results_lawful msgs _ _ (dr_results reply) 0 (mkTally [] [] 0)); [|done..].
  intros t Ht. apply successes_lawful; [done|]. hook. clock. by apply lawful_asks.
Qed.
End Batch.

(** Every turn keeps the law. *)
Lemma turn_lawful k : lawful [] (turn k).
Proof. destruct k; [apply process_one_lawful|apply process_batch_lawful]. Qed.
End Crew.
