(* ===== verification/CrewRefines.v ===== *)
(** * Crews do what the system allows

    Every call of a worker of a crew (Crew.v) is a sequence of events of the
    system (System.v): none for a clock reading or a hook, one for a fetch or a
    status update, one per message of a publish.  So whatever the workers of a
    crew do together, the system does, and its invariants are theirs. *)

From Stdlib Require Import ZArith Lia.
From stdpp Require Import base option list strings gmap fin_maps.
From S2P Require Import Prelude Errors Model Ports History Worker BatchDispatcher Store PgxRepo.
From S2P Require Import OutboxSafety System Refinement BatchRefinement Pipeline ConsumerPool.
From S2P Require Import Settled DispatchTasks Crew.

Set Default Goal Selector "!".
Open Scope list_scope.
Open Scope Z_scope.

(** ** The books of a crew and of the system *)

(** What the broker has, oldest first. *)
Definition queue_of (l : list Handed) : list Outbox := hd_msg <$> List.filter hd_reached l.
Definition rejected (h : Handed) : bool :=
  match hd_answer h with Some (Some e) => negb (IsRetryable (Some e)) | _ => false end.
Definition rejected_ids (l : list Handed) : list string :=
  (ID ∘ hd_msg) <$> List.filter rejected l.
Definition handed_times (l : list Handed) (id : string) : nat :=
  length (List.filter (fun h => bool_decide (ID (hd_msg h) = id)) l).

(** The system has the same books, newest first. *)
Record accounts (l : list Handed) (s : Sys) : Prop := {
  ac_sent : s_sent s = reverse (ID <$> queue_of l);
  ac_rejected : s_rejected s = reverse (rejected_ids l);
  ac_attempts id : s_attempts s id = handed_times l id
}.

(** The messages worker [w] holds. *)
Definition mine (w : nat) (l : list Held) : list Held := List.filter (held_by w) l.
Definition held_of (w : nat) (st : list Slot) : list Held := (fun x => mkHeld w x.1 x.2) <$> st.

(** A step of worker [w] that leaves it with the slots [st]. *)
Record Moved (w : nat) (s s' : Sys) (st : list Slot) : Prop := {
  mv_mine : mine w (s_held s') = held_of w st;
  mv_others w' : w' <> w -> mine w' (s_held s') = mine w' (s_held s);
  mv_used : s_used s' = s_used s
}.

Lemma slots_moved_trans w s1 s2 s3 st2 st3 :
  Moved w s1 s2 st2 -> Moved w s2 s3 st3 -> Moved w s1 s3 st3.
Proof.
  intros [_ Ho Hu] [Hm Ho' Hu']. split; [done| |congruence].
  intros w' Hw. by rewrite Ho', Ho.
Qed.

(** *** Lists *)

Lemma filter_split {A} (P : A -> bool) l : forall pre x post,
  List.filter P l = pre ++ x :: post ->
  exists l1 l2, l = l1 ++ x :: l2 /\ List.filter P l1 = pre /\ List.filter P l2 = post.
Proof.
  induction l as [|y l IH]; intros pre x post; [by destruct pre|]. cbn.
  destruct (P y) eqn:Ey.
  - destruct pre as [|z pre]; cbn; intros [= -> H]; [by exists [], l|].
    destruct (IH pre x post H) as (l1 & l2 & -> & H1 & H2). exists (z :: l1), l2.
    cbn. by rewrite Ey, H1.
  - intros H. destruct (IH pre x post H) as (l1 & l2 & -> & H1 & H2). exists (y :: l1), l2.
    cbn. by rewrite Ey.
Qed.

Lemma mine_other w w' m a : w' <> w -> held_by w' (mkHeld w m a) = false.
Proof. intros Hw. apply Nat.eqb_neq. cbn. congruence. Qed.

(** A message of worker [w] has its place among all, where it can be replaced or
    removed without touching the others. *)
Lemma slot_place w pre x post held :
  mine w held = held_of w (pre ++ x :: post) ->
  exists i, held !! i = Some (mkHeld w x.1 x.2)
    /\ (forall y, mine w (<[i := mkHeld w y.1 y.2]> held) = held_of w (pre ++ y :: post)
          /\ forall w', w' <> w -> mine w' (<[i := mkHeld w y.1 y.2]> held) = mine w' held)
    /\ mine w (delete i held) = held_of w (pre ++ post)
    /\ forall w', w' <> w -> mine w' (delete i held) = mine w' held.
Proof.
  unfold mine, held_of. rewrite fmap_app. cbn [fmap list_fmap]. intros H.
  apply filter_split in H as (l1 & l2 & -> & H1 & H2). exists (length l1).
  assert (Hw : forall y : Slot, held_by w (mkHeld w y.1 y.2) = true)
    by (intros; apply Nat.eqb_refl).
  split; [by rewrite lookup_app_r, Nat.sub_diag by lia|]. split; [|rewrite delete_middle; split].
  - intros y. rewrite insert_app_r_alt, Nat.sub_diag by lia. cbn [insert list_insert].
    split; [|intros w' Hne]; rewrite !List.filter_app; cbn [List.filter].
    + by rewrite Hw, H1, H2, fmap_app.
    + by rewrite !(mine_other w w' _ _ Hne).
  - by rewrite List.filter_app, H1, H2, fmap_app.
  - intros w' Hne. rewrite !List.filter_app. cbn [List.filter].
    by rewrite (mine_other w w' _ _ Hne).
Qed.

(** A publish whose process died before an answer is one that failed and can be
    tried again. *)
Definition lost : error := EUser "the process died" None [].
Definition answer_of (h : Handed) : option error := default (Some lost) (hd_answer h).
Definition answered_slot (h : Handed) : Slot := (hd_msg h, Some (answer_of h)).
(** nil means the broker has it. *)
Definition truthful (h : Handed) : Prop := hd_answer h = Some None -> hd_reached h = true.

Lemma queue_app l1 l2 : queue_of (l1 ++ l2) = queue_of l1 ++ queue_of l2.
Proof. unfold queue_of. by rewrite List.filter_app, fmap_app. Qed.

Lemma handing_truthful l : forall reached, Forall truthful (handing l reached).
Proof.
  induction l as [|[m answer] l IH]; intros reached; constructor; [|apply IH].
  by intros [= ->].
Qed.

Lemma handing_slots l : forall reached,
  answered_slot <$> handing l reached = told <$> l /\ hd_msg <$> handing l reached = l.*1.
Proof.
  induction l as [|[m answer] l IH]; intros reached; [done|]. cbn.
  by destruct (IH (tail reached)) as [-> ->].
Qed.

Lemma interrupted_msgs msgs : forall reached,
  Forall truthful (interrupted msgs reached)
  /\ exists rest, msgs = (hd_msg <$> interrupted msgs reached) ++ rest.
Proof.
  induction msgs as [|m msgs IH]; intros reached; [by split; [|exists []]|].
  destruct reached as [|got reached]; [by split; [|exists (m :: msgs)]|].
  destruct (IH reached) as (Ht & rest & E). cbn. split; [by constructor|].
  exists rest. by rewrite E at 1.
Qed.

Section Refines.
Context (jsonb : string -> option string) (repo : OutboxRepo) (ctx : Context).
Abbreviation step := (sys_step jsonb repo ctx).
Abbreviation Law := (law ctx).

(** Events, and what they put on the queue. *)
Fixpoint fed (es : list Event) (s : Sys) (q : list Outbox) : option (Sys * list Outbox) :=
  match es with
  | [] => Some (s, q)
  | e :: es => s' ← step e s; fed es s' (q ++ accepted_by e s)
  end.

Lemma fed_app es1 es2 s q s' q' :
  fed es1 s q = Some (s', q') -> fed (es1 ++ es2) s q = fed es2 s' q'.
Proof.
  revert s q. induction es1 as [|e es1 IH]; cbn [app fed]; intros s q; [by intros [= <- <-]|].
  destruct (step e s) as [s1|]; [apply IH|done].
Qed.

Lemma fed_run es : forall s q s' q',
  fed es s q = Some (s', q') -> run_events jsonb repo ctx es s = Some s'.
Proof.
  induction es as [|e es IH]; cbn [fed]; intros s q s' q'; [by intros [= <- _]|].
  rewrite run_cons. destruct (step e s) as [s1|]; [apply IH|done].
Qed.

Lemma fed_inv es : forall s q s' q', Inv s -> fed es s q = Some (s', q') -> Inv s'.
Proof.
  induction es as [|e es IH]; cbn [fed]; intros s q s' q' Hinv; [by intros [= <- _]|].
  destruct (step e s) as [s1|] eqn:E; [|done]. apply IH. by apply (inv_step jsonb repo ctx s e).
Qed.

(** *** The events of a call *)

(** An entry of the books. *)
Lemma accounts_entry l s h :
  accounts l s -> forall s', let id := ID (hd_msg h) in
  s_sent s' = (if hd_reached h then id :: s_sent s else s_sent s) ->
  s_rejected s' = (if rejected h then id :: s_rejected s else s_rejected s) ->
  (forall id', s_attempts s' id' = if bool_decide (id' = id) then S (s_attempts s id')
                                   else s_attempts s id') ->
  accounts (l ++ [h]) s'.
Proof.
  intros [Hs Hr Ha] s' id Es Er Ea. split.
  - rewrite Es, Hs, queue_app, fmap_app, reverse_app. unfold queue_of.
    cbn. by destruct (hd_reached h).
  - rewrite Er, Hr. unfold rejected_ids. rewrite List.filter_app, fmap_app, reverse_app.
    cbn. by destruct (rejected h).
  - intros id'. rewrite Ea, Ha. unfold handed_times. rewrite List.filter_app, length_app. cbn.
    fold id. destruct (decide (id' = id)) as [->|Hne].
    + rewrite !bool_decide_eq_true_2 by done. cbn. lia.
    + rewrite !bool_decide_eq_false_2 by done. cbn. lia.
Qed.

Lemma publish_slot w pre h post s l :
  accounts l s -> mine w (s_held s) = held_of w (pre ++ fresh (hd_msg h) :: post) ->
  truthful h ->
  exists i s', let e := EPublish i (answer_of h) (hd_reached h) in
    step e s = Some s' /\ accepted_by e s = queue_of [h] /\ accounts (l ++ [h]) s'
    /\ s_db s' = s_db s /\ Moved w s s' (pre ++ answered_slot h :: post).
Proof.
  intros Hacc Hm Ht. destruct (slot_place w pre _ post _ Hm) as (i & Hi & Hins & _).
  destruct (Hins (answered_slot h)) as [Hins1 Hins2]. exists i. cbn [sys_step accepted_by].
  rewrite Hi. cbn [mbind option_bind h_answer h_msg h_worker fresh fst snd].
  unfold answered_slot, queue_of, answer_of, truthful in *. cbn [fst snd] in *.
  pose proof (accounts_entry l s h Hacc) as Hentry. unfold rejected in Hentry. cbn zeta in Hentry.
  destruct h as [m [[e|]|] [|]]; cbn in *; try discriminate (Ht eq_refl);
    (eexists; split; [reflexivity|]; split; [done|]; split; [by apply Hentry|]; by split).
Qed.

(** A publish of several messages, or as many as were handed over. *)
Lemma publish_slots w hs : forall pre rest s l,
  accounts l s -> mine w (s_held s) = held_of w (pre ++ (fresh <$> (hd_msg <$> hs)) ++ rest) ->
  Forall truthful hs ->
  exists es s', fed es s (queue_of l) = Some (s', queue_of (l ++ hs))
    /\ accounts (l ++ hs) s' /\ s_db s' = s_db s
    /\ Moved w s s' (pre ++ (answered_slot <$> hs) ++ rest).
Proof.
  induction hs as [|h hs IH]; intros pre rest s l Hacc Hm Ht.
  { exists [], s. rewrite app_nil_r. split; [done|]. split; [done|]. split; [done|]. by split. }
  apply Forall_cons in Ht as [Hh Ht].
  destruct (publish_slot w pre h _ s l Hacc Hm Hh)
    as (i & s1 & Hs1 & Hq & Hacc1 & Hdb & Hmv).
  destruct (IH (pre ++ [answered_slot h]) rest s1 (l ++ [h]) Hacc1) as (es & s' & Hes & Hacc' & Hdb' & Hmv');
    [by rewrite (mv_mine _ _ _ _ Hmv), <- app_assoc|done|].
  rewrite <- !app_assoc in Hes, Hacc', Hmv'.
  exists (EPublish i (answer_of h) (hd_reached h) :: es), s'. cbn [fed]. rewrite Hs1.
  cbn [mbind option_bind]. rewrite Hq, <- queue_app. split; [done|]. split; [done|].
  split; [congruence|]. by eapply slots_moved_trans.
Qed.

(** An event that only closes or fetches messages of [w]. *)
Lemma one_event w e s s' l st :
  step e s = Some s' -> accepted_by e s = [] -> accounts l s' -> Moved w s s' st ->
  exists es, fed es s (queue_of l) = Some (s', queue_of l) /\ accounts l s' /\ Moved w s s' st.
Proof.
  intros Hs Hq Ha Hm. exists [e]. cbn [fed]. rewrite Hs. cbn [mbind option_bind].
  by rewrite Hq, app_nil_r.
Qed.

Lemma accounts_call c s held l : accounts l s -> accounts l (call jsonb repo ctx c s held).
Proof. by intros [? ? ?]. Qed.

Lemma mine_app w l1 l2 : mine w (l1 ++ l2) = mine w l1 ++ mine w l2.
Proof. apply List.filter_app. Qed.

Lemma mine_fresh w w' msgs :
  mine w' ((fun m => mkHeld w m None) <$> msgs)
  = if decide (w' = w) then held_of w (fresh <$> msgs) else [].
Proof.
  unfold held_of. rewrite <- list_fmap_compose. unfold mine.
  induction msgs as [|m msgs IH]; [by case_decide|]. rewrite !fmap_cons. cbn [List.filter].
  rewrite IH. case_decide as Hw.
  - subst w'. unfold held_by. cbn. by rewrite Nat.eqb_refl.
  - by rewrite mine_other.
Qed.

Lemma fetch_event w n s l :
  accounts l s -> mine w (s_held s) = [] ->
  exists es s', fed es s (queue_of l) = Some (s', queue_of l) /\ accounts l s'
    /\ s_db s' = repo_call jsonb repo ctx (RFetchBatch n) (s_db s)
    /\ Moved w s s' (fresh <$> batch_fetched ctx n (s_db s)).
Proof.
  intros Ha Hm. set (s' := after_batch_fetch jsonb repo ctx s w n).
  assert (Hidle : existsb (held_by w) (s_held s) = false).
  { unfold mine in Hm. revert Hm. induction (s_held s) as [|h held IH]; [done|]. cbn.
    by destruct (held_by w h). }
  destruct (one_event w (EFetch w n) s s' l (fresh <$> batch_fetched ctx n (s_db s)))
    as (es & Hes & Ha' & Hmv); [by apply batch_fetch_step|done|by apply accounts_call| |].
  - unfold s', after_batch_fetch. split; cbn [call s_held s_used]; [| |done].
    + rewrite mine_app, Hm. unfold unanswered. rewrite mine_fresh. by rewrite decide_True.
    + intros w' Hw. rewrite mine_app. unfold unanswered. rewrite mine_fresh.
      by rewrite decide_False, app_nil_r.
  - by exists es, s'.
Qed.

Lemma close_event w pre m answer post c s l :
  accounts l s -> mine w (s_held s) = held_of w (pre ++ told (m, answer) :: post) ->
  closing_call (mkHeld 0 m (Some answer)) = Some c ->
  exists es s', fed es s (queue_of l) = Some (s', queue_of l) /\ accounts l s'
    /\ s_db s' = repo_call jsonb repo ctx c (s_db s) /\ Moved w s s' (pre ++ post).
Proof.
  intros Ha Hm Hc. destruct (slot_place w pre _ post _ Hm) as (i & Hi & _ & Hdel & Hother).
  set (s' := call jsonb repo ctx c s (delete i (s_held s))).
  destruct (one_event w (EClose i) s s' l (pre ++ post)) as (es & Hes & Ha' & Hmv);
    [|done|by apply accounts_call|done|by exists es, s'].
  cbn [sys_step]. rewrite Hi. cbn [mbind option_bind].
  change (closing_call _) with (closing_call (mkHeld 0 m (Some answer))). by rewrite Hc.
Qed.

(** *** What leaves a worker *)

Lemma filter_and {A} (P Q : A -> bool) l :
  List.filter (fun x => P x && Q x) l = List.filter Q (List.filter P l).
Proof.
  induction l as [|x l IH]; [done|]. cbn. destruct (P x); cbn; [|done]. by rewrite IH.
Qed.

(** Messages of [w] are taken away, those that satisfy [Q]. *)
Lemma mine_without w w' (Q : Held -> bool) l :
  mine w' (List.filter (fun h => negb (held_by w h && Q h)) l)
  = if decide (w' = w) then List.filter (negb ∘ Q) (mine w l) else mine w' l.
Proof.
  unfold mine. induction l as [|h l IH]; [by case_decide|]. cbn [List.filter].
  destruct (held_by w h) eqn:Ew; cbn [andb negb compose].
  - destruct (decide (w' = w)) as [->|Hw].
    + cbn [List.filter]. unfold compose. destruct (Q h); cbn [negb]; [exact IH|]. cbn [List.filter].
      by rewrite Ew, IH.
    + assert (Ew' : held_by w' h = false).
      { unfold held_by in *. apply Nat.eqb_eq in Ew. apply Nat.eqb_neq. congruence. }
      rewrite Ew'. destruct (Q h); cbn [negb List.filter]; [|rewrite Ew']; exact IH.
  - cbn [List.filter]. destruct (decide (w' = w)) as [->|Hw]; [by rewrite Ew|].
    by destruct (held_by w' h); [f_equal|].
Qed.

Lemma published_slots w msgs :
  List.filter succeeded (held_of w (published_ok <$> msgs)) = held_of w (published_ok <$> msgs)
  /\ List.filter (negb ∘ succeeded) (held_of w (published_ok <$> msgs)) = []
  /\ (ID ∘ h_msg) <$> held_of w (published_ok <$> msgs) = ID <$> msgs.
Proof.
  unfold held_of. rewrite <- !list_fmap_compose. split; [|split; [|done]].
  - induction msgs as [|m msgs IH]; [done|]. cbn. by rewrite IH.
  - by induction msgs.
Qed.

Lemma close_all_event w msgs s l :
  accounts l s -> mine w (s_held s) = held_of w (published_ok <$> msgs) ->
  exists es s', fed es s (queue_of l) = Some (s', queue_of l) /\ accounts l s'
    /\ s_db s' = repo_call jsonb repo ctx (RBatchToPublished (ID <$> msgs)) (s_db s)
    /\ Moved w s s' [].
Proof.
  intros Ha Hm. destruct (published_slots w msgs) as (Hf & Hnone & Hids).
  set (rest := List.filter (fun h => negb (held_by w h && succeeded h)) (s_held s)).
  set (s' := call jsonb repo ctx (RBatchToPublished (ID <$> msgs)) s rest).
  destruct (one_event w (ECloseBatch w) s s' l []) as (es & Hes & Ha' & Hmv);
    [|done|by apply accounts_call| |by exists es, s'].
  - cbn [sys_step]. rewrite filter_and. fold (mine w (s_held s)). by rewrite Hm, Hf, Hids.
  - unfold s', rest. split; cbn [call s_held s_used]; [| |done].
    + rewrite mine_without, decide_True, Hm by done. exact Hnone.
    + intros w' Hw. by rewrite mine_without, decide_False.
Qed.

Lemma crash_event w s l :
  accounts l s ->
  exists es s', fed es s (queue_of l) = Some (s', queue_of l) /\ accounts l s'
    /\ s_db s' = s_db s /\ Moved w s s' [].
Proof.
  intros Ha.
  set (s' := mkSys (s_db s) (List.filter (fun h => negb (held_by w h)) (s_held s))
               (s_sent s) (s_rejected s) (s_attempts s) (s_used s)).
  assert (Hall : forall w', mine w' (s_held s') = if decide (w' = w) then [] else mine w' (s_held s)).
  { intros w'. pose proof (mine_without w w' (fun _ => true) (s_held s)) as H.
    unfold s'. cbn [s_held].
    rewrite (List.filter_ext _ (fun h => negb (held_by w h && true)));
      [|intros h; by rewrite andb_true_r].
    rewrite H. clear H. case_decide; [|done]. induction (mine w (s_held s)) as [|h held IH]; [done|exact IH]. }
  destruct (one_event w (ECrash w) s s' l []) as (es & Hes & Ha' & Hmv);
    [done|done|by destruct Ha| |by exists es, s'].
  split; [| |done]; [by rewrite Hall, decide_True|intros w' Hw; by rewrite Hall, decide_False].
Qed.

(** *** A call *)

Lemma law_events w st hands db rc st' reached s l :
  Law db st hands rc st' -> accounts l s -> s_db s = db -> mine w (s_held s) = held_of w st ->
  let l' := l ++ handing hands reached in
  exists es s', fed es s (queue_of l) = Some (s', queue_of l') /\ accounts l' s'
    /\ s_db s' = after_repo jsonb repo ctx rc db /\ Moved w s s' st'.
Proof.
  intros HL Ha <- Hm l'. subst l'.
  destruct HL as [st|n|hands|pre m answer post c Hc|msgs]; cbn [handing after_repo];
    rewrite ?app_nil_r.
  - exists [], s. split; [done|]. split; [done|]. split; [done|]. by split.
  - by apply fetch_event.
  - destruct (handing_slots hands reached) as [E1 E2].
    destruct (publish_slots w (handing hands reached) [] [] s l Ha) as (es & s' & Hes & Ha' & Hd & Hmv).
    + cbn [app]. by rewrite app_nil_r, E2.
    + apply handing_truthful.
    + exists es, s'. cbn [app] in Hmv. rewrite app_nil_r, E1 in Hmv. by rewrite Hd.
  - by apply (close_event w pre m answer).
  - by apply close_all_event.
Qed.

(** *** What stays PUBLISHING *)

Definition slot_ids (st : list Slot) : list string := (ID ∘ fst) <$> st.

Lemma slot_ids_map {A} (f : A -> Slot) (g : A -> Outbox) l :
  (forall x, (f x).1 = g x) -> slot_ids (f <$> l) = ID <$> (g <$> l).
Proof.
  intros H. unfold slot_ids. rewrite <- !list_fmap_compose. apply list_fmap_ext.
  intros _ x _. unfold compose. by rewrite H.
Qed.

Lemma closing_closes m answer c :
  closing_call (mkHeld 0 m (Some answer)) = Some c -> closes c = true /\ targets c (ID m).
Proof.
  unfold closing_call. cbn. destruct answer as [e|]; [|by intros [= <-]].
  by destruct (marks_dead m e); intros [= <-].
Qed.

(** What is PUBLISHING after a call that works is held afterwards, or it was
    PUBLISHING before and has not been given up. *)
Lemma law_settles db st hands rc st' id r' :
  Law db st hands rc st' -> env_ok (current_env db) -> keyed (db_table db) ->
  (forall c, rc = Some c -> call_works repo c db = true) ->
  db_table (after_repo jsonb repo ctx rc db) !! id = Some r' -> Status r' = PUBLISHING ->
  id ∈ slot_ids st'
  \/ ((exists r, db_table db !! id = Some r /\ Status r = PUBLISHING)
      /\ (id ∈ slot_ids st -> id ∈ slot_ids st')).
Proof.
  intros HL Henv Hk Hw Hr' Hpub.
  destruct HL as [st|n|hands|pre m answer post c Hc|msgs]; cbn [after_repo] in Hr'.
  - right. split; [by exists r'|done].
  - destruct (fetch_hands_over jsonb repo ctx n db id r' Henv Hk (Hw _ eq_refl) Hr' Hpub)
      as [Hin|Hex]; [left|right; split; [done|by intros ?%not_elem_of_nil]].
    rewrite (slot_ids_map _ (@Datatypes.id Outbox)) by done. by rewrite list_fmap_id.
  - right. split; [by exists r'|].
    rewrite (slot_ids_map _ (@Datatypes.id Outbox)), (slot_ids_map _ fst), list_fmap_id by done. done.
  - right. destruct (closing_closes m answer c Hc) as [Hcl Ht].
    destruct (close_settles jsonb repo ctx c db id r' Hcl Hk (Hw _ eq_refl) Hr' Hpub)
      as (r & Hr & Hp & Hno). split; [by exists r|].
    unfold slot_ids. rewrite !fmap_app, fmap_cons, !elem_of_app, elem_of_cons.
    intros [?|[->|?]]; [by left|by destruct Hno|by right].
  - right. destruct (close_settles jsonb repo ctx (RBatchToPublished (ID <$> msgs)) db id r' eq_refl Hk (Hw _ eq_refl) Hr' Hpub)
      as (r & Hr & Hp & Hno). split; [by exists r|].
    rewrite (slot_ids_map _ (@Datatypes.id Outbox)), list_fmap_id by done. intros Hin. by destruct Hno.
Qed.

Lemma settled_moved w s s' st st' :
  settled s -> mine w (s_held s) = held_of w st -> Moved w s s' st' ->
  (forall id r', s_table s' !! id = Some r' -> Status r' = PUBLISHING ->
     id ∈ slot_ids st'
     \/ ((exists r, s_table s !! id = Some r /\ Status r = PUBLISHING)
         /\ (id ∈ slot_ids st -> id ∈ slot_ids st'))) ->
  settled s'.
Proof.
  intros Hs Hm [Hm' Ho _] Hstep id r' Hr' Hpub.
  assert (Hin : forall v h, h ∈ mine v (s_held s') -> h ∈ s_held s').
  { intros v h. rewrite !list_elem_of_In. unfold mine. rewrite List.filter_In. tauto. }
  assert (Hmine : id ∈ slot_ids st' -> exists h, h ∈ s_held s' /\ ID (h_msg h) = id).
  { intros (x & -> & Hx)%list_elem_of_fmap. exists (mkHeld w x.1 x.2). split; [|done].
    apply (Hin w). rewrite Hm'. by apply (list_elem_of_fmap_2 (fun x => mkHeld w x.1 x.2)). }
  destruct (Hstep id r' Hr' Hpub) as [?|[(r & Hr & Hp) Hkeep]]; [by apply Hmine|].
  destruct (Hs id r Hr Hp) as (h & Hh & Hid).
  assert (Hown : h ∈ mine (h_worker h) (s_held s)).
  { unfold mine. apply list_elem_of_In, List.filter_In. split; [by apply list_elem_of_In|].
    apply Nat.eqb_refl. }
  destruct (decide (h_worker h = w)) as [Ew|Hw].
  - rewrite Ew, Hm in Hown. apply list_elem_of_fmap in Hown as (x & Ex & Hx). subst h.
    apply Hmine, Hkeep. rewrite <- Hid. by apply (list_elem_of_fmap_2 (ID ∘ fst)).
  - exists h. split; [|done]. apply (Hin (h_worker h)). by rewrite (Ho _ Hw).
Qed.

(** ** The simulation *)

(** What a worker holds is what the rest of its turn settles. *)
Definition turn_ok (held : list Held) (w : nat) (t : option (Task DWorld)) : Prop :=
  match t with
  | Some t => exists st, held = held_of w st /\ lawful jsonb repo ctx st t
  | None => held = []
  end.

(** Nothing of a worker fails in the event: neither its process nor a call on the
    database. *)
Definition clean_event (e : CrewEvent) (c : Crew) : bool :=
  match e with
  | CrCrash _ _ => false
  | CrCall w _ _ =>
      match cw_turns c !! w with
      | Some (Some t) =>
          match repo_of (next_calls t (cw_db c)) with
          | Some rc => call_works repo rc (cw_db c)
          | None => true
          end
      | _ => true
      end
  | _ => true
  end.

(** [clean]: nothing of a worker has failed. *)
Record Crews (clean : bool) (c : Crew) (s : Sys) : Prop := {
  cs_inv : Inv s;
  cs_db : s_db s = cw_db c;
  cs_used : s_used s = cw_used c;
  cs_books : accounts (cw_handed c) s;
  cs_turns w : turn_ok (mine w (s_held s)) w (default None (cw_turns c !! w));
  cs_settled : clean = true -> settled s
}.

Definition follows (clean : bool) (c : Crew) (s : Sys) (c' : Crew) : Prop :=
  exists es s', fed es s (queue_of (cw_handed c)) = Some (s', queue_of (cw_handed c'))
    /\ Crews clean c' s'.

(** Worker [w] moves and its turn becomes [t]. *)
Lemma follows_turn b b' c s w es s' st t db l old :
  Crews b c s -> cw_turns c !! w = Some old ->
  fed es s (queue_of (cw_handed c)) = Some (s', queue_of l) -> accounts l s' -> s_db s' = db ->
  Moved w s s' st -> turn_ok (held_of w st) w t -> (b' = true -> settled s') ->
  follows b' c s (mkCrew db (cw_used c) l (<[w := t]> (cw_turns c))).
Proof.
  intros [Hinv Hdb Hu Hbooks Hturns _] Hold Hes Ha Hd [Hm Ho Hus] Ht Hset. exists es, s'.
  split; [done|]. pose proof (fed_inv es _ _ _ _ Hinv Hes).
  split; cbn [cw_db cw_used cw_handed cw_turns]; [done|done|congruence|done| |done].
  intros w'. destruct (decide (w' = w)) as [->|Hw].
  - rewrite Hm, list_lookup_insert_eq by (by eapply lookup_lt_Some). exact Ht.
  - rewrite (Ho w' Hw), list_lookup_insert_ne by done. apply Hturns.
Qed.

(** Others change the database. *)
Lemma follows_others b c s e s' rc db used :
  Crews b c s -> step e s = Some s' -> accepted_by e s = [] ->
  s_db s' = repo_call jsonb repo ctx rc (s_db s) -> system_call rc = true ->
  (forall n, rc <> RFetchBatch n) -> s_db s' = db -> s_used s' = used ->
  s_held s' = s_held s -> s_sent s' = s_sent s -> s_rejected s' = s_rejected s ->
  s_attempts s' = s_attempts s ->
  follows b c s (mkCrew db used (cw_handed c) (cw_turns c)).
Proof.
  intros [Hinv Hdb Hu [Hs Hr Ha] Hturns Hset] He Hq Hrc Hsys Hnf Hd Hus Hh Es Er Ea.
  exists [e], s'. cbn [fed]. rewrite He. cbn [mbind option_bind]. rewrite Hq, app_nil_r.
  split; [done|]. split; [by apply (inv_step jsonb repo ctx s e)|done|done| | |].
  - cbn [cw_handed]. split; [congruence|congruence|]. intros id. by rewrite Ea, Ha.
  - intros w. rewrite Hh. apply Hturns.
  - intros Hb id r Hrow Hpub. unfold s_table in Hrow. rewrite Hrc in Hrow.
    destruct (others_publishing jsonb repo ctx s rc id r Hinv Hsys Hnf Hrow Hpub) as (r0 & Hr0 & Hp).
    rewrite Hh. by apply (Hset Hb id r0).
Qed.

Lemma running b c s w t :
  Crews b c s -> cw_turns c !! w = Some (Some t) ->
  exists st, mine w (s_held s) = held_of w st /\ lawful jsonb repo ctx st t.
Proof. intros Hs Ht. pose proof (cs_turns _ _ _ Hs w) as H. by rewrite Ht in H. Qed.

Lemma call_follows b c s w A (m : GoM DWorld A) k reply reached world a :
  Crews b c s -> cw_turns c !! w = Some (Some (Call m k)) ->
  m (mkDWorld (cw_db c) reply []) = (world, Ret a) -> contract (dw_calls world) reply ->
  follows (b && clean_event (CrCall w reply reached) c) c s (mkCrew (dw_db world) (cw_used c)
    (cw_handed c ++ handing (answers (dw_calls world) reply) reached)
    (<[w := Some (k a)]> (cw_turns c))).
Proof.
  intros Hs Ht Hm Hc. destruct (running b c s w _ Hs Ht) as (st & Hheld & Hlaw).
  pose proof Hs as [Hinv Hdb _ Hbooks _ Hset].
  assert (Henv : forall n, env_ok (db_env (cw_db c) n)) by (rewrite <- Hdb; apply (inv_env s Hinv)).
  destruct (Hlaw (cw_db c) reply world (Ret a) Hm Henv) as (Hnext & Hafter & _ & Hret).
  destruct (Hret Hc) as (a' & st' & [= <-] & HL & Hlaw').
  destruct (law_events w st _ _ _ st' reached s (cw_handed c) HL Hbooks Hdb Hheld)
    as (es & s' & Hes & Ha & Hd & Hmv).
  assert (Hset' : b && clean_event (CrCall w reply reached) c = true -> settled s').
  { cbn [clean_event]. rewrite Ht, <- Hnext. intros [Hb Hw]%andb_true_iff.
    apply (settled_moved w s s' st st' (Hset Hb) Hheld Hmv). intros id r'. unfold s_table.
    rewrite Hd, Hdb. apply (law_settles _ _ _ _ _ _ _ HL (Henv _)).
    - rewrite <- Hdb. apply (inv_wf s Hinv).
    - intros rc E. by rewrite E in Hw. }
  rewrite <- Hafter in Hd.
  apply (follows_turn b _ c s w es s' st' _ _ _ (Some (Call m k))); try done. by exists st'.
Qed.

Lemma crash_follows b c s w t reached :
  Crews b c s -> cw_turns c !! w = Some (Some t) ->
  follows false c s (mkCrew (cw_db c) (cw_used c)
    (cw_handed c ++ interrupted (offered (next_calls t (cw_db c))) reached)
    (<[w := None]> (cw_turns c))).
Proof.
  intros Hs Ht. destruct (running b c s w _ Hs Ht) as (st & Hheld & Hlaw).
  pose proof Hs as [Hinv Hdb _ Hbooks _ _]. set (msgs := offered _).
  assert (Hst : msgs = [] \/ st = fresh <$> msgs).
  { unfold msgs, next_calls. destruct t as [|A m k]; [by left|].
    destruct (m (mkDWorld (cw_db c) some_reply [])) as [world o] eqn:E.
    destruct (Hlaw (cw_db c) some_reply world o E) as (_ & _ & H & _); [|done].
    intros n. rewrite <- Hdb. apply (inv_env s Hinv). }
  destruct (interrupted_msgs msgs reached) as (Htruth & rest & Erest).
  set (hs := interrupted msgs reached) in *.
  assert (exists es s1 st1, fed es s (queue_of (cw_handed c)) = Some (s1, queue_of (cw_handed c ++ hs))
    /\ accounts (cw_handed c ++ hs) s1 /\ s_db s1 = s_db s /\ Moved w s s1 st1)
    as (es1 & s1 & st1 & Hes1 & Ha1 & Hd1 & Hmv1).
  { destruct Hst as [E|E].
    - exists [], s, st. assert (hs = []) as -> by (unfold hs; rewrite E; done).
      rewrite app_nil_r. split; [done|]. split; [done|]. split; [done|]. by split.
    - destruct (publish_slots w hs [] (fresh <$> rest) s (cw_handed c) Hbooks)
        as (es & s1 & H1 & H2 & H3 & H4); [|done|by eexists es, s1, _].
      rewrite Hheld, E, Erest at 1. by rewrite fmap_app. }
  destruct (crash_event w s1 _ Ha1) as (es2 & s2 & Hes2 & Ha2 & Hd2 & Hmv2).
  apply (follows_turn b _ c s w (es1 ++ es2) s2 [] None _ _ (Some t)); try done.
  - by rewrite (fed_app _ _ _ _ _ _ Hes1).
  - congruence.
  - by eapply slots_moved_trans.
Qed.

Lemma crew_step_follows kinds e b c s c' :
  Crews b c s -> crew_step jsonb repo ctx kinds e c = Some c' ->
  follows (b && clean_event e c) c s c'.
Proof.
  intros Hs. pose proof Hs as [Hinv Hdb Hu Hbooks Hturns Hset].
  destruct e as [p|w|w reply reached|w|w reached| | |statuses age]; cbn [crew_step];
    try (destruct (cw_turns c !! w) as [t|] eqn:Ht; [|by destruct (kinds !! w)]);
    try (cbn [clean_event]; rewrite andb_true_r).
  - rewrite <- Hdb, <- Hu. case_bool_decide as Hfresh; [done|]. intros [= <-].
    eapply (follows_others b c s (EInsert p) _ (RInsert p)); [done| |done|..].
    { cbn [sys_step]. rewrite bool_decide_eq_false_2 by done. reflexivity. }
    all: cbn; by rewrite ?Hu, ?Hdb.
  - destruct (kinds !! w) as [k|]; [|done]. destruct t as [t|]; [done|]. intros [= <-].
    apply (follows_turn b b c s w [] s [] _ _ _ None); try done.
    + split; [|done..]. pose proof (Hturns w) as H. by rewrite Ht in H.
    + exists []. split; [done|apply turn_lawful].
  - destruct t as [[|A m k]|]; [done| |done].
    destruct (m _) as [world [a|why]] eqn:Em; [|done]. case_bool_decide as Hc; [|done].
    intros [= <-]. by apply (call_follows b c s w A m k reply reached world a).
  - destruct t as [[|A m k]|]; [|done..]. intros [= <-].
    destruct (running b c s w _ Hs Ht) as (st & Hheld & ->).
    by apply (follows_turn b b c s w [] s [] _ _ _ (Some Finished)).
  - destruct t as [t|]; [|done]. intros [= <-]. rewrite andb_false_r. by apply (crash_follows b).
  - intros [= <-]. eapply (follows_others b c s ERequeue _ RRequeue); [done|reflexivity|..]; try done.
    cbn. by rewrite Hdb.
  - intros [= <-]. eapply (follows_others b c s ERevive _ RRevive); [done|reflexivity|..]; try done.
    cbn. by rewrite Hdb.
  - intros [= <-].
    eapply (follows_others b c s (EDelete statuses age) _ (RDelete statuses age));
      [done|reflexivity|..]; try done.
    cbn. by rewrite Hdb.
Qed.

(** A run in which nothing of a worker fails. *)
Fixpoint clean_run (kinds : list Kind) (es : list CrewEvent) (c : Crew) : bool :=
  match es with
  | [] => true
  | e :: es =>
      clean_event e c
      && match crew_step jsonb repo ctx kinds e c with
         | Some c' => clean_run kinds es c'
         | None => true
         end
  end.

Lemma crew_run_follows kinds es : forall b c s c',
  Crews b c s -> crew_run jsonb repo ctx kinds es c = Some c' ->
  follows (b && clean_run kinds es c) c s c'.
Proof.
  induction es as [|e es IH]; intros b c s c' Hs Hrun; cbn [crew_run] in Hrun.
  { injection Hrun as <-. cbn [clean_run]. rewrite andb_true_r. by exists [], s. }
  bind_hyp Hrun c1 E.
  destruct (crew_step_follows kinds e b c s c1 Hs E) as (es1 & s1 & H1 & Hs1).
  destruct (IH _ c1 s1 c' Hs1 Hrun) as (es2 & s2 & H2 & Hs2).
  exists (es1 ++ es2), s2. rewrite (fed_app _ _ _ _ _ _ H1). split; [done|].
  cbn [clean_run]. by rewrite E, andb_assoc.
Qed.

Lemma crews_start envs kinds :
  (forall n, env_ok (envs n)) -> Crews true (crew_start envs kinds) (initial envs).
Proof.
  intros Henvs. split; [by apply inv_initial|done|done|done| |by intros _ id r Hr].
  intros w. cbn. destruct (replicate (length kinds) None !! w) as [t|] eqn:E; [|done].
  by apply lookup_replicate in E as [-> _].
Qed.

(** A turn never gets stuck: its next call returns. *)
Lemma crew_calls_return kinds b c s w A (m : GoM DWorld A) k reply reached :
  Crews b c s -> cw_turns c !! w = Some (Some (Call m k)) ->
  contract (dw_calls (fst (m (mkDWorld (cw_db c) reply [])))) reply ->
  exists c' a, crew_step jsonb repo ctx kinds (CrCall w reply reached) c = Some c'
    /\ cw_turns c' = <[w := Some (k a)]> (cw_turns c).
Proof.
  intros Hs Ht Hc. destruct (running b c s w _ Hs Ht) as (st & _ & Hlaw).
  destruct (m (mkDWorld (cw_db c) reply [])) as [world o] eqn:Em.
  destruct (Hlaw (cw_db c) reply world o Em) as (_ & _ & _ & Hret).
  { intros n. rewrite <- (cs_db _ _ _ Hs). apply (inv_env s (cs_inv _ _ _ Hs)). }
  destruct (Hret Hc) as (a & st' & -> & _). cbn [crew_step]. rewrite Ht, Em.
  rewrite bool_decide_eq_true_2 by exact Hc. by eexists _, a.
Qed.

(** C8: the dispatchers do what the system allows, and never get stuck.  Whatever
    any number of single-message and batch workers do, call by call, with the
    clocks, hooks, answers of the publisher, crashes, insertions, requeues,
    recoveries and deletions in between, some run of System has the same
    database, the same messages on the queue of the broker in the same order,
    the same rejections and as many publishes of each message; and the next call
    of every turn returns, whatever it is answered, as long as [PublishBatch]
    keeps its contract. *)
Theorem crew_refines (envs : nat -> StmtEnv) (kinds : list Kind) (es : list CrewEvent) (c : Crew)
  (Henvs : forall n, env_ok (envs n))
  (Hrun : crew_run jsonb repo ctx kinds es (crew_start envs kinds) = Some c) :
  (exists es' s, fed es' (initial envs) [] = Some (s, queue_of (cw_handed c))
     /\ s_db s = cw_db c /\ s_used s = cw_used c /\ accounts (cw_handed c) s)
  /\ forall w A (m : GoM DWorld A) k reply reached,
       cw_turns c !! w = Some (Some (Call m k)) ->
       contract (dw_calls (fst (m (mkDWorld (cw_db c) reply [])))) reply ->
       exists c', crew_step jsonb repo ctx kinds (CrCall w reply reached) c = Some c'.
Proof.
  destruct (crew_run_follows kinds es _ _ _ c (crews_start envs kinds Henvs) Hrun)
    as (es' & s & Hes & Hs).
  split; [|intros w A m k reply reached Ht Hc;
           destruct (crew_calls_return kinds _ c s w A m k reply reached Hs Ht Hc) as (c' & _ & E & _);
           by exists c'].
  exists es', s. split; [exact Hes|]. split; [apply Hs|]. split; apply Hs.
Qed.

(** C1: so what holds of System holds of the dispatchers: a PUBLISHED row is on the
    queue, a message is handed over at most [max_attempts - 1] times, and a row is
    DEAD only when its attempts are used up or a publish of it was rejected. *)
Theorem crew_sound (envs : nat -> StmtEnv) (kinds : list Kind) (es : list CrewEvent) (c : Crew)
  (id : string) (r : Outbox) (Henvs : forall n, env_ok (envs n))
  (Hrun : crew_run jsonb repo ctx kinds es (crew_start envs kinds) = Some c)
  (Hr : db_table (cw_db c) !! id = Some r) :
  (Status r = PUBLISHED -> id ∈ ID <$> queue_of (cw_handed c))
  /\ Z.of_nat (handed_times (cw_handed c) id) <= Z.max 1 (MaxAttempts r - 1)
  /\ (Status r = DEAD ->
       AttemptCount r = MaxAttempts r \/ id ∈ rejected_ids (cw_handed c)).
Proof.
  destruct (crew_run_follows kinds es _ _ _ c (crews_start envs kinds Henvs) Hrun)
    as (_ & s & _ & [Hinv Hdb _ [Hsent Hrej Hatt] _ _]).
  assert (Hr' : s_table s !! id = Some r) by (unfold s_table; by rewrite Hdb).
  pose proof (inv_outcomes s Hinv id r Hr') as Ho. unfold outcome_ok in Ho.
  rewrite Hsent, Hrej in Ho. split; [intros E; by rewrite E, elem_of_reverse in Ho|].
  split; [|intros E; by rewrite E, elem_of_reverse in Ho].
  destruct (inv_claims s Hinv id r Hr') as [Hc _]. unfold claims in Hc. rewrite Hatt in Hc. lia.
Qed.

(** ** The end of the turns *)

(** A publisher that has everything published. *)
Definition all_published (msgs : list Outbox) : DReply :=
  mkDReply 0 (Ret tt) None ((fun m => mkResult (ID m) "" true None) <$> msgs).

Lemma all_published_contract calls : contract calls (all_published (offered calls)).
Proof.
  unfold contract. destruct calls as [|x [|]]; try done; [|by destruct x].
  destruct x; try done. cbn. induction msgs as [|m msgs IH]; constructor; [by split|exact IH].
Qed.

(** Calls, and the end, of turns that run. *)
Definition goes_on (e : CrewEvent) : bool :=
  match e with CrCall _ _ _ | CrEnd _ => true | _ => false end.

Lemma crew_run_app kinds es1 es2 c c1 :
  crew_run jsonb repo ctx kinds es1 c = Some c1 ->
  crew_run jsonb repo ctx kinds (es1 ++ es2) c = crew_run jsonb repo ctx kinds es2 c1.
Proof.
  revert c. induction es1 as [|e es1 IH]; intros c; cbn [app crew_run]; [by intros [= <-]|].
  destruct (crew_step jsonb repo ctx kinds e c) as [c2|]; [apply IH|done].
Qed.

Lemma turn_ends kinds w t : forall b c s,
  Crews b c s -> cw_turns c !! w = Some (Some t) ->
  exists es b' c' s', crew_run jsonb repo ctx kinds es c = Some c' /\ Crews b' c' s'
    /\ Forall (fun e => goes_on e = true) es /\ cw_turns c' = <[w := None]> (cw_turns c).
Proof.
  induction t as [|A m k IH]; intros b c s Hs Ht.
  - destruct (crew_step_follows kinds (CrEnd w) b c s (set_turn w None c) Hs) as (_ & s' & _ & Hs').
    { cbn [crew_step]. by rewrite Ht. }
    exists [CrEnd w]. eexists _, (set_turn w None c), s'. cbn [crew_run crew_step]. rewrite Ht.
    split; [done|]. split; [exact Hs'|]. split; [by repeat constructor|done].
  - destruct (running b c s w _ Hs Ht) as (st & _ & Hlaw).
    set (reply := all_published (offered (next_calls (Call m k) (cw_db c)))).
    destruct (m (mkDWorld (cw_db c) reply [])) as [world o] eqn:Em.
    destruct (Hlaw (cw_db c) reply world o Em) as (Hnext & _).
    { intros n. rewrite <- (cs_db _ _ _ Hs). apply (inv_env s (cs_inv _ _ _ Hs)). }
    destruct (crew_calls_return kinds b c s w A m k reply [] Hs Ht) as (c1 & a & E & Hturns).
    { rewrite Em. cbn [fst]. rewrite Hnext. apply all_published_contract. }
    destruct (crew_step_follows kinds _ b c s c1 Hs E) as (_ & s1 & _ & Hs1).
    destruct (IH a _ c1 s1 Hs1) as (es & b' & c' & s' & Hrun & Hs' & Hes & Hturns').
    { rewrite Hturns. apply list_lookup_insert_eq. by eapply lookup_lt_Some. }
    exists (CrCall w reply [] :: es), b', c', s'. cbn [crew_run]. rewrite E. split; [done|].
    split; [done|]. split; [by constructor|]. by rewrite Hturns', Hturns, list_insert_insert_eq.
Qed.

Lemma turns_end kinds n : forall b c s,
  Crews b c s -> (n <= length (cw_turns c))%nat ->
  exists es b' c' s', crew_run jsonb repo ctx kinds es c = Some c' /\ Crews b' c' s'
    /\ Forall (fun e => goes_on e = true) es /\ length (cw_turns c') = length (cw_turns c)
    /\ forall w, (w < n)%nat -> cw_turns c' !! w = Some None.
Proof.
  induction n as [|n IH]; intros b c s Hs Hn.
  { exists [], b, c, s. split; [done|]. split; [done|]. split; [done|]. split; [done|lia]. }
  destruct (IH b c s Hs ltac:(lia)) as (es & b1 & c1 & s1 & Hrun & Hs1 & Hes & Hl & Hw).
  destruct (lookup_lt_is_Some_2 (cw_turns c1) n ltac:(lia)) as [[t|] Ht].
  - destruct (turn_ends kinds n t b1 c1 s1 Hs1 Ht) as (es2 & b2 & c2 & s2 & Hrun2 & Hs2 & Hes2 & E).
    exists (es ++ es2), b2, c2, s2. rewrite (crew_run_app _ _ _ _ _ Hrun).
    split; [done|]. split; [done|]. split; [by apply Forall_app|]. rewrite E, length_insert.
    split; [done|]. intros w Hlt. destruct (decide (w = n)) as [->|Hne].
    + apply list_lookup_insert_eq. lia.
    + rewrite list_lookup_insert_ne by done. apply Hw. lia.
  - exists es, b1, c1, s1. split; [done|]. split; [done|]. split; [done|]. split; [done|].
    intros w Hlt. destruct (decide (w = n)) as [->|Hne]; [done|]. apply Hw. lia.
Qed.

(** Without a turn nothing is held. *)
Lemma idle_holds_nothing b c s :
  Crews b c s -> Forall (fun t => t = None) (cw_turns c) -> s_held s = [].
Proof.
  intros Hs Hidle. apply elem_of_nil_inv. intros h Hh.
  pose proof (cs_turns _ _ _ Hs (h_worker h)) as Ht.
  assert (E : default None (cw_turns c !! h_worker h) = None).
  { destruct (cw_turns c !! h_worker h) as [t|] eqn:E; [|done].
    by apply (Forall_lookup_1 _ _ _ _ Hidle E). }
  rewrite E in Ht. cbn in Ht.
  assert (Hin : h ∈ mine (h_worker h) (s_held s)).
  { unfold mine. apply list_elem_of_In, List.filter_In. split; [by apply list_elem_of_In|].
    apply Nat.eqb_refl. }
  rewrite Ht in Hin. by apply not_elem_of_nil in Hin.
Qed.

(** C2: a graceful stop waits for a moment that comes, and leaves nothing behind.
    Whatever has happened, the turns that run can end without another beginning,
    which is when the wait of the shutdown returns; and when no turn runs and no
    worker has died nor had a call on the database fail, no message is PUBLISHING:
    every message a worker fetched has been closed. *)
Theorem graceful_stop (envs : nat -> StmtEnv) (kinds : list Kind) (es : list CrewEvent) (c : Crew)
  (Henvs : forall n, env_ok (envs n))
  (Hrun : crew_run jsonb repo ctx kinds es (crew_start envs kinds) = Some c) :
  (exists more c', crew_run jsonb repo ctx kinds more c = Some c'
     /\ Forall (fun e => goes_on e = true) more /\ Forall (fun t => t = None) (cw_turns c'))
  /\ (clean_run kinds es (crew_start envs kinds) = true ->
      Forall (fun t => t = None) (cw_turns c) ->
      forall id r, db_table (cw_db c) !! id = Some r -> Status r <> PUBLISHING).
Proof.
  destruct (crew_run_follows kinds es _ _ _ c (crews_start envs kinds Henvs) Hrun)
    as (_ & s & _ & Hs). split.
  - destruct (turns_end kinds _ _ c s Hs (le_n _)) as (more & b' & c' & s' & Hmore & _ & Hon & Hl & Hw).
    exists more, c'. split; [done|]. split; [done|]. apply Forall_lookup_2. intros w t Ht.
    rewrite (Hw w) in Ht; [congruence|]. rewrite <- Hl. by eapply lookup_lt_Some.
  - intros Hclean Hidle id r Hr Hpub.
    destruct (cs_settled _ _ _ Hs Hclean id r) as (h & Hh & _);
      [unfold s_table; by rewrite (cs_db _ _ _ Hs)|done|].
    rewrite (idle_holds_nothing _ c s Hs Hidle) in Hh. by apply not_elem_of_nil in Hh.
Qed.
End Refines.

(** ** A run *)

(** One message, a single-message worker and a batch worker.  The process of the
    first dies in its publish, after the broker got the message; the message is
    recovered and requeued, and the batch worker publishes it again, which makes
    it PUBLISHED. *)
Definition demo_kinds : list Kind := [OneByOne (10 * Second); InBatches 10 (10 * Second)].
Definition demo_answer : DReply :=
  mkDReply 7 (Ret tt) None [mkResult "m1" "sqs-1" true None].
Definition demo_turn (w calls : nat) : list CrewEvent :=
  CrBegin w :: replicate calls (CrCall w demo_answer []).
Definition demo_crew : list CrewEvent :=
  [CrInsert (mkParams "order.created" (Some "{}") None "k1" 3); CrBegin 1]
  ++ demo_turn 0 3 ++ [CrCall 1 demo_answer []; CrEnd 1; CrCrash 0 [true]; CrRevive; CrRequeue]
  ++ demo_turn 1 11 ++ [CrEnd 1].

Abbreviation demo_crew_run es :=
  (crew_run demo_jsonb demo_repo demo_ctx demo_kinds es (crew_start hourly demo_kinds)).

Lemma demo_crew_runs :
  match demo_crew_run demo_crew with
  | Some c => (Status <$> db_table (cw_db c) !! "m1") = Some PUBLISHED
      /\ ID <$> queue_of (cw_handed c) = ["m1"; "m1"] /\ cw_turns c = [None; None]
  | None => False
  end.
Proof. vm_compute. repeat split. Qed.

Lemma crew_refines_witness :
  exists c, demo_crew_run demo_crew = Some c
    /\ exists es s, fed demo_jsonb demo_repo demo_ctx es (initial hourly) []
         = Some (s, queue_of (cw_handed c)) /\ s_db s = cw_db c.
Proof.
  pose proof demo_crew_runs as H.
  destruct (demo_crew_run demo_crew) as [c|] eqn:E; [clear H|destruct H].
  exists c. split; [reflexivity|].
  destruct (crew_refines demo_jsonb demo_repo demo_ctx hourly demo_kinds demo_crew c hourly_ok E)
    as [(es & s & Hes & Hdb & _) _].
  exists es, s. exact (conj Hes Hdb).
Defined.

Lemma crew_sound_witness :
  exists c r, demo_crew_run demo_crew = Some c /\ db_table (cw_db c) !! "m1" = Some r
    /\ "m1" ∈ ID <$> queue_of (cw_handed c).
Proof.
  pose proof demo_crew_runs as H.
  destruct (demo_crew_run demo_crew) as [c|] eqn:E; [|destruct H]. destruct H as [Hs _].
  destruct (db_table (cw_db c) !! "m1") as [r|] eqn:Er; [|discriminate Hs]. injection Hs as Hs.
  exists c, r. split; [reflexivity|]. split; [exact Er|].
  exact (proj1 (crew_sound demo_jsonb demo_repo demo_ctx hourly demo_kinds demo_crew c "m1" r
                  hourly_ok E Er) Hs).
Defined.

(** The batch worker publishes the message and is done: nothing is PUBLISHING. *)
Definition demo_calm : list CrewEvent :=
  CrInsert (mkParams "order.created" (Some "{}") None "k1" 3) :: demo_turn 1 11 ++ [CrEnd 1].

Lemma demo_calm_runs :
  match demo_crew_run demo_calm with
  | Some c => cw_turns c = [None; None] /\ (Status <$> db_table (cw_db c) !! "m1") = Some PUBLISHED
  | None => False
  end
  /\ clean_run demo_jsonb demo_repo demo_ctx demo_kinds demo_calm (crew_start hourly demo_kinds) = true.
Proof. vm_compute. by repeat split. Qed.

Lemma graceful_stop_witness :
  exists c, demo_crew_run demo_calm = Some c
    /\ forall id r, db_table (cw_db c) !! id = Some r -> Status r <> PUBLISHING.
Proof.
  destruct demo_calm_runs as [H Hclean].
  destruct (demo_crew_run demo_calm) as [c|] eqn:E; [|destruct H]. destruct H as [Hturns _].
  exists c. split; [reflexivity|].
  refine (proj2 (graceful_stop demo_jsonb demo_repo demo_ctx hourly demo_kinds demo_calm c
                   hourly_ok E) Hclean _).
  rewrite Hturns. repeat constructor.
Defined.
