(* ===== verification/Whole.v ===== *)
(** * Dispatchers and consumer services together

    The crews of dispatchers (Crew.v) and the consumer services (Fleet.v) in one
    system, each goroutine call by call, each handler statement by statement: what
    the workers of a crew hand to the broker is what the services receive.
    Nothing of core/worker.go, core/batch_dispatcher.go and
    contrib/sqs/consumer/service.go on the way from a row of the outbox to the
    effect of its handler is abstracted. *)

From Stdlib Require Import ZArith Lia.
From stdpp Require Import base option list strings gmap fin_maps.
From S2P Require Import Prelude Errors Model Ports Store PgxRepo OutboxSafety System SqsPublisher.
From S2P Require Import Consumer ConsumerPool Handlers Pipeline Fleet FleetDelivery.
From S2P Require Import DispatchTasks Crew CrewRefines.

Set Default Goal Selector "!".
Open Scope string_scope.
Open Scope list_scope.
Open Scope Z_scope.

(** The services do not see the outbox: [fl_outbox] is left as it started. *)
Record Whole : Type := mkWhole {
  wh_crew : Crew;
  wh_services : Fleet
}.

Inductive WholeEvent : Type :=
| WDispatch (e : CrewEvent)
| WConsume (e : FleetEvent).

Definition set_queue (q : list Outbox) (f : Fleet) : Fleet :=
  mkFleet (fl_outbox f) q (fl_db f) (fl_receipts f) (fl_deleted f) (fl_workers f) (fl_next f).
Definition set_outbox (s : Sys) (f : Fleet) : Fleet :=
  mkFleet s (fl_queue f) (fl_db f) (fl_receipts f) (fl_deleted f) (fl_workers f) (fl_next f).

(** An event of the services alone. *)
Definition of_services (e : FleetEvent) : bool :=
  match e with FOutbox _ => false | _ => true end.

Section Whole.
Context (jsonb : string -> option string) (repo : OutboxRepo) (ctx : Context)
  (envs : nat -> StmtEnv) (uuid_Parse : string -> option UUID).
Context (queueURL eventType : string) (config : ServiceConfig).
Context (name : string) (decode : string -> result error Effect) (Handle : SQSMessage -> Prog)
  `{!DecodingHandler name decode Handle}.
Context (kinds : list Kind) (workers : nat).

Abbreviation cstep := (crew_step jsonb repo ctx kinds).
Abbreviation fstep := (fleet_step jsonb repo ctx uuid_Parse queueURL eventType config Handle).
Abbreviation frun := (fleet_run jsonb repo ctx uuid_Parse queueURL eventType config Handle).

Definition whole_start : Whole := mkWhole (crew_start envs kinds) (fleet_start envs workers).

Definition whole_step (e : WholeEvent) (w : Whole) : option Whole :=
  match e with
  | WDispatch e =>
      c ← cstep e (wh_crew w);
      Some (mkWhole c (set_queue (queue_of (cw_handed c)) (wh_services w)))
  | WConsume e =>
      if of_services e then f ← fstep e (wh_services w); Some (mkWhole (wh_crew w) f) else None
  end.

Fixpoint whole_run (es : list WholeEvent) (w : Whole) : option Whole :=
  match es with
  | [] => Some w
  | e :: es => w' ← whole_step e w; whole_run es w'
  end.

(** In the course of [es] from [w], a goroutine of the services returned from the
    handler, which [answered] the delivery [msg] of the message at [k]. *)
Definition handler_returned (es : list WholeEvent) (w : Whole) (k : nat) (msg : SQSMessage)
    (answer : option error) : Prop :=
  exists es1 v i es2 w1, es = es1 ++ WConsume (FReturn v i) :: es2
    /\ whole_run es1 w = Some w1
    /\ returns uuid_Parse queueURL (wh_services w1) v i k msg answer.

(** ** The services do not look at the outbox *)

Lemma delete_set_outbox s calls effective f :
  delete_message queueURL calls effective (set_outbox s f)
  = set_outbox s (delete_message queueURL calls effective f).
Proof.
  unfold delete_message. destruct calls as [|c [|]]; try done; [|by destruct c].
  destruct c; try done. cbn. destruct (fl_receipts f !! _); [|done]. by destruct (_ && _).
Qed.

Lemma fleet_step_set_outbox s e f :
  of_services e = true -> fstep e (set_outbox s f) = set_outbox s <$> fstep e f.
Proof.
  intros He. destruct e; try discriminate He; cbn [fleet_step]; unfold mbind, option_bind;
    rewrite ?delete_set_outbox;
    cbn [set_outbox fl_workers fl_db fl_queue fl_receipts fl_deleted fl_next];
    repeat match goal with
    | |- match ?x with _ => _ end = _ => destruct x; try reflexivity
    end.
  all: rewrite delete_set_outbox; reflexivity.
Qed.

Lemma fleet_step_queue e f f' :
  of_services e = true -> fstep e f = Some f' -> fl_queue f' = fl_queue f.
Proof.
  intros He. destruct e; try discriminate He; cbn [fleet_step]; unfold mbind, option_bind;
    repeat match goal with
    | |- match ?x with _ => _ end = _ -> _ => destruct x; try done
    end; intros [= <-]; try done; cbn [set_worker fl_queue]; repeat case_match; done.
Qed.

Lemma fleet_run_set_outbox s es : forall f,
  Forall (fun e => of_services e = true) es ->
  frun es (set_outbox s f) = set_outbox s <$> frun es f.
Proof.
  induction es as [|e es IH]; intros f; [done|]. intros [He Hes]%Forall_cons. cbn [fleet_run].
  rewrite (fleet_step_set_outbox s e f He). destruct (fstep e f) as [f1|]; [by apply IH|done].
Qed.

(** ** The whole runs as a fleet *)

(** The crew follows the system [s], and the services receive what it hands over. *)
Definition together (w : Whole) (s : Sys) : Prop :=
  (exists clean, Crews jsonb repo ctx clean (wh_crew w) s)
  /\ fl_queue (wh_services w) = queue_of (cw_handed (wh_crew w)).

Lemma fed_fleet es : forall s q s' q' f,
  fed jsonb repo ctx es s q = Some (s', q') -> fl_queue f = q ->
  frun (FOutbox <$> es) (set_outbox s f) = Some (set_outbox s' (set_queue q' f)).
Proof.
  induction es as [|e es IH]; intros s q s' q' f H Hq; cbn [fed] in H.
  { injection H as <- <-. subst q. by destruct f. }
  bind_hyp H s1 E. cbn [fmap list_fmap fleet_run fleet_step]. cbn [fl_outbox set_outbox].
  rewrite E. cbn [mbind option_bind]. rewrite <- Hq in H.
  by apply (IH s1 _ s' q' (set_queue (fl_queue f ++ accepted_by e s) f) H).
Qed.

Abbreviation fleet_returned :=
  (returned_in jsonb repo ctx uuid_Parse queueURL eventType config Handle).

Lemma outbox_silent es : forall f k msg a, ~ fleet_returned (FOutbox <$> es) f k msg a.
Proof.
  intros f k msg a (es1 & e & es2 & f1 & E & _ & Hr).
  assert (He : e ∈ FOutbox <$> es) by (rewrite E; apply elem_of_app; right; by left).
  apply list_elem_of_fmap in He as (e0 & -> & _). exact Hr.
Qed.

Lemma whole_step_runs e w s w' :
  together w s -> whole_step e w = Some w' ->
  exists es s', frun es (set_outbox s (wh_services w)) = Some (set_outbox s' (wh_services w'))
    /\ together w' s'
    /\ forall k msg a, fleet_returned es (set_outbox s (wh_services w)) k msg a ->
         handler_returned [e] w k msg a.
Proof.
  intros [[b Hc] Hq] Hs. destruct e as [e|e]; cbn [whole_step] in Hs.
  - bind_hyp Hs c E. injection Hs as <-.
    destruct (crew_step_follows jsonb repo ctx kinds e b _ s c Hc E) as (es & s' & Hes & Hc').
    exists (FOutbox <$> es), s'. split; [by apply (fed_fleet es s _ s' _ _ Hes)|].
    split; [split; [by eexists|done]|]. by intros k msg a ?%outbox_silent.
  - destruct (of_services e) eqn:He; [|discriminate]. bind_hyp Hs f E. injection Hs as <-.
    exists [e], s. cbn [fleet_run]. rewrite (fleet_step_set_outbox s e _ He), E.
    split; [done|]. split.
    + split; [by exists b|]. cbn [wh_services wh_crew]. by rewrite (fleet_step_queue e _ f He E).
    + intros k msg a (es1 & e1 & es2 & f1 & E1 & Hf1 & Hr). destruct es1 as [|? [|]]; try done.
      injection E1 as <- <-. cbn in Hf1. injection Hf1 as <-.
      destruct e as [| | | | | | |v i| |]; try done. by exists [], v, i, [], w.
Qed.

Lemma whole_run_runs es : forall w s w',
  together w s -> whole_run es w = Some w' ->
  exists es' s', frun es' (set_outbox s (wh_services w)) = Some (set_outbox s' (wh_services w'))
    /\ together w' s'
    /\ forall k msg a, fleet_returned es' (set_outbox s (wh_services w)) k msg a ->
         handler_returned es w k msg a.
Proof.
  induction es as [|e es IH]; intros w s w' Ht Hrun; cbn [whole_run] in Hrun.
  { injection Hrun as <-. exists [], s. split; [done|]. split; [done|].
    by intros k msg a ([|] & ? & ? & ? & ? & _). }
  bind_hyp Hrun w1 E. destruct (whole_step_runs e w s w1 Ht E) as (es1 & s1 & H1 & Ht1 & Hr1).
  destruct (IH w1 s1 w' Ht1 Hrun) as (es2 & s2 & H2 & Ht2 & Hr2).
  exists (es1 ++ es2), s2. rewrite fleet_run_app, H1. split; [done|]. split; [done|].
  intros k msg a [Hr%Hr1|(f1 & Hf1 & Hr)]%returned_in_app.
  - destruct Hr as (ea & v & i & eb & w2 & E2 & Hw2 & Hr). destruct ea as [|? [|]]; try done.
    injection E2 as -> <-. by exists [], v, i, es, w2.
  - rewrite H1 in Hf1. injection Hf1 as <-.
    destruct (Hr2 k msg a Hr) as (ea & v & i & eb & w2 & -> & Hw2 & Hret).
    exists (e :: ea), v, i, eb, w2. split; [done|]. cbn [whole_run]. by rewrite E.
Qed.

Lemma whole_runs es w :
  (forall n, env_ok (envs n)) -> whole_run es whole_start = Some w ->
  exists es' s, frun es' (fleet_start envs workers) = Some (set_outbox s (wh_services w))
    /\ together w s
    /\ forall k msg a, fleet_returned es' (fleet_start envs workers) k msg a ->
         handler_returned es whole_start k msg a.
Proof.
  intros Henvs Hrun.
  apply (whole_run_runs es whole_start (initial envs)); [|exact Hrun].
  split; [exists true; by apply crews_start|done].
Qed.

(** Events of the services are events of the whole. *)
Lemma services_run es : forall w f,
  Forall (fun e => of_services e = true) es -> frun es (wh_services w) = Some f ->
  whole_run (WConsume <$> es) w = Some (mkWhole (wh_crew w) f).
Proof.
  induction es as [|e es IH]; intros w f He Hrun; cbn [fleet_run] in Hrun.
  { injection Hrun as <-. by destruct w. }
  apply Forall_cons in He as [He Hes]. bind_hyp Hrun f1 E.
  cbn [fmap list_fmap whole_run whole_step]. rewrite He, E. cbn [mbind option_bind].
  by apply (IH (mkWhole (wh_crew w) f1)).
Qed.

(** ** From the row to the effect *)

Abbreviation outbox w := (db_table (cw_db (wh_crew w))).
Abbreviation sent_queue w := (queue_of (cw_handed (wh_crew w))).
Abbreviation effects w := (rows (fl_db (wh_services w))).

(** A reachable state, as a fleet and as a pipeline. *)
Lemma whole_pipe es w :
  (forall n, env_ok (envs n)) -> (forall n, parsable uuid_Parse (e_uuid (envs n))) ->
  whole_run es whole_start = Some w ->
  exists es' s p, frun es' (fleet_start envs workers) = Some (set_outbox s (wh_services w))
    /\ together w s
    /\ Simulates uuid_Parse queueURL eventType config (set_outbox s (wh_services w)) p
    /\ (PipeInv uuid_Parse eventType name decode p /\ DeliveryInv config p)
    /\ forall k msg a, (k, msg, a) ∈ p_answers p -> handler_returned es whole_start k msg a.
Proof.
  intros Henvs Hids Hrun. destruct (whole_runs es w Henvs Hrun) as (es' & s & Hf & Ht & Hr).
  destruct (sim_run jsonb repo ctx uuid_Parse queueURL eventType config Handle es' _ _ _
              (sim_start envs uuid_Parse queueURL eventType config workers) Hf)
    as (es2 & p & Hp & Hsim & Ha).
  exists es', s, p. split; [done|]. split; [done|]. split; [done|]. split; cycle 1.
  { intros k msg a [Hin|Hret]%Ha; [by apply not_elem_of_nil in Hin|by apply Hr]. }
  apply (pipe_run_inv jsonb repo ctx uuid_Parse queueURL eventType config name decode Handle es2
           (pipe_start envs)); [by apply pipe_start_inv|by apply delivery_start_inv|done].
Qed.

(** The services can always be brought to deliver what is in the queue. *)
Lemma can_deliver es w k sent row i :
  (forall n, env_ok (envs n)) -> (forall n, parsable uuid_Parse (e_uuid (envs n))) ->
  whole_run es whole_start = Some w -> sent_queue w !! k = Some sent ->
  EventType sent = eventType -> decode (raw_string (Payload sent)) = Ok row ->
  fits row = true -> (i < length (fl_workers (wh_services w)))%nat -> QueueUrl config = queueURL ->
  exists more w', whole_run (WConsume <$> more) w = Some w'
    /\ wh_crew w' = wh_crew w /\ ID sent ∈ (effects w').*1
    /\ (ID sent, None) ∈ returned (fl_db (wh_services w')).
Proof.
  intros Henvs Hids Hrun Hk Ht Hdec Hfits Hi Hurl.
  destruct (whole_runs es w Henvs Hrun) as (es' & s & Hf & (_ & Hq) & _).
  destruct (exist_fresh (dom (fl_receipts (wh_services w)))) as [receipt Hr].
  apply not_elem_of_dom in Hr.
  destruct (restart_delivers jsonb repo ctx envs uuid_Parse queueURL eventType config name decode
    Handle workers es' _ i k sent row receipt Henvs Hids Hf Hi) as (j & f1 & f' & E1 & E2 & _ & _ & _ & Hrows & Hret);
    [by cbn; rewrite Hq|done|done|done|done|done|].
  set (more := (FCrash <$> seq 0 (length (fl_workers (set_outbox s (wh_services w)))))
                 ++ delivery_events i k receipt (fl_next f1) j).
  assert (Hmore : Forall (fun e => of_services e = true) more).
  { unfold more, delivery_events. rewrite !Forall_app. split; [by apply Forall_fmap, Forall_true|].
    split; [by repeat constructor|]. split; [by apply Forall_replicate|by repeat constructor]. }
  assert (Hrun2 : frun more (set_outbox s (wh_services w)) = Some f')
    by (unfold more; rewrite fleet_run_app, E1; exact E2).
  rewrite (fleet_run_set_outbox s more _ Hmore) in Hrun2.
  destruct (frun more (wh_services w)) as [f2|] eqn:E; [|discriminate]. injection Hrun2 as <-.
  exists more, (mkWhole (wh_crew w) f2). split; [by apply services_run|]. split; [done|].
  cbn [wh_services set_outbox fl_db] in *. rewrite Hrows, Hret. split.
  - rewrite fmap_app, elem_of_app. destruct (decide (ID sent ∈ _)) as [Hin|Hin]; [by left|].
    right. by left.
  - apply elem_of_app. right. by left.
Qed.

Lemma whole_run_app es1 es2 w w1 :
  whole_run es1 w = Some w1 -> whole_run (es1 ++ es2) w = whole_run es2 w1.
Proof.
  revert w. induction es1 as [|e es1 IH]; intros w; cbn [app whole_run]; [by intros [= <-]|].
  destruct (whole_step e w) as [w2|]; [apply IH|done].
Qed.

(** An event with an effect has the one its row says. *)
Lemma effect_is es w id r row :
  (forall n, env_ok (envs n)) -> (forall n, parsable uuid_Parse (e_uuid (envs n))) ->
  whole_run es whole_start = Some w -> outbox w !! id = Some r ->
  decode (raw_string (Payload r)) = Ok row -> id ∈ (effects w).*1 -> (id, row) ∈ effects w.
Proof.
  intros Henvs Hids Hrun Hr Hdec Hin.
  destruct (whole_pipe es w Henvs Hids Hrun) as (_ & s & p & _ & [[b Hc] _] & Hsim & [Hp _] & _).
  change (fl_db (wh_services w)) with (fl_db (set_outbox s (wh_services w))) in *.
  rewrite <- (sim_db _ _ _ _ _ _ Hsim) in *.
  apply (effect_of_row uuid_Parse eventType name decode p id r row Hp); [|done|done].
  rewrite (sim_outbox _ _ _ _ _ _ Hsim). unfold s_table. cbn [fl_outbox set_outbox].
  by rewrite (cs_db _ _ _ _ _ _ Hc).
Qed.

(** The effects are those of messages handed over, at most one each. *)
Lemma effects_sound es w :
  (forall n, env_ok (envs n)) -> (forall n, parsable uuid_Parse (e_uuid (envs n))) ->
  whole_run es whole_start = Some w ->
  NoDup (effects w).*1
  /\ (forall ev row, (ev, row) ∈ effects w -> ev ∈ ID <$> sent_queue w
        /\ forall r, outbox w !! ev = Some r ->
             EventType r = eventType /\ decode (raw_string (Payload r)) = Ok row).
Proof.
  intros Henvs Hids Hrun.
  destruct (whole_pipe es w Henvs Hids Hrun) as (_ & s & p & _ & [[b Hc] Hq] & Hsim & [Hp _] & _).
  pose proof (sim_db _ _ _ _ _ _ Hsim) as Edb. pose proof (sim_queue _ _ _ _ _ _ Hsim) as Eq.
  cbn [fl_db fl_queue set_outbox] in Edb, Eq. rewrite Hq in Eq. rewrite <- Edb.
  split; [apply (pi_db _ _ _ _ _ Hp)|]. intros ev row Hrow.
  pose proof (from_rows _ _ (pi_from _ _ _ _ _ Hp)) as Hfrom. rewrite Forall_forall in Hfrom.
  specialize (Hfrom _ Hrow). cbn [fst snd] in Hfrom. split.
  - destruct Hfrom as (m & Hm & <- & _). rewrite Eq in Hm. by apply list_elem_of_fmap_2.
  - intros r Hr. apply (explained_row uuid_Parse eventType name decode p ev row r Hp Hfrom).
    rewrite (sim_outbox _ _ _ _ _ _ Hsim). unfold s_table. cbn [fl_outbox set_outbox].
    by rewrite (cs_db _ _ _ _ _ _ Hc).
Qed.

(** The services gave the message at [k] up: a handler failed on a delivery of it
    that was at least the [MaxAttempts]-th. *)
Definition given_up (es : list WholeEvent) (k : nat) (id : string) : Prop :=
  exists msg err, handler_returned es whole_start k msg (Some err)
    /\ EventID msg = id /\ sv_MaxAttempts config <= ReceiveCount msg.

(** A message that is PUBLISHED is on the queue, with the content of its row; one
    that was deleted has its effect or was given up. *)
Lemma published_in_queue es w id r :
  (forall n, env_ok (envs n)) -> (forall n, parsable uuid_Parse (e_uuid (envs n))) ->
  whole_run es whole_start = Some w -> outbox w !! id = Some r -> Status r = PUBLISHED ->
  EventType r = eventType ->
  exists k sent, sent_queue w !! k = Some sent /\ ID sent = id /\ same_content r sent
    /\ (k ∈ fl_deleted (wh_services w) -> id ∈ (effects w).*1 \/ given_up es k id).
Proof.
  intros Henvs Hids Hrun Hr Hpub Htype.
  destruct (whole_pipe es w Henvs Hids Hrun) as (_ & s & p & _ & [[b Hc] Hq] & Hsim & [Hp Hd] & Hret).
  pose proof (sim_db _ _ _ _ _ _ Hsim) as Edb. pose proof (sim_queue _ _ _ _ _ _ Hsim) as Eq.
  cbn [fl_db fl_queue set_outbox] in Edb, Eq. rewrite Hq in Eq.
  destruct (published_queued uuid_Parse eventType name decode p id r Hp) as (k & sent & Hk & Hid & Hsame & _);
    [|done|].
  { rewrite (sim_outbox _ _ _ _ _ _ Hsim). unfold s_table. cbn [fl_outbox set_outbox].
    by rewrite (cs_db _ _ _ _ _ _ Hc). }
  exists k, sent. rewrite Eq in Hk. split; [done|]. split; [done|]. split; [done|]. intros Hdel.
  destruct (dv_deleted _ _ Hd k) as (sent' & Hk' & Hor).
  { apply (sim_deletes _ _ _ _ _ _ Hsim); [done|]. exists sent. split; [cbn; by rewrite Hq|].
    destruct Hsame as [<- _]. done. }
  rewrite Eq, Hk in Hk'. injection Hk' as <-. rewrite Edb, Hid in Hor.
  destruct Hor as [|(msg & err & Ha & Hex)]; [by left|right]. exists msg, err.
  split; [by apply Hret|]. destruct (dv_answers _ _ Hd k msg (Some err) Ha) as (sent' & Hk' & Hev & _).
  rewrite Eq, Hk in Hk'. injection Hk' as <-. split; [congruence|].
  unfold exhausted in Hex. by apply Z.leb_le.
Qed.

(** C9: from the insertion to the effect, by the code of both sides.  Whatever the
    workers of the dispatchers and of the consumer services do, call by call, with
    the statements of the handlers, the failures, duplicates and crashes in
    between: an event has at most one effect, only if a dispatcher handed its
    message to the broker, and the one that the payload of its outbox row says.
    A PUBLISHED message of the event type whose payload decodes has its effect; or
    the services have deleted it, and in this run a goroutine of theirs returned
    with an error from the handler for a delivery of this very message that was
    at least the [MaxAttempts]-th; or it is in the queue, and if its effect fits
    the columns of its table, any worker of the services can be brought from here
    to receive it, which leaves its effect and an acknowledged delivery. *)
Theorem end_to_end (es : list WholeEvent) (w : Whole)
  (Henvs : forall n, env_ok (envs n)) (Hids : forall n, parsable uuid_Parse (e_uuid (envs n)))
  (Hurl : QueueUrl config = queueURL)
  (Hrun : whole_run es whole_start = Some w) :
  NoDup (effects w).*1
  /\ (forall ev row, (ev, row) ∈ effects w -> ev ∈ ID <$> sent_queue w
        /\ forall r, outbox w !! ev = Some r ->
             EventType r = eventType /\ decode (raw_string (Payload r)) = Ok row)
  /\ forall id r row,
       outbox w !! id = Some r -> Status r = PUBLISHED -> EventType r = eventType ->
       decode (raw_string (Payload r)) = Ok row ->
       (id, row) ∈ effects w
       \/ exists k sent, sent_queue w !! k = Some sent /\ ID sent = id
          /\ if bool_decide (k ∈ fl_deleted (wh_services w))
             then given_up es k id
             else fits row = true -> forall i, (i < length (fl_workers (wh_services w)))%nat ->
                  exists more w', whole_run (WConsume <$> more) w = Some w'
                    /\ (id, row) ∈ effects w'
                    /\ (id, None) ∈ returned (fl_db (wh_services w')).
Proof.
  destruct (effects_sound es w Henvs Hids Hrun) as [Hnd Hfrom].
  split; [done|]. split; [done|]. intros id r row Hr Hpub Htype Hdec.
  destruct (decide (id ∈ (effects w).*1)) as [Hin|Hnew]; [left; by apply (effect_is es w id r)|right].
  destruct (published_in_queue es w id r Henvs Hids Hrun Hr Hpub Htype)
    as (k & sent & Hk & <- & (Et & Epay & _) & Hdel).
  exists k, sent. split; [done|]. split; [done|]. case_bool_decide as Hd.
  - by destruct (Hdel Hd) as [|].
  - intros Hfits i Hi. destruct (can_deliver es w k sent row i Henvs Hids Hrun Hk) as (more & w' & Hmore & Hcrew & Heff & Hret);
      [congruence|by rewrite <- Epay|done|done|done|].
    exists more, w'. split; [done|]. split; [|done].
    apply (effect_is (es ++ (WConsume <$> more)) w' _ r); try done; [|by rewrite Hcrew].
    by rewrite (whole_run_app es _ _ w Hrun).
Qed.
End Whole.

(** ** A run *)

Section Run.
Abbreviation Handle := (UserRegisteredHandler_Handle demo_unmarshal).
Abbreviation run :=
  (whole_run demo_jsonb demo_repo demo_ctx Some "users" "user.registered"
     (DefaultServiceConfig "users") Handle demo_kinds).
Abbreviation start := (whole_start hourly demo_kinds 2).

(** The process of the first dispatcher worker dies in its publish; a service
    handles what reached the broker; the message is recovered, requeued and
    published again by the second, and its second copy is in the queue. *)
Definition demo_whole : list WholeEvent :=
  (WDispatch <$> (CrInsert (mkParams "user.registered" (Some "u1") None "k1" 3) :: demo_turn 0 3))
  ++ [WDispatch (CrCrash 0 [true])]
  ++ (WConsume <$> delivery_events 0 0 "r1" 0 6)
  ++ (WDispatch <$> [CrRevive; CrRequeue] ++ demo_turn 1 11 ++ [CrEnd 1]).

Lemma demo_whole_runs :
  match run demo_whole start with
  | Some w => (Status <$> db_table (cw_db (wh_crew w)) !! "m1") = Some PUBLISHED
      /\ rows (fl_db (wh_services w)) = [("m1", WelcomeCredit "u1" 1000)]
      /\ fl_deleted (wh_services w) = {[0%nat]}
      /\ ID <$> queue_of (cw_handed (wh_crew w)) = ["m1"; "m1"]
  | None => False
  end.
Proof. vm_compute. by repeat split. Qed.

Lemma end_to_end_witness :
  exists w, run demo_whole start = Some w
    /\ NoDup (rows (fl_db (wh_services w))).*1 /\ "m1" ∈ ID <$> queue_of (cw_handed (wh_crew w)).
Proof.
  pose proof demo_whole_runs as H.
  destruct (run demo_whole start) as [w|] eqn:E; [|destruct H]. destruct H as (_ & Hrows & _).
  exists w. split; [reflexivity|].
  destruct (end_to_end demo_jsonb demo_repo demo_ctx hourly Some "users" "user.registered"
    (DefaultServiceConfig "users") "user" (decode_user demo_unmarshal) Handle demo_kinds 2
    demo_whole w hourly_ok hourly_parsable eq_refl E) as (Hnd & Hfrom & _).
  split; [exact Hnd|]. refine (proj1 (Hfrom "m1" (WelcomeCredit "u1" 1000) _)).
  rewrite Hrows. by left.
Defined.
End Run.
