(* ===== verification/Config.v ===== *)
(** * Constructors of the repositories

    contrib/gorm/config.go and the constructors and [WithTx] of
    contrib/gorm/repo.go, contrib/pgx/inbox_repo.go and
    contrib/gorm/inbox_repo.go, with those of contrib/pgx (PgxRepo.v): what a
    call with options gives, and that no repository has an invalid table name. *)

From Stdlib Require Import ZArith Lia.
From stdpp Require Import base option list strings.
From S2P Require Import Prelude Errors Model Store PgxRepo.

Set Default Goal Selector "!".
Open Scope string_scope.
Open Scope list_scope.

(** ** contrib/gorm/config.go

    The structure is that of contrib/pgx. *)

Definition gorm_DefaultConfig : Config :=
  mkConfig "outbox" "consumer_inbox" (1 * Second) (1 * Hour) (5 * Minute).

Definition gorm_WithOutboxTableName (name : string) : outcome ConfigOption :=
  match ValidateTableName name with
  | Some err => Panic (error_text err)
  | None => Ret (fun c => mkConfig name (InboxTableName c) (RequeueBackoffBase c)
                           (RequeueBackoffMax c) (StuckPublishingThreshold c))
  end.

Definition gorm_WithInboxTableName (name : string) : outcome ConfigOption :=
  match ValidateTableName name with
  | Some err => Panic (error_text err)
  | None => Ret (fun c => mkConfig (OutboxTableName c) name (RequeueBackoffBase c)
                           (RequeueBackoffMax c) (StuckPublishingThreshold c))
  end.

Definition gorm_WithStuckPublishingThreshold (threshold : Z) : ConfigOption :=
  fun c => mkConfig (OutboxTableName c) (InboxTableName c) (RequeueBackoffBase c)
             (RequeueBackoffMax c) threshold.

Definition gorm_applyOptions (opts : list ConfigOption) : Config :=
  fold_left (fun cfg opt => opt cfg) opts gorm_DefaultConfig.

(** ** Constructors *)

(** contrib/gorm/repo.go; [db] is the connection or a transaction. *)
Definition gorm_NewOutboxRepository (opts : list ConfigOption) : outcome OutboxRepo :=
  let cfg := gorm_applyOptions opts in
  match ValidateTableName (OutboxTableName cfg) with
  | Some err => Panic (error_text err)
  | None => Ret (mkRepo QPool (OutboxTableName cfg) (RequeueBackoffBase cfg)
                   (RequeueBackoffMax cfg) (StuckPublishingThreshold cfg))
  end.
Definition gorm_WithTx (r : OutboxRepo) (tx : nat) : OutboxRepo :=
  mkRepo (QTx tx) (tableName r) (backoffBase r) (backoffMax r) (stuckPublishingThreshold r).

Record InboxRepo : Type := mkInboxRepo {
  ir_q : querier;
  ir_tableName : string
}.

(** contrib/pgx/inbox_repo.go *)
Definition NewInboxRepository (opts : list ConfigOption) : outcome InboxRepo :=
  let cfg := applyOptions opts in
  match ValidateTableName (InboxTableName cfg) with
  | Some err => Panic (error_text err)
  | None => Ret (mkInboxRepo QPool (InboxTableName cfg))
  end.
Definition InboxWithTx (r : InboxRepo) (tx : nat) : InboxRepo :=
  mkInboxRepo (QTx tx) (ir_tableName r).

(** contrib/gorm/inbox_repo.go *)
Definition gorm_NewInboxRepository (opts : list ConfigOption) : outcome InboxRepo :=
  let cfg := gorm_applyOptions opts in
  match ValidateTableName (InboxTableName cfg) with
  | Some err => Panic (error_text err)
  | None => Ret (mkInboxRepo QPool (InboxTableName cfg))
  end.
Definition gorm_InboxWithTx (r : InboxRepo) (tx : nat) : InboxRepo :=
  mkInboxRepo (QTx tx) (ir_tableName r).

(** ** Calls with options *)

(** An option as an application writes it. *)
Inductive OptionCall : Type :=
| SetOutbox (name : string)
| SetInbox (name : string)
| SetThreshold (threshold : Z).

Definition pgx_option (o : OptionCall) : outcome ConfigOption :=
  match o with
  | SetOutbox name => WithOutboxTableName name
  | SetInbox name => WithInboxTableName name
  | SetThreshold d => Ret (WithStuckPublishingThreshold d)
  end.
Definition gorm_option (o : OptionCall) : outcome ConfigOption :=
  match o with
  | SetOutbox name => gorm_WithOutboxTableName name
  | SetInbox name => gorm_WithInboxTableName name
  | SetThreshold d => Ret (gorm_WithStuckPublishingThreshold d)
  end.

(** The operands are evaluated from left to right; a panic ends the call. *)
Fixpoint operands {A B} (f : A -> outcome B) (l : list A) : outcome (list B) :=
  match l with
  | [] => Ret []
  | a :: l =>
      match f a with
      | Panic why => Panic why
      | Ret b => match operands f l with Panic why => Panic why | Ret bs => Ret (b :: bs) end
      end
  end.
Definition made {A B} (option : OptionCall -> outcome A) (new : list A -> outcome B)
    (calls : list OptionCall) : outcome B :=
  match operands option calls with Panic why => Panic why | Ret opts => new opts end.

(** *** What they ask for *)

Definition is_valid (name : string) : bool := bool_decide (ValidateTableName name = None).
Definition call_valid (o : OptionCall) : bool :=
  match o with SetOutbox name | SetInbox name => is_valid name | SetThreshold _ => true end.

(** The last option of a kind counts. *)
Fixpoint last_of {A} (f : OptionCall -> option A) (d : A) (calls : list OptionCall) : A :=
  match calls with
  | [] => d
  | o :: calls => last_of f (default d (f o)) calls
  end.
Definition outbox_name (calls : list OptionCall) : string :=
  last_of (fun o => match o with SetOutbox name => Some name | _ => None end) "outbox" calls.
Definition inbox_name (calls : list OptionCall) : string :=
  last_of (fun o => match o with SetInbox name => Some name | _ => None end) "consumer_inbox" calls.
Definition threshold_of (calls : list OptionCall) : Z :=
  last_of (fun o => match o with SetThreshold d => Some d | _ => None end) (5 * Minute)%Z calls.

Definition configured (c : Config) (calls : list OptionCall) : Config :=
  mkConfig
    (last_of (fun o => match o with SetOutbox name => Some name | _ => None end)
       (OutboxTableName c) calls)
    (last_of (fun o => match o with SetInbox name => Some name | _ => None end)
       (InboxTableName c) calls)
    (RequeueBackoffBase c) (RequeueBackoffMax c)
    (last_of (fun o => match o with SetThreshold d => Some d | _ => None end)
       (StuckPublishingThreshold c) calls).

Lemma options_apply calls : forall c,
  forallb call_valid calls = true ->
  exists opts, operands pgx_option calls = Ret opts
    /\ fold_left (fun cfg opt => opt cfg) opts c = configured c calls.
Proof.
  induction calls as [|o calls IH]; intros c H; [by exists []; destruct c|].
  cbn in H. apply andb_prop in H as [Ho H].
  assert (Hopt : exists opt, pgx_option o = Ret opt /\ configured (opt c) calls = configured c (o :: calls)).
  { destruct o as [name|name|d]; cbn; [..|by eexists];
      cbn in Ho; unfold is_valid in Ho; apply bool_decide_eq_true_1 in Ho;
      unfold WithOutboxTableName, WithInboxTableName; rewrite Ho; by eexists. }
  destruct Hopt as (opt & Eo & Ec). destruct (IH (opt c) H) as (opts & E & Ef).
  exists (opt :: opts). cbn. rewrite Eo, E. split; [done|]. by rewrite Ef, Ec.
Qed.

Lemma options_panic calls :
  forallb call_valid calls = false -> exists why, operands pgx_option calls = Panic why.
Proof.
  induction calls as [|o calls IH]; cbn; [done|]. intros H.
  destruct (call_valid o) eqn:Eo.
  - destruct (IH H) as [why E]. destruct (pgx_option o); [rewrite E|]; by eexists.
  - destruct o as [name|name|d]; [..|done]; cbn in *; unfold is_valid in Eo;
      apply bool_decide_eq_false_1 in Eo; unfold WithOutboxTableName, WithInboxTableName;
      destruct (ValidateTableName name); try done; by eexists.
Qed.

Lemma last_of_valid (f : OptionCall -> option string) d calls :
  (forall o name, f o = Some name -> call_valid o = is_valid name) ->
  is_valid d = true -> forallb call_valid calls = true -> is_valid (last_of f d calls) = true.
Proof.
  intros Hf. revert d. induction calls as [|o calls IH]; intros d Hd H; [done|].
  cbn in H. apply andb_prop in H as [Ho H]. cbn. apply IH; [|done].
  destruct (f o) as [name|] eqn:E; cbn; [|done]. by rewrite <- (Hf o name E).
Qed.

(** C39: a constructor panics exactly when an option has an invalid table name;
    otherwise the repository has the name and the threshold of the last option
    that sets them, the defaults where none does, and a valid table name, which
    [WithTx] keeps; and this is the same for pgx and GORM, outbox and inbox. *)
Theorem constructors_spec (calls : list OptionCall) :
  let outbox_made := made pgx_option NewOutboxRepository calls in
  let inbox_made := made pgx_option NewInboxRepository calls in
  made gorm_option gorm_NewOutboxRepository calls = outbox_made
  /\ made gorm_option gorm_NewInboxRepository calls = inbox_made
  /\ if forallb call_valid calls
     then (exists r, outbox_made = Ret r
             /\ r = mkRepo QPool (outbox_name calls) (1 * Second) (1 * Hour) (threshold_of calls)
             /\ forall tx, ValidateTableName (tableName (WithTx r tx)) = None
                  /\ ValidateTableName (tableName (gorm_WithTx r tx)) = None)
          /\ exists r, inbox_made = Ret r /\ r = mkInboxRepo QPool (inbox_name calls)
             /\ forall tx, ValidateTableName (ir_tableName (InboxWithTx r tx)) = None
                  /\ ValidateTableName (ir_tableName (gorm_InboxWithTx r tx)) = None
     else exists why, outbox_made = Panic why /\ inbox_made = Panic why.
Proof.
  split; [done|]. split; [done|]. unfold made.
  destruct (forallb call_valid calls) eqn:Hv.
  - destruct (options_apply calls DefaultConfig Hv) as (opts & -> & E).
    assert (Ho : ValidateTableName (outbox_name calls) = None).
    { apply (bool_decide_eq_true_1 _), last_of_valid; [by intros [] ? [= ->]|by vm_compute|done]. }
    assert (Hi : ValidateTableName (inbox_name calls) = None).
    { apply (bool_decide_eq_true_1 _), last_of_valid; [by intros [] ? [= ->]|by vm_compute|done]. }
    split.
    + eexists. unfold NewOutboxRepository, applyOptions. rewrite E. cbn -[ValidateTableName].
      change (last_of _ "outbox" calls) with (outbox_name calls). rewrite Ho.
      split; [reflexivity|]. split; [reflexivity|]. by split.
    + eexists. unfold NewInboxRepository, applyOptions. rewrite E. cbn -[ValidateTableName].
      change (last_of _ "consumer_inbox" calls) with (inbox_name calls). rewrite Hi.
      split; [reflexivity|]. split; [reflexivity|]. by split.
  - destruct (options_panic calls Hv) as [why ->]. by exists why.
Qed.
