(* ===== verification/Schema.v ===== *)
(** * The DDL of the tables

    schema/schema.go and cmd/o4x-schema: the texts, [fmt.Sprintf] on them, and
    the names of the objects they create and drop. *)

From Stdlib Require Import ZArith Lia Ascii.
From stdpp Require Import base option list strings.
From S2P Require Import Prelude Errors Model.

Set Default Goal Selector "!".
Open Scope string_scope.
Open Scope list_scope.

(** ** fmt.Sprintf

    A format is read once; [Verb c] is the verb [%c]. *)
Inductive Piece : Type :=
| Char (c : ascii)
| Verb (c : ascii)
| NoVerb.

Fixpoint pieces (format : string) : list Piece :=
  match format with
  | EmptyString => []
  | String "%" EmptyString => [NoVerb]
  | String "%" (String "%" rest) => Char "%" :: pieces rest
  | String "%" (String c rest) => Verb c :: pieces rest
  | String c rest => Char c :: pieces rest
  end.

(** The operands are strings; a verb other than [%s] does not occur with them
    here and is printed as a bad one. *)
Fixpoint render (ps : list Piece) (args : list string) : string :=
  match ps with
  | [] =>
      match args with
      | [] => ""
      | _ => "%!(EXTRA " +:+ String.concat ", " (map (fun a => "string=" +:+ a) args) +:+ ")"
      end
  | Char c :: ps => String c (render ps args)
  | NoVerb :: ps => "%!(NOVERB)" +:+ render ps args
  | Verb c :: ps =>
      match args with
      | [] => "%!" +:+ String c "(MISSING)" +:+ render ps []
      | a :: args =>
          if Ascii.eqb c "s" then a +:+ render ps args
          else "%!" +:+ String c ("(string=" +:+ a +:+ ")") +:+ render ps args
      end
  end.

Definition Sprintf (format : string) (args : list string) : string := render (pieces format) args.

(** ** schema.go *)

Definition outbox_format : string := "-- Outbox Schema for Publisher (Transactional Outbox Pattern)
-- 5 states: ENQUEUED, PUBLISHING, PUBLISHED, FAILED, DEAD

CREATE TYPE %s AS ENUM (
  'ENQUEUED',    -- Application inserted into outbox
  'PUBLISHING',  -- Dispatcher locked and publishing
  'PUBLISHED',   -- Publish succeeded
  'FAILED',      -- Publish failed (retryable)
  'DEAD'         -- Retry limit exceeded
);

CREATE TABLE %s (
  id               UUID PRIMARY KEY,
  event_type       TEXT NOT NULL,
  payload          JSONB NOT NULL,
  metadata         JSONB,
  idempotency_key  TEXT NOT NULL,
  status           %s NOT NULL DEFAULT 'ENQUEUED',
  error_message    TEXT,
  attempt_count    INT NOT NULL DEFAULT 1,
  max_attempts     INT NOT NULL DEFAULT 10,
  next_retry_at    TIMESTAMPTZ,
  created_at       TIMESTAMPTZ NOT NULL DEFAULT clock_timestamp(),
  updated_at       TIMESTAMPTZ NOT NULL DEFAULT clock_timestamp()
);

-- Column comments for outbox table
COMMENT ON COLUMN %s.id IS 'Unique message identifier (UUID v7 for time-ordered)';
COMMENT ON COLUMN %s.event_type IS 'Event type identifier for routing (e.g. order.created)';
COMMENT ON COLUMN %s.payload IS 'Message payload as JSON';
COMMENT ON COLUMN %s.metadata IS 'Optional metadata (trace context, custom headers, etc.)';
COMMENT ON COLUMN %s.idempotency_key IS 'Unique key per event_type to prevent duplicate insertions';
COMMENT ON COLUMN %s.status IS 'Current message state in the outbox pattern';
COMMENT ON COLUMN %s.error_message IS 'Last error message (truncated to 4000 bytes, sanitized)';
COMMENT ON COLUMN %s.attempt_count IS 'Current attempt number (1-based: 1 = first attempt, 10 = tenth attempt)';
COMMENT ON COLUMN %s.max_attempts IS 'Maximum number of publish attempts before marking as DEAD';
COMMENT ON COLUMN %s.next_retry_at IS 'Scheduled time for next retry attempt (with exponential backoff)';
COMMENT ON COLUMN %s.created_at IS 'Timestamp when message was inserted into outbox';
COMMENT ON COLUMN %s.updated_at IS 'Timestamp of last status change';

-- Index for efficient polling by dispatcher (general purpose, supports all statuses)
CREATE INDEX idx_%s_status_created_at
  ON %s (status, created_at);

-- Partial index optimized for Dispatcher polling (ENQUEUED messages only)
-- This minimal index covers only ENQUEUED rows, reducing index size and improving
-- cache efficiency for high-throughput polling with SKIP LOCKED.
-- The composite index above remains necessary for queries on other statuses (FAILED, DEAD)
-- used by operational tools.
CREATE INDEX idx_%s_enqueued_created_at
  ON %s (created_at)
  WHERE status = 'ENQUEUED';

-- Index for efficient RequeueFailed with next_retry_at
-- Note: This partial index covers the WHERE clause of RequeueFailed query:
--   WHERE status = 'FAILED' AND next_retry_at IS NOT NULL AND next_retry_at <= now()
-- The attempt_count column is not included to keep index size small, as most FAILED
-- messages have attempt_count < max_attempts. If you have many FAILED messages near
-- max_attempts, consider adding attempt_count to this index.
CREATE INDEX idx_%s_status_next_retry_at
  ON %s (status, next_retry_at)
  WHERE status = 'FAILED' AND next_retry_at IS NOT NULL;

-- Ensure idempotency per event_type
ALTER TABLE %s
  ADD CONSTRAINT uq_%s_event_type_idempotency
    UNIQUE (event_type, idempotency_key);
".

Definition OutboxDDL (tableName : string) : string :=
  let enumName := tableName +:+ "_status" in
  Sprintf outbox_format
    ([enumName; tableName; enumName] ++ replicate 12 tableName ++ replicate 8 tableName).

Definition drop_outbox_format : string := "DROP TABLE IF EXISTS %s;
DROP TYPE IF EXISTS %s;
".

Definition DropOutboxDDL (tableName : string) : string :=
  let enumName := tableName +:+ "_status" in
  Sprintf drop_outbox_format [tableName; enumName].

Definition inbox_format : string := "-- Consumer Inbox Schema (Transactional Inbox / Idempotency Store)
-- Purpose: Track COMPLETED events only for exactly-once semantics
-- Design: Composite PK (consumer_name, event_id) for atomic duplicate detection
-- Philosophy: Inbox is NOT a broker - it only answers " +:+ quote +:+ "has this EVENT been completed?" +:+ quote +:+ "
-- CRITICAL: event_id is Outbox ID (logical event identity), NOT SQS MessageID

CREATE TABLE %s (
  consumer_name    TEXT NOT NULL,
  event_id         UUID NOT NULL,
  completed_at     TIMESTAMPTZ NOT NULL DEFAULT clock_timestamp(),
  PRIMARY KEY (consumer_name, event_id)
);

-- Column comments for consumer_inbox table
COMMENT ON COLUMN %s.consumer_name IS 'Logical consumer service identity (e.g., order-service, notification-service)';
COMMENT ON COLUMN %s.event_id IS 'Outbox event ID (logical event identity). CRITICAL: NOT SQS MessageID. Same event = same event_id across all redeliveries.';
COMMENT ON COLUMN %s.completed_at IS 'Timestamp when event processing was completed successfully';

-- Index for cleanup queries (DELETE WHERE completed_at < ...)
CREATE INDEX idx_%s_completed_at
  ON %s (completed_at);

-- Index for event_id lookups across consumers
CREATE INDEX idx_%s_event_id
  ON %s (event_id);
".

Definition ConsumerInboxDDL (tableName : string) : string :=
  Sprintf inbox_format (replicate 8 tableName).

Definition drop_inbox_format : string := "DROP TABLE IF EXISTS %s;
".

Definition DropConsumerInboxDDL (tableName : string) : string :=
  Sprintf drop_inbox_format [tableName].

(** ** The command *)

Record SchemaFlags : Type := mkSchemaFlags {
  outboxTable : string;
  inboxTable : string;
  withInbox : bool;
  rollback : bool
}.

(** What [main] prints, without [--help]. *)
Definition schema_main (flags : SchemaFlags) : string :=
  if rollback flags
  then DropOutboxDDL (outboxTable flags)
       +:+ (if withInbox flags then newline +:+ DropConsumerInboxDDL (inboxTable flags) else "")
  else OutboxDDL (outboxTable flags)
       +:+ (if withInbox flags then newline +:+ ConsumerInboxDDL (inboxTable flags) else "").

(** ** The objects of a text

    The text as characters and operands. *)
Definition Token : Type := ascii + string.

Fixpoint tokens (ps : list Piece) (args : list string) : list Token :=
  match ps, args with
  | Char c :: ps, _ => inl c :: tokens ps args
  | Verb _ :: ps, a :: args => inr a :: tokens ps args
  | _ :: ps, _ => tokens ps args
  | [], _ => []
  end.

Fixpoint text_of (l : list Token) : string :=
  match l with
  | [] => ""
  | inl c :: l => String c (text_of l)
  | [inr a] => a
  | inr a :: l => a +:+ text_of l
  end.

(** A format whose verbs are [%s], one for each operand. *)
Fixpoint fits {A} (ps : list Piece) (args : list A) : bool :=
  match ps, args with
  | [], [] => true
  | Char _ :: ps, _ => fits ps args
  | Verb c :: ps, _ :: args => Ascii.eqb c "s" && fits ps args
  | _, _ => false
  end.

Lemma append_nil_r a : a +:+ "" = a.
Proof.
  induction a as [|c a IH]; [done|]. change (String c (a +:+ "") = String c a). by rewrite IH.
Qed.

Lemma text_of_operand a l : text_of (inr a :: l) = a +:+ text_of l.
Proof. destruct l; [symmetry; apply append_nil_r|done]. Qed.

Lemma Sprintf_tokens format args :
  fits (pieces format) args = true -> Sprintf format args = text_of (tokens (pieces format) args).
Proof.
  unfold Sprintf. generalize (pieces format). intros ps. revert args.
  induction ps as [|[c|c|] ps IH]; intros [|a args];
    cbn [fits render tokens]; try done.
  - intros H. cbn. f_equal. by apply (IH []).
  - intros H. cbn. f_equal. by apply (IH (a :: args)).
  - intros [E H]%andb_prop. rewrite E, text_of_operand. f_equal. by apply IH.
Qed.

Definition is_char (x : ascii) (k : Token) : bool :=
  match k with inl c => Ascii.eqb c x | inr _ => false end.

(** Without the comments to the end of their line. *)
Fixpoint code_of (comment : bool) (l : list Token) : list Token :=
  match l with
  | [] => []
  | k :: l' =>
      if comment then code_of (negb (is_char (ascii_of_nat 10) k)) l'
      else if is_char "-" k && match l' with k' :: _ => is_char "-" k' | [] => false end
      then code_of true l'
      else k :: code_of false l'
  end.

Definition separates (k : Token) : bool :=
  match k with
  | inl c => existsb (Ascii.eqb c) [" "; "("; ")"; ";"; ","; "."; ascii_of_nat 10]%char
  | inr _ => false
  end.

(** The words: runs of tokens without a separator. *)
Fixpoint words (current : list Token) (l : list Token) : list (list Token) :=
  match l with
  | [] => match current with [] => [] | _ => [rev current] end
  | k :: l =>
      if separates k
      then match current with [] => words [] l | _ => rev current :: words [] l end
      else words (k :: current) l
  end.

Fixpoint is_word (w : string) (l : list Token) : bool :=
  match w, l with
  | EmptyString, [] => true
  | String c w, inl c' :: l => Ascii.eqb c c' && is_word w l
  | _, _ => false
  end.

Inductive Object : Type :=
| TypeObject (name : string)
| TableObject (name : string)
| IndexObject (name table : string)
| ConstraintObject (name : string).

(** CREATE TYPE x, CREATE TABLE x, CREATE INDEX x ON t, ADD CONSTRAINT x. *)
Fixpoint created (ws : list (list Token)) : list Object :=
  match ws with
  | w1 :: rest =>
      match rest with
      | w2 :: x :: more =>
          if is_word "CREATE" w1 && is_word "TYPE" w2 then TypeObject (text_of x) :: created rest
          else if is_word "CREATE" w1 && is_word "TABLE" w2
          then TableObject (text_of x) :: created rest
          else if is_word "CREATE" w1 && is_word "INDEX" w2
          then IndexObject (text_of x)
                 match more with _ :: t :: _ => text_of t | _ => "" end :: created rest
          else if is_word "ADD" w1 && is_word "CONSTRAINT" w2
          then ConstraintObject (text_of x) :: created rest
          else created rest
      | _ => []
      end
  | [] => []
  end.

(** DROP TABLE IF EXISTS x, DROP TYPE IF EXISTS x. *)
Fixpoint dropped (ws : list (list Token)) : list Object :=
  match ws with
  | w1 :: rest =>
      match rest with
      | w2 :: w3 :: w4 :: x :: _ =>
          if is_word "DROP" w1 && is_word "TABLE" w2 && is_word "IF" w3 && is_word "EXISTS" w4
          then TableObject (text_of x) :: dropped rest
          else if is_word "DROP" w1 && is_word "TYPE" w2 && is_word "IF" w3 && is_word "EXISTS" w4
          then TypeObject (text_of x) :: dropped rest
          else dropped rest
      | _ => []
      end
  | [] => []
  end.

(** The names PostgreSQL gives a relation: tables and indexes, and a UNIQUE
    constraint has an index of its name. *)
Definition relation_name (o : Object) : list string :=
  match o with
  | TypeObject _ => []
  | TableObject x | IndexObject x _ | ConstraintObject x => [x]
  end.

(** Identifiers are cut at 63 bytes. *)
Fixpoint cut (n : nat) (s : string) : string :=
  match n, s with
  | S n, String c s => String c (cut n s)
  | _, _ => EmptyString
  end.
Definition identifier (s : string) : string := cut 63 s.

Definition outbox_args (t : string) : list string :=
  [t +:+ "_status"; t; t +:+ "_status"] ++ replicate 12 t ++ replicate 8 t.
Definition outbox_tokens (t : string) : list Token := tokens (pieces outbox_format) (outbox_args t).
Definition inbox_tokens (t : string) : list Token :=
  tokens (pieces inbox_format) (replicate 8 t).

Definition created_by (l : list Token) : list Object := created (words [] (code_of false l)).
Definition dropped_by (l : list Token) : list Object := dropped (words [] (code_of false l)).

(** ** Properties *)

(** What a migration creates.  The texts have one operand for each verb, so
    nothing is missing or extra in them; the outbox text creates the type of the
    status, the table, its three indexes on that table and the unique
    constraint, all named after the table; the inbox text the table and its two
    indexes; and each rollback text drops the table and the type, with which
    all the rest goes. *)
Theorem schema_objects (t : string) :
  (OutboxDDL t = text_of (outbox_tokens t)
   /\ created_by (outbox_tokens t)
      = [TypeObject (t +:+ "_status"); TableObject t;
         IndexObject ("idx_" +:+ t +:+ "_status_created_at") t;
         IndexObject ("idx_" +:+ t +:+ "_enqueued_created_at") t;
         IndexObject ("idx_" +:+ t +:+ "_status_next_retry_at") t;
         ConstraintObject ("uq_" +:+ t +:+ "_event_type_idempotency")])
  /\ (ConsumerInboxDDL t = text_of (inbox_tokens t)
      /\ created_by (inbox_tokens t)
         = [TableObject t; IndexObject ("idx_" +:+ t +:+ "_completed_at") t;
            IndexObject ("idx_" +:+ t +:+ "_event_id") t])
  /\ (exists l, DropOutboxDDL t = text_of l
        /\ dropped_by l = [TableObject t; TypeObject (t +:+ "_status")])
  /\ exists l, DropConsumerInboxDDL t = text_of l /\ dropped_by l = [TableObject t].
Proof.
  split; [split; [by apply Sprintf_tokens|by vm_compute]|].
  split; [split; [by apply Sprintf_tokens|by vm_compute]|]. split.
  - exists (tokens (pieces drop_outbox_format) [t; t +:+ "_status"]).
    split; [by apply Sprintf_tokens|by vm_compute].
  - exists (tokens (pieces drop_inbox_format) [t]). split; [by apply Sprintf_tokens|by vm_compute].
Qed.

(** *** Names *)

Lemma cut_app_le n a b : (n <= String.length a)%nat -> cut n (a +:+ b) = cut n a.
Proof.
  revert a. induction n as [|n IH]; intros [|c a] H; try done; [cbn in H; lia|].
  change (String c (cut n (a +:+ b)) = String c (cut n a)). f_equal. apply IH. cbn in H. lia.
Qed.

Lemma cut_app_ge n a b :
  (String.length a <= n)%nat -> cut n (a +:+ b) = a +:+ cut (n - String.length a) b.
Proof.
  revert n. induction a as [|c a IH]; intros n H; [cbn; by rewrite Nat.sub_0_r|].
  destruct n as [|n]; [cbn in H; lia|].
  change (String c (cut n (a +:+ b)) = String c (a +:+ cut (n - String.length a) b)).
  f_equal. apply IH. cbn in H. lia.
Qed.

Lemma cut_length n a : String.length (cut n a) = Nat.min n (String.length a).
Proof. revert a. induction n as [|n IH]; intros [|c a]; cbn; try done. by rewrite IH. Qed.

Lemma append_assoc a b c : (a +:+ b) +:+ c = a +:+ (b +:+ c).
Proof.
  induction a as [|x a IH]; [done|].
  change (String x ((a +:+ b) +:+ c) = String x (a +:+ (b +:+ c))). by rewrite IH.
Qed.

Lemma append_length a b : String.length (a +:+ b) = (String.length a + String.length b)%nat.
Proof.
  induction a as [|x a IH]; [done|].
  change (S (String.length (a +:+ b)) = S (String.length a + String.length b)). by rewrite IH.
Qed.

Lemma append_inj a b b' : a +:+ b = a +:+ b' -> b = b'.
Proof.
  induction a as [|x a IH]; [done|]. intros H. apply IH. by injection H.
Qed.

(** Names that begin alike and then differ in a character that is not cut. *)
Lemma cut_differ n a x y b b' :
  (String.length a < n)%nat -> x <> y ->
  cut n (a +:+ String x b) <> cut n (a +:+ String y b').
Proof.
  intros Ha Hxy H. rewrite !cut_app_ge in H by lia. apply append_inj in H.
  destruct (n - String.length a)%nat as [|m] eqn:E; [lia|]. cbn in H. by injection H.
Qed.

Lemma cut_longer n a b :
  (String.length a < n)%nat -> (String.length a < String.length b)%nat -> cut n a <> cut n b.
Proof.
  intros Ha Hb H. apply (f_equal String.length) in H. rewrite !cut_length in H. lia.
Qed.

(** C38: the relations of an outbox table have different names exactly when the
    name of the table has at most fifty bytes: PostgreSQL cuts identifiers at
    63, so for a longer one, which [ValidateTableName] accepts, the indexes
    idx_..._status_created_at and idx_..._status_next_retry_at are one name and
    the migration fails. *)
Theorem schema_names_distinct (t : string) :
  NoDup (identifier <$> (created_by (outbox_tokens t) ≫= relation_name))
  <-> (String.length t <= 50)%nat.
Proof.
  replace (created_by (outbox_tokens t) ≫= relation_name)
    with [t; "idx_" +:+ (t +:+ "_status_created_at"); "idx_" +:+ (t +:+ "_enqueued_created_at");
          "idx_" +:+ (t +:+ "_status_next_retry_at"); "uq_" +:+ (t +:+ "_event_type_idempotency")]
    by (by vm_compute).
  assert (E1 : "idx_" +:+ (t +:+ "_status_created_at")
    = ("idx_" +:+ (t +:+ "_status_")) +:+ "created_at") by (by rewrite !append_assoc).
  assert (E3 : "idx_" +:+ (t +:+ "_status_next_retry_at")
    = ("idx_" +:+ (t +:+ "_status_")) +:+ "next_retry_at") by (by rewrite !append_assoc).
  assert (F1 : "idx_" +:+ (t +:+ "_status_created_at")
    = ("idx_" +:+ (t +:+ "_")) +:+ "status_created_at") by (by rewrite !append_assoc).
  assert (F2 : "idx_" +:+ (t +:+ "_enqueued_created_at")
    = ("idx_" +:+ (t +:+ "_")) +:+ "enqueued_created_at") by (by rewrite !append_assoc).
  assert (F3 : "idx_" +:+ (t +:+ "_status_next_retry_at")
    = ("idx_" +:+ (t +:+ "_")) +:+ "status_next_retry_at") by (by rewrite !append_assoc).
  assert (L1 : String.length ("idx_" +:+ (t +:+ "_status_")) = (String.length t + 12)%nat)
    by (rewrite !append_length; cbn; lia).
  assert (L2 : String.length ("idx_" +:+ (t +:+ "_")) = (String.length t + 5)%nat)
    by (rewrite !append_length; cbn; lia).
  unfold identifier. cbn [fmap list_fmap]. split.
  - intros H. destruct (Nat.le_gt_cases (String.length t) 50) as [Hle|Hgt]; [done|exfalso].
    apply NoDup_cons in H as [_ H]. apply NoDup_cons in H as [H _]. apply H.
    rewrite E1, E3, !(cut_app_le 63 ("idx_" +:+ (t +:+ "_status_"))) by lia. by right; left.
  - intros Ht.
    assert (Hlong : forall p x, (0 < String.length x)%nat -> cut 63 t <> cut 63 (p +:+ (t +:+ x))).
    { intros p x Hx. apply cut_longer; [lia|]. rewrite !append_length. lia. }
    assert (Huq : forall x y, cut 63 ("idx_" +:+ x) <> cut 63 ("uq_" +:+ y)) by (by intros x y [=]).
    assert (H12 : cut 63 ("idx_" +:+ (t +:+ "_status_created_at"))
      <> cut 63 ("idx_" +:+ (t +:+ "_enqueued_created_at"))).
    { rewrite F1, F2. apply cut_differ; [lia|done]. }
    assert (H32 : cut 63 ("idx_" +:+ (t +:+ "_status_next_retry_at"))
      <> cut 63 ("idx_" +:+ (t +:+ "_enqueued_created_at"))).
    { rewrite F3, F2. apply cut_differ; [lia|done]. }
    assert (H13 : cut 63 ("idx_" +:+ (t +:+ "_status_created_at"))
      <> cut 63 ("idx_" +:+ (t +:+ "_status_next_retry_at"))).
    { rewrite E1, E3. apply cut_differ; [lia|done]. }
    repeat (apply NoDup_cons; split); [..|by apply NoDup_nil];
      rewrite ?elem_of_cons, elem_of_nil; intros H; repeat destruct H as [H|H]; try done;
      try (by apply (Huq _ _ H)); revert H; apply Hlong; cbn; lia.
Qed.
