(* ===== verification/AppStore.v ===== *)
(** * The tables, queries and repositories of the example application

    examples/app: internal/domain, internal/repository and
    migrations/002_app_tables.sql.  A query is a function of the rows a
    transaction sees that gives the rows it writes and an answer, or the error
    PostgreSQL raises.  A call of the application is a program of queries
    ([Prog]), which AppTx.v runs against others. *)

From Stdlib Require Import ZArith Lia Ascii.
From stdpp Require Import base option list strings gmap fin_maps.
From S2P Require Import Prelude Errors Model Store PgxRepo Inbox.

Set Default Goal Selector "!".
Open Scope string_scope.
Open Scope list_scope.
Open Scope Z_scope.

(** ** internal/domain *)

Definition OrderStatus : Type := string.
Definition OrderStatusPending : OrderStatus := "pending".
Definition OrderStatusConfirmed : OrderStatus := "confirmed".
Definition OrderStatusCancelled : OrderStatus := "cancelled".
Definition OrderStatusCompleted : OrderStatus := "completed".

Record Order : Type := mkOrder {
  o_ID : UUID;
  o_UserID : UUID;
  o_ProductID : string;
  o_Quantity : Z;
  o_TotalPrice : Z;
  o_Status : OrderStatus;
  o_CreatedAt : Z;
  o_UpdatedAt : Z
}.

Record CreateOrderRequest : Type := mkCreateOrderRequest {
  co_UserID : UUID;
  co_ProductID : string;
  co_Quantity : Z;
  co_TotalPrice : Z
}.

Definition UserStatus : Type := string.
Definition UserStatusActive : UserStatus := "active".
Definition UserStatusInactive : UserStatus := "inactive".
Definition UserStatusSuspended : UserStatus := "suspended".

Record User : Type := mkUser {
  u_ID : UUID;
  u_Email : string;
  u_Name : string;
  u_Status : UserStatus;
  u_CreatedAt : Z;
  u_UpdatedAt : Z
}.

Record CreateUserRequest : Type := mkCreateUserRequest {
  cu_Email : string;
  cu_Name : string
}.

Record UpdateUserRequest : Type := mkUpdateUserRequest {
  uu_Name : string;
  uu_Status : UserStatus
}.

(** The record is not called [Inventory]: that is the table. *)
Record Stock : Type := mkStock {
  i_ProductID : string;
  i_Quantity : Z;
  i_Reserved : Z;
  i_UpdatedAt : Z
}.

Definition NotificationType : Type := string.
Definition NotificationTypeEmail : NotificationType := "email".
Definition NotificationTypeSMS : NotificationType := "sms".
Definition NotificationTypePush : NotificationType := "push".

Definition NotificationStatus : Type := string.
Definition NotificationStatusPending : NotificationStatus := "pending".
Definition NotificationStatusSent : NotificationStatus := "sent".
Definition NotificationStatusFailed : NotificationStatus := "failed".

Record Notification : Type := mkNotification {
  n_ID : UUID;
  n_Type : NotificationType;
  n_Recipient : string;
  n_Subject : string;
  n_Body : string;
  n_Status : NotificationStatus;
  n_CreatedAt : Z;
  n_UpdatedAt : Z
}.

Record SendNotificationRequest : Type := mkSendNotificationRequest {
  sn_Type : NotificationType;
  sn_Recipient : string;
  sn_Subject : string;
  sn_Body : string
}.

(** ** Tables *)

(** The tables of the migration and the two of the library, by primary key. *)
Record Tables : Type := mkTables {
  orders : gmap UUID Order;
  users : gmap UUID User;
  inventory : gmap string Stock;
  notifications : gmap UUID Notification;
  outbox : table;
  inbox : inbox_table
}.

Definition no_rows : Tables := mkTables ∅ ∅ ∅ ∅ ∅ ∅.

(** The rows of [w] over those of [t]: what a transaction that wrote [w] sees,
    and what its commit leaves. *)
Definition overlay (w t : Tables) : Tables :=
  mkTables (orders w ∪ orders t) (users w ∪ users t) (inventory w ∪ inventory t)
    (notifications w ∪ notifications t) (outbox w ∪ outbox t) (inbox w ∪ inbox t).

Definition only_order (o : Order) : Tables := mkTables {[o_ID o := o]} ∅ ∅ ∅ ∅ ∅.
Definition only_user (u : User) : Tables := mkTables ∅ {[u_ID u := u]} ∅ ∅ ∅ ∅.
Definition only_stock (i : Stock) : Tables := mkTables ∅ ∅ {[i_ProductID i := i]} ∅ ∅ ∅.
Definition only_notification (n : Notification) : Tables :=
  mkTables ∅ ∅ ∅ {[n_ID n := n]} ∅ ∅.
Definition only_message (r : Outbox) : Tables := mkTables ∅ ∅ ∅ ∅ {[ID r := r]} ∅.
Definition only_record (key : string * UUID) (at_ : Z) : Tables :=
  mkTables ∅ ∅ ∅ ∅ ∅ {[key := at_]}.

(** Equality of tables, up to empty writes. *)
Ltac tables_eq :=
  unfold overlay, only_order, only_user, only_stock, only_notification, only_message, no_rows;
  cbn; rewrite ?(left_id_L ∅ (∪)), ?(right_id_L ∅ (∪)), <- ?insert_union_singleton_l; try done.

Lemma overlay_nothing c : overlay no_rows c = c.
Proof. destruct c. tables_eq. Qed.

(** The one row of a table that was written. *)
Ltac locked :=
  eexists; apply lookup_singleton_eq.
Ltac written := apply lookup_union_Some_l, lookup_singleton_eq.

(** ** Queries *)

Definition Query (A : Type) : Type := StmtEnv -> Tables -> result error (Tables * A).

Definition out_of_range : error := PgError "22003" "integer out of range".
Definition not_unique : error :=
  PgError "23505" "duplicate key value violates unique constraint".
Definition check_violation : error :=
  PgError "23514" "new row violates check constraint".
(** *** orders *)

Definition queryOrderCreate (o : Order) : Query Z := fun env t =>
  if negb (in_int4 (o_Quantity o) && in_int4 (o_TotalPrice o)) then Err encode_error
  else if negb (varchar 255 (o_ProductID o) && varchar 50 (o_Status o)) then Err too_long
  else match orders t !! o_ID o with
       | Some _ => Err not_unique
       | None => Ok (only_order o, 1)
       end.

Definition queryOrderGetByID (id : UUID) : Query (option Order) := fun env t =>
  Ok (no_rows, orders t !! id).

Definition queryOrderUpdateStatus (status : OrderStatus) (id : UUID) : Query Z := fun env t =>
  match orders t !! id with
  | None => Ok (no_rows, 0)
  | Some o =>
      if negb (varchar 50 status) then Err too_long
      else Ok (only_order (mkOrder (o_ID o) (o_UserID o) (o_ProductID o) (o_Quantity o)
                             (o_TotalPrice o) status (o_CreatedAt o) (e_set env id)), 1)
  end.

(** *** inventory *)

Definition check_inventory (i : Stock) : bool :=
  (0 <=? i_Quantity i) && (0 <=? i_Reserved i) && (i_Reserved i <=? i_Quantity i).

(** The row an UPDATE of [inventory] writes. *)
Definition put_stock (i : Stock) : result error (Tables * Z) :=
  if negb (in_int4 (i_Quantity i) && in_int4 (i_Reserved i)) then Err out_of_range
  else if check_inventory i then Ok (only_stock i, 1)
  else Err check_violation.

Definition queryInventoryGet (productID : string) : Query (option Stock) := fun env t =>
  Ok (no_rows, inventory t !! productID).

Definition queryInventoryReserve (productID : string) (quantity : Z) : Query Z := fun env t =>
  if negb (in_int4 quantity) then Err encode_error
  else match inventory t !! productID with
       | Some i =>
           if quantity <=? i_Quantity i - i_Reserved i
           then put_stock (mkStock (i_ProductID i) (i_Quantity i) (i_Reserved i + quantity)
                             (e_set env productID))
           else Ok (no_rows, 0)
       | None => Ok (no_rows, 0)
       end.

Definition queryInventoryDecrease (productID : string) (quantity : Z) : Query Z := fun env t =>
  if negb (in_int4 quantity) then Err encode_error
  else match inventory t !! productID with
       | Some i =>
           if quantity <=? i_Reserved i
           then put_stock (mkStock (i_ProductID i) (i_Quantity i - quantity)
                             (i_Reserved i - quantity) (e_set env productID))
           else Ok (no_rows, 0)
       | None => Ok (no_rows, 0)
       end.

Definition queryInventoryRelease (productID : string) (quantity : Z) : Query Z := fun env t =>
  if negb (in_int4 quantity) then Err encode_error
  else match inventory t !! productID with
       | Some i =>
           if quantity <=? i_Reserved i
           then put_stock (mkStock (i_ProductID i) (i_Quantity i) (i_Reserved i - quantity)
                             (e_set env productID))
           else Ok (no_rows, 0)
       | None => Ok (no_rows, 0)
       end.

(** *** users *)

Definition queryUserCreate (u : User) : Query Z := fun env t =>
  if negb (varchar 255 (u_Email u) && varchar 255 (u_Name u) && varchar 50 (u_Status u))
  then Err too_long
  else match users t !! u_ID u with
       | Some _ => Err not_unique
       | None =>
           if bool_decide (map_Exists (fun _ v => u_Email v = u_Email u) (users t))
           then Err not_unique
           else Ok (only_user u, 1)
       end.

Definition queryUserGetByID (id : UUID) : Query (option User) := fun env t =>
  Ok (no_rows, users t !! id).

Definition queryUserGetByEmail (email : string) : Query (option User) := fun env t =>
  Ok (no_rows, snd <$> head (map_to_list (filter (fun kv => u_Email kv.2 = email) (users t)))).

(** COALESCE(NULLIF(s, ''), column) *)
Definition coalesce_nullif (s column : string) : string :=
  if bool_decide (s = "") then column else s.

Definition queryUserUpdate (id : UUID) (req : UpdateUserRequest) : Query Z := fun env t =>
  match users t !! id with
  | None => Ok (no_rows, 0)
  | Some u =>
      let u' := mkUser (u_ID u) (u_Email u) (coalesce_nullif (uu_Name req) (u_Name u))
                  (coalesce_nullif (uu_Status req) (u_Status u)) (u_CreatedAt u)
                  (e_set env id) in
      if negb (varchar 255 (u_Name u') && varchar 50 (u_Status u')) then Err too_long
      else Ok (only_user u', 1)
  end.

(** *** notifications *)

Definition queryNotificationCreate (n : Notification) : Query Z := fun env t =>
  if negb (varchar 50 (n_Type n) && varchar 255 (n_Recipient n) && varchar 50 (n_Status n))
  then Err too_long
  else match notifications t !! n_ID n with
       | Some _ => Ok (no_rows, 0)
       | None => Ok (only_notification n, 1)
       end.

Definition queryNotificationUpdateStatus (status : NotificationStatus) (id : UUID) : Query Z :=
  fun env t =>
  match notifications t !! id with
  | None => Ok (no_rows, 0)
  | Some n =>
      if negb (varchar 50 status) then Err too_long
      else Ok (only_notification (mkNotification (n_ID n) (n_Type n) (n_Recipient n)
                 (n_Subject n) (n_Body n) status (n_CreatedAt n) (e_set env id)), 1)
  end.

Definition queryNotificationGetByID (id : UUID) : Query (option Notification) := fun env t =>
  Ok (no_rows, notifications t !! id).

(** *** The tables of the library *)

(** [OutboxRepository.Insert] of the pgx repository (PgxRepo.v). *)
Definition queryOutboxInsert (jsonb : string -> option string) (params : OutboxInsertParams)
    : Query (list Outbox) := fun env t =>
  match queryInsert jsonb env (e_uuid env) params (outbox t) with
  | Err e => Err e
  | Ok (_, inserted) =>
      Ok (match inserted with row :: _ => only_message row | [] => no_rows end, inserted)
  end.

(** The queries of the pgx inbox (Inbox.v). *)
Definition queryInboxExists (key : string * UUID) : Query bool := fun env t =>
  Ok (no_rows, snd (queryInboxCheckExists key (inbox t))).
Definition queryInboxInsert (key : string * UUID) : Query bool := fun env t =>
  let inserted := snd (queryInboxComplete (e_set env key.2) key (inbox t)) in
  Ok (if inserted then only_record key (e_set env key.2) else no_rows, inserted).

(** ** Programs *)

(** What a call does with the database: it begins, commits and rolls back its
    transaction, runs queries in it or on the pool, where each is its own
    transaction, and asks its host for the time or a new UUID. *)
Inductive Prog (R : Type) : Type :=
| Return (r : R)
| Begin (k : option error -> Prog R)
| Commit (k : option error -> Prog R)
| Rollback (k : Prog R)
| TxQuery {A : Type} (q : Query A) (k : result error A -> Prog R)
| PoolQuery {A : Type} (q : Query A) (k : result error A -> Prog R)
| Ask {A : Type} (f : StmtEnv -> A) (k : A -> Prog R).
Arguments Return {R} r.
Arguments Begin {R} k.
Arguments Commit {R} k.
Arguments Rollback {R} k.
Arguments TxQuery {R A} q k.
Arguments PoolQuery {R A} q k.
Arguments Ask {R A} f k.

#[export] Instance Prog_ret : MRet Prog := @Return.
#[export] Instance Prog_bind : MBind Prog := fun R S f =>
  fix bind p :=
    match p with
    | Return r => f r
    | Begin k => Begin (fun a => bind (k a))
    | Commit k => Commit (fun a => bind (k a))
    | Rollback k => Rollback (bind k)
    | TxQuery q k => TxQuery q (fun a => bind (k a))
    | PoolQuery q k => PoolQuery q (fun a => bind (k a))
    | Ask g k => Ask g (fun a => bind (k a))
    end.

Definition pool_Begin : Prog (option error) := Begin mret.
Definition tx_Commit : Prog (option error) := Commit mret.
(** [defer tx.Rollback(ctx)], whose answer is dropped. *)
Definition defer_Rollback {R} (p : Prog R) : Prog R := r ← p; Rollback (mret r).
Definition tx_Exec {A} (q : Query A) : Prog (result error A) := TxQuery q mret.
Definition pool_Exec {A} (q : Query A) : Prog (result error A) := PoolQuery q mret.
(** [uuid.New()] and [time.Now()] *)
Definition uuid_New : Prog UUID := Ask e_uuid mret.
Definition time_now : Prog Z := Ask e_go_now mret.

(** [if err := m; err != nil { return ..., fmt.Errorf("text: %w", err) }] and
    then [k]. *)
Definition check {A} (m : Prog (option error)) (text : string) (k : Prog (result error A))
    : Prog (result error A) :=
  err ← m;
  match err with
  | Some err => mret (Err (errorf_wrap text err))
  | None => k
  end.

Definition try {A B} (m : Prog (result error A)) (text : string) (k : A -> Prog (result error B))
    : Prog (result error B) :=
  a ← m;
  match a with
  | Err err => mret (Err (errorf_wrap text err))
  | Ok a => k a
  end.

(** ** internal/repository *)

(** The error of an [Exec] that must affect a row. *)
Definition affected (answer : result error Z) (text missing : string) : option error :=
  match answer with
  | Err err => Some (errorf_wrap text err)
  | Ok n => if n =? 0 then Some (EWrapf missing []) else None
  end.

(** The error of an [Exec] whose row count is not read. *)
Definition executed {A} (answer : result error A) (text : string) : option error :=
  match answer with
  | Err err => Some (errorf_wrap text err)
  | Ok _ => None
  end.

(** [QueryRow(...).Scan(...)] of at most one row. *)
Definition scanned {A} (answer : result error (option A)) (text : string) : result error A :=
  match answer with
  | Err err => Err (errorf_wrap text err)
  | Ok None => Err (errorf_wrap text (ESentinel PgxErrNoRows))
  | Ok (Some a) => Ok a
  end.

Definition OrderRepository_Create (order : Order) : Prog (option error) :=
  answer ← tx_Exec (queryOrderCreate order);
  mret (executed answer "failed to create order").

Definition OrderRepository_GetByID (id : UUID) : Prog (result error Order) :=
  answer ← pool_Exec (queryOrderGetByID id);
  mret (scanned answer "failed to get order").

Definition OrderRepository_UpdateStatus (id : UUID) (status : OrderStatus) : Prog (option error) :=
  answer ← tx_Exec (queryOrderUpdateStatus status id);
  mret (affected answer "failed to update order status" ("order not found: " +:+ id)).

(** FOR UPDATE outside of a transaction: the lock ends with the statement. *)
Definition InventoryRepository_GetByProductID (productID : string) : Prog (result error Stock) :=
  answer ← pool_Exec (queryInventoryGet productID);
  mret (scanned answer "failed to get inventory").

Definition InventoryRepository_Reserve (productID : string) (quantity : Z) : Prog (option error) :=
  answer ← tx_Exec (queryInventoryReserve productID quantity);
  mret (affected answer "failed to reserve inventory"
          ("insufficient inventory for product " +:+ productID)).

Definition InventoryRepository_Decrease (productID : string) (quantity : Z)
    : Prog (option error) :=
  answer ← tx_Exec (queryInventoryDecrease productID quantity);
  mret (affected answer "failed to decrease inventory"
          ("insufficient reserved inventory for product " +:+ productID)).

Definition InventoryRepository_ReleaseReservation (productID : string) (quantity : Z)
    : Prog (option error) :=
  answer ← tx_Exec (queryInventoryRelease productID quantity);
  mret (affected answer "failed to release reservation"
          ("insufficient reserved inventory for product " +:+ productID)).

Definition UserRepository_Create (user : User) : Prog (option error) :=
  answer ← tx_Exec (queryUserCreate user);
  mret (executed answer "failed to create user").

Definition UserRepository_GetByID (id : UUID) : Prog (result error User) :=
  answer ← pool_Exec (queryUserGetByID id);
  mret (scanned answer "failed to get user").

Definition UserRepository_GetByEmail (email : string) : Prog (result error User) :=
  answer ← pool_Exec (queryUserGetByEmail email);
  mret (scanned answer "failed to get user by email").

Definition UserRepository_Update (id : UUID) (req : UpdateUserRequest) : Prog (option error) :=
  answer ← tx_Exec (queryUserUpdate id req);
  mret (affected answer "failed to update user" ("user not found: " +:+ id)).

Definition NotificationRepository_Create (notification : Notification) : Prog (option error) :=
  answer ← tx_Exec (queryNotificationCreate notification);
  mret (executed answer "failed to create notification").

Definition NotificationRepository_UpdateStatus (id : UUID) (status : NotificationStatus)
    : Prog (option error) :=
  answer ← tx_Exec (queryNotificationUpdateStatus status id);
  mret (affected answer "failed to update notification status" ("notification not found: " +:+ id)).

Definition NotificationRepository_UpdateStatusWithPool (id : UUID) (status : NotificationStatus)
    : Prog (option error) :=
  answer ← pool_Exec (queryNotificationUpdateStatus status id);
  mret (affected answer "failed to update notification status" ("notification not found: " +:+ id)).

Definition NotificationRepository_GetByID (id : UUID) : Prog (result error Notification) :=
  answer ← pool_Exec (queryNotificationGetByID id);
  mret (scanned answer "failed to get notification").

(** [outboxRepo.WithTx(tx).Insert] *)
Definition outboxTx_Insert (jsonb : string -> option string) (params : OutboxInsertParams)
    : Prog (result error Outbox) :=
  answer ← tx_Exec (queryOutboxInsert jsonb params);
  mret (insert_answer answer).

(** [inbox.IsProcessed] and [inbox.Complete] on the pool. *)
Definition inbox_IsProcessed (consumerName : string) (eventID : UUID)
    : Prog (result error bool) :=
  answer ← pool_Exec (queryInboxExists (consumerName, eventID));
  mret match answer with
       | Err err => Err (errorf_wrap "failed to check inbox record" err)
       | Ok exists_ => Ok exists_
       end.

Definition inbox_Complete (consumerName : string) (eventID : UUID) : Prog (option error) :=
  answer ← pool_Exec (queryInboxInsert (consumerName, eventID));
  mret (executed answer "failed to insert inbox completion record").
