(* ===== verification/AppTx.v ===== *)
(** * Concurrent transactions of the example application

    Calls of the application ([Prog], AppStore.v) run query by query against
    each other, against the dispatchers that relay the outbox, with queries that
    fail, commits whose answer is lost and processes that die, on PostgreSQL at
    READ COMMITTED: a query sees the committed rows and those of its own
    transaction, and waits for a transaction that holds a row or a unique key it
    writes.  A transaction holds a connection of the pool from BEGIN to its end.

    [valid] is a logic for such programs: what a transaction knows of the
    committed rows and of those it wrote must survive whatever the others may do
    meanwhile, and its commit must keep the invariant of the application. *)

From Stdlib Require Import ZArith Lia.
From stdpp Require Import base option list strings gmap fin_maps.
From S2P Require Import Prelude Errors Model Ports Store PgxRepo OutboxSafety System AppStore.

Set Default Goal Selector "!".
Open Scope string_scope.
Open Scope list_scope.
Open Scope Z_scope.

(** ** Rows held by a transaction *)

Definition message_key (r : Outbox) : string * string := (EventType r, IdempotencyKey r).

(** No row and no unique key of one is a row or a unique key of the other. *)
Definition compatible (w w' : Tables) : Prop :=
  orders w ##ₘ orders w' /\ users w ##ₘ users w' /\ inventory w ##ₘ inventory w'
  /\ notifications w ##ₘ notifications w' /\ outbox w ##ₘ outbox w' /\ inbox w ##ₘ inbox w'
  /\ map_Forall (fun _ u => map_Forall (fun _ v => u_Email u <> u_Email v) (users w')) (users w)
  /\ map_Forall (fun _ r => map_Forall (fun _ s => message_key r <> message_key s) (outbox w'))
       (outbox w).

#[export] Instance compatible_dec w w' : Decision (compatible w w').
Proof. unfold compatible. apply _. Defined.

Lemma compatible_sym w w' : compatible w w' -> compatible w' w.
Proof.
  intros (H1 & H2 & H3 & H4 & H5 & H6 & H7 & H8). repeat split; try (by symmetry).
  - intros id u Hu id' v Hv E. by apply (H7 id' v Hv id u Hu).
  - intros id r Hr id' s Hs E. by apply (H8 id' s Hs id r Hr).
Qed.

Lemma compatible_no_rows w : compatible w no_rows.
Proof.
  repeat split; try apply map_disjoint_empty_r; intros ? ? _ ? ? H;
    cbn in H; by rewrite lookup_empty in H.
Qed.

Lemma compatible_overlay w w1 w2 :
  compatible w w1 -> compatible w w2 -> compatible w (overlay w1 w2).
Proof.
  intros (A1 & A2 & A3 & A4 & A5 & A6 & A7 & A8) (B1 & B2 & B3 & B4 & B5 & B6 & B7 & B8).
  repeat split; cbn; try (by apply map_disjoint_union_r_2); intros id x Hx id' y Hy;
    apply lookup_union_Some_raw in Hy as [Hy|[_ Hy]].
  - exact (A7 id x Hx id' y Hy).
  - exact (B7 id x Hx id' y Hy).
  - exact (A8 id x Hx id' y Hy).
  - exact (B8 id x Hx id' y Hy).
Qed.

(** What the others leave as it was for a transaction that wrote [w]: the rows it
    holds; no message takes the id of one of its own. *)
Record same_on (w c c' : Tables) : Prop := {
  so_orders k : is_Some (orders w !! k) -> orders c' !! k = orders c !! k;
  so_users k : is_Some (users w !! k) -> users c' !! k = users c !! k;
  so_inventory k : is_Some (inventory w !! k) -> inventory c' !! k = inventory c !! k;
  so_notifications k :
    is_Some (notifications w !! k) -> notifications c' !! k = notifications c !! k;
  so_outbox k : is_Some (outbox w !! k) -> outbox c !! k = None -> outbox c' !! k = None
}.

Lemma union_outside {A} (m m' w : gmap string A) k :
  w ##ₘ m -> is_Some (w !! k) -> (m ∪ m') !! k = m' !! k.
Proof.
  intros Hd [x Hx]. apply lookup_union_r. by apply (map_disjoint_Some_l w m k x).
Qed.

Lemma same_on_commit w w' c : compatible w w' -> same_on w c (overlay w' c).
Proof.
  intros (H1 & H2 & H3 & H4 & H5 & _). constructor; cbn; intros k Hk;
    try (eapply union_outside; eassumption).
  intros Hc. rewrite <- Hc. eapply union_outside; eassumption.
Qed.

(** *** The dispatchers *)

Definition with_outbox (t : table) (c : Tables) : Tables :=
  mkTables (orders c) (users c) (inventory c) (notifications c) t (inbox c).

(** The rows of the outbox stay, with all but their delivery state. *)
Definition relayed (t t' : table) : Prop :=
  (forall id r', t' !! id = Some r' -> exists r, t !! id = Some r
     /\ ID r' = ID r /\ message_key r' = message_key r /\ Payload r' = Payload r)
  /\ forall id, is_Some (t !! id) -> is_Some (t' !! id).

(** The calls of the dispatchers. *)
Definition relay_call (c : RepoCall) : bool :=
  match c with RInsert _ | RDelete _ _ => false | _ => system_call c end.

Lemma change_relayed c r r' :
  change c r r' -> ID r' = ID r /\ message_key r' = message_key r /\ Payload r' = Payload r.
Proof. by destruct 1. Qed.

Lemma relayed_call jsonb repo ctx c db :
  env_ok (current_env db) -> keyed (db_table db) -> relay_call c = true ->
  relayed (db_table db) (db_table (repo_call jsonb repo ctx c db)).
Proof.
  intros Henv Hk Hc.
  assert (Hs : system_call c = true) by (by destruct c).
  split.
  - intros id r' Hr'.
    destruct (repo_call_rows jsonb repo ctx c db Henv Hk Hs id r' Hr') as [(r & Hr & Hch)|(p & -> & _)];
      [|discriminate].
    exists r. split; [done|]. by apply (change_relayed c).
  - intros id. apply call_keeps; try done. intros ss d ->. discriminate.
Qed.

(** ** Sessions *)

Record Tx : Type := mkTx {
  tx_rows : Tables;
  tx_aborted : bool
}.
Record Session (R : Type) : Type := mkSession {
  s_prog : Prog R;
  s_tx : option Tx
}.
Arguments mkSession {R}.
Arguments s_prog {R}.
Arguments s_tx {R}.

Definition held_rows {R} (s : Session R) : Tables :=
  match s_tx s with Some tx => tx_rows tx | None => no_rows end.

Record App (R : Type) : Type := mkApp {
  committed : Tables;
  app_env : nat -> StmtEnv;
  app_calls : nat;
  sessions : gmap nat (Session R);
  returned : list (nat * R)
}.
Arguments mkApp {R}.
Arguments committed {R}.
Arguments app_env {R}.
Arguments app_calls {R}.
Arguments sessions {R}.
Arguments returned {R}.

(** A call starts, takes its next step, has it fail ([applied]: after it took
    effect), or dies with its process; a dispatcher calls the repository. *)
Inductive AppEvent (R : Type) : Type :=
| Start (d : nat) (p : Prog R)
| Step (d : nat)
| Failing (d : nat) (err : error) (applied : bool)
| Crash (d : nat)
| Relay (c : RepoCall).
Arguments Start {R}.
Arguments Step {R}.
Arguments Failing {R}.
Arguments Crash {R}.
Arguments Relay {R}.

Definition tx_closed : error := EUser "tx is closed" None [].
Definition tx_failed : error := PgError "25P02" "current transaction is aborted".

Section Run.
Context {R : Type} (jsonb : string -> option string) (repo : OutboxRepo) (ctx : Context).
(** The connections of the pool. *)
Variable max_conns : nat.
Implicit Types (a : App R) (p : Prog R) (s : Session R).

(** Does no session of [m] hold a row or key of [w]? *)
Definition free (w : Tables) (m : gmap nat (Session R)) : bool :=
  bool_decide (map_Forall (fun _ s => compatible (held_rows s) w) m).

Definition connections (m : gmap nat (Session R)) : nat :=
  size (filter (fun kv => is_Some (s_tx kv.2)) m).
Definition has_conn (m : gmap nat (Session R)) : bool := (connections m <? max_conns)%nat.

Definition with_session d s c a : App R :=
  mkApp c (app_env a) (S (app_calls a)) (<[d := s]> (sessions a)) (returned a).

(** The step of session [d]; [None]: it waits. *)
Definition prog_step a d s : option (App R) :=
  let c := committed a in
  let env := app_env a (app_calls a) in
  match s_prog s with
  | Return r =>
      Some (mkApp c (app_env a) (app_calls a) (delete d (sessions a)) (returned a ++ [(d, r)]))
  | Begin k =>
      if has_conn (sessions a)
      then Some (with_session d (mkSession (k None) (Some (mkTx no_rows false))) c a)
      else None
  | Commit k =>
      match s_tx s with
      | None => Some (with_session d (mkSession (k (Some tx_closed)) None) c a)
      | Some tx =>
          if tx_aborted tx then Some (with_session d (mkSession (k (Some tx_failed)) None) c a)
          else Some (with_session d (mkSession (k None) None) (overlay (tx_rows tx) c) a)
      end
  | Rollback k => Some (with_session d (mkSession k None) c a)
  | TxQuery q k =>
      match s_tx s with
      | None => Some (with_session d (mkSession (k (Err tx_closed)) None) c a)
      | Some tx =>
          if tx_aborted tx
          then Some (with_session d (mkSession (k (Err tx_failed)) (Some tx)) c a)
          else
            match q env (overlay (tx_rows tx) c) with
            | Err e =>
                Some (with_session d (mkSession (k (Err e)) (Some (mkTx no_rows true))) c a)
            | Ok (w, x) =>
                if free w (delete d (sessions a))
                then Some (with_session d
                       (mkSession (k (Ok x)) (Some (mkTx (overlay w (tx_rows tx)) false))) c a)
                else None
            end
      end
  | PoolQuery q k =>
      if has_conn (sessions a) then
        match q env c with
        | Err e => Some (with_session d (mkSession (k (Err e)) (s_tx s)) c a)
        | Ok (w, x) =>
            if free w (sessions a)
            then Some (with_session d (mkSession (k (Ok x)) (s_tx s)) (overlay w c) a)
            else None
        end
      else None
  | Ask f k => Some (with_session d (mkSession (k (f env)) (s_tx s)) c a)
  end.

(** The step fails: BEGIN, a query, or COMMIT, whose effect may have taken place. *)
Definition prog_fail a d s (err : error) (applied : bool) : option (App R) :=
  let c := committed a in
  let env := app_env a (app_calls a) in
  match s_prog s with
  | Return _ | Rollback _ | Ask _ _ => None
  | Begin k => Some (with_session d (mkSession (k (Some err)) None) c a)
  | Commit k =>
      let c' := match s_tx s with
                | Some tx => if applied && negb (tx_aborted tx) then overlay (tx_rows tx) c else c
                | None => c
                end in
      Some (with_session d (mkSession (k (Some err)) None) c' a)
  | TxQuery q k =>
      Some (with_session d
              (mkSession (k (Err err)) ((fun _ => mkTx no_rows true) <$> s_tx s)) c a)
  | PoolQuery q k =>
      let c' := match q env c with
                | Ok (w, _) => if applied && free w (sessions a) then overlay w c else c
                | Err _ => c
                end in
      Some (with_session d (mkSession (k (Err err)) (s_tx s)) c' a)
  end.

Definition app_step (e : AppEvent R) a : option (App R) :=
  match e with
  | Start d p =>
      match sessions a !! d with
      | Some _ => None
      | None => Some (with_session d (mkSession p None) (committed a) a)
      end
  | Step d => s ← sessions a !! d; prog_step a d s
  | Failing d err applied => s ← sessions a !! d; prog_fail a d s err applied
  | Crash d =>
      Some (mkApp (committed a) (app_env a) (app_calls a) (delete d (sessions a)) (returned a))
  | Relay c =>
      let db := mkDB (outbox (committed a)) (app_env a) (app_calls a) in
      Some (mkApp (with_outbox (db_table (repo_call jsonb repo ctx c db)) (committed a))
              (app_env a) (S (app_calls a)) (sessions a) (returned a))
  end.

Fixpoint app_run (es : list (AppEvent R)) a : option (App R) :=
  match es with
  | [] => Some a
  | e :: es' => a' ← app_step e a; app_run es' a'
  end.

Lemma app_run_app es1 es2 a : app_run (es1 ++ es2) a = app_run es1 a ≫= app_run es2.
Proof.
  revert a. induction es1 as [|e es1 IH]; intros a; [done|]. cbn.
  destruct (app_step e a) as [a'|]; [apply IH|done].
Qed.
End Run.

Definition app_start {R} (c : Tables) (envs : nat -> StmtEnv) : App R := mkApp c envs 0 ∅ [].

(** ** The logic *)

(** The rows written are [w0], and the committed ones are as [P] says. *)
Definition wrote (w0 : Tables) (P : Tables -> Prop) (c w : Tables) : Prop := w = w0 /\ P c.

(** The invariant of an application: a property of the committed rows, and how
    they may grow; the dispatchers keep both. *)
Class AppInvariant (Good : Tables -> Prop) (grows : Tables -> Tables -> Prop) : Prop := {
  grows_preorder :: PreOrder grows;
  good_keyed c : Good c -> keyed (outbox c);
  good_relay c t : Good c -> relayed (outbox c) t ->
    Good (with_outbox t c) /\ grows c (with_outbox t c)
}.

Section Logic.
Context {R : Type} (Good : Tables -> Prop) (grows : Tables -> Tables -> Prop).
Context `{!AppInvariant Good grows}.

(** Knowledge of the committed rows, and of them and the rows written, that no
    other transaction can make false. *)
Definition stable (F : Tables -> Prop) : Prop := forall c c', grows c c' -> F c -> F c'.
Definition tx_stable (A : Tables -> Tables -> Prop) : Prop :=
  forall c c' w, grows c c' -> same_on w c c' -> A c w -> A c' w.

Inductive Phase : Type :=
| Outside (F : Tables -> Prop)
| Inside (A : Tables -> Tables -> Prop)
| Aborted.

(** Knowledge outside of a transaction that [p] may lose. *)
Definition after_rollback (ph : Phase) : Phase :=
  match ph with Outside F => Outside F | _ => Outside (fun _ => True) end.

Section Valid.
Variable Post : R -> Tables -> Prop.

Fixpoint valid (ph : Phase) (p : Prog R) {struct p} : Prop :=
  match p with
  | Return r =>
      match ph with Outside F => forall c, Good c -> F c -> Post r c | _ => False end
  | Begin k =>
      match ph with
      | Outside F =>
          valid (Inside (wrote no_rows F)) (k None)
          /\ forall e, valid (Outside F) (k (Some e))
      | _ => False
      end
  | Commit k =>
      match ph with
      | Outside _ => False
      | Inside A =>
          (forall c w, Good c -> A c w -> Good (overlay w c) /\ grows c (overlay w c))
          /\ (exists F, stable F /\ (forall c w, Good c -> A c w -> F (overlay w c))
              /\ valid (Outside F) (k None))
          /\ forall e, valid (Outside (fun _ => True)) (k (Some e))
      | Aborted => forall e, valid (Outside (fun _ => True)) (k (Some e))
      end
  | Rollback k => valid (after_rollback ph) k
  | TxQuery q k =>
      match ph with
      | Outside _ => False
      | Inside A =>
          (forall env c w w' x, Good c -> A c w -> q env (overlay w c) = Ok (w', x) ->
            exists B, tx_stable B /\ B c (overlay w' w) /\ valid (Inside B) (k (Ok x)))
          /\ forall e, valid Aborted (k (Err e))
      | Aborted => forall e, valid Aborted (k (Err e))
      end
  | PoolQuery q k =>
      (forall env c w' x, Good c -> q env c = Ok (w', x) ->
        Good (overlay w' c) /\ grows c (overlay w' c))
      /\ match ph with
         | Outside F =>
             (forall env c w' x, Good c -> F c -> q env c = Ok (w', x) ->
               exists F', stable F' /\ F' (overlay w' c) /\ valid (Outside F') (k (Ok x)))
             /\ forall e, valid (Outside F) (k (Err e))
         | Inside A =>
             (forall env c w w' x, Good c -> A c w -> q env c = Ok (w', x) ->
               compatible w w' ->
               exists B, tx_stable B /\ B (overlay w' c) w /\ valid (Inside B) (k (Ok x)))
             /\ forall e, valid (Inside A) (k (Err e))
         | Aborted => forall a, valid Aborted (k a)
         end
  | Ask f k => forall x, valid ph (k x)
  end.

(** *** What the logic gives *)

Definition holds (c : Tables) (s : Session R) : Prop :=
  match s_tx s with
  | None => exists F, stable F /\ F c /\ valid (Outside F) (s_prog s)
  | Some tx =>
      if tx_aborted tx then tx_rows tx = no_rows /\ valid Aborted (s_prog s)
      else exists A, tx_stable A /\ A c (tx_rows tx) /\ valid (Inside A) (s_prog s)
  end.

Record AppInv (a : App R) : Prop := {
  ai_env n : env_ok (app_env a n);
  ai_good : Good (committed a);
  ai_sessions d s : sessions a !! d = Some s -> holds (committed a) s;
  ai_apart d1 d2 s1 s2 : d1 <> d2 -> sessions a !! d1 = Some s1 -> sessions a !! d2 = Some s2 ->
    compatible (held_rows s1) (held_rows s2);
  ai_returned d r : (d, r) ∈ returned a -> Post r (committed a)
}.

(** The events a run of the application consists of. *)
Definition app_event (e : AppEvent R) : Prop :=
  match e with
  | Start _ p => valid (Outside (fun _ => True)) p
  | Relay c => relay_call c = true
  | _ => True
  end.

Hypothesis Post_stable : forall r, stable (Post r).

Lemma holds_grows c c' s : grows c c' -> same_on (held_rows s) c c' -> holds c s -> holds c' s.
Proof.
  unfold holds, held_rows. intros Hg Hs. destruct (s_tx s) as [tx|].
  - destruct (tx_aborted tx); [done|]. intros (A & HA & H & Hv).
    exists A. split; [done|]. split; [|done]. by apply (HA c c').
  - intros (F & HF & H & Hv). exists F. split; [done|]. split; [|done]. by apply (HF c c').
Qed.

(** The committed rows move to [c'], and session [d] to [s]. *)
Lemma inv_move a d s c' n :
  AppInv a -> Good c' -> grows (committed a) c' -> holds c' s ->
  (forall d' s', d' <> d -> sessions a !! d' = Some s' ->
     compatible (held_rows s') (held_rows s) /\ same_on (held_rows s') (committed a) c') ->
  AppInv (mkApp c' (app_env a) n (<[d := s]> (sessions a)) (returned a)).
Proof.
  intros Hinv Hgood Hgrows Hs Hothers. constructor; cbn.
  - apply (ai_env _ Hinv).
  - done.
  - intros d' s'. rewrite lookup_insert. case_decide as E; [by intros [= <-]|].
    intros Hs'. apply (holds_grows (committed a)); [done| |by apply (ai_sessions _ Hinv d')].
    by apply (Hothers d').
  - intros d1 d2 s1 s2 Hne. rewrite !lookup_insert. do 2 case_decide; intros; simplify_eq.
    + apply compatible_sym. by apply (Hothers d2).
    + by apply (Hothers d1).
    + by apply (ai_apart _ Hinv d1 d2).
  - intros d' r Hr. apply (Post_stable r (committed a)); [done|]. by apply (ai_returned _ Hinv d').
Qed.

(** The usual case: the session keeps or drops the rows it held. *)
Lemma app_inv_session a d s s' n :
  AppInv a -> sessions a !! d = Some s -> holds (committed a) s' ->
  held_rows s' = held_rows s \/ held_rows s' = no_rows ->
  AppInv (mkApp (committed a) (app_env a) n (<[d := s']> (sessions a)) (returned a)).
Proof.
  intros Hinv Hd Hs Hrows. apply inv_move; try done; [apply (ai_good _ Hinv)|].
  intros d' s'' Hne Hd'. split; [|by constructor].
  destruct Hrows as [-> | ->]; [by apply (ai_apart _ Hinv d' d)|apply compatible_no_rows].
Qed.

Lemma inv_drop a d ret :
  AppInv a -> (forall d' r, (d', r) ∈ ret -> Post r (committed a)) ->
  AppInv (mkApp (committed a) (app_env a) (app_calls a) (delete d (sessions a)) ret).
Proof.
  intros Hinv Hret. constructor; cbn.
  - apply (ai_env _ Hinv).
  - apply (ai_good _ Hinv).
  - intros d' s'. rewrite lookup_delete_Some. intros [_ H]. by apply (ai_sessions _ Hinv d').
  - intros d1 d2 s1 s2 Hne. rewrite !lookup_delete_Some. intros [_ H1] [_ H2].
    by apply (ai_apart _ Hinv d1 d2).
  - done.
Qed.

Lemma free_spec w (m : gmap nat (Session R)) :
  free w m = true -> forall d s, m !! d = Some s -> compatible (held_rows s) w.
Proof. unfold free. rewrite bool_decide_eq_true. intros H d s Hs. apply (H d s Hs). Qed.

(** A commit of [w] by session [d], which then holds nothing. *)
Lemma app_inv_commit a d s s' w n :
  AppInv a -> sessions a !! d = Some s -> Good (overlay w (committed a)) ->
  grows (committed a) (overlay w (committed a)) -> holds (overlay w (committed a)) s' ->
  held_rows s' = no_rows \/ held_rows s' = held_rows s ->
  (forall d' s'', d' <> d -> sessions a !! d' = Some s'' -> compatible (held_rows s'') w) ->
  AppInv (mkApp (overlay w (committed a)) (app_env a) n (<[d := s']> (sessions a)) (returned a)).
Proof.
  intros Hinv Hd Hgood Hgrows Hs Hrows Hw. apply inv_move; try done.
  intros d' s'' Hne Hd'. split; [|by apply same_on_commit, (Hw d')].
  destruct Hrows as [-> | ->]; [apply compatible_no_rows|by apply (ai_apart _ Hinv d' d)].
Qed.

Lemma holds_outside c p F : stable F -> F c -> valid (Outside F) p -> holds c (mkSession p None).
Proof. intros HF H Hv. by exists F. Qed.

Lemma holds_true c p : valid (Outside (fun _ => True)) p -> holds c (mkSession p None).
Proof. by apply (holds_outside _ _ (fun _ => True)). Qed.

Lemma holds_inside c p w A :
  tx_stable A -> A c w -> valid (Inside A) p ->
  holds c (mkSession p (Some (mkTx w false))).
Proof. intros HA H Hv. by exists A. Qed.

Lemma holds_aborted c p :
  valid Aborted p -> holds c (mkSession p (Some (mkTx no_rows true))).
Proof. done. Qed.

Lemma rollback_holds c s k :
  holds c s -> s_prog s = Rollback k -> holds c (mkSession k None).
Proof.
  unfold holds. intros H E. rewrite E in H. destruct (s_tx s) as [tx|]; cbn in *.
  - exists (fun _ => True). split; [done|]. split; [done|].
    destruct (tx_aborted tx); [by destruct H|by destruct H as (A & _ & _ & H)].
  - exact H.
Qed.

Lemma ask_holds {A} c s (f : StmtEnv -> A) k x :
  holds c s -> s_prog s = Ask f k -> holds c (mkSession (k x) (s_tx s)).
Proof.
  unfold holds. intros H E. rewrite E in H. cbn. destruct (s_tx s) as [tx|]; cbn in *.
  - destruct (tx_aborted tx); [split; [apply H|]; destruct H as [_ H]; apply H|].
    destruct H as (B & HB & H & Hv). exists B. eauto.
  - destruct H as (F & HF & H & Hv). exists F. eauto.
Qed.

(** A query of a transaction: its answer, or its failure. *)
Lemma tx_query_holds {A} c s (q : Query A) k :
  holds c s -> s_prog s = TxQuery q k ->
  exists tx, s_tx s = Some tx
    /\ (tx_aborted tx = true -> tx_rows tx = no_rows)
    /\ (forall e, holds c (mkSession (k (Err e)) (Some (mkTx no_rows true))))
    /\ (tx_aborted tx = false -> Good c -> forall env w x, q env (overlay (tx_rows tx) c) = Ok (w, x) ->
        holds c (mkSession (k (Ok x)) (Some (mkTx (overlay w (tx_rows tx)) false)))).
Proof.
  unfold holds at 1. intros H E. rewrite E in H.
  destruct (s_tx s) as [tx|]; [|by destruct H as (F & _ & _ & [])].
  exists tx. split; [done|]. destruct (tx_aborted tx).
  - destruct H as [Hrows Hv]. split; [done|]. split; [by intros e; apply holds_aborted|done].
  - destruct H as (B & HB & H & Hok & Herr). split; [done|].
    split; [by intros e; apply holds_aborted|].
    intros _ Hgood env w x Hq. destruct (Hok env c _ w x Hgood H Hq) as (B' & ? & ? & ?).
    by apply (holds_inside _ _ _ B').
Qed.

Lemma commit_holds c s k :
  holds c s -> Good c -> s_prog s = Commit k ->
  exists tx, s_tx s = Some tx
    /\ (forall e, forall c', holds c' (mkSession (k (Some e)) None))
    /\ (tx_aborted tx = false ->
        Good (overlay (tx_rows tx) c) /\ grows c (overlay (tx_rows tx) c)
        /\ holds (overlay (tx_rows tx) c) (mkSession (k None) None)).
Proof.
  unfold holds at 1. intros H Hgood E. rewrite E in H.
  destruct (s_tx s) as [tx|]; [|by destruct H as (F & _ & _ & [])].
  exists tx. split; [done|]. destruct (tx_aborted tx).
  - destruct H as [_ Hv]. split; [|done]. intros e c'. apply holds_true, Hv.
  - destruct H as (B & HB & H & Hcommit & (F & HF & HFc & Hv) & Herr).
    split; [intros e c'; apply holds_true, Herr|]. intros _.
    destruct (Hcommit c _ Hgood H). split; [done|]. split; [done|].
    apply (holds_outside _ _ F); auto.
Qed.

(** A query on the pool. *)
Lemma pool_query_holds {A} c s (q : Query A) k :
  holds c s -> Good c -> s_prog s = PoolQuery q k ->
  (forall e, holds c (mkSession (k (Err e)) (s_tx s)))
  /\ forall env w x, q env c = Ok (w, x) ->
     compatible (held_rows s) w ->
     Good (overlay w c) /\ grows c (overlay w c)
     /\ holds (overlay w c) (mkSession (k (Ok x)) (s_tx s)).
Proof.
  unfold holds at 1, held_rows. intros H Hgood E. rewrite E in H. unfold holds at 1 2. cbn [s_tx s_prog].
  destruct (s_tx s) as [tx|].
  - destruct (tx_aborted tx).
    + destruct H as [Hrows [Hkeep Hv]]. split; [by intros e|]. intros env w x Hq _.
      destruct (Hkeep env c w x Hgood Hq). by repeat split.
    + destruct H as (B & HB & H & Hkeep & Hok & Herr). split; [intros e; by exists B|].
      intros env w x Hq Hw. destruct (Hkeep env c w x Hgood Hq). split; [done|]. split; [done|].
      destruct (Hok env c (tx_rows tx) w x Hgood H Hq Hw) as (B' & ? & ? & ?). by exists B'.
  - destruct H as (F & HF & H & Hkeep & Hok & Herr). split; [intros e; by exists F|].
    intros env w x Hq _. destruct (Hkeep env c w x Hgood Hq). split; [done|]. split; [done|].
    destruct (Hok env c w x Hgood H Hq) as (F' & ? & ? & ?). by exists F'.
Qed.

Lemma prog_step_inv max_conns a d s a' :
  AppInv a -> sessions a !! d = Some s -> prog_step max_conns a d s = Some a' -> AppInv a'.
Proof.
  intros Hinv Hd. pose proof (ai_sessions _ Hinv d s Hd) as H. pose proof (ai_good _ Hinv) as Hg.
  unfold prog_step. destruct (s_prog s) as [r|k|k|k|A q k|A q k|A f k] eqn:E.
  - intros [= <-]. apply inv_drop; [done|]. intros d' r'. rewrite elem_of_app, list_elem_of_singleton.
    intros [Hr|[= -> ->]]; [by apply (ai_returned _ Hinv d')|].
    unfold holds in H. rewrite E in H. destruct (s_tx s) as [tx|].
    + destruct (tx_aborted tx); [by destruct H as [_ []]|by destruct H as (? & _ & _ & [])].
    + destruct H as (F & _ & HF & Hv). by apply Hv.
  - destruct (has_conn _ _); [|done]. intros [= <-].
    apply (app_inv_session a d s); try done; [|by right]. unfold holds in H |- *. rewrite E in H. cbn.
    destruct (s_tx s) as [tx|].
    + destruct (tx_aborted tx); [by destruct H as [_ []]|by destruct H as (? & _ & _ & [])].
    + destruct H as (F & HF & H & Hv & _). eexists. split; [|split; [|exact Hv]]; [|done].
      intros c c' w Hgr _ [-> Hc]. split; [done|by apply (HF c)].
  - destruct (commit_holds _ _ _ H Hg E) as (tx & Etx & Herr & Hok). rewrite Etx.
    destruct (tx_aborted tx).
    + intros [= <-]. apply (app_inv_session a d s); first [done|apply Herr|by right].
    + destruct (Hok eq_refl) as (? & ? & ?). intros [= <-].
      apply (app_inv_commit a d s); try done; [by left|].
      intros d' s' Hne Hd'. pose proof (ai_apart _ Hinv d' d s' s Hne Hd' Hd) as Hc.
      unfold held_rows at 2 in Hc. by rewrite Etx in Hc.
  - intros [= <-]. apply (app_inv_session a d s); try done; [|by right]. by apply (rollback_holds _ s).
  - destruct (tx_query_holds _ _ _ _ H E) as (tx & Etx & Hrows & Herr & Hok). rewrite Etx.
    destruct (tx_aborted tx) eqn:Eab.
    + intros [= <-]. apply (app_inv_session a d s); try done; [|by right; apply Hrows].
      destruct tx as [rows ab]; cbn in *. rewrite Eab, (Hrows eq_refl). apply Herr.
    + destruct (q _ _) as [[w x]|e] eqn:Eq.
      * destruct (free w _) eqn:Efree; [|done]. intros [= <-].
        apply inv_move; try done; [by eapply Hok|]. intros d' s' Hne Hd'. split; [|done].
        apply compatible_overlay.
        -- apply (free_spec _ _ Efree d'). by rewrite lookup_delete_ne.
        -- pose proof (ai_apart _ Hinv d' d s' s Hne Hd' Hd) as Hc.
           unfold held_rows at 2 in Hc. by rewrite Etx in Hc.
      * intros [= <-]. apply (app_inv_session a d s); first [done|apply Herr|by right].
  - destruct (pool_query_holds _ _ _ _ H Hg E) as [Herr Hok]. destruct (has_conn _ _); [|done].
    destruct (q _ _) as [[w x]|e] eqn:Eq.
    + destruct (free w _) eqn:Efree; [|done]. intros [= <-]. pose proof (free_spec _ _ Efree) as Hf.
      destruct (Hok _ w x Eq (Hf d s Hd)) as (? & ? & ?).
      apply (app_inv_commit a d s); try done; [by right|]. intros d' s' _. apply Hf.
    + intros [= <-]. apply (app_inv_session a d s); first [done|apply Herr|by left].
  - intros [= <-]. apply (app_inv_session a d s); try done; [by apply (ask_holds _ s f)|by left].
Qed.

Lemma prog_fail_inv a d s err applied a' :
  AppInv a -> sessions a !! d = Some s -> prog_fail a d s err applied = Some a' -> AppInv a'.
Proof.
  intros Hinv Hd. pose proof (ai_sessions _ Hinv d s Hd) as H. pose proof (ai_good _ Hinv) as Hg.
  unfold prog_fail. destruct (s_prog s) as [r|k|k|k|A q k|A q k|A f k] eqn:E; try done.
  - intros [= <-]. apply (app_inv_session a d s); try done; [|by right].
    unfold holds in H |- *. rewrite E in H. cbn. destruct (s_tx s) as [tx|].
    + destruct (tx_aborted tx); [by destruct H as [_ []]|by destruct H as (? & _ & _ & [])].
    + destruct H as (F & HF & H & _ & Hv). exists F. auto.
  - destruct (commit_holds _ _ _ H Hg E) as (tx & Etx & Herr & Hok). rewrite Etx.
    destruct (applied && negb (tx_aborted tx)) eqn:Eap; intros [= <-].
    + apply andb_true_iff in Eap as [_ Eab%negb_true_iff]. destruct (Hok Eab) as (? & ? & _).
      apply (app_inv_commit a d s); first [done|apply Herr|by left|idtac].
      intros d' s' Hne Hd'. pose proof (ai_apart _ Hinv d' d s' s Hne Hd' Hd) as Hc.
      unfold held_rows at 2 in Hc. by rewrite Etx in Hc.
    + apply (app_inv_session a d s); first [done|apply Herr|by right].
  - destruct (tx_query_holds _ _ _ _ H E) as (tx & -> & _ & Herr & _). intros [= <-].
    apply (app_inv_session a d s); first [done|apply Herr|by right].
  - destruct (pool_query_holds _ _ _ _ H Hg E) as [Herr Hok].
    destruct (q _ _) as [[w x]|e] eqn:Eq; [destruct (applied && free w (sessions a)) eqn:Eap|];
      intros [= <-]; try (apply (app_inv_session a d s); first [done|apply Herr|by left]).
    apply andb_true_iff in Eap as [_ Efree]. pose proof (free_spec _ _ Efree) as Hf.
    destruct (Hok _ w x Eq (Hf d s Hd)) as (? & ? & _).
    apply (app_inv_commit a d s); try done; [|by right|intros d' s' _; apply Hf].
    apply (holds_grows (committed a)); [done|apply same_on_commit, (Hf d s Hd)|apply Herr].
Qed.

Context (jsonb : string -> option string) (repo : OutboxRepo) (ctx : Context).

Lemma relay_inv max_conns c a a' :
  AppInv a -> relay_call c = true ->
  app_step jsonb repo ctx max_conns (Relay c) a = Some a' -> AppInv a'.
Proof.
  intros Hinv Hc [= <-]. set (db := mkDB _ _ _). pose proof (ai_good _ Hinv) as Hg.
  assert (Hrel : relayed (outbox (committed a)) (db_table (repo_call jsonb repo ctx c db))).
  { apply (relayed_call jsonb repo ctx c db); [apply (ai_env _ Hinv)|by apply good_keyed|done]. }
  destruct (good_relay _ _ Hg Hrel) as [Hg' Hgrows].
  constructor; cbn; [apply (ai_env _ Hinv)|done| |apply (ai_apart _ Hinv)|].
  - intros d s Hs. apply (holds_grows (committed a)); [done| |by apply (ai_sessions _ Hinv d)].
    constructor; try done. intros k _ Hk. cbn. apply eq_None_not_Some. intros [r' Er].
    destruct (proj1 Hrel k r' Er) as (r & Hr & _). cbn in Hr. congruence.
  - intros d r Hr. apply (Post_stable r (committed a)); [done|]. by apply (ai_returned _ Hinv d).
Qed.

Lemma app_step_inv max_conns e a a' :
  AppInv a -> app_event e -> app_step jsonb repo ctx max_conns e a = Some a' -> AppInv a'.
Proof.
  intros Hinv He. destruct e as [d p|d|d err applied|d|c].
  - cbn. destruct (sessions a !! d); [done|]. intros [= <-].
    apply inv_move; try done; [apply (ai_good _ Hinv)|by apply holds_true|].
    intros d' s' _ _. split; [apply compatible_no_rows|done].
  - cbn. destruct (sessions a !! d) as [s|] eqn:Hd; [|done]. by apply prog_step_inv.
  - cbn. destruct (sessions a !! d) as [s|] eqn:Hd; [|done]. by apply prog_fail_inv.
  - intros [= <-]. apply inv_drop; [done|]. apply (ai_returned _ Hinv).
  - by apply relay_inv.
Qed.

(** Soundness: a run whose calls are valid keeps the invariant of the
    application, and what a call returned stays true. *)
Lemma app_run_inv max_conns es : forall a a',
  AppInv a -> Forall app_event es -> app_run jsonb repo ctx max_conns es a = Some a' -> AppInv a'.
Proof.
  induction es as [|e es IH]; cbn; intros a a' Hinv Hes; [by intros [= <-]|].
  apply Forall_cons in Hes as [He Hes].
  destruct (app_step jsonb repo ctx max_conns e a) as [a1|] eqn:E; [|done].
  apply (IH a1); [by apply (app_step_inv max_conns e a)|done].
Qed.

Lemma app_start_inv c envs :
  (forall n, env_ok (envs n)) -> Good c -> AppInv (app_start c envs).
Proof.
  intros He Hg. constructor; cbn; try done. intros d r H. by apply elem_of_nil in H.
Qed.
End Valid.
End Logic.

(** *** Rules for the ways programs are written *)

Section Rules.
Context {R : Type} {Good : Tables -> Prop} {grows : Tables -> Tables -> Prop}.
Context `{!AppInvariant Good grows}.

Lemma valid_bind {S} (Q : R -> Tables -> Prop) (Post : S -> Tables -> Prop)
    (f : R -> Prog S) :
  (forall r F, (forall c, Good c -> F c -> Q r c) ->
     valid Good grows Post (Outside F) (f r)) ->
  forall p ph, valid Good grows Q ph p -> valid Good grows Post ph (p ≫= f).
Proof.
  intros Hf. induction p as [r|k IH|k IH|p IH|A q k IH|A q k IH|A g k IH]; intros ph H;
    cbn [mbind Prog_bind valid] in *.
  - destruct ph; try done. by apply Hf.
  - destruct ph; try done. destruct H as [H1 H2]. split; [by apply IH|]. intros e. by apply IH.
  - destruct ph as [F|B|]; [done| |].
    + destruct H as (H1 & (F & HF & H2 & H3) & H4). split; [done|].
      split; [exists F; split; [done|]; split; [done|]; by apply IH|]. intros e. by apply IH.
    + intros e. by apply IH.
  - by apply IH.
  - destruct ph as [F|B|]; [done| |].
    + destruct H as [H1 H2]. split; [|intros e; by apply IH]. intros env c w w' x Hc HB Hq.
      destruct (H1 env c w w' x Hc HB Hq) as (B' & ? & ? & ?). exists B'. eauto.
    + intros e. by apply IH.
  - destruct H as [H0 H]. split; [done|]. destruct ph as [F|B|].
    + destruct H as [H1 H2]. split; [|intros e; by apply IH]. intros env c w' x Hc HF Hq.
      destruct (H1 env c w' x Hc HF Hq) as (F' & ? & ? & ?). exists F'. eauto.
    + destruct H as [H1 H2]. split; [|intros e; by apply IH]. intros env c w w' x Hc HB Hq Hw.
      destruct (H1 env c w w' x Hc HB Hq Hw) as (B' & ? & ? & ?). exists B'. eauto.
    + intros a. by apply IH.
  - intros x. by apply IH.
Qed.

Lemma wrote_stable w0 P :
  (forall c c', grows c c' -> same_on w0 c c' -> P c -> P c') -> tx_stable grows (wrote w0 P).
Proof. intros H c c' w Hg Hs [-> HP]. split; [done|]. by apply (H c). Qed.

(** A program valid on less knowledge is valid on more. *)
Definition knows_more (ph1 ph2 : Phase) : Prop :=
  match ph1, ph2 with
  | Outside F1, Outside F2 => forall c, F1 c -> F2 c
  | Inside A1, Inside A2 => forall c w, A1 c w -> A2 c w
  | Aborted, Aborted => True
  | _, _ => False
  end.

Lemma valid_weaken (Q : R -> Tables -> Prop) p : forall ph1 ph2,
  knows_more ph1 ph2 -> valid Good grows Q ph2 p -> valid Good grows Q ph1 p.
Proof.
  induction p as [r|k IH|k IH|p IH|A q k IH|A q k IH|A g k IH]; intros ph1 ph2 Hk;
    destruct ph1 as [F1|A1|], ph2 as [F2|A2|]; try done; cbn [valid knows_more] in *.
  - intros H c Hc HF. by apply H, Hk.
  - intros [H1 H2]. split; [|intros e; by apply (IH _ _ (Outside F2))].
    apply (IH _ _ (Inside (wrote no_rows F2))); [|done]. intros c w [-> HF]. split; [done|auto].
  - intros (H1 & (F & HF & H2 & H3) & H4). split; [auto|]. split; [|done]. exists F. auto.
  - by apply (IH _ (Outside F2)).
  - intros [H1 H2]. split; [|done]. eauto.
  - intros [H0 [H1 H2]]. split; [done|]. split; [eauto|]. intros e. by apply (IH _ _ (Outside F2)).
  - intros [H0 [H1 H2]]. split; [done|]. split; [eauto|]. intros e. by apply (IH _ _ (Inside A2)).
  - intros H x. by apply (IH x _ (Outside F2)).
  - intros H x. by apply (IH x _ (Inside A2)).
Qed.

Section Transaction.
Context {A : Type} (Q : result error A -> Tables -> Prop).
(** Nothing is promised of a call that failed. *)
Hypothesis Q_err : forall e c, Q (Err e) c.
Abbreviation valid_call := (valid Good grows Q).

Lemma valid_failed ph err : valid_call ph (defer_Rollback (mret (Err err))).
Proof. destruct ph; cbn; intros; apply Q_err. Qed.

Lemma valid_begin text (k : Prog (result error A)) :
  valid_call (Inside (wrote no_rows (fun _ => True))) (defer_Rollback k) ->
  valid_call (Outside (fun _ => True)) (check pool_Begin text (defer_Rollback k)).
Proof.
  intros H. cbn. split; [exact H|]. intros e c _ _. apply Q_err.
Qed.

Lemma valid_ask {B} (f : StmtEnv -> B) (k : B -> Prog (result error A)) ph :
  (forall x, valid_call ph (defer_Rollback (k x))) ->
  valid_call ph (defer_Rollback (Ask f mret ≫= k)).
Proof. done. Qed.

Lemma valid_try {B} (m : result error B) text (k : B -> Prog (result error A)) ph :
  (forall x, m = Ok x -> valid_call ph (defer_Rollback (k x))) ->
  valid_call ph (defer_Rollback (try (mret m) text k)).
Proof. intros H. destruct m as [x|e]; [by apply H|apply valid_failed]. Qed.

(** A query of the transaction after which the call goes on if it affected a
    row, or in any case. *)
Lemma valid_affected q t missing text (k : Prog (result error A)) (B : Tables -> Tables -> Prop) :
  (forall env c w w' n, Good c -> B c w -> q env (overlay w c) = Ok (w', n) -> n <> 0 ->
     exists B', tx_stable grows B' /\ B' c (overlay w' w)
       /\ valid_call (Inside B') (defer_Rollback k)) ->
  valid_call (Inside B)
    (defer_Rollback (check (answer ← tx_Exec q; mret (affected answer t missing)) text k)).
Proof.
  intros H. cbn. split; [|intros e c _ _; apply Q_err]. intros env c w w' n Hc HB Hq.
  destruct (n =? 0) eqn:En.
  - exists (fun _ _ => True). split; [done|]. split; [done|]. cbn. intros; apply Q_err.
  - apply Z.eqb_neq in En. by apply (H env c w w' n).
Qed.

Lemma valid_executed {X} (q : Query X) t text (k : Prog (result error A))
    (B : Tables -> Tables -> Prop) :
  (forall env c w w' x, Good c -> B c w -> q env (overlay w c) = Ok (w', x) ->
     exists B', tx_stable grows B' /\ B' c (overlay w' w)
       /\ valid_call (Inside B') (defer_Rollback k)) ->
  valid_call (Inside B)
    (defer_Rollback (check (answer ← tx_Exec q; mret (executed answer t)) text k)).
Proof.
  intros H. cbn. split; [|intros e c _ _; apply Q_err]. intros env c w w' x Hc HB Hq.
  by apply (H env c w w' x).
Qed.

(** The end of a call: COMMIT, and the deferred ROLLBACK that does nothing. *)
Lemma valid_commit text a (B : Tables -> Tables -> Prop) :
  (forall r, stable grows (Q r)) ->
  (forall c w, Good c -> B c w ->
     (Good (overlay w c) /\ grows c (overlay w c)) /\ Q (Ok a) (overlay w c)) ->
  valid_call (Inside B) (defer_Rollback (check tx_Commit text (mret (Ok a)))).
Proof.
  intros HQ H. cbn. split; [intros; by apply H|]. split; [|intros e c _ _; apply Q_err].
  exists (Q (Ok a)). split; [apply HQ|]. split; [intros; by apply H|]. done.
Qed.
End Transaction.
End Rules.
