(* ===== verification/Services.v ===== *)
(** * The services of the example application

    examples/app/internal/service: each call changes the tables of the
    application and inserts its message into the outbox in one transaction.
    The invariant of the shop says what that gives: an order, a user or a
    notification is there exactly when its message is, and the stock is the
    seeded one less what the orders took. *)

From Stdlib Require Import ZArith Lia.
From stdpp Require Import base option list strings pretty gmap fin_maps.
From S2P Require Import Prelude Errors Model Ports Store PgxRepo OutboxSafety System Inbox AppStore.
From S2P Require Import AppTx.

Set Default Goal Selector "!".
Open Scope string_scope.
Open Scope list_scope.
Open Scope Z_scope.

(** ** The events *)

Record OrderCreatedEvent : Type := mkOrderCreatedEvent {
  oce_OrderID : UUID;
  oce_UserID : UUID;
  oce_ProductID : string;
  oce_Quantity : Z;
  oce_TotalPrice : Z;
  oce_CreatedAt : Z
}.

Record OrderConfirmedEvent : Type := mkOrderConfirmedEvent {
  ofe_OrderID : UUID;
  ofe_UserID : UUID;
  ofe_ProductID : string;
  ofe_Quantity : Z
}.

Record UserRegisteredEvent : Type := mkUserRegisteredEvent {
  ure_UserID : UUID;
  ure_Email : string;
  ure_Name : string;
  ure_CreatedAt : Z
}.

Record UserUpdatedEvent : Type := mkUserUpdatedEvent {
  uue_UserID : UUID;
  uue_Name : string;
  uue_Status : UserStatus;
  uue_UpdatedAt : Z
}.

Record NotificationSendEvent : Type := mkNotificationSendEvent {
  nse_NotificationID : UUID;
  nse_Type : NotificationType;
  nse_Recipient : string;
  nse_Subject : string;
  nse_Body : string;
  nse_CreatedAt : Z
}.

(** [json.Marshal] of the events. *)
Class EventEncoding : Type := {
  marshal_OrderCreated : OrderCreatedEvent -> result error string;
  marshal_OrderConfirmed : OrderConfirmedEvent -> result error string;
  marshal_UserRegistered : UserRegisteredEvent -> result error string;
  marshal_UserUpdated : UserUpdatedEvent -> result error string;
  marshal_NotificationSend : NotificationSendEvent -> result error string
}.

(** ** The calls

    A Go function that gives only an error is a [result error unit]. *)

Section Services.
Context {encoding : EventEncoding} (jsonb : string -> option string).

Definition publish_event (eventType : string) (payload : result error string) (key : string)
    (maxAttempts : Z) {A} (k : Prog (result error A)) : Prog (result error A) :=
  try (mret payload) "failed to marshal event" (fun payload =>
  try (outboxTx_Insert jsonb (mkParams eventType (Some payload) None key maxAttempts))
      "failed to insert outbox message" (fun _ => k)).

Definition CreateOrder (req : CreateOrderRequest) : Prog (result error Order) :=
  check pool_Begin "failed to begin transaction" (defer_Rollback (
  check (InventoryRepository_Reserve (co_ProductID req) (co_Quantity req))
        "failed to reserve inventory" (
  id ← uuid_New; createdAt ← time_now; updatedAt ← time_now;
  let order := mkOrder id (co_UserID req) (co_ProductID req) (co_Quantity req)
                 (co_TotalPrice req) OrderStatusPending createdAt updatedAt in
  check (OrderRepository_Create order) "failed to create order" (
  let event := mkOrderCreatedEvent (o_ID order) (o_UserID order) (o_ProductID order)
                 (o_Quantity order) (o_TotalPrice order) (o_CreatedAt order) in
  publish_event "order.created" (marshal_OrderCreated event) (o_ID order) 5 (
  check tx_Commit "failed to commit transaction" (
  mret (Ok order))))))).

Definition confirmed_key (orderID : UUID) : string := "order-confirmed-" +:+ orderID.

(** [GetByID] reads on the pool, not in the transaction. *)
Definition ConfirmOrder (orderID : UUID) : Prog (result error unit) :=
  check pool_Begin "failed to begin transaction" (defer_Rollback (
  try (OrderRepository_GetByID orderID) "failed to get order" (fun order =>
  check (OrderRepository_UpdateStatus orderID OrderStatusConfirmed)
        "failed to update order status" (
  check (InventoryRepository_Decrease (o_ProductID order) (o_Quantity order))
        "failed to decrease inventory" (
  let event := mkOrderConfirmedEvent orderID (o_UserID order) (o_ProductID order)
                 (o_Quantity order) in
  publish_event "order.confirmed" (marshal_OrderConfirmed event) (confirmed_key orderID) 5 (
  check tx_Commit "failed to commit transaction" (
  mret (Ok tt)))))))).

Definition RegisterUser (req : CreateUserRequest) : Prog (result error User) :=
  check pool_Begin "failed to begin transaction" (defer_Rollback (
  id ← uuid_New; createdAt ← time_now; updatedAt ← time_now;
  let user := mkUser id (cu_Email req) (cu_Name req) UserStatusActive createdAt updatedAt in
  check (UserRepository_Create user) "failed to create user" (
  let event := mkUserRegisteredEvent (u_ID user) (u_Email user) (u_Name user)
                 (u_CreatedAt user) in
  publish_event "user.registered" (marshal_UserRegistered event) (u_ID user) 5 (
  check tx_Commit "failed to commit transaction" (
  mret (Ok user)))))).

(** [UnixNano] of the clock. *)
Definition updated_key (userID : UUID) (now : Z) : string :=
  "user-updated-" +:+ userID +:+ "-" +:+ pretty now.

Definition UpdateUser (userID : UUID) (req : UpdateUserRequest) : Prog (result error unit) :=
  check pool_Begin "failed to begin transaction" (defer_Rollback (
  check (UserRepository_Update userID req) "failed to update user" (
  updatedAt ← time_now;
  let event := mkUserUpdatedEvent userID (uu_Name req) (uu_Status req) updatedAt in
  try (mret (marshal_UserUpdated event)) "failed to marshal event" (fun payload =>
  now ← time_now;
  try (outboxTx_Insert jsonb
         (mkParams "user.updated" (Some payload) None (updated_key userID now) 5))
      "failed to insert outbox message" (fun _ =>
  check tx_Commit "failed to commit transaction" (
  mret (Ok tt))))))).

Definition notification_event (type : NotificationType) : string := "notification." +:+ type.

Definition SendNotification (req : SendNotificationRequest) : Prog (result error Notification) :=
  check pool_Begin "failed to begin transaction" (defer_Rollback (
  id ← uuid_New; createdAt ← time_now; updatedAt ← time_now;
  let notification := mkNotification id (sn_Type req) (sn_Recipient req) (sn_Subject req)
                        (sn_Body req) NotificationStatusPending createdAt updatedAt in
  check (NotificationRepository_Create notification) "failed to create notification" (
  let event := mkNotificationSendEvent (n_ID notification) (n_Type notification)
                 (n_Recipient notification) (n_Subject notification) (n_Body notification)
                 (n_CreatedAt notification) in
  publish_event (notification_event (n_Type notification)) (marshal_NotificationSend event)
    (n_ID notification) 3 (
  check tx_Commit "failed to commit transaction" (
  mret (Ok notification)))))).
End Services.

(** ** The invariant of the shop *)

Definition has_message (c : Tables) (eventType key : string) : Prop :=
  exists m r, outbox c !! m = Some r /\ message_key r = (eventType, key).

Definition order_ok (allowed : Z -> Prop) (c : Tables) (id : UUID) (o : Order) : Prop :=
  o_ID o = id /\ allowed (o_Quantity o) /\ has_message c "order.created" id
  /\ (o_Status o = OrderStatusPending
      \/ o_Status o = OrderStatusConfirmed /\ has_message c "order.confirmed" (confirmed_key id)).

(** The rows a message speaks of. *)
Definition origin (c : Tables) (key : string * string) : Prop :=
  (key.1 = "order.created" -> is_Some (orders c !! key.2))
  /\ (key.1 = "order.confirmed" -> exists id o,
        key.2 = confirmed_key id /\ orders c !! id = Some o /\ o_Status o = OrderStatusConfirmed)
  /\ (key.1 = "user.registered" -> is_Some (users c !! key.2))
  /\ forall type, key.1 = notification_event type -> is_Some (notifications c !! key.2).

(** What the orders of a status take of a product. *)
Definition share (status : OrderStatus) (product : string) (o : Order) : Z :=
  if bool_decide (o_Status o = status /\ o_ProductID o = product) then o_Quantity o else 0.
Definition booked (status : OrderStatus) (product : string) (os : gmap UUID Order) : Z :=
  map_fold (fun _ o acc => share status product o + acc) 0 os.

Section Shop.
(** The tables the migration leaves: stock and users without messages; and the
    quantities that are ordered, where that matters. *)
Variables (seed : Tables) (allowed : Z -> Prop).

Definition stock_ok (c : Tables) (product : string) : Prop :=
  match inventory seed !! product, inventory c !! product with
  | Some i0, Some i =>
      i_ProductID i = product /\ check_inventory i = true
      /\ i_Reserved i = i_Reserved i0 + booked OrderStatusPending product (orders c)
      /\ i_Quantity i = i_Quantity i0 - booked OrderStatusConfirmed product (orders c)
  | None, None => True
  | _, _ => False
  end.

Record ShopInv (c : Tables) : Prop := {
  si_keyed : keyed (outbox c);
  si_orders id o : orders c !! id = Some o -> order_ok allowed c id o;
  si_users id u : users c !! id = Some u ->
    u_ID u = id /\ (is_Some (users seed !! id) \/ has_message c "user.registered" id);
  si_notifications id n : notifications c !! id = Some n ->
    n_ID n = id /\ has_message c (notification_event (n_Type n)) id;
  si_origin m r : outbox c !! m = Some r -> origin c (message_key r);
  si_stock product : stock_ok c product
}.

(** Orders keep what was ordered and stay confirmed; nothing disappears. *)
Definition order_grows (o o' : Order) : Prop :=
  o_ID o' = o_ID o /\ o_UserID o' = o_UserID o /\ o_ProductID o' = o_ProductID o
  /\ o_Quantity o' = o_Quantity o
  /\ (o_Status o = OrderStatusConfirmed -> o_Status o' = OrderStatusConfirmed).

Record grows (c c' : Tables) : Prop := {
  g_orders id o : orders c !! id = Some o ->
    exists o', orders c' !! id = Some o' /\ order_grows o o';
  g_users id : is_Some (users c !! id) -> is_Some (users c' !! id);
  g_notifications id : is_Some (notifications c !! id) -> is_Some (notifications c' !! id);
  g_messages m r : outbox c !! m = Some r ->
    exists r', outbox c' !! m = Some r' /\ message_key r' = message_key r /\ Payload r' = Payload r;
  g_inbox key : is_Some (inbox c !! key) -> is_Some (inbox c' !! key)
}.

Lemma order_grows_refl o : order_grows o o.
Proof. by repeat split. Qed.

#[export] Instance grows_pre : PreOrder grows.
Proof.
  split.
  - intros c. constructor; eauto using order_grows_refl.
  - intros c1 c2 c3 H1 H2. constructor; eauto using g_users, g_notifications, g_inbox.
    + intros id o Ho. destruct (g_orders _ _ H1 id o Ho) as (o2 & Ho2 & E1 & E2 & E3 & E4 & E5).
      destruct (g_orders _ _ H2 id o2 Ho2) as (o3 & Ho3 & F1 & F2 & F3 & F4 & F5).
      exists o3. split; [done|]. repeat split; try congruence. auto.
    + intros m r Hr. destruct (g_messages _ _ H1 m r Hr) as (r2 & Hr2 & E1 & E2).
      destruct (g_messages _ _ H2 m r2 Hr2) as (r3 & Hr3 & F1 & F2).
      exists r3. repeat split; congruence.
Qed.

Lemma has_message_grows c c' ty key :
  grows c c' -> has_message c ty key -> has_message c' ty key.
Proof.
  intros Hg (m & r & Hr & Hk). destruct (g_messages _ _ Hg m r Hr) as (r' & Hr' & E & _).
  exists m, r'. split; [done|congruence].
Qed.

Lemma order_ok_grows c c' id o : grows c c' -> order_ok allowed c id o -> order_ok allowed c' id o.
Proof.
  intros Hg (H1 & H0 & H2 & H3). split; [done|]. split; [done|].
  split; [by apply (has_message_grows c)|].
  destruct H3 as [H3|[H3 H4]]; [by left|right; split; [done|by apply (has_message_grows c)]].
Qed.

Lemma origin_grows c c' key : grows c c' -> origin c key -> origin c' key.
Proof.
  intros Hg (H1 & H2 & H3 & H4). split; [|split; [|split]].
  - intros E. destruct (H1 E) as [o Ho]. destruct (g_orders _ _ Hg _ o Ho) as (o' & Ho' & _). eauto.
  - intros E. destruct (H2 E) as (id & o & Hk & Ho & Hs).
    destruct (g_orders _ _ Hg id o Ho) as (o' & Ho' & _ & _ & _ & _ & Hs').
    exists id, o'. auto.
  - intros E. by apply (g_users _ _ Hg), H3.
  - intros t E. apply (g_notifications _ _ Hg). by apply (H4 t).
Qed.

(** A step of the shop: what is new must be in order. *)
Lemma shop_step c c' :
  ShopInv c -> grows c c' ->
  (forall id o, orders c' !! id = Some o -> orders c !! id = Some o \/ order_ok allowed c' id o) ->
  (forall id u, users c' !! id = Some u ->
     (exists u0, users c !! id = Some u0 /\ u_ID u0 = u_ID u)
     \/ u_ID u = id /\ has_message c' "user.registered" id) ->
  (forall id n, notifications c' !! id = Some n ->
     (exists n0, notifications c !! id = Some n0 /\ n_ID n0 = n_ID n /\ n_Type n0 = n_Type n)
     \/ n_ID n = id /\ has_message c' (notification_event (n_Type n)) id) ->
  (forall m r, outbox c' !! m = Some r ->
     ID r = m /\ ((exists r0, outbox c !! m = Some r0 /\ message_key r0 = message_key r)
                  \/ origin c' (message_key r))) ->
  (forall product, stock_ok c' product) ->
  ShopInv c'.
Proof.
  intros Hc Hg Ho Hu Hn Hm Hs. constructor.
  - intros m r Hr. by apply Hm.
  - intros id o H. destruct (Ho id o H) as [H0|H0]; [|done].
    apply (order_ok_grows c); [done|]. by apply (si_orders _ Hc).
  - intros id u H. destruct (Hu id u H) as [(u0 & H0 & <-)|[H0 H1]]; [|auto].
    destruct (si_users _ Hc id u0 H0) as [E [H1|H1]]; [auto|].
    split; [done|]. right. by apply (has_message_grows c).
  - intros id n H. destruct (Hn id n H) as [(n0 & H0 & <- & <-)|[H0 H1]]; [|auto].
    destruct (si_notifications _ Hc id n0 H0) as [E H1]. split; [done|].
    by apply (has_message_grows c).
  - intros m r H. destruct (Hm m r H) as [_ [(r0 & H0 & <-)|H0]]; [|done].
    apply (origin_grows c); [done|]. by apply (si_origin _ Hc m).
  - done.
Qed.

#[export] Instance shop_invariant : AppInvariant ShopInv grows.
Proof.
  constructor; [apply grows_pre|apply si_keyed|]. intros c t Hc [Hback Hkeep].
  assert (Hg : grows c (with_outbox t c)).
  { constructor; cbn; eauto using order_grows_refl. intros m r Hr.
    destruct (Hkeep m (mk_is_Some _ _ Hr)) as [r' Hr']. exists r'. split; [done|].
    destruct (Hback m r' Hr') as (r0 & Hr0 & _ & Ek & Ep).
    rewrite Hr in Hr0. by injection Hr0 as <-. }
  split; [|done]. apply (shop_step c); eauto.
  - intros m r Hr. destruct (Hback m r Hr) as (r0 & Hr0 & Ei & Ek & _).
    split; [rewrite Ei; by apply (si_keyed _ Hc)|]. left. exists r0. by rewrite Ek.
  - apply (si_stock _ Hc).
Qed.

(** *** Sums over the orders *)

Lemma booked_insert status product id o os :
  os !! id = None ->
  booked status product (<[id := o]> os) = share status product o + booked status product os.
Proof. intros Hid. unfold booked. 
  apply (map_fold_insert_L (fun _ o acc => share status product o + acc)); [intros; lia|done].
Qed.

Lemma booked_replace status product id o o' os :
  os !! id = Some o ->
  booked status product (<[id := o']> os)
  = share status product o' - share status product o + booked status product os.
Proof.
  intros Hid. rewrite <- (insert_delete_id os id o Hid) at 2.
  rewrite <- (insert_delete_eq os id o'), !booked_insert by apply lookup_delete_eq. lia.
Qed.
(** *** The commits *)

Lemma new_message_kept (ob : table) r :
  ob !! ID r = None -> forall m x, ob !! m = Some x ->
  exists x', <[ID r := r]> ob !! m = Some x' /\ message_key x' = message_key x
    /\ Payload x' = Payload x.
Proof.
  intros Hr m x Hx. exists x. split; [|done]. rewrite lookup_insert_ne; [done|congruence].
Qed.

Lemma new_message_there c r ty key :
  outbox c = <[ID r := r]> (outbox c) -> message_key r = (ty, key) -> has_message c ty key.
Proof. intros E Hk. exists (ID r), r. split; [|done]. rewrite E. apply lookup_insert_eq. Qed.

Lemma new_message_cases c c' r :
  ShopInv c -> outbox c' = <[ID r := r]> (outbox c) -> origin c' (message_key r) ->
  forall m x, outbox c' !! m = Some x ->
  ID x = m /\ ((exists x0, outbox c !! m = Some x0 /\ message_key x0 = message_key x)
               \/ origin c' (message_key x)).
Proof.
  intros Hc -> Ho m x. rewrite lookup_insert. case_decide as E.
  - intros [= <-]. auto.
  - intros Hx. split; [by apply (si_keyed _ Hc)|]. left. eauto.
Qed.

(** The stock after a commit that changes one product and one order of it. *)
Lemma stock_change c c' p i i' :
  ShopInv c -> inventory c !! p = Some i -> i_ProductID i' = p -> check_inventory i' = true ->
  inventory c' = <[p := i']> (inventory c) ->
  (forall product, product <> p -> forall status,
     booked status product (orders c') = booked status product (orders c)) ->
  i_Reserved i' - i_Reserved i
  = booked OrderStatusPending p (orders c') - booked OrderStatusPending p (orders c) ->
  i_Quantity i - i_Quantity i'
  = booked OrderStatusConfirmed p (orders c') - booked OrderStatusConfirmed p (orders c) ->
  forall product, stock_ok c' product.
Proof.
  intros Hc Hi Hp Hcheck Hinv Hothers Hr Hq product. pose proof (si_stock _ Hc product) as Hs.
  unfold stock_ok in *. rewrite Hinv, lookup_insert. case_decide as E.
  - subst product. rewrite Hi in Hs. destruct (inventory seed !! p); [|done].
    destruct Hs as (_ & _ & H1 & H2). repeat split; [done|done|lia|lia].
  - by rewrite !Hothers by done.
Qed.

Lemma stock_same c c' :
  ShopInv c -> inventory c' = inventory c -> orders c' = orders c ->
  forall product, stock_ok c' product.
Proof. intros Hc E1 E2 product. pose proof (si_stock _ Hc product). unfold stock_ok. by rewrite E1, E2. Qed.

Lemma share_other status product o : product <> o_ProductID o -> share status product o = 0.
Proof. intros H. unfold share. rewrite bool_decide_eq_false_2; [done|]. intros [_ E]. auto. Qed.
Lemma share_this status product o :
  o_Status o = status -> o_ProductID o = product -> share status product o = o_Quantity o.
Proof. intros. unfold share. by rewrite bool_decide_eq_true_2. Qed.
Lemma share_not status product o : o_Status o <> status -> share status product o = 0.
Proof. intros H. unfold share. rewrite bool_decide_eq_false_2; [done|]. by intros [E _]. Qed.

Lemma commit_create c i i' o r :
  ShopInv c ->
  let p := o_ProductID o in
  inventory c !! p = Some i -> i_ProductID i' = p -> check_inventory i' = true ->
  i_Quantity i' = i_Quantity i -> i_Reserved i' = i_Reserved i + o_Quantity o ->
  o_Status o = OrderStatusPending -> allowed (o_Quantity o) -> orders c !! o_ID o = None ->
  outbox c !! ID r = None -> message_key r = ("order.created", o_ID o) ->
  let c' := overlay (mkTables {[o_ID o := o]} ∅ {[p := i']} ∅ {[ID r := r]} ∅) c in
  ShopInv c' /\ grows c c'.
Proof.
  intros Hc p Hi Hip Hcheck Hq Hr Hst Hal Ho Hfresh Hk c'.
  assert (Ec : c' = mkTables (<[o_ID o := o]> (orders c)) (users c) (<[p := i']> (inventory c))
                      (notifications c) (<[ID r := r]> (outbox c)) (inbox c))
    by (unfold c'; tables_eq).
  rewrite Ec. clear c' Ec. set (c' := mkTables _ _ _ _ _ _).
  assert (Hg : grows c c').
  { constructor; cbn; eauto using new_message_kept.
    intros id x Hx. exists x. split; [|apply order_grows_refl].
    rewrite lookup_insert_ne; [done|congruence]. }
  split; [|done]. apply (shop_step c); try done; try (by eauto).
  - intros id x. cbn. rewrite lookup_insert. case_decide as E; [|auto]. intros [= <-]. right.
    split; [done|]. split; [done|]. split; [|by left].
    exists (ID r), r. cbn. rewrite lookup_insert_eq. by subst.
  - apply (new_message_cases c c' r Hc); [done|]. rewrite Hk. split; [|split; [|split]]; cbn;
      try (intros; discriminate). intros _. rewrite lookup_insert_eq. by eexists.
  - apply (stock_change c c' p i i'); try done; cbn.
    + intros product Hne status. rewrite booked_insert by done.
      rewrite share_other by done. lia.
    + rewrite booked_insert by done. rewrite share_this by done. lia.
    + rewrite booked_insert by done. rewrite share_not; [lia|]. by rewrite Hst.
Qed.

Lemma commit_confirm c i i' o o' r :
  ShopInv c ->
  let p := o_ProductID o in
  inventory c !! p = Some i -> i_ProductID i' = p -> check_inventory i' = true ->
  i_Quantity i' = i_Quantity i - o_Quantity o -> i_Reserved i' = i_Reserved i - o_Quantity o ->
  orders c !! o_ID o = Some o -> o_Status o = OrderStatusPending ->
  order_grows o o' -> o_Status o' = OrderStatusConfirmed ->
  outbox c !! ID r = None -> message_key r = ("order.confirmed", confirmed_key (o_ID o)) ->
  let c' := overlay (mkTables {[o_ID o := o']} ∅ {[p := i']} ∅ {[ID r := r]} ∅) c in
  ShopInv c' /\ grows c c'.
Proof.
  intros Hc p Hi Hip Hcheck Hq Hr Ho Hst Hlike Hst' Hfresh Hk c'.
  assert (Ec : c' = mkTables (<[o_ID o := o']> (orders c)) (users c) (<[p := i']> (inventory c))
                      (notifications c) (<[ID r := r]> (outbox c)) (inbox c))
    by (unfold c'; tables_eq).
  rewrite Ec. clear c' Ec. set (c' := mkTables _ _ _ _ _ _).
  destruct Hlike as (E1 & E2 & E3 & E4 & E5).
  assert (Hg : grows c c').
  { constructor; cbn; eauto using new_message_kept.
    intros id x Hx. rewrite lookup_insert. case_decide as E.
    - subst id. simplify_eq. exists o'. by repeat split.
    - exists x. split; [done|apply order_grows_refl]. }
  split; [|done]. apply (shop_step c); try done; try (by eauto).
  - intros id x. cbn. rewrite lookup_insert. case_decide as E; [|auto]. intros [= <-]. right.
    destruct (si_orders _ Hc _ o Ho) as (_ & Hal & Hcreated & _). subst id.
    split; [done|]. split; [by rewrite E4|]. split; [by apply (has_message_grows c)|]. right. split; [done|].
    exists (ID r), r. cbn. by rewrite lookup_insert_eq.
  - apply (new_message_cases c c' r Hc); [done|]. rewrite Hk. split; [|split; [|split]]; cbn;
      try (intros; discriminate). intros _. exists (o_ID o), o'. by rewrite lookup_insert_eq.
  - apply (stock_change c c' p i i'); try done; cbn.
    + intros product Hne status. rewrite (booked_replace _ _ _ o) by done.
      rewrite (share_other _ product o), (share_other _ product o') by (rewrite ?E3; done). lia.
    + rewrite (booked_replace _ _ _ o) by done.
      rewrite (share_this _ _ o), share_not by (rewrite ?Hst'; done). lia.
    + rewrite (booked_replace _ _ _ o) by done.
      rewrite (share_not _ _ o), share_this by (rewrite ?Hst, ?E3; done). lia.
Qed.

Lemma commit_register c u r :
  ShopInv c -> users c !! u_ID u = None -> outbox c !! ID r = None ->
  message_key r = ("user.registered", u_ID u) ->
  let c' := overlay (mkTables ∅ {[u_ID u := u]} ∅ ∅ {[ID r := r]} ∅) c in
  ShopInv c' /\ grows c c'.
Proof.
  intros Hc Hu Hfresh Hk c'.
  assert (Ec : c' = mkTables (orders c) (<[u_ID u := u]> (users c)) (inventory c)
                      (notifications c) (<[ID r := r]> (outbox c)) (inbox c))
    by (unfold c'; tables_eq).
  rewrite Ec. clear c' Ec. set (c' := mkTables _ _ _ _ _ _).
  assert (Hg : grows c c').
  { constructor; cbn; eauto using new_message_kept, order_grows_refl.
    intros id [x Hx]. rewrite lookup_insert. case_decide; by eexists. }
  split; [|done]. apply (shop_step c); try done; try (by eauto).
  - intros id x. cbn. rewrite lookup_insert. case_decide as E; [|eauto]. intros [= <-]. right.
    split; [done|]. exists (ID r), r. cbn. rewrite lookup_insert_eq. by subst.
  - apply (new_message_cases c c' r Hc); [done|]. rewrite Hk. split; [|split; [|split]]; cbn;
      try (intros; discriminate). intros _. rewrite lookup_insert_eq. by eexists.
  - by apply (stock_same c).
Qed.

Lemma commit_update c u u' r key :
  ShopInv c -> users c !! u_ID u = Some u -> u_ID u' = u_ID u -> outbox c !! ID r = None ->
  message_key r = ("user.updated", key) ->
  let c' := overlay (mkTables ∅ {[u_ID u := u']} ∅ ∅ {[ID r := r]} ∅) c in
  ShopInv c' /\ grows c c'.
Proof.
  intros Hc Hu Hid Hfresh Hk c'.
  assert (Ec : c' = mkTables (orders c) (<[u_ID u := u']> (users c)) (inventory c)
                      (notifications c) (<[ID r := r]> (outbox c)) (inbox c))
    by (unfold c'; tables_eq).
  rewrite Ec. clear c' Ec. set (c' := mkTables _ _ _ _ _ _).
  assert (Hg : grows c c').
  { constructor; cbn; eauto using new_message_kept, order_grows_refl.
    intros id [x Hx]. rewrite lookup_insert. case_decide; by eexists. }
  split; [|done]. apply (shop_step c); try done; try (by eauto).
  - intros id x. cbn. rewrite lookup_insert. case_decide as E; [|eauto]. intros [= <-]. left.
    exists u. by subst.
  - apply (new_message_cases c c' r Hc); [done|]. rewrite Hk.
    split; [|split; [|split]]; cbn; intros; discriminate.
  - by apply (stock_same c).
Qed.

(** The notification may be there already: the insertion does nothing then. *)
Lemma commit_notify c n ns r :
  ShopInv c -> ns = {[n_ID n := n]} /\ notifications c !! n_ID n = None
               \/ ns = ∅ /\ is_Some (notifications c !! n_ID n) ->
  outbox c !! ID r = None -> message_key r = (notification_event (n_Type n), n_ID n) ->
  let c' := overlay (mkTables ∅ ∅ ∅ ns {[ID r := r]} ∅) c in
  ShopInv c' /\ grows c c'.
Proof.
  intros Hc Hns Hfresh Hk c'.
  assert (Ec : c' = mkTables (orders c) (users c) (inventory c)
                      (ns ∪ notifications c) (<[ID r := r]> (outbox c)) (inbox c))
    by (unfold c'; tables_eq).
  rewrite Ec. clear c' Ec. set (c' := mkTables _ _ _ _ _ _).
  assert (Hlk : forall id x, (ns ∪ notifications c) !! id = Some x ->
    notifications c !! id = Some x \/ id = n_ID n /\ x = n).
  { intros id x [Hx|[_ Hx]]%lookup_union_Some_raw; [|auto].
    destruct Hns as [[-> _]|[-> _]]; [|by rewrite lookup_empty in Hx].
    apply lookup_singleton_Some in Hx as [<- <-]. auto. }
  assert (Hthere : is_Some ((ns ∪ notifications c) !! n_ID n)).
  { destruct Hns as [[-> _]|[-> H]].
    - rewrite lookup_union_l'; rewrite lookup_singleton_eq; by eexists.
    - by rewrite (left_id_L ∅ (∪)). }
  assert (Hg : grows c c').
  { constructor; cbn; eauto using new_message_kept, order_grows_refl.
    intros id Hx. rewrite lookup_union_is_Some. auto. }
  split; [|done]. apply (shop_step c); try done; try (by eauto).
  - intros id x [H|[-> ->]]%Hlk; [eauto|]. right. split; [done|]. exists (ID r), r. cbn.
    by rewrite lookup_insert_eq.
  - apply (new_message_cases c c' r Hc); [done|]. rewrite Hk. split; [|split; [|split]]; cbn;
      try (intros; discriminate). intros _ _. done.
  - by apply (stock_same c).
Qed.
(** *** The calls keep the invariant *)

Section Calls.
Context {encoding : EventEncoding} (jsonb : string -> option string).

(** A committed message that carries [payload]. *)
Definition announced (c : Tables) (eventType key : string) (payload : result error string) : Prop :=
  exists m r text body, outbox c !! m = Some r /\ message_key r = (eventType, key)
    /\ payload = Ok text /\ jsonb text = Some body /\ Payload r = Some body.

Lemma announced_grows c c' ty key payload :
  grows c c' -> announced c ty key payload -> announced c' ty key payload.
Proof.
  intros Hg (m & r & text & body & Hr & Hk & Hp & Hj & Hb).
  destruct (g_messages _ _ Hg m r Hr) as (r' & Hr' & E1 & E2).
  exists m, r', text, body. repeat split; congruence.
Qed.

Lemma outbox_insert_ok params env t w x :
  queryOutboxInsert jsonb params env t = Ok (w, x) -> keyed (outbox t) ->
  exists r, w = only_message r /\ x = [r] /\ outbox t !! ID r = None
    /\ message_key r = (p_EventType params, p_IdempotencyKey params)
    /\ (forall m y, outbox t !! m = Some y ->
         message_key y <> (p_EventType params, p_IdempotencyKey params))
    /\ exists text body, p_Payload params = Some text /\ jsonb text = Some body
         /\ Payload r = Some body.
Proof.
  unfold queryOutboxInsert, queryInsert. intros H Hk.
  destruct (p_Payload params) as [text|]; [|discriminate].
  destruct (jsonb text) as [body|] eqn:Ej; [|discriminate].
  destruct (jsonb_column jsonb (p_Metadata params)); [|discriminate].
  destruct (negb _); [discriminate|]. destruct (existsb _ _) eqn:Eex; [discriminate|].
  injection H as <- <-. eexists. split; [done|]. split; [done|]. cbn.
  assert (Hno : forall m y, outbox t !! m = Some y ->
    has_id (e_uuid env) y
    || (bool_decide (EventType y = p_EventType params)
        && bool_decide (IdempotencyKey y = p_IdempotencyKey params)) = false).
  { intros m y Hy. apply not_true_iff_false. intros Htrue. rewrite <- not_true_iff_false in Eex.
    apply Eex, existsb_exists. exists y. split; [|done]. apply list_elem_of_In, elem_of_rows. eauto. }
  split; [|split; [done|split]].
  - destruct (outbox t !! e_uuid env) as [y|] eqn:Ey; [|done].
    pose proof (Hno _ y Ey) as [H _]%orb_false_iff. unfold has_id in H.
    rewrite bool_decide_eq_true_2 in H; [done|]. by apply Hk in Ey.
  - intros m y Hy [= E1 E2]. pose proof (Hno m y Hy) as [_ H]%orb_false_iff.
    rewrite !bool_decide_eq_true_2 in H by done. done.
  - by exists text, body.
Qed.

Lemma insert_answer_err e : exists e', insert_answer (Err e) = Err e'.
Proof.
  unfold insert_answer. cbn. destruct (errors_As_PgError e); [case_bool_decide|]; by eexists.
Qed.
#[local] Arguments insert_answer : simpl never.

(** The end of every call: the message, COMMIT. *)
Section Publish.
Context {A : Type} (Q : result error A -> Tables -> Prop) (a : A).
Hypothesis Q_err : forall e c, Q (Err e) c.
Hypothesis Q_stable : forall r, stable grows (Q r).
Context (ty key : string) (max : Z) (w0 : Tables) (P P' : Tables -> Prop).
Hypothesis w0_outbox : outbox w0 = ∅.
Hypothesis P_new : forall c, ShopInv c -> P c ->
  (forall m y, outbox c !! m = Some y -> message_key y <> (ty, key)) -> P' c.
Hypothesis P'_stable : forall c c', grows c c' -> same_on w0 c c' -> P' c -> P' c'.

Lemma same_on_less w1 c c' :
  orders w1 = orders w0 -> users w1 = users w0 -> inventory w1 = inventory w0 ->
  notifications w1 = notifications w0 -> same_on w1 c c' -> same_on w0 c c'.
Proof.
  intros E1 E2 E3 E4 [H1 H2 H3 H4 H5]. rewrite E1 in H1. rewrite E2 in H2. rewrite E3 in H3.
  rewrite E4 in H4. constructor; try done. intros k [x Hx]. by rewrite w0_outbox, lookup_empty in Hx.
Qed.

Lemma valid_insert text :
  (forall c r body, ShopInv c -> P' c -> jsonb text = Some body -> Payload r = Some body ->
     outbox c !! ID r = None -> message_key r = (ty, key) ->
     let c' := overlay (with_outbox {[ID r := r]} w0) c in
     (ShopInv c' /\ grows c c') /\ Q (Ok a) c') ->
  valid ShopInv grows Q (Inside (wrote w0 P)) (defer_Rollback
    (try (outboxTx_Insert jsonb (mkParams ty (Some text) None key max))
       "failed to insert outbox message" (fun _ =>
     check tx_Commit "failed to commit transaction" (mret (Ok a))))).
Proof.
  intros H. cbn. split.
  2: { intros e. destruct (insert_answer_err e) as [e' ->]. cbn. intros; apply Q_err. }
  intros env c w w' x Hc [-> HP] Hq.
  assert (Ho : outbox (overlay w0 c) = outbox c) by (cbn; by rewrite w0_outbox, (left_id_L ∅ (∪))).
  destruct (outbox_insert_ok _ _ _ _ _ Hq) as (r & -> & -> & Hfresh & Hk & Hno & text' & body & Ht & Hj & Hb);
    [rewrite Ho; by apply si_keyed|]. rewrite Ho in Hfresh, Hno. cbn in Hk, Hno, Ht. simplify_eq.
  set (w1 := with_outbox {[ID r := r]} w0).
  exists (wrote w1 (fun c => P' c /\ outbox c !! ID r = None)). split; [|split].
  - apply wrote_stable. intros c1 c2 Hg Hs [H1 H2]. split.
    + apply (P'_stable c1); [done| |done]. by apply (same_on_less w1).
    + apply (so_outbox _ _ _ Hs); [|done]. cbn. rewrite lookup_singleton_eq. by eexists.
  - split; [|split; [by apply P_new|done]].
    unfold w1, with_outbox. tables_eq. by rewrite w0_outbox, insert_empty.
  - change (valid ShopInv grows Q (Inside (wrote w1 (fun c => P' c /\ outbox c !! ID r = None)))
      (defer_Rollback (check tx_Commit "failed to commit transaction" (mret (Ok a))))).
    apply valid_commit; [done|done|]. intros c1 w H1 [-> [H2 H3]]. by apply (H c1 r body).
Qed.

Lemma valid_publish payload :
  (forall c r text body, ShopInv c -> P' c -> payload = Ok text -> jsonb text = Some body ->
     Payload r = Some body -> outbox c !! ID r = None -> message_key r = (ty, key) ->
     let c' := overlay (with_outbox {[ID r := r]} w0) c in
     (ShopInv c' /\ grows c c') /\ Q (Ok a) c') ->
  valid ShopInv grows Q (Inside (wrote w0 P)) (defer_Rollback
    (publish_event jsonb ty payload key max
       (check tx_Commit "failed to commit transaction" (mret (Ok a))))).
Proof.
  intros H. apply (valid_try Q); [done|]. intros text Hm.
  apply (valid_insert text). intros c r body Hc HP Hj Hb Hr Hk. by apply (H c r text body).
Qed.
End Publish.

(** *** What the calls promise *)

Definition created (r : result error Order) (c : Tables) : Prop :=
  match r with
  | Err _ => True
  | Ok o =>
      (exists o', orders c !! o_ID o = Some o' /\ order_grows o o')
      /\ announced c "order.created" (o_ID o)
           (marshal_OrderCreated (mkOrderCreatedEvent (o_ID o) (o_UserID o) (o_ProductID o)
              (o_Quantity o) (o_TotalPrice o) (o_CreatedAt o)))
  end.

Definition confirmed (id : UUID) (r : result error unit) (c : Tables) : Prop :=
  match r with
  | Err _ => True
  | Ok _ =>
      (exists o, orders c !! id = Some o /\ o_Status o = OrderStatusConfirmed)
      /\ has_message c "order.confirmed" (confirmed_key id)
  end.

Definition registered (r : result error User) (c : Tables) : Prop :=
  match r with
  | Err _ => True
  | Ok u =>
      is_Some (users c !! u_ID u)
      /\ announced c "user.registered" (u_ID u)
           (marshal_UserRegistered (mkUserRegisteredEvent (u_ID u) (u_Email u) (u_Name u)
              (u_CreatedAt u)))
  end.

Definition updated (id : UUID) (r : result error unit) (c : Tables) : Prop :=
  match r with
  | Err _ => True
  | Ok _ => is_Some (users c !! id) /\ exists now, has_message c "user.updated" (updated_key id now)
  end.

Definition notified (r : result error Notification) (c : Tables) : Prop :=
  match r with
  | Err _ => True
  | Ok n =>
      is_Some (notifications c !! n_ID n)
      /\ announced c (notification_event (n_Type n)) (n_ID n)
           (marshal_NotificationSend (mkNotificationSendEvent (n_ID n) (n_Type n) (n_Recipient n)
              (n_Subject n) (n_Body n) (n_CreatedAt n)))
  end.

(** ... and it is the notification that was asked for. *)
Definition asked_for (req : SendNotificationRequest) (n : Notification) : Prop :=
  n_Type n = sn_Type req /\ n_Recipient n = sn_Recipient req
  /\ n_Subject n = sn_Subject req /\ n_Body n = sn_Body req.

Definition notified_of (req : SendNotificationRequest) (r : result error Notification) (c : Tables)
    : Prop :=
  match r with Err _ => True | Ok n => asked_for req n /\ notified (Ok n) c end.

Lemma order_grows_trans o1 o2 o3 : order_grows o1 o2 -> order_grows o2 o3 -> order_grows o1 o3.
Proof.
  intros (E1 & E2 & E3 & E4 & E5) (F1 & F2 & F3 & F4 & F5). repeat split; try congruence. auto.
Qed.

Lemma created_stable r : stable grows (created r).
Proof.
  intros c c' Hg. destruct r as [o|e]; [|done]. intros [(o1 & Ho1 & H1) Ha].
  split; [|by apply (announced_grows c)].
  destruct (g_orders _ _ Hg _ o1 Ho1) as (o2 & Ho2 & H2). exists o2. split; [done|].
  by apply (order_grows_trans _ o1).
Qed.

Lemma confirmed_stable id r : stable grows (confirmed id r).
Proof.
  intros c c' Hg. destruct r as [[]|e]; [|done]. intros [(o1 & Ho1 & H1) Ha].
  split; [|by apply (has_message_grows c)].
  destruct (g_orders _ _ Hg _ o1 Ho1) as (o2 & Ho2 & _ & _ & _ & _ & H2). eauto.
Qed.

Lemma registered_stable r : stable grows (registered r).
Proof.
  intros c c' Hg. destruct r as [u|e]; [|done]. intros [Hu Ha].
  split; [by apply (g_users _ _ Hg)|by apply (announced_grows c)].
Qed.

Lemma updated_stable id r : stable grows (updated id r).
Proof.
  intros c c' Hg. destruct r as [[]|e]; [|done]. intros [Hu [now Ha]].
  split; [by apply (g_users _ _ Hg)|]. exists now. by apply (has_message_grows c).
Qed.

Lemma notified_stable r : stable grows (notified r).
Proof.
  intros c c' Hg. destruct r as [n|e]; [|done]. intros [Hn Ha].
  split; [by apply (g_notifications _ _ Hg)|by apply (announced_grows c)].
Qed.

Lemma notified_of_stable req r : stable grows (notified_of req r).
Proof.
  intros c c' Hg. destruct r as [n|e]; [|done]. intros [Hn H].
  split; [done|by apply (notified_stable (Ok n) c)].
Qed.

(** *** The queries that must affect a row *)

Lemma put_stock_ok i w n : put_stock i = Ok (w, n) -> w = only_stock i /\ check_inventory i = true.
Proof.
  unfold put_stock. destruct (negb _); [discriminate|].
  destruct (check_inventory i); [|discriminate]. by intros [= <- <-].
Qed.

Lemma reserve_ok p q env t w n :
  queryInventoryReserve p q env t = Ok (w, n) -> n <> 0 ->
  exists i now, inventory t !! p = Some i
    /\ let i' := mkStock (i_ProductID i) (i_Quantity i) (i_Reserved i + q) now in
       w = only_stock i' /\ check_inventory i' = true.
Proof.
  unfold queryInventoryReserve. intros H Hn. destruct (negb _); [discriminate|].
  destruct (inventory t !! p) as [i|] eqn:Ei; [|by injection H as <- <-].
  destruct (_ <=? _); [|by injection H as <- <-]. apply put_stock_ok in H. by eexists _, _.
Qed.

Lemma decrease_ok p q env t w n :
  queryInventoryDecrease p q env t = Ok (w, n) -> n <> 0 ->
  exists i now, inventory t !! p = Some i
    /\ let i' := mkStock (i_ProductID i) (i_Quantity i - q) (i_Reserved i - q) now in
       w = only_stock i' /\ check_inventory i' = true.
Proof.
  unfold queryInventoryDecrease. intros H Hn. destruct (negb _); [discriminate|].
  destruct (inventory t !! p) as [i|] eqn:Ei; [|by injection H as <- <-].
  destruct (_ <=? _); [|by injection H as <- <-]. apply put_stock_ok in H. by eexists _, _.
Qed.

Lemma stock_product c p i : ShopInv c -> inventory c !! p = Some i -> i_ProductID i = p.
Proof.
  intros Hc Hi. pose proof (si_stock _ Hc p) as H. unfold stock_ok in H. rewrite Hi in H.
  destruct (inventory seed !! p); [|done]. by destruct H.
Qed.

Lemma order_create_ok o env t w x :
  queryOrderCreate o env t = Ok (w, x) -> orders t !! o_ID o = None /\ w = only_order o.
Proof.
  unfold queryOrderCreate. destruct (negb _); [discriminate|]. destruct (negb _); [discriminate|].
  destruct (orders t !! o_ID o); [discriminate|]. by intros [= <- _].
Qed.

Lemma user_create_ok u env t w x :
  queryUserCreate u env t = Ok (w, x) -> users t !! u_ID u = None /\ w = only_user u.
Proof.
  unfold queryUserCreate. destruct (negb _); [discriminate|].
  destruct (users t !! u_ID u); [discriminate|]. destruct (bool_decide _); [discriminate|].
  by intros [= <- _].
Qed.

Lemma user_update_ok id req env t w n :
  queryUserUpdate id req env t = Ok (w, n) -> n <> 0 ->
  exists u u', users t !! id = Some u /\ u_ID u' = u_ID u /\ w = only_user u'.
Proof.
  unfold queryUserUpdate. destruct (users t !! id) as [u|]; [|by intros [= <- <-]].
  destruct (negb _); [discriminate|]. intros [= <- _] _. by exists u, (mkUser (u_ID u) (u_Email u)
    (coalesce_nullif (uu_Name req) (u_Name u)) (coalesce_nullif (uu_Status req) (u_Status u))
    (u_CreatedAt u) (e_set env id)).
Qed.

Lemma order_status_ok status id env t w n :
  queryOrderUpdateStatus status id env t = Ok (w, n) -> n <> 0 ->
  exists o o', orders t !! id = Some o /\ o_Status o' = status /\ w = only_order o'
    /\ o_ID o' = o_ID o /\ o_UserID o' = o_UserID o /\ o_ProductID o' = o_ProductID o
    /\ o_Quantity o' = o_Quantity o.
Proof.
  unfold queryOrderUpdateStatus. destruct (orders t !! id) as [o|]; [|by intros [= <- <-]].
  destruct (negb _); [discriminate|]. intros [= <- _] _. by exists o, (mkOrder (o_ID o) (o_UserID o)
    (o_ProductID o) (o_Quantity o) (o_TotalPrice o) status (o_CreatedAt o) (e_set env id)).
Qed.

Lemma notification_create_ok n env t w x :
  queryNotificationCreate n env t = Ok (w, x) ->
  notifications t !! n_ID n = None /\ w = only_notification n
  \/ is_Some (notifications t !! n_ID n) /\ w = no_rows.
Proof.
  unfold queryNotificationCreate. destruct (negb _); [discriminate|].
  destruct (notifications t !! n_ID n); intros [= <- _]; [right; split; [by eexists|done]|by left].
Qed.

(** *** CreateOrder *)

Lemma CreateOrder_valid req :
  allowed (co_Quantity req) ->
  valid ShopInv grows created (Outside (fun _ => True)) (CreateOrder jsonb req).
Proof.
  intros Hal. apply (valid_begin created); [done|]. unfold InventoryRepository_Reserve.
  apply (valid_affected created); [done|]. intros env c w w' n Hc [-> _] Hq Hn.
  rewrite overlay_nothing in Hq.
  destruct (reserve_ok _ _ _ _ _ _ Hq Hn) as (i & now & Hi & -> & Hcheck).
  set (p := co_ProductID req) in *. set (i' := mkStock _ _ _ _) in *.
  assert (Hp : i_ProductID i = p) by (by apply (stock_product c)).
  exists (wrote (mkTables ∅ ∅ {[p := i']} ∅ ∅ ∅) (fun c => inventory c !! p = Some i)).
  split; [|split].
  { apply wrote_stable. intros c1 c2 _ Hs H. rewrite <- H. apply (so_inventory _ _ _ Hs). locked. }
  { split; [|done]. rewrite <- Hp. tables_eq. }
  apply valid_ask. intros id. apply valid_ask. intros createdAt. apply valid_ask. intros updatedAt.
  set (o := mkOrder _ _ _ _ _ _ _ _). cbv zeta. unfold OrderRepository_Create.
  apply (valid_executed created); [done|]. clear env c n Hq Hn Hc Hi.
  intros env c w w' x Hc [-> Hi] Hq.
  destruct (order_create_ok _ _ _ _ _ Hq) as [Ho ->]. cbn in Ho.
  rewrite (left_id_L ∅ (∪)) in Ho. change id with (o_ID o) in Ho.
  set (w0 := mkTables {[o_ID o := o]} ∅ {[p := i']} ∅ ∅ ∅).
  set (P := fun c => inventory c !! p = Some i /\ orders c !! o_ID o = None).
  exists (wrote w0 P).
  assert (HP : forall c1 c2, grows c1 c2 -> same_on w0 c1 c2 -> P c1 -> P c2).
  { intros c1 c2 _ Hs [H1 H2]. split.
    - rewrite <- H1. apply (so_inventory _ _ _ Hs). locked.
    - rewrite <- H2. apply (so_orders _ _ _ Hs). locked. }
  split; [by apply wrote_stable|]. split; [by split; [tables_eq|]|].
  apply valid_publish with (P' := P); try done; [apply created_stable|].
  intros c1 r text body Hc1 [H1 H2] Hm Hj Hb Hr Hk c'.
  assert (Hinv : ShopInv c' /\ grows c1 c') by (by apply (commit_create c1 i i' o r)).
  split; [exact Hinv|]. split.
  - exists o. split; [written|apply order_grows_refl].
  - exists (ID r), r, text, body. split; [written|done].
Qed.

(** *** ConfirmOrder *)

(** The order that was read, as it may be now. *)
Definition order_seen (o : Order) (c : Tables) : Prop :=
  exists o', orders c !! o_ID o = Some o' /\ order_grows o o'.

Lemma order_seen_stable o : stable grows (order_seen o).
Proof.
  intros c c' Hg (o1 & Ho1 & H1). destruct (g_orders _ _ Hg _ o1 Ho1) as (o2 & Ho2 & H2).
  exists o2. split; [done|]. by apply (order_grows_trans _ o1).
Qed.

(** An order whose confirmation is not in the outbox is pending. *)
Lemma unannounced_pending c id o :
  ShopInv c -> orders c !! id = Some o ->
  (forall m y, outbox c !! m = Some y -> message_key y <> ("order.confirmed", confirmed_key id)) ->
  o_Status o = OrderStatusPending.
Proof.
  intros Hc Ho Hno. destruct (si_orders _ Hc id o Ho) as (_ & _ & _ & [H|[_ (m & r & Hr & Hk)]]); [done|].
  by destruct (Hno m r Hr).
Qed.

(** From the lock on the order on. *)
Lemma confirm_tail o o1 o2 :
  order_grows o o1 -> order_grows o1 o2 -> o_Status o2 = OrderStatusConfirmed ->
  let payload := marshal_OrderConfirmed
    (mkOrderConfirmedEvent (o_ID o1) (o_UserID o) (o_ProductID o) (o_Quantity o)) in
  valid ShopInv grows (confirmed (o_ID o1))
    (Inside (wrote (mkTables {[o_ID o1 := o2]} ∅ ∅ ∅ ∅ ∅) (fun c => orders c !! o_ID o1 = Some o1)))
    (defer_Rollback
       (check (InventoryRepository_Decrease (o_ProductID o) (o_Quantity o))
          "failed to decrease inventory"
          (publish_event jsonb "order.confirmed" payload (confirmed_key (o_ID o1)) 5
             (check tx_Commit "failed to commit transaction" (mret (Ok tt)))))).
Proof.
  intros (L1 & L2 & L3 & L4 & L5) Hlike Hst payload. unfold InventoryRepository_Decrease.
  apply (valid_affected (confirmed (o_ID o1))); [done|]. intros env c w w' n Hc [-> Ho] Hq Hn.
  destruct (decrease_ok _ _ _ _ _ _ Hq Hn) as (i & now & Hi & -> & Hcheck).
  cbn in Hi. rewrite (left_id_L ∅ (∪)), <- L3 in Hi.
  set (p := o_ProductID o1) in *. set (i' := mkStock _ _ _ _) in *.
  assert (Hp : i_ProductID i = p) by (by apply (stock_product c)).
  set (w0 := mkTables {[o_ID o1 := o2]} ∅ {[p := i']} ∅ ∅ ∅).
  set (P := fun c => inventory c !! p = Some i /\ orders c !! o_ID o1 = Some o1).
  exists (wrote w0 P).
  assert (HP : forall c1 c2, grows c1 c2 -> same_on w0 c1 c2 -> P c1 -> P c2).
  { intros c1 c2 _ Hs [H1 H2]. split.
    - rewrite <- H1. apply (so_inventory _ _ _ Hs). locked.
    - rewrite <- H2. apply (so_orders _ _ _ Hs). locked. }
  split; [by apply wrote_stable|].
  split; [split; [unfold w0; rewrite <- Hp; tables_eq|done]|].
  apply valid_publish with (P' := fun c => P c /\ o_Status o1 = OrderStatusPending);
    [done|apply confirmed_stable|done| | |].
  - intros c1 Hc1 [H1 H2] Hno. split; [done|]. by apply (unannounced_pending c1 (o_ID o1)).
  - intros c1 c2 Hg Hs [H1 H2]. split; [by apply (HP c1)|done].
  - intros c1 r text body Hc1 [[H1 H2] Hpend] Hm Hj Hb Hr Hk c'.
    assert (Hinv : ShopInv c' /\ grows c1 c').
    { apply (commit_confirm c1 i i' o1 o2 r); try done; cbn; by rewrite L4. }
    split; [exact Hinv|]. split.
    + exists o2. split; [written|done].
    + exists (ID r), r. split; [written|done].
Qed.

Lemma ConfirmOrder_valid id :
  valid ShopInv grows (confirmed id) (Outside (fun _ => True)) (ConfirmOrder jsonb id).
Proof.
  apply (valid_begin (confirmed id)); [done|].
  split; [intros env c w' x Hc [= <- <-]; rewrite overlay_nothing; split; [done|reflexivity]|].
  split; [|intros e; apply (valid_failed (confirmed id)); done].
  intros env c w w' x Hc [-> _] [= <- <-] _. rewrite overlay_nothing.
  destruct (orders c !! id) as [o|] eqn:Ho.
  2: { exists (fun _ _ => True). split; [done|]. split; [done|].
       by apply (valid_failed (confirmed id)). }
  exists (wrote no_rows (order_seen o)).
  destruct (si_orders _ Hc id o Ho) as [Hid _].
  split; [apply wrote_stable; intros c1 c2 Hg _; by apply order_seen_stable|].
  split; [split; [done|exists o; split; [by rewrite Hid|apply order_grows_refl]]|].
  apply (valid_affected (confirmed id)); [done|]. clear env c Hc Ho.
  intros env c w w' n Hc [-> (o1 & Ho1 & Hlike)] Hq Hn. rewrite overlay_nothing in Hq.
  destruct (order_status_ok _ _ _ _ _ _ Hq Hn) as (o1' & o2 & Ho1' & Hst & -> & E1 & E2 & E3 & E4).
  rewrite Hid, Ho1' in Ho1. injection Ho1 as ->.
  assert (Hid1 : o_ID o1 = id) by (apply (si_orders _ Hc id o1 Ho1')).
  exists (wrote (mkTables {[o_ID o1 := o2]} ∅ ∅ ∅ ∅ ∅) (fun c => orders c !! o_ID o1 = Some o1)).
  split; [|split].
  - apply wrote_stable. intros c1 c2 _ Hs H. rewrite <- H. apply (so_orders _ _ _ Hs). locked.
  - split; [rewrite <- E1; tables_eq|by rewrite Hid1].
  - rewrite <- Hid1. apply (confirm_tail o o1 o2); [done| |done]. by repeat split.
Qed.

(** *** RegisterUser, UpdateUser, SendNotification *)

Lemma RegisterUser_valid req :
  valid ShopInv grows registered (Outside (fun _ => True)) (RegisterUser jsonb req).
Proof.
  apply (valid_begin registered); [done|].
  apply valid_ask. intros id. apply valid_ask. intros createdAt. apply valid_ask. intros updatedAt.
  set (u := mkUser _ _ _ _ _ _). cbv zeta. apply (valid_executed registered); [done|].
  intros env c w w' x Hc [-> _] Hq. rewrite overlay_nothing in Hq.
  destruct (user_create_ok _ _ _ _ _ Hq) as [Hu ->].
  set (w0 := mkTables ∅ {[u_ID u := u]} ∅ ∅ ∅ ∅). set (P := fun c => users c !! u_ID u = None).
  exists (wrote w0 P).
  assert (HP : forall c1 c2, grows c1 c2 -> same_on w0 c1 c2 -> P c1 -> P c2).
  { intros c1 c2 _ Hs H. unfold P. rewrite <- H. apply (so_users _ _ _ Hs). locked. }
  split; [by apply wrote_stable|]. split; [by split; [tables_eq|]|].
  apply valid_publish with (P' := P); try done; [apply registered_stable|].
  intros c1 r text body Hc1 H Hm Hj Hb Hr Hk c'.
  split; [by apply (commit_register c1 u r)|]. split; [eexists; written|].
  exists (ID r), r, text, body. split; [written|done].
Qed.

Lemma UpdateUser_valid id req :
  valid ShopInv grows (updated id) (Outside (fun _ => True)) (UpdateUser jsonb id req).
Proof.
  apply (valid_begin (updated id)); [done|].
  apply (valid_affected (updated id)); [done|]. intros env c w w' n Hc [-> _] Hq Hn.
  rewrite overlay_nothing in Hq.
  destruct (user_update_ok _ _ _ _ _ _ Hq Hn) as (u & u' & Hu & Hid & ->).
  assert (Hkey : u_ID u = id) by (apply (si_users _ Hc id u Hu)). rewrite <- Hkey in Hu |- *.
  set (w0 := mkTables ∅ {[u_ID u := u']} ∅ ∅ ∅ ∅). set (P := fun c => users c !! u_ID u = Some u).
  exists (wrote w0 P).
  assert (HP : forall c1 c2, grows c1 c2 -> same_on w0 c1 c2 -> P c1 -> P c2).
  { intros c1 c2 _ Hs H. unfold P. rewrite <- H. apply (so_users _ _ _ Hs). locked. }
  split; [by apply wrote_stable|]. split; [split; [unfold w0; rewrite <- Hid; tables_eq|done]|].
  apply valid_ask. intros updatedAt.
  apply (valid_try (updated _)); [done|]. intros text _.
  apply valid_ask. intros now.
  apply valid_insert with (P' := P); try done; [apply updated_stable|].
  intros c1 r body Hc1 H Hj Hb Hr Hk c'.
  split; [by apply (commit_update c1 u u' r (updated_key (u_ID u) now))|].
  split; [eexists; written|]. exists now, (ID r), r. split; [written|done].
Qed.

Lemma SendNotification_valid req :
  valid ShopInv grows (notified_of req) (Outside (fun _ => True)) (SendNotification jsonb req).
Proof.
  apply (valid_begin (notified_of req)); [done|].
  apply valid_ask. intros id. apply valid_ask. intros createdAt. apply valid_ask. intros updatedAt.
  set (n := mkNotification _ _ _ _ _ _ _ _). cbv zeta. apply (valid_executed (notified_of req)); [done|].
  intros env c w w' x Hc [-> _] Hq. rewrite overlay_nothing in Hq.
  set (new := fun (ns : gmap UUID Notification) c => ns = {[n_ID n := n]} /\ notifications c !! n_ID n = None
                          \/ ns = ∅ /\ is_Some (notifications c !! n_ID n)).
  assert (Hns : exists ns, new ns c /\ w' = mkTables ∅ ∅ ∅ ns ∅ ∅).
  { destruct (notification_create_ok _ _ _ _ _ Hq) as [[H ->]|[H ->]].
    - exists {[n_ID n := n]}. split; [by left|done].
    - exists ∅. split; [by right|done]. }
  destruct Hns as (ns & Hns & ->). set (w0 := mkTables ∅ ∅ ∅ ns ∅ ∅).
  exists (wrote w0 (new ns)).
  assert (HP : forall c1 c2, grows c1 c2 -> same_on w0 c1 c2 -> new ns c1 -> new ns c2).
  { intros c1 c2 Hg Hs [[E H]|[E H]]; [left|right; split; [done|by apply (g_notifications _ _ Hg)]].
    split; [done|]. rewrite <- H. apply (so_notifications _ _ _ Hs). unfold w0. rewrite E. locked. }
  split; [by apply wrote_stable|]. split; [by split; [tables_eq|]|].
  apply valid_publish with (P' := new ns); try done; [apply notified_of_stable|].
  intros c1 r text body Hc1 H Hm Hj Hb Hr Hk c'.
  split; [by apply (commit_notify c1 n ns r)|]. split; [done|]. split.
  - destruct H as [[E _]|[_ [n0 Hn0]]]; cbn; rewrite lookup_union_is_Some; [left|right; by eexists].
    rewrite E. locked.
  - exists (ID r), r, text, body. split; [written|done].
Qed.
End Calls.
End Shop.
