(* ===== verification/Api.v ===== *)
(** * The entry points of the example application

    examples/app/internal/handler and cmd/api: the HTTP handlers and their
    routes; examples/app/internal/consumer: the handlers of SQS messages that
    call a service or an external system.  Each is a program (AppStore.v) whose
    answer promises what it left in the database. *)

From Stdlib Require Import ZArith Lia.
From stdpp Require Import base option list strings gmap fin_maps.
From S2P Require Import Prelude Errors Model Ports Store PgxRepo OutboxSafety System Inbox Consumer.
From S2P Require Import AppStore AppTx Services.

Set Default Goal Selector "!".
Open Scope string_scope.
Open Scope list_scope.
Open Scope Z_scope.

(** ** HTTP *)

Record HttpRequest : Type := mkRequest {
  Method : string;
  Path : string;
  (** [r.URL.Query().Get]: the empty string where there is no parameter *)
  QueryGet : string -> string;
  r_Body : string
}.

Inductive ResponseBody : Type :=
| Text (s : string)
| OrderJson (o : Order)
| UserJson (u : User)
| NotificationJson (n : Notification).

Record HttpResponse : Type := mkResponse {
  StatusCode : Z;
  ResponseBody_ : ResponseBody
}.

Definition status_json (status : string) : string :=
  "{" +:+ quote +:+ "status" +:+ quote +:+ ":" +:+ quote +:+ status +:+ quote +:+ "}".
(** [http.Error] *)
Definition http_Error (text : string) (code : Z) : HttpResponse :=
  mkResponse code (Text (text +:+ newline)).

(** [json.Decoder.Decode] of the requests and [uuid.Parse]; [None] is an error. *)
Class RequestDecoding : Type := {
  decode_CreateOrder : string -> option CreateOrderRequest;
  decode_CreateUser : string -> option CreateUserRequest;
  decode_UpdateUser : string -> option UpdateUserRequest;
  decode_SendNotification : string -> option SendNotificationRequest;
  uuid_Parse : string -> option UUID
}.

Section Handlers.
Context {encoding : EventEncoding} {decoding : RequestDecoding}.
Context (jsonb : string -> option string).

Definition method_not_allowed : HttpResponse := http_Error "Method not allowed" 405.
Definition invalid_body : HttpResponse := http_Error "Invalid request body" 400.

(** The error branch and the success of a call of a service. *)
Definition respond {A} (p : Prog (result error A)) (ok : A -> HttpResponse) : Prog HttpResponse :=
  answer ← p;
  mret match answer with
       | Err err => http_Error (error_text err) 500
       | Ok a => ok a
       end.

Definition OrderHandler_CreateOrder (r : HttpRequest) : Prog HttpResponse :=
  if negb (bool_decide (Method r = "POST")) then mret method_not_allowed
  else match decode_CreateOrder (r_Body r) with
       | None => mret invalid_body
       | Some req => respond (CreateOrder jsonb req) (fun order => mkResponse 201 (OrderJson order))
       end.

Definition OrderHandler_ConfirmOrder (r : HttpRequest) : Prog HttpResponse :=
  if negb (bool_decide (Method r = "POST")) then mret method_not_allowed
  else
    let orderIDStr := QueryGet r "order_id" in
    if bool_decide (orderIDStr = "") then mret (http_Error "order_id is required" 400)
    else match uuid_Parse orderIDStr with
         | None => mret (http_Error "Invalid order_id" 400)
         | Some orderID =>
             respond (ConfirmOrder jsonb orderID)
               (fun _ => mkResponse 200 (Text (status_json "confirmed")))
         end.

Definition UserHandler_RegisterUser (r : HttpRequest) : Prog HttpResponse :=
  if negb (bool_decide (Method r = "POST")) then mret method_not_allowed
  else match decode_CreateUser (r_Body r) with
       | None => mret invalid_body
       | Some req => respond (RegisterUser jsonb req) (fun user => mkResponse 201 (UserJson user))
       end.

Definition UserHandler_UpdateUser (r : HttpRequest) : Prog HttpResponse :=
  if negb (bool_decide (Method r = "PUT")) then mret method_not_allowed
  else
    let userIDStr := QueryGet r "user_id" in
    if bool_decide (userIDStr = "") then mret (http_Error "user_id is required" 400)
    else match uuid_Parse userIDStr with
         | None => mret (http_Error "Invalid user_id" 400)
         | Some userID =>
             match decode_UpdateUser (r_Body r) with
             | None => mret invalid_body
             | Some req =>
                 respond (UpdateUser jsonb userID req)
                   (fun _ => mkResponse 200 (Text (status_json "updated")))
             end
         end.

Definition NotificationHandler_SendNotification (r : HttpRequest) : Prog HttpResponse :=
  if negb (bool_decide (Method r = "POST")) then mret method_not_allowed
  else match decode_SendNotification (r_Body r) with
       | None => mret invalid_body
       | Some req =>
           respond (SendNotification jsonb req)
             (fun notification => mkResponse 201 (NotificationJson notification))
       end.

(** [pool.Ping] *)
Definition pool_Ping : Prog (option error) :=
  answer ← pool_Exec (fun _ _ => Ok (no_rows, tt));
  mret match answer with Err err => Some err | Ok _ => None end.

Definition health (r : HttpRequest) : Prog HttpResponse :=
  err ← pool_Ping;
  mret match err with
       | Some _ => mkResponse 503 (Text ("Unhealthy: database unreachable" +:+ newline))
       | None => mkResponse 200 (Text ("OK" +:+ newline))
       end.

(** The routes of cmd/api/main.go; a pattern without a trailing slash matches
    its path only. *)
Definition routes : list (string * (HttpRequest -> Prog HttpResponse)) :=
  [("/api/orders", OrderHandler_CreateOrder);
   ("/api/orders/confirm", OrderHandler_ConfirmOrder);
   ("/api/users", UserHandler_RegisterUser);
   ("/api/users/update", UserHandler_UpdateUser);
   ("/api/notifications", NotificationHandler_SendNotification);
   ("/health", health)].

Definition serve (r : HttpRequest) : Prog HttpResponse :=
  match List.find (fun route => bool_decide (route.1 = Path r)) routes with
  | Some (_, handler) => handler r
  | None => mret (http_Error "404 page not found" 404)
  end.
End Handlers.

(** ** Handlers of SQS messages *)

(** *** sleep_config.go *)

Record SleepConfig : Type := mkSleepConfig {
  Min : Z;
  Max : Z
}.

(** How long [Sleep] sleeps; [int63n] is [rand.Int63n], which panics for a bound
    that is not positive. *)
Definition sleep_time (c : SleepConfig) (int63n : Z -> Z) : outcome Z :=
  if (Min c =? 0) && (Max c =? 0) then Ret 0
  else if Max c <=? Min c then Ret (Min c)
  else
    let delta := wrap64 (Max c - Min c) in
    if delta <=? 0 then Panic "invalid argument to Int63n"
    else Ret (wrap64 (Min c + int63n delta)).

(** [ParseDuration] is [time.ParseDuration]. *)
Definition ParseSleepDuration (ParseDuration : string -> option Z) (s : string)
    (defaultDuration : Z) : Z :=
  if bool_decide (s = "") then defaultDuration
  else match ParseDuration s with
       | None => defaultDuration
       | Some d => d
       end.

(** The sleep is within its bounds and does not panic for durations an operator
    may set. *)
Lemma sleep_time_bounds c int63n :
  0 <= Min c -> Min c < Max c -> in_int64 (Max c) ->
  (forall n, 0 < n -> 0 <= int63n n < n) ->
  exists d, sleep_time c int63n = Ret d /\ Min c <= d < Max c.
Proof.
  unfold in_int64, sleep_time. intros H0 H1 H2 Hrand.
  replace (Max c =? 0) with false by lia. rewrite andb_false_r.
  replace (Max c <=? Min c) with false by lia.
  rewrite (wrap64_id (Max c - Min c)) by (unfold in_int64; lia).
  replace (Max c - Min c <=? 0) with false by lia.
  pose proof (Hrand (Max c - Min c)). eexists. split; [done|].
  rewrite wrap64_id; unfold in_int64; lia.
Qed.

(** *** The handlers *)

(** What the consumer package decodes of its events. *)
Record OrderCreatedMessage : Type := mkOrderCreatedMessage {
  ocm_OrderID : UUID;
  ocm_UserID : UUID;
  ocm_ProductID : string;
  ocm_Quantity : Z;
  ocm_TotalPrice : Z
}.

Record UserUpdatedMessage : Type := mkUserUpdatedMessage {
  uum_UserID : UUID;
  uum_Name : string;
  uum_Status : string
}.

Record NotificationSendMessage : Type := mkNotificationSendMessage {
  nsm_NotificationID : UUID;
  nsm_Type : NotificationType;
  nsm_Recipient : string;
  nsm_Subject : string;
  nsm_Body : string
}.

(** [json.Unmarshal] *)
Class EventDecoding : Type := {
  unmarshal_OrderCreated : string -> result error OrderCreatedMessage;
  unmarshal_UserUpdated : string -> result error UserUpdatedMessage;
  unmarshal_NotificationSend : string -> result error NotificationSendMessage
}.

Section Consumers.
Context {encoding : EventEncoding} {events : EventDecoding} (jsonb : string -> option string).

Definition with_event {A} (event : result error A) (k : A -> Prog (option error))
    : Prog (option error) :=
  match event with
  | Err err => mret (Some (errorf_wrap "failed to unmarshal event" err))
  | Ok event => k event
  end.

Definition confirmation_request (event : OrderCreatedMessage) : SendNotificationRequest :=
  mkSendNotificationRequest NotificationTypeEmail
    ("user-" +:+ ocm_UserID event +:+ "@example.com") "Order Confirmation"
    ("Your order " +:+ ocm_OrderID event +:+ " has been created successfully.").

(** order_handler.go *)
Definition OrderCreatedHandler_Handle (msg : SQSMessage) : Prog (option error) :=
  with_event (unmarshal_OrderCreated (raw_string (Body msg))) (fun event =>
  sent ← SendNotification jsonb (confirmation_request event);
  mret match sent with
       | Err err => Some (errorf_wrap "failed to send notification" err)
       | Ok _ => None
       end).

(** user_handler.go: the CRM call is a log line. *)
Definition UserUpdatedHandler_Handle (msg : SQSMessage) : Prog (option error) :=
  with_event (unmarshal_UserUpdated (raw_string (Body msg))) (fun _ => mret None).

(** notification_handler.go: look in the inbox, [effect], complete, each in its
    own transaction. *)
Definition external_call (msg : SQSMessage) (effect : Prog (option error)) : Prog (option error) :=
  processed ← inbox_IsProcessed "notification" (EventID msg);
  match processed with
  | Err err => mret (Some (errorf_wrap "failed to check inbox" err))
  | Ok true => mret None
  | Ok false =>
      err ← effect;
      match err with
      | Some err => mret (Some err)
      | None =>
          err ← inbox_Complete "notification" (EventID msg);
          mret match err with
               | Some err => Some (errorf_wrap "failed to mark as completed" err)
               | None => None
               end
      end
  end.

(** [unlucky] is [rand.Float64() < h.failureRate]. *)
Definition NotificationEmailHandler_Handle (simulateFailure : bool) (unlucky : StmtEnv -> bool)
    (msg : SQSMessage) : Prog (option error) :=
  with_event (unmarshal_NotificationSend (raw_string (Body msg))) (fun event =>
  external_call msg (
    failed ← (if simulateFailure then Ask unlucky mret else mret false);
    if (failed : bool) then mret (Some (EWrapf "simulated email sending failure" []))
    else
      err ← NotificationRepository_UpdateStatusWithPool (nsm_NotificationID event)
              NotificationStatusSent;
      mret match err with
           | Some err => Some (errorf_wrap "failed to update notification status" err)
           | None => None
           end)).

(** The SMS and the push call are log lines. *)
Definition NotificationSMSHandler_Handle (msg : SQSMessage) : Prog (option error) :=
  with_event (unmarshal_NotificationSend (raw_string (Body msg))) (fun _ =>
  external_call msg (mret None)).
Definition NotificationPushHandler_Handle (msg : SQSMessage) : Prog (option error) :=
  with_event (unmarshal_NotificationSend (raw_string (Body msg))) (fun _ =>
  external_call msg (mret None)).
End Consumers.
