(* ===== verification/Shop.v ===== *)
(** * The example application as a whole

    HTTP requests and SQS deliveries, any number at a time, against the
    dispatchers: what holds of the database, what an answer promises, and the
    cases the code does not handle. *)

From Stdlib Require Import ZArith Lia.
From stdpp Require Import base option list strings pretty gmap fin_maps.
From S2P Require Import Prelude Errors Model Ports Store PgxRepo OutboxSafety System Inbox Consumer.
From S2P Require Import AppStore AppTx Services Api.

Set Default Goal Selector "!".
Open Scope string_scope.
Open Scope list_scope.
Open Scope Z_scope.

(** ** Exchanges *)

(** The consumers of the application whose effect is on its tables or outside;
    the others are in Handlers.v. *)
Inductive AppHandler : Type :=
| OrderCreatedHandler
| UserUpdatedHandler
| NotificationEmailHandler (simulateFailure : bool) (unlucky : StmtEnv -> bool)
| NotificationSMSHandler
| NotificationPushHandler.

(** A request with its answer, a delivery with its own. *)
Inductive Exchange : Type :=
| Http (r : HttpRequest) (response : HttpResponse)
| Delivered (h : AppHandler) (msg : SQSMessage) (err : option error).

Section Exchanges.
Context {encoding : EventEncoding} {decoding : RequestDecoding} {events : EventDecoding}.
Context (jsonb : string -> option string).

Definition http_call (r : HttpRequest) : Prog Exchange :=
  response ← serve jsonb r; mret (Http r response).

Definition Handle (h : AppHandler) (msg : SQSMessage) : Prog (option error) :=
  match h with
  | OrderCreatedHandler => OrderCreatedHandler_Handle jsonb msg
  | UserUpdatedHandler => UserUpdatedHandler_Handle msg
  | NotificationEmailHandler fail unlucky => NotificationEmailHandler_Handle fail unlucky msg
  | NotificationSMSHandler => NotificationSMSHandler_Handle msg
  | NotificationPushHandler => NotificationPushHandler_Handle msg
  end.

Definition delivery (h : AppHandler) (msg : SQSMessage) : Prog Exchange :=
  err ← Handle h msg; mret (Delivered h msg err).

(** The quantities a request may order. *)
Definition allows (allowed : Z -> Prop) (r : HttpRequest) : Prop :=
  forall req, decode_CreateOrder (r_Body r) = Some req -> allowed (co_Quantity req).

(** The events of a run of the application. *)
Definition shop_event (allowed : Z -> Prop) (e : AppEvent Exchange) : Prop :=
  match e with
  | Start _ p => (exists r, p = http_call r /\ allows allowed r) \/ exists h msg, p = delivery h msg
  | Relay c => relay_call c = true
  | _ => True
  end.

(** ** What an answer promises *)

(** A success: the rows are committed, with the message that carries the event; a
    notification is the one that the request, or the delivered event, asks for;
    an external call that was acknowledged is in the inbox. *)
Definition promised (x : Exchange) (c : Tables) : Prop :=
  match x with
  | Http r response =>
      match ResponseBody_ response with
      | OrderJson o => created jsonb (Ok o) c
      | UserJson u => registered jsonb (Ok u) c
      | NotificationJson n => exists req,
          decode_SendNotification (r_Body r) = Some req /\ notified_of jsonb req (Ok n) c
      | Text _ =>
          StatusCode response = 200 ->
          (Path r = "/api/orders/confirm" -> exists id,
             uuid_Parse (QueryGet r "order_id") = Some id /\ confirmed id (Ok tt) c)
          /\ (Path r = "/api/users/update" -> exists id,
             uuid_Parse (QueryGet r "user_id") = Some id /\ updated id (Ok tt) c)
      end
  | Delivered h msg err =>
      err = None ->
      match h with
      | OrderCreatedHandler => exists event n,
          unmarshal_OrderCreated (raw_string (Body msg)) = Ok event
          /\ notified_of jsonb (confirmation_request event) (Ok n) c
      | UserUpdatedHandler => True
      | _ => is_Some (inbox c !! ("notification", EventID msg))
      end
  end.

Lemma promised_stable x : stable grows (promised x).
Proof.
  intros c c' Hg. destruct x as [r [code [text|o|u|n]]|h msg err]; cbn.
  - intros H Hcode. destruct (H Hcode) as [H1 H2]. split.
    + intros E. destruct (H1 E) as (id & Hid & H0). exists id. split; [done|].
      by apply (confirmed_stable id (Ok tt) c).
    + intros E. destruct (H2 E) as (id & Hid & H0). exists id. split; [done|].
      by apply (updated_stable id (Ok tt) c).
  - apply (created_stable jsonb (Ok o)); done.
  - apply (registered_stable jsonb (Ok u)); done.
  - intros (req & Hreq & H). exists req. split; [done|].
    by apply (notified_of_stable jsonb req (Ok n) c).
  - intros H Herr. specialize (H Herr). destruct h; try done; try (by apply (g_inbox _ _ Hg)).
    destruct H as (event & n & He & H). exists event, n. split; [done|].
    by apply (notified_of_stable jsonb (confirmation_request event) (Ok n) c).
Qed.

(** ** The calls keep the invariant and their promises *)

Context (seed : Tables) (allowed : Z -> Prop).
Abbreviation valid_prog := (valid (ShopInv seed allowed) grows).

Lemma respond_valid {A} (Q : result error A -> Tables -> Prop) (p : Prog (result error A)) ok r :
  valid_prog Q (Outside (fun _ => True)) p ->
  (forall a c, Q (Ok a) c -> promised (Http r (ok a)) c) ->
  valid_prog (fun response => promised (Http r response)) (Outside (fun _ => True)) (respond p ok).
Proof.
  intros Hp Hok. apply (valid_bind Q); [|done]. intros [a|e] F HF c Hc H; [|done].
  apply Hok. by apply HF.
Qed.

Lemma silent_valid ph r code text (Hph : match ph with Outside _ => True | _ => False end) :
  code <> 200 ->
  valid_prog (fun response => promised (Http r response)) ph (mret (http_Error text code)).
Proof. intros Hcode. destruct ph; [|done..]. intros c _ _ E. by destruct Hcode. Qed.

Lemma serve_valid r :
  allows allowed r ->
  valid_prog (fun response => promised (Http r response)) (Outside (fun _ => True)) (serve jsonb r).
Proof.
  intros Hr. unfold serve, routes. cbn [List.find fst snd].
  do 6 try (case_bool_decide as Epath; [symmetry in Epath|clear Epath]).
  - unfold OrderHandler_CreateOrder. destruct (negb _); [by apply silent_valid|].
    destruct (decode_CreateOrder (r_Body r)) as [req|] eqn:Ed; [|by apply silent_valid].
    apply (respond_valid (created jsonb)); [by apply CreateOrder_valid, Hr|done].
  - unfold OrderHandler_ConfirmOrder. destruct (negb _); [by apply silent_valid|]. cbv zeta.
    case_bool_decide; [by apply silent_valid|].
    destruct (uuid_Parse _) as [id|] eqn:Eid; [|by apply silent_valid].
    apply (respond_valid (confirmed id)); [by apply ConfirmOrder_valid|].
    intros [] c Hok _. split; [intros _; by exists id|by rewrite Epath].
  - unfold UserHandler_RegisterUser. destruct (negb _); [by apply silent_valid|].
    destruct (decode_CreateUser _) as [req|]; [|by apply silent_valid].
    apply (respond_valid (registered jsonb)); [by apply RegisterUser_valid|done].
  - unfold UserHandler_UpdateUser. destruct (negb _); [by apply silent_valid|]. cbv zeta.
    case_bool_decide; [by apply silent_valid|].
    destruct (uuid_Parse _) as [id|] eqn:Eid; [|by apply silent_valid].
    destruct (decode_UpdateUser _) as [req|]; [|by apply silent_valid].
    apply (respond_valid (updated id)); [by apply UpdateUser_valid|].
    intros [] c Hok _. split; [by rewrite Epath|intros _; by exists id].
  - unfold NotificationHandler_SendNotification. destruct (negb _); [by apply silent_valid|].
    destruct (decode_SendNotification _) as [req|] eqn:Ed; [|by apply silent_valid].
    apply (respond_valid (notified_of jsonb req)); [by apply SendNotification_valid|].
    intros n c H. by exists req.
  - cbn. split; [|split].
    + intros _ c w x Hc [= <- <-]. rewrite overlay_nothing. split; [done|reflexivity].
    + intros _ c w x Hc _ [= <- <-]. exists (fun _ => True). split; [done|]. split; [done|].
      intros c' _ _ _. by rewrite Epath.
    + intros e c _ _ E. discriminate E.
  - by apply silent_valid.
Qed.

(** *** Deliveries *)

(** Rows that the invariant of the shop does not speak of. *)
Lemma inbox_insert_keeps c key at_ :
  ShopInv seed allowed c ->
  ShopInv seed allowed (overlay (only_record key at_) c) /\ grows c (overlay (only_record key at_) c).
Proof.
  intros Hc. set (c' := overlay _ _).
  assert (Hg : grows c c').
  { constructor; unfold c'; cbn; rewrite ?(left_id_L ∅ (∪)); eauto using order_grows_refl.
    intros k Hk. rewrite lookup_union_is_Some. auto. }
  split; [|done]. destruct Hc as [H1 H2 H3 H4 H5 H6]. unfold c' in *.
  apply (shop_step seed allowed c); [by constructor|done|..]; cbn; rewrite ?(left_id_L ∅ (∪)); eauto.
  - intros m r Hr. split; [by apply H1|eauto].
  - intros product. unfold stock_ok. cbn. rewrite !(left_id_L ∅ (∪)). apply H6.
Qed.

Lemma notification_update_keeps c status id env w n :
  ShopInv seed allowed c -> queryNotificationUpdateStatus status id env c = Ok (w, n) ->
  ShopInv seed allowed (overlay w c) /\ grows c (overlay w c).
Proof.
  unfold queryNotificationUpdateStatus. intros Hc H.
  destruct (notifications c !! id) as [x|] eqn:Ex.
  2: { injection H as <- _. rewrite overlay_nothing. split; [done|reflexivity]. }
  destruct (negb _); [discriminate|]. injection H as <- _. set (x' := mkNotification _ _ _ _ _ _ _ _).
  destruct (si_notifications _ _ _ Hc id x Ex) as [Hid _].
  assert (E : overlay (only_notification x') c
    = mkTables (orders c) (users c) (inventory c) (<[id := x']> (notifications c)) (outbox c) (inbox c)).
  { assert (Hx : n_ID x' = id) by exact Hid. rewrite <- Hx.
    clearbody x'. tables_eq. }
  rewrite E. set (c' := mkTables _ _ _ _ _ _).
  assert (Hg : grows c c').
  { constructor; cbn; eauto using order_grows_refl. intros k [y Hy].
    rewrite lookup_insert. case_decide; by eexists. }
  split; [|done]. apply (shop_step seed allowed c); cbn; eauto.
  - intros k y. rewrite lookup_insert. case_decide as Ek; [|eauto]. intros [= <-]. left.
    subst k. exists x. by rewrite Ex.
  - intros m r Hr. split; [by apply (si_keyed _ _ _ Hc)|eauto].
  - apply (stock_same seed allowed c); done.
Qed.

Definition in_inbox (key : string * UUID) (c : Tables) : Prop := is_Some (inbox c !! key).

Lemma in_inbox_stable key : stable grows (in_inbox key).
Proof. intros c c' Hg H. by apply (g_inbox _ _ Hg). Qed.

Definition recorded (msg : SQSMessage) (err : option error) (c : Tables) : Prop :=
  err = None -> in_inbox ("notification", EventID msg) c.

Lemma complete_valid msg :
  valid_prog (recorded msg) (Outside (fun _ => True))
    (err ← inbox_Complete "notification" (EventID msg);
     mret match err with
          | Some err => Some (errorf_wrap "failed to mark as completed" err)
          | None => None
          end).
Proof.
  set (key := ("notification", EventID msg)).
  assert (Hq : forall env c w x, queryInboxInsert key env c = Ok (w, x) ->
    w = only_record key (e_set env (EventID msg)) \/ w = no_rows /\ in_inbox key c).
  { intros env c w x. unfold queryInboxInsert, queryInboxComplete.
    destruct (inbox c !! key) as [y|] eqn:E; intros [= <- _]; [right|by left].
    split; [done|by exists y]. }
  split; [|split; [|intros e c _ _ E; discriminate E]].
  - intros env c w x Hc Hr. destruct (Hq env c w x Hr) as [-> |[-> _]]; [by apply inbox_insert_keeps|].
    rewrite overlay_nothing. split; [done|reflexivity].
  - intros env c w x Hc _ Hr. exists (in_inbox key). split; [apply in_inbox_stable|].
    split; [|by intros c' _ Hin _].
    destruct (Hq env c w x Hr) as [-> |[-> Hin]]; [|by rewrite overlay_nothing].
    eexists. written.
Qed.

Lemma external_call_valid msg effect :
  valid_prog (fun (_ : option error) _ => True) (Outside (fun _ => True)) effect ->
  valid_prog (recorded msg) (Outside (fun _ => True)) (external_call msg effect).
Proof.
  intros Heffect. set (key := ("notification", EventID msg)).
  split; [intros env c w x Hc [= <- <-]; rewrite overlay_nothing; split; [done|reflexivity]|].
  split; [|intros e c _ _ E; discriminate E].
  intros env c w x Hc _ [= <- <-]. rewrite overlay_nothing.
  case_bool_decide as Hin.
  - exists (in_inbox key). split; [apply in_inbox_stable|]. split; [done|]. by intros c' _ H _.
  - exists (fun _ => True). split; [done|]. split; [done|].
    apply (valid_bind (fun _ _ => True) (recorded msg)
      (fun err : option error =>
         match err with
         | Some err => mret (Some err)
         | None =>
             err ← inbox_Complete "notification" (EventID msg);
             mret match err with
                  | Some err => Some (errorf_wrap "failed to mark as completed" err)
                  | None => None
                  end
         end)); [|exact Heffect].
    intros [err|] F _; [intros c' _ _ E; discriminate E|].
    apply (valid_weaken _ _ _ (Outside (fun _ => True))); [done|apply complete_valid].
Qed.

Lemma email_effect_valid (simulateFailure : bool) (unlucky : StmtEnv -> bool)
    (event : NotificationSendMessage) :
  valid_prog (fun (_ : option error) _ => True) (Outside (fun _ => True))
    (failed ← (if simulateFailure then Ask unlucky mret else mret false);
     if (failed : bool) then mret (Some (EWrapf "simulated email sending failure" []))
     else
       err ← NotificationRepository_UpdateStatusWithPool (nsm_NotificationID event)
               NotificationStatusSent;
       mret match err with
            | Some err => Some (errorf_wrap "failed to update notification status" err)
            | None => None
            end).
Proof.
  assert (Hup : valid_prog (fun (_ : option error) _ => True) (Outside (fun _ => True))
    (err ← NotificationRepository_UpdateStatusWithPool (nsm_NotificationID event)
             NotificationStatusSent;
     mret match err with
          | Some err => Some (errorf_wrap "failed to update notification status" err)
          | None => None
          end)).
  { split; [intros env c w x; apply notification_update_keeps|].
    split; [|done]. intros env c w x _ _ _. by exists (fun _ => True). }
  destruct simulateFailure; [|exact Hup]. intros [|]; [done|exact Hup].
Qed.

Lemma delivery_valid h msg :
  valid_prog promised (Outside (fun _ => True)) (delivery h msg).
Proof.
  apply (valid_bind (fun err => promised (Delivered h msg err))); [by intros r F H c Hc HF; apply H|].
  assert (Hfailed : forall err, valid_prog (fun err => promised (Delivered h msg err))
    (Outside (fun _ => True)) (mret (Some err))) by (intros err c _ _ E; discriminate E).
  destruct h as [| |fail unlucky| |]; cbn [Handle];
    unfold OrderCreatedHandler_Handle, UserUpdatedHandler_Handle, NotificationEmailHandler_Handle,
      NotificationSMSHandler_Handle, NotificationPushHandler_Handle, with_event;
    match goal with |- context [match ?decoded with Ok _ => _ | Err _ => _ end] =>
      destruct decoded as [event|e0] eqn:Edec; [|apply Hfailed] end.
  - apply (valid_bind (notified_of jsonb (confirmation_request event))); [|apply SendNotification_valid].
    intros [n|e] F HF c Hc H; [|done]. intros _. exists event, n. split; [done|]. by apply HF.
  - done.
  - apply external_call_valid, email_effect_valid.
  - by apply external_call_valid.
  - by apply external_call_valid.
Qed.

Lemma http_valid r :
  allows allowed r -> valid_prog promised (Outside (fun _ => True)) (http_call r).
Proof.
  intros Hr. apply (valid_bind (fun response => promised (Http r response)));
    [by intros x F H c Hc HF; apply H|by apply serve_valid].
Qed.

(** *** Reachable states *)

Context (repo : OutboxRepo) (ctx : Context).

(** The tables the migration leaves. *)
Record seeded : Prop := {
  seed_orders : orders seed = ∅;
  seed_notifications : notifications seed = ∅;
  seed_outbox : outbox seed = ∅;
  seed_users : map_Forall (fun id u => u_ID u = id) (users seed);
  seed_stock : map_Forall (fun p i => i_ProductID i = p /\ check_inventory i = true) (inventory seed)
}.

Lemma seed_inv : seeded -> ShopInv seed allowed seed.
Proof.
  intros [H1 H2 H3 H4 H5]. constructor; rewrite ?H1, ?H2, ?H3.
  - done.
  - intros id o. by rewrite lookup_empty.
  - intros id u Hu. split; [by apply (H4 id u)|]. left. by exists u.
  - intros id n. by rewrite lookup_empty.
  - intros m r. by rewrite lookup_empty.
  - intros p. unfold stock_ok. destruct (inventory seed !! p) as [i|] eqn:E; [|done].
    destruct (H5 p i E). rewrite H1. unfold booked. rewrite !map_fold_empty.
    repeat split; [done|done|lia|lia].
Qed.

(** A run of the application from the migrated database. *)
Definition shop_run (max_conns : nat) (envs : nat -> StmtEnv) (es : list (AppEvent Exchange))
    (a : App Exchange) : Prop :=
  (forall n, env_ok (envs n)) /\ Forall (shop_event allowed) es
  /\ app_run jsonb repo ctx max_conns es (app_start seed envs) = Some a.

Lemma shop_reachable max_conns envs es a :
  seeded -> shop_run max_conns envs es a -> AppInv (ShopInv seed allowed) grows promised a.
Proof.
  intros Hseed (Henvs & Hes & Hrun).
  apply (app_run_inv (ShopInv seed allowed) grows promised promised_stable jsonb repo ctx
           max_conns es (app_start seed envs)); [|clear Hrun|done].
  - apply app_start_inv; [done|by apply seed_inv].
  - eapply Forall_impl; [exact Hes|]. intros [d p| | | |c]; cbn; try done.
    intros [(r & -> & Hr)|(h & msg & ->)]; [by apply http_valid|apply delivery_valid].
Qed.
End Exchanges.

(** ** Sums over some of the orders *)

(** What orders take of a product, whatever their status. *)
Definition ordered (product : string) (os : gmap UUID Order) : Z :=
  map_fold (fun _ o acc => (if bool_decide (o_ProductID o = product) then o_Quantity o else 0) + acc)
    0 os.

Lemma ordered_insert product id o os :
  os !! id = None ->
  ordered product (<[id := o]> os)
  = (if bool_decide (o_ProductID o = product) then o_Quantity o else 0) + ordered product os.
Proof.
  intros Hid. unfold ordered.
  apply (map_fold_insert_L (fun _ o acc =>
    (if bool_decide (o_ProductID o = product) then o_Quantity o else 0) + acc)); [intros; lia|done].
Qed.

Lemma ordered_nonneg product os :
  map_Forall (fun _ o => 0 <= o_Quantity o) os -> 0 <= ordered product os.
Proof.
  induction os as [|id o os Hid IH] using map_ind; intros H; [done|].
  apply map_Forall_insert in H as [H1 H2]; [|done].
  rewrite ordered_insert by done. specialize (IH H2). case_bool_decide; lia.
Qed.

Lemma ordered_subset product os : forall all,
  os ⊆ all -> map_Forall (fun _ o => 0 <= o_Quantity o) all ->
  ordered product os <= ordered product all.
Proof.
  induction os as [|id o os Hid IH] using map_ind; intros all Hsub Hall.
  { by apply ordered_nonneg. }
  assert (Ho : all !! id = Some o).
  { apply (lookup_weaken (<[id := o]> os)); [apply lookup_insert_eq|done]. }
  rewrite <- (insert_delete_id all id o Ho), !ordered_insert by (done || apply lookup_delete_eq).
  apply Z.add_le_mono_l, IH.
  - apply map_subseteq_spec. intros k x Hk. rewrite lookup_delete_ne.
    + apply (lookup_weaken (<[id := o]> os)); [|done]. rewrite lookup_insert_ne; [done|congruence].
    + congruence.
  - intros k x [_ Hk]%lookup_delete_Some. by apply (Hall k).
Qed.

(** Pending and confirmed orders are all there are. *)
Lemma ordered_booked product os :
  map_Forall (fun _ o => o_Status o = OrderStatusPending \/ o_Status o = OrderStatusConfirmed) os ->
  ordered product os
  = booked OrderStatusPending product os + booked OrderStatusConfirmed product os.
Proof.
  induction os as [|id o os Hid IH] using map_ind; intros H; [done|].
  apply map_Forall_insert in H as [H1 H2]; [|done].
  rewrite ordered_insert, !booked_insert, IH by done. unfold share.
  case_bool_decide as Hp.
  - destruct H1 as [E|E]; rewrite E.
    + rewrite (bool_decide_eq_true_2 _ (conj eq_refl Hp)), bool_decide_eq_false_2; [lia|by intros []].
    + rewrite (bool_decide_eq_true_2 (OrderStatusConfirmed = _ /\ _) (conj eq_refl Hp)),
        bool_decide_eq_false_2; [lia|by intros []].
  - rewrite !bool_decide_eq_false_2 by (by intros []). lia.
Qed.

(** ** Properties *)

Section Properties.
Context {encoding : EventEncoding} {decoding : RequestDecoding} {events : EventDecoding}.
Context (jsonb : string -> option string) (repo : OutboxRepo) (ctx : Context).

(** C16: no event is lost and none is invented. Whatever requests, deliveries and
    dispatchers run at the same time, whatever statements fail, commits lose
    their answer and processes die: a committed order, user or notification has
    its message in the outbox, a confirmed order also the one of its
    confirmation, and every message speaks of committed rows. (No cleanup
    deletes messages meanwhile.) *)
Theorem rows_have_messages (seed : Tables) (max_conns : nat) (envs : nat -> StmtEnv)
  (es : list (AppEvent Exchange)) (a : App Exchange)
  (Hseed : seeded seed)
  (Hrun : shop_run jsonb seed (fun _ => True) repo ctx max_conns envs es a) :
  let c := committed a in
  (forall id o, orders c !! id = Some o -> has_message c "order.created" id
     /\ (o_Status o = OrderStatusPending
         \/ o_Status o = OrderStatusConfirmed
            /\ has_message c "order.confirmed" (confirmed_key id)))
  /\ (forall id, is_Some (users c !! id) -> is_Some (users seed !! id)
        \/ has_message c "user.registered" id)
  /\ (forall id n, notifications c !! id = Some n ->
        has_message c (notification_event (n_Type n)) id)
  /\ forall m r, outbox c !! m = Some r -> origin c (message_key r).
Proof.
  pose proof (ai_good _ _ _ _ (shop_reachable jsonb _ _ repo ctx _ _ _ _ Hseed Hrun)) as Hc.
  split; [|split; [|split]].
  - intros id o Ho. by destruct (si_orders _ _ _ Hc id o Ho) as (_ & _ & H).
  - intros id [u Hu]. by destruct (si_users _ _ _ Hc id u Hu) as [_ H].
  - intros id n Hn. by destruct (si_notifications _ _ _ Hc id n Hn) as [_ H].
  - apply (si_origin _ _ _ Hc).
Qed.

(** C17: the books balance. Whatever runs, fails and dies: the reserved stock of a
    product is the seeded one plus what its pending orders took, its quantity is
    the seeded one less what its confirmed orders took, and
    [0 <= reserved <= quantity]. *)
Theorem stock_balances (seed : Tables) (max_conns : nat) (envs : nat -> StmtEnv)
  (es : list (AppEvent Exchange)) (a : App Exchange) (product : string) (i0 : Stock)
  (Hseed : seeded seed)
  (Hrun : shop_run jsonb seed (fun _ => True) repo ctx max_conns envs es a)
  (Hproduct : inventory seed !! product = Some i0) :
  let os := orders (committed a) in
  exists i, inventory (committed a) !! product = Some i
    /\ i_Reserved i = i_Reserved i0 + booked OrderStatusPending product os
    /\ i_Quantity i = i_Quantity i0 - booked OrderStatusConfirmed product os
    /\ 0 <= i_Reserved i <= i_Quantity i.
Proof.
  pose proof (ai_good _ _ _ _ (shop_reachable jsonb _ _ repo ctx _ _ _ _ Hseed Hrun)) as Hc.
  pose proof (si_stock _ _ _ Hc product) as Hs. unfold stock_ok in Hs. rewrite Hproduct in Hs.
  destruct (inventory (committed a) !! product) as [i|]; [|done].
  destruct Hs as (_ & Hcheck & H1 & H2). exists i. repeat split; try done;
    unfold check_inventory in Hcheck; bool_to_prop; lia.
Qed.

(** C18: nothing is sold twice. When no request orders a negative quantity, the
    orders of a product, and any of them, take no more than its seeded free
    stock. *)
Theorem no_oversell (seed : Tables) (max_conns : nat) (envs : nat -> StmtEnv)
  (es : list (AppEvent Exchange)) (a : App Exchange) (product : string) (i0 : Stock)
  (some : gmap UUID Order)
  (Hseed : seeded seed)
  (Hrun : shop_run jsonb seed (fun quantity => 0 <= quantity) repo ctx max_conns envs es a)
  (Hproduct : inventory seed !! product = Some i0)
  (Hsome : some ⊆ orders (committed a)) :
  ordered product some <= i_Quantity i0 - i_Reserved i0.
Proof.
  pose proof (ai_good _ _ _ _ (shop_reachable jsonb _ _ repo ctx _ _ _ _ Hseed Hrun)) as Hc.
  pose proof (si_stock _ _ _ Hc product) as Hs. unfold stock_ok in Hs. rewrite Hproduct in Hs.
  destruct (inventory (committed a) !! product) as [i|]; [|done].
  destruct Hs as (_ & Hcheck & H1 & H2). unfold check_inventory in Hcheck.
  assert (Hall : ordered product some <= ordered product (orders (committed a))).
  { apply ordered_subset; [done|]. intros id o Ho. apply (si_orders _ _ _ Hc id o Ho). }
  rewrite (ordered_booked product (orders _)) in Hall; [bool_to_prop; lia|].
  intros id o Ho. destruct (si_orders _ _ _ Hc id o Ho) as (_ & _ & _ & [H|[H _]]); auto.
Qed.

(** C19: answers are kept. An order, user or notification a response carries is
    committed with the message of its event, so is a confirmation or an update
    answered with 200, and the event of a notification that a handler
    acknowledged is in the inbox; and all that stays, whatever follows. *)
Theorem answers_are_kept (seed : Tables) (max_conns : nat) (envs : nat -> StmtEnv)
  (es : list (AppEvent Exchange)) (a : App Exchange) (d : nat) (x : Exchange)
  (Hseed : seeded seed)
  (Hrun : shop_run jsonb seed (fun _ => True) repo ctx max_conns envs es a)
  (Hreturned : (d, x) ∈ returned a) :
  promised jsonb x (committed a).
Proof.
  apply (ai_returned _ _ _ _ (shop_reachable jsonb _ _ repo ctx _ _ _ _ Hseed Hrun) d x Hreturned).
Qed.
End Properties.
