(* ===== verification/CallsEnd.v ===== *)
(** * The calls of the example application end

    [within] bounds the steps of a program on every path, [self_free] says that
    it does not wait for its own transaction; every request and delivery has
    both, so it is answered after ten steps of its own, and alone it is never
    blocked. *)

From Stdlib Require Import ZArith Lia.
From stdpp Require Import base option list strings gmap fin_maps.
From S2P Require Import Prelude Errors Model Ports Store PgxRepo System Inbox Consumer AppStore.
From S2P Require Import AppTx Services Api Shop.

Set Default Goal Selector "!".
Open Scope string_scope.
Open Scope list_scope.
Open Scope nat_scope.

(** ** Steps of a program *)

(** On every path, whatever the answers, [p] returns after at most [n] steps. *)
Fixpoint within {R} (n : nat) (p : Prog R) {struct p} : Prop :=
  match p with
  | Return _ => True
  | Begin k => match n with O => False | S n => forall a, within n (k a) end
  | Commit k => match n with O => False | S n => forall a, within n (k a) end
  | Rollback k => match n with O => False | S n => within n k end
  | TxQuery _ k => match n with O => False | S n => forall a, within n (k a) end
  | PoolQuery _ k => match n with O => False | S n => forall a, within n (k a) end
  | Ask _ k => match n with O => False | S n => forall a, within n (k a) end
  end.

(** A query that writes nothing. *)
Definition reads {A} (q : Query A) : Prop := forall env c w x, q env c = Ok (w, x) -> w = no_rows.

(** In a transaction ([tx]), [p] queries the pool only to read: it never waits
    for itself. *)
Fixpoint self_free {R} (tx : bool) (p : Prog R) {struct p} : Prop :=
  match p with
  | Return _ => True
  | Begin k => tx = false /\ self_free true (k None) /\ forall e, self_free false (k (Some e))
  | Commit k => forall a, self_free false (k a)
  | Rollback k => self_free false k
  | TxQuery _ k => forall a, self_free tx (k a)
  | PoolQuery q k => (tx = true -> reads q) /\ forall a, self_free tx (k a)
  | Ask _ k => forall a, self_free tx (k a)
  end.

Ltac within_steps :=
  repeat first
    [ discriminate
    | progress intros
    | exact I
    | match goal with
      | |- within _ _ => progress cbn
      | |- self_free _ _ => progress cbn
      | |- _ /\ _ => split
      | |- ?x = ?x => reflexivity
      | |- context [match ?x with _ => _ end] =>
          lazymatch x with context [match _ with _ => _ end] => fail | _ => idtac end; destruct x
      end ].

Section Ends.
Context {R : Type} (jsonb : string -> option string) (repo : OutboxRepo) (ctx : Context).
Context (max_conns : nat) (d : nat).
Implicit Types (a : App R).

(** A step of the call [d], executed or failed. *)
Definition own (e : AppEvent R) : bool :=
  match e with Step d' | Failing d' _ _ => Nat.eqb d' d | _ => false end.
Definition crashes (e : AppEvent R) : bool :=
  match e with Crash d' => Nat.eqb d' d | _ => false end.

Definition answered a : Prop := exists x, (d, x) ∈ returned a.

Lemma answered_step e a a' :
  app_step jsonb repo ctx max_conns e a = Some a' -> answered a -> answered a'.
Proof.
  intros H [x Hx]. exists x.
  assert (Hret : exists l, returned a' = returned a ++ l); [|destruct Hret as [l ->]; set_solver].
  destruct e as [d' p|d'|d' err applied|d'|c]; cbn in H.
  - destruct (sessions a !! d'); [done|]. injection H as <-. exists []. by rewrite app_nil_r.
  - destruct (sessions a !! d') as [s|]; [|done]. cbn in H. unfold prog_step in H.
    repeat (break_hyp H; try discriminate); injection H as <-; cbn;
      first [by eexists | exists []; by rewrite app_nil_r].
  - destruct (sessions a !! d') as [s|]; [|done]. cbn in H. unfold prog_fail in H.
    repeat (break_hyp H; try discriminate); injection H as <-; cbn; exists []; by rewrite app_nil_r.
  - injection H as <-. exists []. by rewrite app_nil_r.
  - injection H as <-. exists []. by rewrite app_nil_r.
Qed.

(** What an event does to the call: nothing, unless it is its own. *)
Lemma other_step e a a' s :
  app_step jsonb repo ctx max_conns e a = Some a' -> sessions a !! d = Some s ->
  own e = false -> crashes e = false -> sessions a' !! d = Some s.
Proof.
  intros H Hs Ho Hc. destruct e as [d' p|d'|d' err applied|d'|c]; cbn in H, Ho, Hc.
  - destruct (sessions a !! d') eqn:E; [done|]. injection H as <-. cbn.
    rewrite lookup_insert_ne; [done|congruence].
  - apply Nat.eqb_neq in Ho. destruct (sessions a !! d') as [s'|]; [|done]. cbn in H.
    unfold prog_step in H. repeat (break_hyp H; try discriminate); injection H as <-; cbn;
      by rewrite ?lookup_insert_ne, ?lookup_delete_ne.
  - apply Nat.eqb_neq in Ho. destruct (sessions a !! d') as [s'|]; [|done]. cbn in H.
    unfold prog_fail in H. repeat (break_hyp H; try discriminate); injection H as <-; cbn;
      by rewrite lookup_insert_ne.
  - apply Nat.eqb_neq in Hc. injection H as <-. cbn. by rewrite lookup_delete_ne.
  - by injection H as <-.
Qed.

Lemma own_step e a a' s n :
  app_step jsonb repo ctx max_conns e a = Some a' -> sessions a !! d = Some s ->
  own e = true -> within n (s_prog s) ->
  answered a'
  \/ exists n' s', n = S n' /\ sessions a' !! d = Some s' /\ within n' (s_prog s').
Proof.
  intros H Hs Ho Hw. destruct e as [|d'|d' err applied| |]; try discriminate Ho; cbn in H, Ho;
    apply Nat.eqb_eq in Ho as ->; rewrite Hs in H; cbn in H;
    [unfold prog_step in H|unfold prog_fail in H];
    destruct (s_prog s) as [r|k|k|k|A q k|A q k|A f k]; try discriminate;
    try (destruct n as [|n]; [done|cbn in Hw]);
    repeat (break_hyp H; try discriminate); injection H as <-; cbn;
    try (left; exists r; set_solver);
    right; eexists n, _; rewrite lookup_insert_eq; (split; [done|]; split; [done|]); cbn; auto.
Qed.

Lemma run_ends es : forall n a a' s,
  app_run jsonb repo ctx max_conns es a = Some a' ->
  sessions a !! d = Some s -> within n (s_prog s) ->
  Forall (fun e => crashes e = false) es ->
  (n < length (List.filter own es))%nat -> answered a'.
Proof.
  induction es as [|e es IH]; cbn; intros n a a' s H Hs Hw Hc Hn; [lia|].
  apply Forall_cons in Hc as [Hce Hces].
  destruct (app_step jsonb repo ctx max_conns e a) as [a1|] eqn:E; [|done]. cbn in H.
  destruct (own e) eqn:Eo; cbn in Hn.
  - destruct (own_step e a a1 s n E Hs Eo Hw) as [Hans|(n' & s' & -> & Hs' & Hw')].
    + clear - H Hans. revert a1 H Hans. induction es as [|e' es IH']; cbn; intros a1 H Hans.
      { by injection H as <-. }
      destruct (app_step jsonb repo ctx max_conns e' a1) as [a2|] eqn:E'; [|done].
      apply (IH' a2 H). by apply (answered_step e' a1).
    + apply (IH n' a1 a' s'); [done|done|done|done|lia].
  - apply (IH n a1 a' s); try done. by apply (other_step e a).
Qed.

(** *** Alone *)

(** No other call is in a transaction. *)
Definition alone a : Prop :=
  forall d' s, d' <> d -> sessions a !! d' = Some s -> s_tx s = None.

Definition in_tx (s : Session R) : bool := match s_tx s with Some _ => true | None => false end.

Lemma alone_conn a : alone a -> 2 <= max_conns -> has_conn max_conns (sessions a) = true.
Proof.
  intros Ha Hm. unfold has_conn, connections. apply Nat.ltb_lt.
  assert (H : filter (fun kv => is_Some (s_tx kv.2)) (sessions a)
              ⊆ match sessions a !! d with Some s => {[ d := s ]} | None => ∅ end).
  { apply map_subseteq_spec. intros d' s [Hs [tx Htx]]%map_lookup_filter_Some.
    destruct (decide (d' = d)) as [->|Hd].
    - rewrite Hs. by rewrite lookup_singleton_eq.
    - cbn in Htx. by rewrite (Ha d' s Hd Hs) in Htx. }
  apply map_subseteq_size in H. destruct (sessions a !! d).
  - rewrite map_size_singleton in H. lia.
  - rewrite map_size_empty in H. lia.
Qed.

Lemma alone_free a w : alone a -> free w (delete d (sessions a)) = true.
Proof.
  intros Ha. apply bool_decide_eq_true_2. intros d' s [Hd Hs]%lookup_delete_Some.
  unfold held_rows. rewrite (Ha d' s) by done. apply compatible_sym, compatible_no_rows.
Qed.

Lemma alone_free_outside a s w :
  alone a -> sessions a !! d = Some s -> s_tx s = None -> free w (sessions a) = true.
Proof.
  intros Ha Hs Htx. apply bool_decide_eq_true_2. intros d' s' Hs'. unfold held_rows.
  assert (E : s_tx s' = None).
  { destruct (decide (d' = d)) as [->|Hd]; [congruence|by apply (Ha d')]. }
  rewrite E. apply compatible_sym, compatible_no_rows.
Qed.

Lemma free_none (m : gmap nat (Session R)) : free no_rows m = true.
Proof. apply bool_decide_eq_true_2. intros d' s _. apply compatible_no_rows. Qed.

Lemma alone_session a s c : alone a -> alone (with_session d s c a).
Proof. intros Ha d' s' Hd. cbn. rewrite lookup_insert_ne by done. by apply Ha. Qed.

(** The next step of a call that is alone is not blocked. *)
Lemma alone_step a s :
  alone a -> 2 <= max_conns -> sessions a !! d = Some s -> self_free (in_tx s) (s_prog s) ->
  exists a', app_step jsonb repo ctx max_conns (Step d) a = Some a'
    /\ (answered a' \/ exists s', a' = with_session d s' (committed a') a
                        /\ self_free (in_tx s') (s_prog s')).
Proof.
  intros Ha Hm Hs Hf. pose proof (alone_conn a Ha Hm) as Hconn. cbn. rewrite Hs. cbn.
  unfold prog_step, in_tx in *. rewrite Hconn.
  assert (Hgo : forall s' c, self_free (in_tx s') (s_prog s') ->
    exists a', Some (with_session d s' c a) = Some a' /\ (answered a' \/
      exists s', a' = with_session d s' (committed a') a /\ self_free (in_tx s') (s_prog s'))).
  { intros s' c Hs'. eexists. split; [done|]. right. by exists s'. }
  destruct (s_prog s) as [r|k|k|k|A q k|A q k|A f k]; cbn [self_free] in Hf.
  - eexists. split; [done|]. left. exists r. cbn. set_solver.
  - destruct Hf as (_ & Hf & _). by apply Hgo.
  - destruct (s_tx s) as [tx|]; [destruct (tx_aborted tx)|]; apply Hgo, Hf.
  - by apply Hgo.
  - destruct (s_tx s) as [tx|] eqn:Etx; [|apply Hgo, Hf].
    destruct (tx_aborted tx); [apply Hgo, Hf|].
    destruct (q _ _) as [[w x]|e]; [|apply Hgo, Hf].
    rewrite alone_free by done. apply Hgo, Hf.
  - destruct Hf as [Hq Hf]. destruct (q _ _) as [[w x]|e] eqn:E; [|apply Hgo, Hf].
    assert (Hfree : free w (sessions a) = true).
    { destruct (s_tx s) as [tx|] eqn:Etx; [by rewrite (Hq eq_refl _ _ _ _ E), free_none|].
      by apply alone_free_outside with s. }
    rewrite Hfree. apply Hgo, Hf.
  - apply Hgo, Hf.
Qed.

Lemma alone_ends n : forall a s,
  alone a -> 2 <= max_conns -> sessions a !! d = Some s -> self_free (in_tx s) (s_prog s) ->
  within n (s_prog s) ->
  exists m a', m <= S n /\ app_run jsonb repo ctx max_conns (repeat (Step d) m) a = Some a'
    /\ answered a'.
Proof.
  induction n as [|n IH]; intros a s Ha Hm Hs Hf Hw;
    destruct (alone_step a s Ha Hm Hs Hf) as (a1 & E & Hnext);
    destruct (own_step (Step d) a a1 s _ E Hs (Nat.eqb_refl d) Hw)
      as [Hans|(n' & s1 & Hn & Hs1 & Hw1)];
    try discriminate Hn;
    try (exists 1, a1; cbn [repeat app_run]; rewrite E; split; [lia|by split]).
  injection Hn as <-. destruct Hnext as [Hans|(s' & Ea & Hf1)].
  { exists 1, a1. cbn [repeat app_run]. rewrite E. split; [lia|by split]. }
  assert (s' = s1) as ->.
  { rewrite Ea in Hs1. cbn in Hs1. rewrite lookup_insert_eq in Hs1. by injection Hs1. }
  destruct (IH a1 s1) as (m & a' & Hm1 & Hrun & Hans); try done.
  { rewrite Ea. by apply alone_session. }
  exists (S m), a'. cbn [repeat app_run]. rewrite E. split; [lia|by split].
Qed.
End Ends.

Section CallsEnd.
Context {encoding : EventEncoding} {decoding : RequestDecoding} {events : EventDecoding}.
Context (jsonb : string -> option string) (repo : OutboxRepo) (ctx : Context).

Lemma within_mono {R} (p : Prog R) : forall n m, (n <= m)%nat -> within n p -> within m p.
Proof.
  induction p as [r|k IH|k IH|p IH|A q k IH|A q k IH|A g k IH]; intros [|n] [|m] Hnm H;
    cbn in *; try done; try lia; try (intros a; apply (IH a n m); [lia|apply H]).
  by apply (IH n m); [lia|].
Qed.

Lemma within_bind {R S} (f : R -> Prog S) m : (forall r, within m (f r)) ->
  forall p n, within n p -> within (n + m) (p ≫= f).
Proof.
  intros Hf. induction p as [r|k IH|k IH|p IH|A q k IH|A q k IH|A g k IH]; intros n H;
    cbn [mbind Prog_bind within] in *; try (destruct n as [|n]; [done|cbn in *]); eauto.
  apply (within_mono _ m); [lia|apply Hf].
Qed.

Lemma services_within :
  (forall req, within 9 (CreateOrder jsonb req)) /\ (forall id, within 9 (ConfirmOrder jsonb id))
  /\ (forall req, within 9 (RegisterUser jsonb req))
  /\ (forall id req, within 9 (UpdateUser jsonb id req))
  /\ (forall req, within 9 (SendNotification jsonb req)).
Proof.
  repeat split; intros; cbn; intros [e|]; cbn; try done; within_steps.
Qed.

Lemma within_map {R S} (g : R -> S) (p : Prog R) n :
  within n p -> within n (p ≫= fun r => mret (g r)).
Proof. intros H. apply (within_mono _ (n + 0)); [lia|]. by apply within_bind. Qed.

Lemma respond_within {A} (p : Prog (result error A)) ok : within 9 p -> within 9 (respond p ok).
Proof. apply within_map. Qed.

Lemma serve_within r : within 9 (serve jsonb r).
Proof.
  destruct services_within as (H1 & H2 & H3 & H4 & H5). unfold serve, routes. cbn [List.find fst snd].
  repeat case_bool_decide; [unfold OrderHandler_CreateOrder|unfold OrderHandler_ConfirmOrder
    |unfold UserHandler_RegisterUser|unfold UserHandler_UpdateUser
    |unfold NotificationHandler_SendNotification|done..];
    repeat first [done | apply respond_within; done | case_match].
Qed.

Lemma Handle_within h msg : within 9 (Handle jsonb h msg).
Proof.
  destruct services_within as (_ & _ & _ & _ & H5).
  destruct h as [| |fail unlucky| |]; cbn [Handle];
    unfold OrderCreatedHandler_Handle, UserUpdatedHandler_Handle, NotificationEmailHandler_Handle,
      NotificationSMSHandler_Handle, NotificationPushHandler_Handle, with_event, external_call;
    (match goal with |- context [match ?decoded with Ok _ => _ | Err _ => _ end] =>
      destruct decoded as [event|e0]; [|done] end).
  - apply within_map, H5.
  - done.
  - destruct fail; cbn; within_steps.
  - cbn; within_steps.
  - cbn; within_steps.
Qed.

(** *** No call waits for itself *)

Lemma self_free_bind {R S} (f : R -> Prog S) : (forall tx r, self_free tx (f r)) ->
  forall p tx, self_free tx p -> self_free tx (p ≫= f).
Proof.
  intros Hf. induction p as [r|k IH|k IH|p IH|A q k IH|A q k IH|A g k IH]; intros tx H;
    cbn [mbind Prog_bind self_free] in *; auto.
  - destruct H as (H1 & H2 & H3). auto.
  - destruct H as [H1 H2]. auto.
Qed.

Lemma self_free_map {R S} (g : R -> S) (p : Prog R) tx :
  self_free tx p -> self_free tx (p ≫= fun r => mret (g r)).
Proof. by apply self_free_bind. Qed.

Lemma order_get_reads id : reads (queryOrderGetByID id).
Proof. intros env c w x. unfold queryOrderGetByID. by destruct (orders c !! id) as [o|]; intros [= <-]. Qed.

Lemma services_self_free :
  (forall req, self_free false (CreateOrder jsonb req))
  /\ (forall id, self_free false (ConfirmOrder jsonb id))
  /\ (forall req, self_free false (RegisterUser jsonb req))
  /\ (forall id req, self_free false (UpdateUser jsonb id req))
  /\ (forall req, self_free false (SendNotification jsonb req)).
Proof.
  repeat match goal with |- _ /\ _ => split end; intros; cbn; within_steps.
  apply order_get_reads.
Qed.

Lemma serve_self_free r : self_free false (serve jsonb r).
Proof.
  destruct services_self_free as (H1 & H2 & H3 & H4 & H5). unfold serve, routes. cbn [List.find fst snd].
  repeat case_bool_decide; [unfold OrderHandler_CreateOrder|unfold OrderHandler_ConfirmOrder
    |unfold UserHandler_RegisterUser|unfold UserHandler_UpdateUser
    |unfold NotificationHandler_SendNotification|done..];
    repeat first [done | apply self_free_map; done | case_match].
Qed.

Lemma Handle_self_free h msg : self_free false (Handle jsonb h msg).
Proof.
  destruct services_self_free as (_ & _ & _ & _ & H5).
  destruct h as [| |fail unlucky| |]; cbn [Handle];
    unfold OrderCreatedHandler_Handle, UserUpdatedHandler_Handle, NotificationEmailHandler_Handle,
      NotificationSMSHandler_Handle, NotificationPushHandler_Handle, with_event, external_call;
    (match goal with |- context [match ?decoded with Ok _ => _ | Err _ => _ end] =>
      destruct decoded as [event|e0]; [|done] end).
  - apply self_free_map, H5.
  - done.
  - destruct fail; cbn; within_steps.
  - cbn; within_steps.
  - cbn; within_steps.
Qed.

(** A request or a delivery. *)
Inductive is_call : Prog Exchange -> Prop :=
| call_request r : is_call (http_call jsonb r)
| call_delivery h msg : is_call (delivery jsonb h msg).

Lemma call_within p : is_call p -> within 9 p.
Proof. destruct 1; apply within_map; [apply serve_within|apply Handle_within]. Qed.
Lemma call_self_free p : is_call p -> self_free false p.
Proof. destruct 1; apply self_free_map; [apply serve_self_free|apply Handle_self_free]. Qed.

(** C21: every request and every delivery is answered after at most ten steps of
    its own, executed or failed, whatever the others do meanwhile; and one that
    starts while no other is in a transaction, on a pool of two connections,
    takes them without waiting. *)
Theorem calls_end (max_conns : nat) (d : nat) (p : Prog Exchange) (a : App Exchange)
  (Hp : is_call p) (Hd : sessions a !! d = None) :
  (forall es a', app_run jsonb repo ctx max_conns (Start d p :: es) a = Some a' ->
     Forall (fun e => crashes d e = false) es ->
     10 <= length (List.filter (own d) es) -> answered d a')
  /\ (2 <= max_conns -> alone d a -> exists n a', n <= 10
      /\ app_run jsonb repo ctx max_conns (Start d p :: repeat (Step d) n) a = Some a'
      /\ answered d a').
Proof.
  pose proof (call_within p Hp) as Hw. pose proof (call_self_free p Hp) as Hf.
  set (s := mkSession p None). set (a0 := with_session d s (committed a) a).
  assert (E : app_step jsonb repo ctx max_conns (Start d p) a = Some a0) by (cbn; by rewrite Hd).
  assert (Hs : sessions a0 !! d = Some s) by apply lookup_insert_eq.
  split.
  - intros es a' Hrun Hcrash Hn. cbn [app_run] in Hrun. rewrite E in Hrun.
    by apply (run_ends jsonb repo ctx max_conns d es 9 a0 a' s).
  - intros Hm Ha.
    destruct (alone_ends jsonb repo ctx max_conns d 9 a0 s) as (n & a' & Hn & Hrun & Hans);
      try done; [by apply alone_session|].
    exists n, a'. cbn [app_run]. by rewrite E.
Qed.
End CallsEnd.
