(* ===== verification/ShopCases.v ===== *)
(** * The example application on concrete requests

    Witnesses of the properties of Shop.v and CallsEnd.v, and runs that show what
    the code does not handle: a second confirmation of an order after a cleanup
    of the outbox, negative quantities, a pool that confirmations exhaust, and a
    redelivered order.created. *)

From Stdlib Require Import ZArith Lia.
From stdpp Require Import base option list strings pretty gmap fin_maps.
From S2P Require Import Prelude Errors Model Ports Store PgxRepo OutboxSafety System Inbox Consumer.
From S2P Require Import AppStore AppTx Services Api Shop CallsEnd.

Set Default Goal Selector "!".
Open Scope string_scope.
Open Scope list_scope.
Open Scope Z_scope.

(** ** A shop with ten pieces of one product *)

#[local] Instance demo_encoding : EventEncoding := {|
  marshal_OrderCreated := fun e => Ok (oce_OrderID e);
  marshal_OrderConfirmed := fun e => Ok (ofe_OrderID e);
  marshal_UserRegistered := fun e => Ok (ure_UserID e);
  marshal_UserUpdated := fun e => Ok (uue_UserID e);
  marshal_NotificationSend := fun e => Ok (nse_NotificationID e)
|}.

#[local] Instance demo_decoding : RequestDecoding := {|
  decode_CreateOrder := fun body =>
    if bool_decide (body = "ten") then Some (mkCreateOrderRequest "u" "p1" 10 100)
    else if bool_decide (body = "minus ten") then Some (mkCreateOrderRequest "u" "p1" (-10) 100)
    else Some (mkCreateOrderRequest "u" "p1" 3 30);
  decode_CreateUser := fun _ => Some (mkCreateUserRequest "a@example.com" "A");
  decode_UpdateUser := fun _ => Some (mkUpdateUserRequest "B" "");
  decode_SendNotification := fun _ => None;
  uuid_Parse := Some
|}.

#[local] Instance demo_events : EventDecoding := {|
  unmarshal_OrderCreated := fun _ => Ok (mkOrderCreatedMessage "o" "u" "p1" 3 30);
  unmarshal_UserUpdated := fun _ => Ok (mkUserUpdatedMessage "u" "B" "active");
  unmarshal_NotificationSend := fun _ => Ok (mkNotificationSendMessage "n" "sms" "r" "s" "b")
|}.

Definition demo_seed : Tables :=
  mkTables ∅ ∅ {["p1" := mkStock "p1" 10 0 0]} ∅ ∅ ∅.

(** Statement [n] runs in hour [n] and draws the UUID [n]. *)
Definition demo_envs (n : nat) : StmtEnv := calm_env (Z.of_nat n * 3600000000) (pretty n).

Lemma demo_envs_ok n : env_ok (demo_envs n).
Proof. apply calm_env_ok. Qed.

Lemma demo_seeded : seeded demo_seed.
Proof.
  constructor; try done. intros p i Hi. cbn in Hi.
  apply lookup_singleton_Some in Hi as [<- <-]. done.
Qed.

Definition order_request (body : string) : HttpRequest :=
  mkRequest "POST" "/api/orders" (fun _ => "") body.
Definition confirm_request (id : UUID) : HttpRequest :=
  mkRequest "POST" "/api/orders/confirm" (fun _ => id) "".
Definition demo_message (id : string) : SQSMessage :=
  mkSQS "m" "rh" (Some "{}") "order.created" id "k" None 1.

(** A call without interruption: its start and [n] steps. *)
Definition exchange (d : nat) (p : Prog Exchange) (n : nat) : list (AppEvent Exchange) :=
  Start d p :: repeat (Step d) n.
Definition order_call (d : nat) (body : string) : list (AppEvent Exchange) :=
  exchange d (http_call demo_jsonb (order_request body)) 10.
Definition confirm_call (d : nat) (id : UUID) : list (AppEvent Exchange) :=
  exchange d (http_call demo_jsonb (confirm_request id)) 8.

Abbreviation app_run_demo := (app_run demo_jsonb demo_repo demo_ctx).

(** The status codes of the answers, the orders, and the stock. *)
Definition code (x : nat * Exchange) : Z :=
  match x.2 with
  | Http _ response => StatusCode response
  | Delivered _ _ err => match err with None => 0 | Some _ => 1 end
  end.
Record Summary : Type := mkSummary {
  codes : list Z;
  order_list : list (UUID * Z * OrderStatus);
  stock : option (Z * Z)
}.
Definition summary (a : App Exchange) : Summary :=
  mkSummary (map code (returned a))
    (map (fun kv => (kv.1, o_Quantity kv.2, o_Status kv.2)) (map_to_list (orders (committed a))))
    ((fun i => (i_Quantity i, i_Reserved i)) <$> inventory (committed a) !! "p1").
Definition run_summary (max_conns : nat) (es : list (AppEvent Exchange)) : option Summary :=
  summary <$> app_run_demo max_conns es (app_start demo_seed demo_envs).

(** ** Runs *)

(** Two orders, the confirmation of the first, and its delivery. *)
Definition demo_events_run : list (AppEvent Exchange) :=
  order_call 0 "three" ++ order_call 1 "three" ++ confirm_call 2 "3"
  ++ [Relay (RFetchBatch 10); Relay (RBatchToPublished ["7"; "17"; "25"])]
  ++ exchange 3 (delivery demo_jsonb NotificationSMSHandler (demo_message "e")) 3.

(** A third order dies before its commit. *)
Definition demo_dying_run : list (AppEvent Exchange) :=
  demo_events_run
  ++ exchange 4 (http_call demo_jsonb (order_request "three")) 7 ++ [Crash 4].

Definition demo_run_result (allowed : Z -> Prop) (es : list (AppEvent Exchange))
    (P : App Exchange -> Prop) : Prop :=
  exists a, shop_run demo_jsonb demo_seed allowed demo_repo demo_ctx 4 demo_envs es a /\ P a.

Lemma exchange_events (allowed : Z -> Prop) d p n :
  shop_event demo_jsonb allowed (Start d p) ->
  Forall (shop_event demo_jsonb allowed) (exchange d p n).
Proof. intros H. constructor; [done|]. by induction n; constructor. Qed.

Lemma order_event (allowed : Z -> Prop) d body :
  (forall req, demo_decoding.(decode_CreateOrder) body = Some req -> allowed (co_Quantity req)) ->
  shop_event demo_jsonb allowed (Start d (http_call demo_jsonb (order_request body))).
Proof. intros H. left. by eexists. Qed.

Lemma demo_dying_events (allowed : Z -> Prop) :
  allowed 3 -> Forall (shop_event demo_jsonb allowed) demo_dying_run.
Proof.
  intros H3. unfold demo_dying_run, demo_events_run, order_call, confirm_call.
  assert (Horder : forall d, shop_event demo_jsonb allowed
    (Start d (http_call demo_jsonb (order_request "three")))).
  { intros d. apply order_event. by intros req [= <-]. }
  repeat apply Forall_app_2; try (apply exchange_events; try apply Horder).
  - left. eexists. split; [done|]. by intros req [= <-].
  - by repeat constructor.
  - right. by eexists _, _.
  - by repeat constructor.
Qed.

Lemma demo_run_exists (allowed : Z -> Prop) (P : App Exchange -> Prop) :
  allowed 3 ->
  match app_run_demo 4 demo_dying_run (app_start demo_seed demo_envs) with
  | Some a => P a
  | None => False
  end -> demo_run_result allowed demo_dying_run P.
Proof.
  intros H3 H. destruct (app_run_demo 4 _ _) as [a|] eqn:E; [|destruct H].
  exists a. split; [|exact H]. split; [apply demo_envs_ok|].
  split; [by apply demo_dying_events|exact E].
Qed.

(** ** Witnesses *)

Section Witnesses.
Definition first_order (a : App Exchange) : option Order := orders (committed a) !! "3".
Definition third_answer (a : App Exchange) : option (nat * Exchange) := nth_error (returned a) 2.
Abbreviation demo_shop allowed a :=
  (shop_run demo_jsonb demo_seed allowed demo_repo demo_ctx 4 demo_envs demo_dying_run a).

Lemma rows_have_messages_witness :
  exists a o, demo_shop (fun _ => True) a /\ orders (committed a) !! "3" = Some o
    /\ o_Status o = OrderStatusConfirmed
    /\ has_message (committed a) "order.created" "3"
    /\ has_message (committed a) "order.confirmed" (confirmed_key "3").
Proof.
  destruct (demo_run_exists (fun _ => True)
    (fun a => match first_order a with
              | Some o => o_Status o = OrderStatusConfirmed | None => False end) I
    ltac:(vm_compute; reflexivity)) as (a & Hrun & Ho).
  destruct (first_order a) as [o|] eqn:E; [|destruct Ho].
  destruct (rows_have_messages demo_jsonb demo_repo demo_ctx demo_seed 4 demo_envs demo_dying_run a
              demo_seeded Hrun) as (H & _).
  destruct (H "3" o E) as [H1 [H2|[_ H2]]]; [rewrite Ho in H2; discriminate H2|].
  exists a, o. exact (conj Hrun (conj E (conj Ho (conj H1 H2)))).
Defined.

Lemma stock_balances_witness :
  exists a i, demo_shop (fun _ => True) a /\ inventory (committed a) !! "p1" = Some i
    /\ i_Reserved i = 3 /\ i_Quantity i = 7.
Proof.
  destruct (demo_run_exists (fun _ => True)
    (fun a => booked OrderStatusPending "p1" (orders (committed a)) = 3
              /\ booked OrderStatusConfirmed "p1" (orders (committed a)) = 3) I
    ltac:(vm_compute; by split)) as (a & Hrun & H1 & H2).
  destruct (stock_balances demo_jsonb demo_repo demo_ctx demo_seed 4 demo_envs demo_dying_run a "p1"
              (mkStock "p1" 10 0 0) demo_seeded Hrun eq_refl) as (i & Hi & E1 & E2 & _).
  exists a, i. rewrite H1 in E1. rewrite H2 in E2. exact (conj Hrun (conj Hi (conj E1 E2))).
Defined.

Lemma no_oversell_witness :
  exists a, demo_shop (fun quantity => 0 <= quantity) a
    /\ ordered "p1" (orders (committed a)) = 6 /\ 6 <= 10 - 0.
Proof.
  destruct (demo_run_exists (fun quantity => 0 <= quantity)
    (fun a => ordered "p1" (orders (committed a)) = 6) ltac:(done)
    ltac:(vm_compute; reflexivity)) as (a & Hrun & Ho).
  pose proof (no_oversell demo_jsonb demo_repo demo_ctx demo_seed 4 demo_envs demo_dying_run a "p1"
    (mkStock "p1" 10 0 0) (orders (committed a)) demo_seeded Hrun eq_refl ltac:(done)) as H.
  exists a. rewrite Ho in H. exact (conj Hrun (conj Ho H)).
Defined.

Lemma answers_are_kept_witness :
  exists a, demo_shop (fun _ => True) a /\ confirmed "3" (Ok tt) (committed a).
Proof.
  set (x := Http (confirm_request "3") (mkResponse 200 (Text (status_json "confirmed")))).
  destruct (demo_run_exists (fun _ => True)
    (fun a => match third_answer a with
              | Some (d, Http r response) => Path r = "/api/orders/confirm"
                  /\ QueryGet r "order_id" = "3" /\ StatusCode response = 200
                  /\ ResponseBody_ response = Text (status_json "confirmed")
              | _ => False end) I
    ltac:(vm_compute; by repeat split)) as (a & Hrun & Hx).
  destruct (third_answer a) as [[d [r response|h m e]]|] eqn:E; [|destruct Hx..].
  destruct Hx as (Hpath & Hq & Hcode & Hbody).
  pose proof (answers_are_kept demo_jsonb demo_repo demo_ctx demo_seed 4 demo_envs demo_dying_run a d
    (Http r response) demo_seeded Hrun
    (proj2 (list_elem_of_In _ _) (nth_error_In _ _ E))) as Hk.
  cbn in Hk. rewrite Hbody in Hk. destruct (proj1 (Hk Hcode) Hpath) as (id & Hid & Hc).
  rewrite Hq in Hid. injection Hid as <-. exists a. exact (conj Hrun Hc).
Defined.

Lemma calls_end_witness :
  exists n a', (n <= 10)%nat
    /\ app_run_demo 2 (exchange 0 (http_call demo_jsonb (order_request "three")) n)
         (app_start demo_seed demo_envs) = Some a' /\ answered 0 a'.
Proof.
  destruct (calls_end demo_jsonb demo_repo demo_ctx 2 0
    (http_call demo_jsonb (order_request "three")) (app_start demo_seed demo_envs)
    (call_request demo_jsonb _) eq_refl) as [_ H].
  apply H; [lia|]. intros d' s _ Hs. cbn in Hs. by rewrite lookup_empty in Hs.
Defined.
End Witnesses.

(** ** What the code does not handle *)

(** The dispatcher publishes the messages and a cleanup deletes them an hour
    later. *)
Definition cleanup_calls : list (AppEvent Exchange) :=
  [Relay (RFetchBatch 10); Relay (RBatchToPublished ["7"; "17"; "25"]); Relay RRevive;
   Relay RRevive; Relay (RDelete [PUBLISHED] (1 * Hour))].

Definition two_orders : list (AppEvent Exchange) :=
  order_call 0 "three" ++ order_call 1 "three" ++ confirm_call 2 "3".

Definition confirmed_orders (stock : Z * Z) (codes : list Z) : option Summary :=
  Some (mkSummary codes [("3", 3, OrderStatusConfirmed); ("13", 3, OrderStatusPending)]
          (Some stock)).

(** [ConfirmOrder] does not look at the status of the order: what stops a second
    confirmation is the idempotency key of its message.  Once the cleanup
    deleted that, a repeated request is answered with 200 and takes the stock
    that another order reserved, whose own confirmation then fails. *)
Theorem confirm_again_after_cleanup :
  let again := http_call demo_jsonb (confirm_request "3") in
  let other := http_call demo_jsonb (confirm_request "13") in
  run_summary 4 (two_orders ++ exchange 3 again 7)
    = confirmed_orders (7, 3) [201; 201; 200; 500]
  /\ run_summary 4 (two_orders ++ cleanup_calls ++ exchange 3 again 8)
    = confirmed_orders (4, 0) [201; 201; 200; 200]
  /\ run_summary 4 (two_orders ++ cleanup_calls ++ exchange 3 again 8 ++ exchange 4 other 6)
    = confirmed_orders (4, 0) [201; 201; 200; 200; 500].
Proof. split; [|split]; vm_compute; reflexivity. Qed.

(** A negative quantity is accepted, and gives back what others reserved: two
    orders of all the stock. *)
Theorem negative_quantity_oversells :
  run_summary 4 (order_call 0 "ten" ++ order_call 1 "minus ten" ++ order_call 2 "ten")
  = Some (mkSummary [201; 201; 201]
            [("3", 10, OrderStatusPending); ("13", -10, OrderStatusPending);
             ("23", 10, OrderStatusPending)] (Some (10, 10))).
Proof. vm_compute. reflexivity. Qed.

(** A redelivered order.created sends its notification again: the handler does
    not use the inbox, and each notification has its own idempotency key. *)
Theorem order_created_duplicates :
  let deliver d := exchange d (delivery demo_jsonb OrderCreatedHandler (demo_message "e")) 9 in
  (fun a => (map code (returned a), size (notifications (committed a)), size (outbox (committed a))))
    <$> app_run_demo 4 (deliver 0%nat ++ deliver 1%nat) (app_start demo_seed demo_envs)
  = Some ([0; 0], 2%nat, 2%nat).
Proof. vm_compute. reflexivity. Qed.

(** *** A pool exhausted *)

Definition confirm_one : Prog Exchange := http_call demo_jsonb (confirm_request "3").

(** [n] confirmations, each of which began its transaction. *)
Fixpoint begun (n : nat) : list (AppEvent Exchange) :=
  match n with
  | O => []
  | S n => begun n ++ [Start n confirm_one; Step n]
  end.

Lemma confirm_one_shape :
  exists A (q : Query A) k k', confirm_one = Begin k /\ k None = PoolQuery q k'.
Proof. do 4 eexists. split; reflexivity. Qed.

Definition after_begin : Session Exchange :=
  match confirm_one with
  | Begin k => mkSession (k None) (Some (mkTx no_rows false))
  | p => mkSession p (Some (mkTx no_rows false))
  end.

Definition waiting (n : nat) : gmap nat (Session Exchange) :=
  list_to_map (map (fun d => (d, after_begin)) (rev (seq 0 n))).

Lemma waiting_S n : waiting (S n) = <[n := after_begin]> (waiting n).
Proof. unfold waiting. by rewrite seq_S, rev_app_distr. Qed.

Lemma waiting_lookup n d : waiting n !! d = if (d <? n)%nat then Some after_begin else None.
Proof.
  induction n as [|n IH]; [done|]. rewrite waiting_S, lookup_insert, IH.
  case_decide as E; repeat case_match; rewrite ?Nat.ltb_lt, ?Nat.ltb_ge in *; done || lia.
Qed.

Lemma waiting_connections n : connections (waiting n) = n.
Proof.
  induction n as [|n IH]; [done|]. unfold connections in *.
  rewrite waiting_S, map_filter_insert_True by (by eexists).
  rewrite map_size_insert_None; [by rewrite IH|].
  apply map_lookup_filter_None. left. rewrite waiting_lookup. by rewrite Nat.ltb_irrefl.
Qed.

Lemma begun_run c envs max_conns n :
  (n <= max_conns)%nat ->
  exists calls, app_run_demo max_conns (begun n) (app_start c envs)
    = Some (mkApp c envs calls (waiting n) []).
Proof.
  induction n as [|n IH]; intros Hn; [by exists 0%nat|].
  destruct IH as [calls E]; [lia|]. exists (S (S calls)).
  cbn [begun]. rewrite app_run_app, E. cbn [mbind option_bind app_run app_step sessions].
  rewrite waiting_lookup, Nat.ltb_irrefl. cbn [mbind option_bind with_session sessions].
  rewrite lookup_insert_eq. cbn [mbind option_bind]. unfold prog_step. cbn [s_prog].
  destruct confirm_one_shape as (A & q & k & k' & Ek & _). rewrite waiting_S.
  unfold after_begin. rewrite Ek. cbn [sessions with_session].
  assert (Hconn : has_conn max_conns (<[n := mkSession (Begin k) None]> (waiting n)) = true).
  { unfold has_conn, connections. rewrite map_filter_insert_False by (intros [x Hx]; discriminate Hx).
    apply Nat.ltb_lt. rewrite delete_id by (by rewrite waiting_lookup, Nat.ltb_irrefl).
    change (connections (waiting n) < max_conns)%nat. rewrite waiting_connections. lia. }
  rewrite Hconn. cbn [mbind option_bind app_run]. unfold with_session. cbn.
  do 2 f_equal. apply insert_insert_eq.
Qed.

(** [ConfirmOrder] holds a connection for its transaction and takes another one
    to read the order: when as many confirmations run as the pool has
    connections, none of them takes another step, and no other call gets a
    connection, whatever the database holds. *)
Theorem confirm_exhausts_pool (c : Tables) (envs : nat -> StmtEnv) (max_conns : nat) :
  exists a, app_run_demo max_conns (begun max_conns) (app_start c envs) = Some a
    /\ (forall d, (d < max_conns)%nat -> is_Some (sessions a !! d)
         /\ app_step demo_jsonb demo_repo demo_ctx max_conns (Step d) a = None)
    /\ has_conn max_conns (sessions a) = false.
Proof.
  destruct (begun_run c envs max_conns max_conns) as [calls E]; [lia|]. eexists. split; [exact E|].
  assert (Hconn : has_conn max_conns (waiting max_conns) = false).
  { unfold has_conn. rewrite waiting_connections. apply Nat.ltb_irrefl. }
  split; [|exact Hconn]. intros d Hd. cbn. rewrite waiting_lookup, (proj2 (Nat.ltb_lt _ _) Hd).
  split; [by eexists|]. cbn [mbind option_bind]. unfold prog_step. cbn [sessions]. rewrite Hconn.
  destruct confirm_one_shape as (A & q & k & k' & Ek & Ek'). unfold after_begin. rewrite Ek. cbn.
  by rewrite Ek'.
Qed.
