(* ===== verification/Wiring.v ===== *)
(** * The programs of the example application put together

    examples/app/cmd/dispatcher and cmd/consumer: which queue the dispatcher
    sends an event to, which handler the consumer of a queue has for it, and
    where the two do not meet. *)

From Stdlib Require Import ZArith Lia.
From stdpp Require Import base option list strings gmap.
From S2P Require Import Prelude Errors Model Ports Dispatcher SqsRouter Consumer AppStore Services.
From S2P Require Import Api.

Set Default Goal Selector "!".
Open Scope string_scope.
Open Scope list_scope.
Open Scope Z_scope.

(** [os.Getenv]: the empty string for a variable that is not set. *)
Definition Environ : Type := string -> string.
Definition getEnv (env : Environ) (key defaultValue : string) : string :=
  if bool_decide (env key = "") then defaultValue else env key.

(** ** cmd/dispatcher/main.go *)

Definition order_queue (env : Environ) : string :=
  getEnv env "ORDER_QUEUE_URL" "http://localhost:14566/000000000000/o4x-events-order.fifo".
Definition notification_queue (env : Environ) : string :=
  getEnv env "NOTIFICATION_QUEUE_URL" "http://localhost:14566/000000000000/o4x-events-notification".
Definition user_queue (env : Environ) : string :=
  getEnv env "USER_QUEUE_URL" "http://localhost:14566/000000000000/o4x-events-user".

(** The router of multi-queue mode, for the URLs of the three queues. *)
Definition app_router (orderQueueURL notificationQueueURL userQueueURL : string)
    : EventTypeQueueMap :=
  RegisterPrefix "user." userQueueURL
    (RegisterPrefix "notification." notificationQueueURL
       (RegisterPrefix "order." orderQueueURL (NewEventTypeQueueMap userQueueURL))).
Definition dispatcher_router (env : Environ) : EventTypeQueueMap :=
  app_router (order_queue env) (notification_queue env) (user_queue env).

(** The queue of an event in either mode. *)
Definition dispatcher_queue (env : Environ) (multiQueue : bool) (eventType : string) : string :=
  if multiQueue then QueueURL (dispatcher_router env) eventType else order_queue env.

(** The configuration that [main] gives to [NewBatchDispatcher]. *)
Definition dispatcher_config (workerCount : Z) : Batch.BatchDispatcherConfig :=
  Batch.mkConfig (100 * Millisecond) 0 10 workerCount 0 0 None false (10 * Second) false 0 0 0.

(** Its health endpoints. *)
Definition liveness (status : HealthStatus) (text : string) : HttpResponse :=
  if IsHealthy status
  then mkResponse 200 (Text ("OK" +:+ newline))
  else mkResponse 503 (Text (text +:+ newline)).
Definition dispatcher_health (d : Dispatcher) : HttpResponse :=
  liveness (HealthStatus_of d) "Unhealthy: dispatcher not running or shutting down".
(** [ping] is the answer of [pool.Ping]. *)
Definition readiness (running : bool) (ping : option error) (text : string) : HttpResponse :=
  if negb running then mkResponse 503 (Text (text +:+ newline))
  else match ping with
       | Some _ => mkResponse 503 (Text ("Not ready: database unreachable" +:+ newline))
       | None => mkResponse 200 (Text ("Ready" +:+ newline))
       end.
Definition dispatcher_ready (d : Dispatcher) (ping : option error) : HttpResponse :=
  readiness (IsRunning d) ping "Not ready: dispatcher not running".

(** ** cmd/consumer/main.go *)

(** The handlers of the application. *)
Inductive EventHandler : Type :=
| OrderCreated
| OrderConfirmed
| UserRegistered
| UserUpdated
| NotificationEmail
| NotificationSMS
| NotificationPush.

Section Consumer.
Context {W : Type} (handler_for : EventHandler -> Handler W).

Definition consumer_registry : Registry :=
  RegisterGroup "notification" (fun r =>
    RegisterHandler "notification.push" (handler_for NotificationPush)
      (RegisterHandler "notification.sms" (handler_for NotificationSMS)
         (RegisterHandler "notification.email" (handler_for NotificationEmail) r)))
  (RegisterGroup "user" (fun r =>
    RegisterHandler "user.updated" (handler_for UserUpdated)
      (RegisterHandler "user.registered" (handler_for UserRegistered) r))
  (RegisterGroup "order" (fun r =>
    RegisterHandler "order.confirmed" (handler_for OrderConfirmed)
      (RegisterHandler "order.created" (handler_for OrderCreated) r)) ∅)).

(** The fallback logs and returns nil. *)
Definition unhandled : Handler W := fun _ _ => mret None.

(** The router of a consumer process; [None]: it exits. *)
Definition consumer_router (groupName : string) : option (EventTypeRouter W) :=
  SetFallback unhandled <$> GetRouter groupName consumer_registry.
End Consumer.

Definition consumer_group (env : Environ) (flag : string) : string := getEnv env "CONSUMER_GROUP" flag.
(** The flag goes first, then the variable; [None]: the process exits. *)
Definition consumer_queue (env : Environ) (flag : string) : option string :=
  let sqsQueueURL := if bool_decide (flag = "") then getEnv env "SQS_QUEUE_URL" "" else flag in
  if bool_decide (sqsQueueURL = "") then None else Some sqsQueueURL.

Definition consumer_config (sqsQueueURL : string) (workerCount messageConcurrency : Z)
    : ServiceConfig :=
  NewService (mkService sqsQueueURL 10 20 30 5 workerCount messageConcurrency 0 0 None).

Definition consumer_health (s : Dispatcher) : HttpResponse :=
  liveness (HealthStatus_of s) "Unhealthy: consumer service not running or shutting down".
Definition consumer_ready (s : Dispatcher) (ping : option error) : HttpResponse :=
  readiness (IsRunning s) ping "Not ready: consumer service not running".

(** The sleeps of the handlers: the variables, and the defaults in
    milliseconds. *)
Definition sleep_of (ParseDuration : string -> option Z) (env : Environ) (key : string)
    (min max : Z) : SleepConfig :=
  mkSleepConfig
    (ParseSleepDuration ParseDuration (env (key +:+ "_SLEEP_MIN")) (min * Millisecond))
    (ParseSleepDuration ParseDuration (env (key +:+ "_SLEEP_MAX")) (max * Millisecond)).
Definition handler_sleep (ParseDuration : string -> option Z) (env : Environ) (h : EventHandler)
    : SleepConfig :=
  match h with
  | OrderCreated => sleep_of ParseDuration env "ORDER_CREATED" 20 80
  | OrderConfirmed => sleep_of ParseDuration env "ORDER_CONFIRMED" 10 40
  | UserRegistered => sleep_of ParseDuration env "USER_REGISTERED" 5 20
  | UserUpdated => sleep_of ParseDuration env "USER_UPDATED" 10 30
  | NotificationEmail => sleep_of ParseDuration env "NOTIFICATION_EMAIL" 50 200
  | NotificationSMS => sleep_of ParseDuration env "NOTIFICATION_SMS" 30 150
  | NotificationPush => sleep_of ParseDuration env "NOTIFICATION_PUSH" 20 100
  end.

(** ** Where events go *)

(** The events of the services with their handlers, and the group of each queue
    in the deployment (docker-compose.yml). *)
Definition service_events : list (string * EventHandler) :=
  [("order.created", OrderCreated); ("order.confirmed", OrderConfirmed);
   ("user.registered", UserRegistered); ("user.updated", UserUpdated);
   (notification_event NotificationTypeEmail, NotificationEmail);
   (notification_event NotificationTypeSMS, NotificationSMS);
   (notification_event NotificationTypePush, NotificationPush)].

Definition pick_queue (order notification user group : string) : string :=
  if bool_decide (group = "order") then order
  else if bool_decide (group = "notification") then notification else user.
Definition queue_group (env : Environ) : string -> string :=
  pick_queue (order_queue env) (notification_queue env) (user_queue env).

(** The handler a message of [eventType] meets at the consumer of [group]. *)
Definition reaches {W} (handler_for : EventHandler -> Handler W) (group eventType : string)
    (h : EventHandler) : Prop :=
  exists r, consumer_router handler_for group = Some r
    /\ forall ctx msg w, sqs_EventType msg = eventType ->
         router_Handle r ctx msg w = handler_for h ctx msg w.

(** It is acknowledged and dropped. *)
Definition dropped {W} (handler_for : EventHandler -> Handler W) (group eventType : string) : Prop :=
  exists r, consumer_router handler_for group = Some r
    /\ forall ctx msg w, sqs_EventType msg = eventType -> router_Handle r ctx msg w = (w, Ret None).

Lemma router_handles {W} (r : EventTypeRouter W) ctx msg w (h : Handler W) :
  handler_of r (sqs_EventType msg) = Some h -> router_Handle r ctx msg w = h ctx msg w.
Proof. intros H. unfold router_Handle. by rewrite H. Qed.

Lemma router_falls_back {W} (r : EventTypeRouter W) ctx msg w :
  handler_of r (sqs_EventType msg) = None -> fallback r = Some unhandled ->
  router_Handle r ctx msg w = (w, Ret None).
Proof. intros H Hf. unfold router_Handle. by rewrite H, Hf. Qed.

Lemma has_prefix_self p suffix : has_prefix (p +:+ suffix) p = true.
Proof.
  apply has_prefix_iff. induction p as [|c p [IH1 IH2]]; [split; [cbn; lia|by destruct suffix]|].
  change (String c p +:+ suffix) with (String c (p +:+ suffix)).
  split; [cbn; apply le_n_S, IH1|]. cbn. f_equal. exact IH2.
Qed.

Lemma has_prefix_other t p :
  String.eqb (String.substring 0 (String.length p) t) p = false -> has_prefix t p = false.
Proof. intros H. unfold has_prefix. by rewrite H, andb_false_r. Qed.

Lemma routed_by_prefix order notification user suffix :
  QueueURL (app_router order notification user) ("order." +:+ suffix) = order
  /\ QueueURL (app_router order notification user) ("user." +:+ suffix) = user
  /\ QueueURL (app_router order notification user) ("notification." +:+ suffix) = notification.
Proof.
  assert (Hq : forall t, QueueURL (app_router order notification user) t
    = default user
        (first_match t [mkPrefix "notification." notification;
                        mkPrefix "order." order; mkPrefix "user." user])).
  { intros t. unfold QueueURL. replace (SqsRouter.routes _ !! t) with (None (A := string))
      by (symmetry; apply lookup_empty). done. }
  rewrite !Hq. cbn [first_match SqsRouter.prefix pr_queueURL]. rewrite !has_prefix_self.
  split; [by rewrite has_prefix_other|]. split; [|done].
  by rewrite !has_prefix_other.
Qed.

(** An event of the services goes to the queue of a group that has a handler for
    it. *)
Lemma service_event_routed {W : Type} (handler_for : EventHandler -> Handler W)
    order notification user eventType h :
  (eventType, h) ∈ service_events ->
  exists group, QueueURL (app_router order notification user) eventType
      = pick_queue order notification user group
    /\ reaches handler_for group eventType h.
Proof.
  intros Hevent.
  destruct (routed_by_prefix order notification user "created") as (H1 & _ & _).
  destruct (routed_by_prefix order notification user "confirmed") as (H2 & _ & _).
  destruct (routed_by_prefix order notification user "registered") as (_ & H3 & _).
  destruct (routed_by_prefix order notification user "updated") as (_ & H4 & _).
  destruct (routed_by_prefix order notification user "email") as (_ & _ & H5).
  destruct (routed_by_prefix order notification user "sms") as (_ & _ & H6).
  destruct (routed_by_prefix order notification user "push") as (_ & _ & H7).
  assert (Hr : forall group r t k, consumer_router handler_for group = Some r ->
    handler_of r t = Some (handler_for k) -> reaches handler_for group t k).
  { intros group r t k Hgroup Hk. exists r. split; [done|]. intros ctx msg w <-.
    by rewrite (router_handles r ctx msg w (handler_for k)). }
  unfold service_events in Hevent. rewrite !elem_of_cons, elem_of_nil in Hevent.
  repeat destruct Hevent as [[= -> ->]|Hevent]; [..|done].
  1-2: exists "order". 3-4: exists "user". 5-7: exists "notification".
  all: split; [assumption|]; eapply Hr; [vm_compute; reflexivity|]; reflexivity.
Qed.

(** Every event finds its handler.  In multi-queue mode an event of the
    services goes to the queue whose consumer group has a handler registered
    for it, and a message of that type is handled by exactly that handler. *)
Theorem events_reach_handlers {W : Type} (handler_for : EventHandler -> Handler W)
  (env : Environ) (eventType : string) (h : EventHandler)
  (Hevent : (eventType, h) ∈ service_events) :
  exists group, dispatcher_queue env true eventType = queue_group env group
    /\ reaches handler_for group eventType h.
Proof. by apply service_event_routed. Qed.

(** The consumer drops what its group has no handler for. *)
Lemma group_drops {W : Type} (handler_for : EventHandler -> Handler W) group r eventType :
  consumer_router handler_for group = Some r -> handler_of r eventType = None ->
  fallback r = Some unhandled -> dropped handler_for group eventType.
Proof.
  intros Hr Hnone Hf. exists r. split; [done|]. intros ctx msg w <-. by apply router_falls_back.
Qed.

(** Events that no handler sees.  In single-queue mode, the default, the
    events of users and notifications go to the order queue, and with any type
    of notification but the three known ones, which [SendNotification] does
    not refuse, a message goes to the notification queue: the consumers there
    acknowledge and delete them unhandled. *)
Theorem events_dropped {W : Type} (handler_for : EventHandler -> Handler W) (env : Environ) :
  (forall eventType h, (eventType, h) ∈ service_events -> h <> OrderCreated -> h <> OrderConfirmed ->
     dispatcher_queue env false eventType = queue_group env "order"
     /\ dropped handler_for "order" eventType)
  /\ forall type, type <> NotificationTypeEmail -> type <> NotificationTypeSMS ->
       type <> NotificationTypePush ->
       dispatcher_queue env true (notification_event type) = queue_group env "notification"
       /\ dropped handler_for "notification" (notification_event type).
Proof.
  split.
  - intros eventType h Hevent Hc Hf. split; [done|].
    unfold service_events in Hevent. rewrite !elem_of_cons, elem_of_nil in Hevent.
    repeat destruct Hevent as [[= -> ->]|Hevent]; try done;
      (eapply group_drops; [vm_compute; reflexivity|reflexivity|reflexivity]).
  - intros type He Hs Hp. split; [apply routed_by_prefix|].
    eapply group_drops; [reflexivity| |reflexivity]. unfold handler_of. cbn [handlers SetFallback].
    assert (Hne : forall t, type <> t -> "notification." +:+ t <> notification_event type).
    { intros t Ht E. apply Ht. unfold notification_event in E. by injection E. }
    unfold RegisterHandler. cbn [handlers].
    rewrite !lookup_insert_ne by (apply Hne; done). apply lookup_empty.
Qed.

(** What the programs start.  The dispatcher's configuration is accepted for
    any number of workers that is not negative and completed by the defaults,
    with recovery off; the consumer refuses to run a FIFO queue in parallel. *)
Theorem programs_start (workerCount messageConcurrency : Z) (queueURL : string) (s : Dispatcher) :
  (0 <= workerCount ->
     Batch.NewBatchDispatcher 10 (dispatcher_config workerCount)
     = Ok (Batch.mkConfig (100 * Millisecond) (3200 * Millisecond) 10
             (if workerCount =? 0 then 1 else workerCount) (30 * Second) (60 * Second)
             (Some ExitProcess) false (10 * Second) false (1 * Second) (1 * Hour) (10 * Second)))
  /\ (workerCount < 0 ->
     Batch.NewBatchDispatcher 10 (dispatcher_config workerCount) = Err (ESentinel ErrInvalidConfig))
  /\ (isFIFO queueURL = true -> 1 < messageConcurrency ->
     exists err, Service_Start (consumer_config queueURL workerCount messageConcurrency) s
       = (s, Some err)).
Proof.
  split; [|split].
  - intros Hw. unfold Batch.NewBatchDispatcher, dispatcher_config. cbn -[Z.ltb].
    replace (workerCount <? 0) with false by lia. cbn.
    unfold Batch.adjust, Batch.apply_defaults, Single.or_default. cbn. reflexivity.
  - intros Hw. unfold Batch.NewBatchDispatcher, dispatcher_config. cbn -[Z.ltb].
    by replace (workerCount <? 0) with true by lia.
  - intros Hfifo Hm. eexists. unfold Service_Start, fifo_concurrency, consumer_config, NewService.
    cbn [MessageConcurrency QueueUrl]. unfold Single.or_default.
    replace (messageConcurrency =? 0) with false by lia. rewrite Hfifo.
    replace (1 <? messageConcurrency) with true by lia. reflexivity.
Qed.

(** ** Witnesses *)

Definition demo_handler (h : EventHandler) : Handler unit := fun _ _ w => (w, Ret None).

Lemma events_reach_handlers_witness :
  exists group, dispatcher_queue (fun _ => "") true "user.updated" = queue_group (fun _ => "") group
    /\ reaches demo_handler group "user.updated" UserUpdated.
Proof.
  apply (events_reach_handlers demo_handler (fun _ => "") "user.updated" UserUpdated).
  unfold service_events. rewrite !elem_of_cons. auto 10.
Defined.

Lemma events_dropped_witness :
  dispatcher_queue (fun _ => "") true "notification.fax" = queue_group (fun _ => "") "notification"
  /\ dropped demo_handler "notification" "notification.fax".
Proof.
  exact (proj2 (events_dropped demo_handler (fun _ => "")) "fax" ltac:(discriminate) ltac:(discriminate)
           ltac:(discriminate)).
Defined.
