(* ===== verification/Metrics.v ===== *)
(** * The metrics of the example dispatcher

    examples/app/internal/instrumentation: the collector that the goroutines of
    the workers share, its atomic counters and compare-and-swap loops step by
    step, its statistics, and the wrappers of the repository and the publisher. *)

From Stdlib Require Import ZArith Lia.
From Corelib Require Import SpecFloat.
From stdpp Require Import base option list functions strings gmap fin_maps.
From S2P Require Import Prelude Errors Model Ports.

Set Default Goal Selector "!".
Open Scope list_scope.
Open Scope Z_scope.

(** ** Data *)

Record FetchMetrics : Type := mkFetchMetrics {
  fm_StartTime : Z;
  fm_Duration : Z;
  fm_RowsReturned : Z;
  fm_RequestedLimit : Z;
  fm_WorkerID : Z
}.

Record PublishMetrics : Type := mkPublishMetrics {
  pm_StartTime : Z;
  pm_Duration : Z;
  pm_SuccessCount : Z;
  pm_FailureCount : Z;
  pm_BatchSize : Z;
  pm_FailureReasons : list string
}.

Record WorkerStats : Type := mkWorkerStats {
  ws_WorkerID : Z;
  ws_TotalFetches : Z;
  ws_TotalRows : Z;
  ws_EmptyFetches : Z;
  ws_TotalDuration : Z
}.

(** The counters that are only added to. *)
Inductive Counter : Type :=
| totalFetches
| totalRows
| totalDuration
| emptyFetches
| totalPublishes
| totalPublishSuccess
| totalPublishFailure
| totalPublishDuration.

#[export] Instance Counter_eq_dec : EqDecision Counter.
Proof. solve_decision. Defined.

(** Every [atomic.Int64] is a cell; the map is under the mutex. *)
Record MetricsCollector : Type := mkCollector {
  counters : Counter -> Z;
  minTxnDuration : Z;
  maxTxnDuration : Z;
  workerStats : gmap Z WorkerStats
}.

Definition NewMetricsCollector : MetricsCollector := mkCollector (fun _ => 0) 0 0 ∅.

(** ** Recording, one atomic operation at a time *)

(** [Add] of a counter, the compare-and-swap loops of the minimum and of the
    maximum, the section under the mutex. *)
Inductive Instr : Type :=
| Add (counter : Counter) (delta : Z)
| LowerMin (durationNs : Z)
| RaiseMax (durationNs : Z)
| UpdateWorker (metrics : FetchMetrics).

Definition RecordFetch (metrics : FetchMetrics) : list Instr :=
  [Add totalFetches 1; Add totalRows (fm_RowsReturned metrics);
   Add totalDuration (fm_Duration metrics)]
  ++ (if fm_RowsReturned metrics =? 0 then [Add emptyFetches 1] else [])
  ++ [LowerMin (fm_Duration metrics); RaiseMax (fm_Duration metrics); UpdateWorker metrics].

Definition RecordPublish (metrics : PublishMetrics) : list Instr :=
  [Add totalPublishes 1; Add totalPublishSuccess (pm_SuccessCount metrics);
   Add totalPublishFailure (pm_FailureCount metrics);
   Add totalPublishDuration (pm_Duration metrics)].

Definition update_worker (m : FetchMetrics) (stats : gmap Z WorkerStats) : gmap Z WorkerStats :=
  let s := default (mkWorkerStats (fm_WorkerID m) 0 0 0 0) (stats !! fm_WorkerID m) in
  <[fm_WorkerID m :=
      mkWorkerStats (ws_WorkerID s) (wrap64 (ws_TotalFetches s + 1))
        (wrap64 (ws_TotalRows s + fm_RowsReturned m))
        (if fm_RowsReturned m =? 0 then wrap64 (ws_EmptyFetches s + 1) else ws_EmptyFetches s)
        (wrap64 (ws_TotalDuration s + fm_Duration m))]> stats.

(** A goroutine: what it has left to do, and the value its loop loaded. *)
Record Recorder : Type := mkRecorder {
  code : list Instr;
  loaded : option Z
}.

(** One atomic operation; [None]: nothing is left. *)
Definition recorder_step (t : Recorder) (c : MetricsCollector)
    : option (MetricsCollector * Recorder) :=
  match code t with
  | [] => None
  | Add counter delta :: rest =>
      Some (mkCollector (<[counter := wrap64 (counters c counter + delta)]> (counters c))
              (minTxnDuration c) (maxTxnDuration c) (workerStats c), mkRecorder rest None)
  | LowerMin durationNs :: rest =>
      match loaded t with
      | None =>
          let currentMin := minTxnDuration c in
          if (currentMin =? 0) || (durationNs <? currentMin)
          then Some (c, mkRecorder (code t) (Some currentMin))
          else Some (c, mkRecorder rest None)
      | Some currentMin =>
          if minTxnDuration c =? currentMin
          then Some (mkCollector (counters c) durationNs (maxTxnDuration c) (workerStats c),
                     mkRecorder rest None)
          else Some (c, mkRecorder (code t) None)
      end
  | RaiseMax durationNs :: rest =>
      match loaded t with
      | None =>
          let currentMax := maxTxnDuration c in
          if currentMax <? durationNs
          then Some (c, mkRecorder (code t) (Some currentMax))
          else Some (c, mkRecorder rest None)
      | Some currentMax =>
          if maxTxnDuration c =? currentMax
          then Some (mkCollector (counters c) (minTxnDuration c) durationNs (workerStats c),
                     mkRecorder rest None)
          else Some (c, mkRecorder (code t) None)
      end
  | UpdateWorker metrics :: rest =>
      Some (mkCollector (counters c) (minTxnDuration c) (maxTxnDuration c)
              (update_worker metrics (workerStats c)), mkRecorder rest None)
  end.

(** Goroutine [k] steps, among others. *)
Definition record_step (k : nat) (s : MetricsCollector * list Recorder)
    : option (MetricsCollector * list Recorder) :=
  t ← s.2 !! k;
  '(c, t') ← recorder_step t s.1;
  Some (c, <[k := t']> s.2).

Fixpoint record_run (schedule : list nat) (s : MetricsCollector * list Recorder)
    : option (MetricsCollector * list Recorder) :=
  match schedule with
  | [] => Some s
  | k :: schedule => s' ← record_step k s; record_run schedule s'
  end.

Inductive Report : Type :=
| FetchReport (metrics : FetchMetrics)
| PublishReport (metrics : PublishMetrics).

Definition report_code (r : Report) : list Instr :=
  match r with FetchReport m => RecordFetch m | PublishReport m => RecordPublish m end.
Definition goroutines (reports : list Report) : list Recorder :=
  (fun r => mkRecorder (report_code r) None) <$> reports.
Definition recorded (ts : list Recorder) : Prop := Forall (fun t => code t = []) ts.

(** ** Statistics *)

Definition f64_div : spec_float -> spec_float -> spec_float := SFdiv 53 1024.
Definition f64_zero : spec_float := f64_of_int64 0.

Record FetchStats : Type := mkFetchStats {
  total_fetches : Z;
  total_rows : Z;
  empty_fetches : Z;
  empty_fetch_pct : spec_float;
  avg_duration_ms : spec_float;
  avg_duration_us : spec_float;
  avg_rows_per_fetch : spec_float;
  min_txn_duration_us : Z;
  max_txn_duration_us : Z;
  min_txn_duration_ms : Z;
  max_txn_duration_ms : Z
}.

Definition GetFetchStats (c : MetricsCollector) : FetchStats :=
  let fetches := counters c totalFetches in
  let rows := counters c totalRows in
  let duration := counters c totalDuration in
  let empty := counters c emptyFetches in
  let average (x : Z) :=
    if 0 <? fetches then f64_div (f64_of_int64 x) (f64_of_int64 fetches) else f64_zero in
  let scaled (op : spec_float -> spec_float -> spec_float) (x : Z) (by_ : Z) :=
    if 0 <? fetches then op (average x) (f64_of_int64 by_) else f64_zero in
  mkFetchStats fetches rows empty
    (scaled f64_mul empty 100) (scaled f64_div duration 1000000) (scaled f64_div duration 1000)
    (average rows)
    (Z.quot (minTxnDuration c) 1000) (Z.quot (maxTxnDuration c) 1000)
    (Z.quot (minTxnDuration c) 1000000) (Z.quot (maxTxnDuration c) 1000000).

Record PublishStats : Type := mkPublishStats {
  total_publishes : Z;
  total_success : Z;
  total_failure : Z;
  publish_avg_duration_ms : spec_float;
  avg_success_per_publish : spec_float
}.

Definition GetPublishStats (c : MetricsCollector) : PublishStats :=
  let publishes := counters c totalPublishes in
  let success := counters c totalPublishSuccess in
  let average (x : Z) :=
    if 0 <? publishes then f64_div (f64_of_int64 x) (f64_of_int64 publishes) else f64_zero in
  mkPublishStats publishes success (counters c totalPublishFailure)
    (if 0 <? publishes
     then f64_div (average (counters c totalPublishDuration)) (f64_of_int64 1000000)
     else f64_zero)
    (average success).

(** In the order Go walks the map. *)
Definition GetWorkerStats (walk : list (Z * WorkerStats) -> list (Z * WorkerStats))
    (c : MetricsCollector) : list WorkerStats :=
  snd <$> walk (map_to_list (workerStats c)).

(** ** The wrappers *)

Section Wrappers.
Context {W : Type} `{!Runtime W}.

(** [time.Since]: the difference saturates. *)
Definition time_Sub (now start : Z) : Z :=
  Z.max (- 2 ^ 63) (Z.min (2 ^ 63 - 1) (now - start)).
Definition time_Since (start : Z) : GoM W Z := now ← time_Now; mret (time_Sub now start).

Definition go_lift {A} (m : GoM W A) : GoM (W * list Report) A := fun w =>
  let '(w', a) := m w.1 in ((w', w.2), a).

(** What a call reports goes to the collector. *)
Definition report (r : Report) : GoM (W * list Report) unit := fun w =>
  ((w.1, w.2 ++ [r]), Ret tt).

Definition instrumented_Fetch `{!BatchOutboxRepository W} (workerID : Z) (ctx : Context)
    (limit : Z) : GoM (W * list Report) (result error (list Outbox)) :=
  startTime ← go_lift time_Now;
  results ← go_lift (FetchLockAndMarkPublishing ctx limit);
  duration ← go_lift (time_Since startTime);
  let rowsReturned := match results with Ok rows => Z.of_nat (length rows) | Err _ => 0 end in
  _ ← report (FetchReport (mkFetchMetrics startTime duration rowsReturned limit workerID));
  mret results.

(** [None]: [msgs[i]] of a failed result that has no message panics. *)
Fixpoint failure_reasons (results : list PublishResult) (msgs : list Outbox)
    : option (list string) :=
  match results with
  | [] => Some []
  | result :: results =>
      let reasons := failure_reasons results (tail msgs) in
      if Success result then reasons
      else match msgs with
           | [] => None
           | _ :: _ =>
               reasons ← reasons;
               Some (match Error result with Some err => error_text err | None => "unknown error" end
                     :: reasons)
           end
  end.

Definition instrumented_PublishBatch `{!BatchPublisher W} (ctx : Context) (msgs : list Outbox)
    : GoM (W * list Report) (list PublishResult) :=
  startTime ← go_lift time_Now;
  results ← go_lift (PublishBatch ctx msgs);
  duration ← go_lift (time_Since startTime);
  match failure_reasons results msgs with
  | None => fun w => (w, Panic "index out of range")
  | Some reasons =>
      let successCount := Z.of_nat (length (List.filter Success results)) in
      _ ← report (PublishReport (mkPublishMetrics startTime duration successCount
                  (Z.of_nat (length results) - successCount) (Z.of_nat (length msgs)) reasons));
      mret results
  end.
End Wrappers.

(** ** What is still to be recorded *)

(** The operations of a kind the goroutines have left. *)
Definition pending {A} (f : Instr -> option A) (ts : list Recorder) : list A :=
  ts ≫= (fun t => omap f (code t)).

Lemma pending_split {A} (f : Instr -> option A) ts k t :
  ts !! k = Some t ->
  pending f ts ≡ₚ omap f (code t) ++ pending f (take k ts ++ drop (S k) ts).
Proof.
  intros H. rewrite <- (take_drop_middle ts k t H) at 1. unfold pending.
  rewrite !bind_app, bind_cons. by rewrite app_assoc, (Permutation_app_comm (_ ≫= _) (omap _ _)), <- app_assoc.
Qed.

Lemma pending_insert {A} (f : Instr -> option A) ts k t t' :
  ts !! k = Some t ->
  pending f (<[k := t']> ts) ≡ₚ omap f (code t') ++ pending f (take k ts ++ drop (S k) ts).
Proof.
  intros H. assert (Hk : (k < length ts)%nat) by (by eapply lookup_lt_Some).
  rewrite (pending_split f _ k t') by (by apply list_lookup_insert_eq).
  by rewrite take_insert_ge, drop_insert_lt by lia.
Qed.

(** The first operation is done. *)
Lemma pending_done {A} (f : Instr -> option A) ts k i rest l :
  ts !! k = Some (mkRecorder (i :: rest) l) ->
  pending f ts ≡ₚ option_list (f i) ++ pending f (<[k := mkRecorder rest None]> ts).
Proof.
  intros H. rewrite (pending_split f ts k _ H), (pending_insert f ts k _ _ H). cbn.
  by destruct (f i).
Qed.

(** A loop loads its value or starts again. *)
Lemma pending_same {A} (f : Instr -> option A) ts k c l l' :
  ts !! k = Some (mkRecorder c l) ->
  pending f ts ≡ₚ pending f (<[k := mkRecorder c l']> ts).
Proof.
  intros H. by rewrite (pending_split f ts k _ H), (pending_insert f ts k _ _ H).
Qed.

Lemma pending_recorded {A} (f : Instr -> option A) ts : recorded ts -> pending f ts = [].
Proof. induction 1 as [|t ts H Hts IH]; [done|]. unfold pending. cbn. by rewrite H. Qed.

Lemma pending_goroutines {A} (f : Instr -> option A) reports :
  pending f (goroutines reports) = reports ≫= (fun r => omap f (report_code r)).
Proof. induction reports as [|r reports IH]; [done|]. unfold pending, goroutines in *. cbn. f_equal. exact IH. Qed.

(** ** What has been recorded *)

Definition sum (l : list Z) : Z := foldr Z.add 0 l.
(** The least of some positive numbers; zero for none. *)
Definition least (l : list Z) : Z :=
  match l with [] => 0 | d :: l => foldr Z.min d l end.
Definition greatest (l : list Z) : Z := foldr Z.max 0 l.

#[export] Instance sum_Proper : Proper ((≡ₚ) ==> (=)) sum.
Proof. intros l l' H. unfold sum. induction H; cbn; lia. Qed.

Lemma least_spec l : Forall (fun d => 0 < d) l ->
  (l = [] -> least l = 0) /\ (l <> [] -> least l ∈ l /\ Forall (fun d => least l <= d) l).
Proof.
  intros H. split; [by intros ->|]. destruct l as [|d l]; [done|intros _]. cbn [least].
  clear H. induction l as [|e l [IH1 IH2]]; cbn [foldr].
  - split; [by left|]. repeat constructor. done.
  - destruct (Z.min_spec e (foldr Z.min d l)) as [[Hlt ->]|[Hle ->]].
    + split; [set_solver|]. apply Forall_cons in IH2 as [H1 H2].
      repeat constructor; [lia|lia|]. eapply Forall_impl; [exact H2|]. cbn. lia.
    + split; [set_solver|]. apply Forall_cons in IH2 as [H1 H2]. by repeat constructor.
Qed.

Lemma least_unique l v :
  Forall (fun d => 0 < d) l -> v ∈ l -> Forall (fun d => v <= d) l -> v = least l.
Proof.
  intros Hl Hv Hall. destruct (least_spec l Hl) as [_ [H1 H2]]; [by intros ->; inversion Hv|].
  rewrite Forall_forall in *. specialize (Hall _ H1). specialize (H2 _ Hv). lia.
Qed.

(** One turn of the loop of the minimum. *)
Lemma least_cons d l : 0 < d -> Forall (fun d => 0 < d) l ->
  least (d :: l) = if (least l =? 0) || (d <? least l) then d else least l.
Proof.
  intros Hd Hl. destruct l as [|e l]; [done|].
  destruct (least_spec _ Hl) as [_ [H1 H2]]; [done|]. set (v := least (e :: l)) in *.
  rewrite Forall_forall in *. symmetry. specialize (Hl _ H1) as Hv. cbn beta in Hv.
  replace (v =? 0) with false by lia. cbn [orb]. apply least_unique.
  - constructor; [done|]. by apply Forall_forall.
  - destruct (Z.ltb_spec d v); set_solver.
  - constructor; [destruct (Z.ltb_spec d v); lia|]. apply Forall_forall. intros x Hx.
    specialize (H2 x Hx). destruct (Z.ltb_spec d v); lia.
Qed.

#[export] Instance greatest_Proper : Proper ((≡ₚ) ==> (=)) greatest.
Proof. intros l l' H. unfold greatest. induction H; cbn; lia. Qed.

Lemma least_perm l l' : Forall (fun d => 0 < d) l -> l ≡ₚ l' -> least l = least l'.
Proof.
  intros Hl Hp. destruct (least_spec l Hl) as [H0 H1].
  destruct (decide (l = [])) as [->|Hne]; [by apply Permutation_nil_l in Hp as <-|].
  destruct (H1 Hne) as [Hin Hall]. apply least_unique; by rewrite <- Hp.
Qed.

Lemma sum_app l l' : sum (l ++ l') = sum l + sum l'.
Proof. unfold sum. induction l as [|x l IH]; cbn; lia. Qed.

(** Per-worker statistics. *)
Definition of_worker (w : Z) (ms : list FetchMetrics) : list FetchMetrics :=
  List.filter (fun m => fm_WorkerID m =? w) ms.
Definition summary_of (w : Z) (l : list FetchMetrics) : WorkerStats :=
  mkWorkerStats w (wrap64 (Z.of_nat (length l))) (wrap64 (sum (map fm_RowsReturned l)))
    (wrap64 (Z.of_nat (length (List.filter (fun m => fm_RowsReturned m =? 0) l))))
    (wrap64 (sum (map fm_Duration l))).
Definition worker_summary (w : Z) (ms : list FetchMetrics) : option WorkerStats :=
  match of_worker w ms with
  | [] => None
  | _ => Some (summary_of w (of_worker w ms))
  end.

Definition adds (k : Counter) (i : Instr) : option Z :=
  match i with Add k' d => if decide (k' = k) then Some d else None | _ => None end.
Definition lowers (i : Instr) : option Z :=
  match i with LowerMin d => Some d | _ => None end.
Definition raises (i : Instr) : option Z :=
  match i with RaiseMax d => Some d | _ => None end.
Definition updates (i : Instr) : option FetchMetrics :=
  match i with UpdateWorker m => Some m | _ => None end.

(** The operations of a kind in the reports. *)
Definition reported {A} (f : Instr -> option A) (reports : list Report) : list A :=
  reports ≫= (fun r => omap f (report_code r)).

Section Invariant.
Variable reports : list Report.
Hypothesis positive : Forall (fun d => 0 < d) (reported lowers reports).
Implicit Types (ts : list Recorder) (c : MetricsCollector).

(** [l] has been done. *)
Definition done_ops {A} (f : Instr -> option A) ts (l : list A) : Prop :=
  l ++ pending f ts ≡ₚ reported f reports.

Definition loaded_ok (t : Recorder) : Prop :=
  match loaded t, code t with
  | None, _ => True
  | Some v, LowerMin d :: _ => v = 0 \/ d < v
  | Some v, RaiseMax d :: _ => v < d
  | Some _, _ => False
  end.

Record RecordInv (s : MetricsCollector * list Recorder) : Prop := {
  ri_counter k : exists l, done_ops (adds k) s.2 l /\ counters s.1 k = wrap64 (sum l);
  ri_min : exists l, done_ops lowers s.2 l /\ minTxnDuration s.1 = least l;
  ri_max : exists l, done_ops raises s.2 l /\ maxTxnDuration s.1 = greatest l;
  ri_workers : exists l, done_ops updates s.2 l
    /\ forall w, workerStats s.1 !! w = worker_summary w l;
  ri_loaded : Forall loaded_ok s.2
}.

Lemma done_ops_step {A} (f : Instr -> option A) ts k i rest v l :
  ts !! k = Some (mkRecorder (i :: rest) v) -> done_ops f ts l ->
  done_ops f (<[k := mkRecorder rest None]> ts) (option_list (f i) ++ l).
Proof.
  unfold done_ops. intros Hk <-. rewrite (pending_done f ts k i rest v Hk).
  by rewrite (assoc_L (++)), (Permutation_app_comm l).
Qed.

Lemma done_ops_same {A} (f : Instr -> option A) ts k code v v' l :
  ts !! k = Some (mkRecorder code v) -> done_ops f ts l ->
  done_ops f (<[k := mkRecorder code v']> ts) l.
Proof. unfold done_ops. intros Hk <-. by rewrite (pending_same f ts k code v v' Hk). Qed.

Lemma done_positive ts l : done_ops lowers ts l -> Forall (fun d => 0 < d) l.
Proof.
  intros H. pose proof positive as Hp. rewrite <- H in Hp. by apply Forall_app in Hp as [Hp _].
Qed.

(** Operation [i] is done, with the effect [c']. *)
Lemma record_inv_done c c' ts k i rest v :
  RecordInv (c, ts) -> ts !! k = Some (mkRecorder (i :: rest) v) ->
  (forall j l, counters c j = wrap64 (sum l) ->
     counters c' j = wrap64 (sum (option_list (adds j i) ++ l))) ->
  (forall l, Forall (fun d => 0 < d) (option_list (lowers i) ++ l) ->
     minTxnDuration c = least l -> minTxnDuration c' = least (option_list (lowers i) ++ l)) ->
  (forall l, maxTxnDuration c = greatest l ->
     maxTxnDuration c' = greatest (option_list (raises i) ++ l)) ->
  (forall l, (forall w, workerStats c !! w = worker_summary w l) ->
     forall w, workerStats c' !! w = worker_summary w (option_list (updates i) ++ l)) ->
  RecordInv (c', <[k := mkRecorder rest None]> ts).
Proof.
  intros [H1 H2 H3 H4 H5] Hk F1 F2 F3 F4. cbn in *. constructor; cbn.
  - intros j. destruct (H1 j) as (l & Hl & E).
    eexists. split; [by apply (done_ops_step _ ts k i rest v l)|by apply F1].
  - destruct H2 as (l & Hl & E). pose proof (done_ops_step _ ts k i rest v l Hk Hl) as Hd.
    eexists. split; [exact Hd|]. apply F2; [by apply (done_positive _ _ Hd)|done].
  - destruct H3 as (l & Hl & E).
    eexists. split; [by apply (done_ops_step _ ts k i rest v l)|by apply F3].
  - destruct H4 as (l & Hl & E).
    eexists. split; [by apply (done_ops_step _ ts k i rest v l)|by apply F4].
  - by apply Forall_insert.
Qed.

Lemma record_inv_loop c ts k code v v' :
  RecordInv (c, ts) -> ts !! k = Some (mkRecorder code v) -> loaded_ok (mkRecorder code v') ->
  RecordInv (c, <[k := mkRecorder code v']> ts).
Proof.
  intros [H1 H2 H3 H4 H5] Hk Hv. cbn in *. constructor; cbn.
  - intros j. destruct (H1 j) as (l & Hl & E). exists l. eauto using done_ops_same.
  - destruct H2 as (l & Hl & E). exists l. eauto using done_ops_same.
  - destruct H3 as (l & Hl & E). exists l. eauto using done_ops_same.
  - destruct H4 as (l & Hl & E). exists l. eauto using done_ops_same.
  - by apply Forall_insert.
Qed.
End Invariant.

(** *** The operations *)

Lemma wrap64_add x y : wrap64 (wrap64 x + y) = wrap64 (x + y).
Proof.
  unfold wrap64. f_equal.
  replace ((x + 2 ^ 63) mod 2 ^ 64 - 2 ^ 63 + y + 2 ^ 63)
    with ((x + 2 ^ 63) mod 2 ^ 64 + y) by lia.
  rewrite Zplus_mod_idemp_l. f_equal. lia.
Qed.

Lemma wrap64_zero : wrap64 0 = 0.
Proof. reflexivity. Qed.

Lemma wrap64_count n : wrap64 (Z.of_nat (S n)) = wrap64 (wrap64 (Z.of_nat n) + 1).
Proof. rewrite wrap64_add. f_equal. lia. Qed.

Lemma worker_summary_default w l :
  default (mkWorkerStats w 0 0 0 0) (worker_summary w l) = summary_of w (of_worker w l).
Proof. unfold worker_summary. by destruct (of_worker w l). Qed.

Lemma summary_of_cons w m l :
  summary_of w (m :: l)
  = let s := summary_of w l in
    mkWorkerStats w (wrap64 (ws_TotalFetches s + 1))
      (wrap64 (ws_TotalRows s + fm_RowsReturned m))
      (if fm_RowsReturned m =? 0 then wrap64 (ws_EmptyFetches s + 1) else ws_EmptyFetches s)
      (wrap64 (ws_TotalDuration s + fm_Duration m)).
Proof.
  unfold summary_of. cbv zeta.
  cbn [ws_TotalFetches ws_TotalRows ws_EmptyFetches ws_TotalDuration length map List.filter].
  rewrite !wrap64_add. unfold sum. cbn [foldr]. f_equal; [f_equal; lia|f_equal; lia| |f_equal; lia].
  destruct (fm_RowsReturned m =? 0); [|done]. cbn [length]. f_equal. lia.
Qed.

Lemma update_worker_summary m l stats w :
  (forall w, stats !! w = worker_summary w l) ->
  update_worker m stats !! w = worker_summary w (m :: l).
Proof.
  intros H. unfold update_worker. rewrite (H (fm_WorkerID m)), worker_summary_default.
  destruct (decide (fm_WorkerID m = w)) as [<-|Hne].
  - rewrite lookup_insert_eq. unfold worker_summary, of_worker. cbn [List.filter].
    by rewrite Z.eqb_refl, summary_of_cons.
  - rewrite lookup_insert_ne, H by done. unfold worker_summary, of_worker. cbn [List.filter].
    by replace (fm_WorkerID m =? w) with false by lia.
Qed.

Lemma worker_summary_nil w : worker_summary w [] = None.
Proof. reflexivity. Qed.

Section Steps.
Variable reports : list Report.
Hypothesis positive : Forall (fun d => 0 < d) (reported lowers reports).
Abbreviation RecordInv := (RecordInv reports).

Lemma record_step_inv k s s' : RecordInv s -> record_step k s = Some s' -> RecordInv s'.
Proof.
  destruct s as [c ts]. intros Hinv. unfold record_step. cbn [fst snd].
  destruct (ts !! k) as [[[|i rest] v]|] eqn:Hk; cbn; try done.
  pose proof (proj1 (Forall_lookup _ _) (ri_loaded _ _ Hinv) k _ Hk) as Hv.
  unfold recorder_step. cbn [code loaded].
  destruct i as [k' d|d|d|m].
  - intros [= <-]. apply (record_inv_done reports positive c _ ts k (Add k' d) rest v); cbn; try done.
    intros j l E. unfold insert, fn_insert. destruct (decide (k' = j)) as [->|]; [|done].
    rewrite E, wrap64_add. unfold sum. cbn. f_equal. lia.
  - destruct v as [v|].
    + destruct (Z.eqb_spec (minTxnDuration c) v) as [Heq|]; intros [= <-];
        [|by apply (record_inv_loop reports c ts k _ (Some v))].
      apply (record_inv_done reports positive c _ ts k (LowerMin d) rest (Some v)); cbn; try done.
      intros l [Hd Hl]%Forall_cons E. change (d = least (d :: l)). rewrite least_cons by done.
      rewrite <- E. cbn in Hv. by replace (_ || _) with true by lia.
    + destruct (_ || _) eqn:Ecmp; intros [= <-];
        [apply (record_inv_loop reports c ts k _ None); [done|done|cbn; lia]|].
      apply (record_inv_done reports positive c _ ts k (LowerMin d) rest None); cbn; try done.
      intros l [Hd Hl]%Forall_cons E. change (minTxnDuration c = least (d :: l)).
      by rewrite least_cons, <- E, Ecmp.
  - destruct v as [v|].
    + destruct (Z.eqb_spec (maxTxnDuration c) v) as [Heq|]; intros [= <-];
        [|by apply (record_inv_loop reports c ts k _ (Some v))].
      apply (record_inv_done reports positive c _ ts k (RaiseMax d) rest (Some v)); cbn; try done.
      intros l E. unfold greatest in *. cbn in *. lia.
    + destruct (_ <? _) eqn:Ecmp; intros [= <-];
        [apply (record_inv_loop reports c ts k _ None); [done|done|cbn; lia]|].
      apply (record_inv_done reports positive c _ ts k (RaiseMax d) rest None); cbn; try done.
      intros l E. unfold greatest in *. cbn in *. lia.
  - intros [= <-]. apply (record_inv_done reports positive c _ ts k (UpdateWorker m) rest v); cbn; try done.
    intros l E w. by apply update_worker_summary.
Qed.

Lemma record_run_inv schedule : forall s s',
  RecordInv s -> record_run schedule s = Some s' -> RecordInv s'.
Proof.
  induction schedule as [|k schedule IH]; cbn; intros s s' Hinv; [by intros [= <-]|].
  destruct (record_step k s) as [s1|] eqn:E; [|done]. cbn. apply IH. by apply (record_step_inv k s).
Qed.

Lemma record_start_inv : RecordInv (NewMetricsCollector, goroutines reports).
Proof.
  assert (H : forall A (f : Instr -> option A), done_ops reports f (goroutines reports) []).
  { intros A f. unfold done_ops. cbn. by rewrite pending_goroutines. }
  constructor; cbn.
  - intros k. by exists [].
  - by exists [].
  - by exists [].
  - by exists [].
  - apply Forall_fmap. by apply Forall_true.
Qed.
End Steps.

(** The fetches and publishes of the reports. *)
Definition fetches (reports : list Report) : list FetchMetrics :=
  omap (fun r => match r with FetchReport m => Some m | PublishReport _ => None end) reports.
Definition publishes (reports : list Report) : list PublishMetrics :=
  omap (fun r => match r with PublishReport m => Some m | FetchReport _ => None end) reports.

Lemma reported_cons {A} (f : Instr -> option A) r reports :
  reported f (r :: reports) = omap f (report_code r) ++ reported f reports.
Proof. reflexivity. Qed.

(** What the reports ask for, kind by kind. *)
Lemma reported_fetches reports :
  reported lowers reports = map fm_Duration (fetches reports)
  /\ reported raises reports = map fm_Duration (fetches reports)
  /\ reported updates reports = fetches reports.
Proof.
  induction reports as [|[m|m] reports (IH1 & IH2 & IH3)]; [done|..];
    rewrite !reported_cons, IH1, IH2, IH3; [|done].
  cbn. by destruct (fm_RowsReturned m =? 0).
Qed.

Lemma fetch_sums m k :
  sum (omap (adds k) (RecordFetch m))
  = match k with
    | totalFetches => 1
    | totalRows => fm_RowsReturned m
    | totalDuration => fm_Duration m
    | emptyFetches => if fm_RowsReturned m =? 0 then 1 else 0
    | _ => 0
    end.
Proof.
  unfold RecordFetch. destruct k, (fm_RowsReturned m =? 0); cbn;
    cbv [decide decide_rel Counter_eq_dec]; cbn; lia.
Qed.

Lemma publish_sums m k :
  sum (omap (adds k) (RecordPublish m))
  = match k with
    | totalPublishes => 1
    | totalPublishSuccess => pm_SuccessCount m
    | totalPublishFailure => pm_FailureCount m
    | totalPublishDuration => pm_Duration m
    | _ => 0
    end.
Proof.
  unfold RecordPublish. destruct k; cbn;
    cbv [decide decide_rel Counter_eq_dec]; cbn; lia.
Qed.

Lemma reported_sums reports k :
  let fs := fetches reports in
  let ps := publishes reports in
  sum (reported (adds k) reports)
  = match k with
    | totalFetches => Z.of_nat (length fs)
    | totalRows => sum (map fm_RowsReturned fs)
    | totalDuration => sum (map fm_Duration fs)
    | emptyFetches => Z.of_nat (length (List.filter (fun m => fm_RowsReturned m =? 0) fs))
    | totalPublishes => Z.of_nat (length ps)
    | totalPublishSuccess => sum (map pm_SuccessCount ps)
    | totalPublishFailure => sum (map pm_FailureCount ps)
    | totalPublishDuration => sum (map pm_Duration ps)
    end.
Proof.
  induction reports as [|[m|m] reports IH]; [by destruct k|..]; cbv zeta in *;
    rewrite reported_cons, sum_app, IH; cbn [report_code]; rewrite ?fetch_sums, ?publish_sums.
  - change (fetches (FetchReport m :: reports)) with (m :: fetches reports).
    change (publishes (FetchReport m :: reports)) with (publishes reports).
    destruct k; unfold sum; cbn [length map foldr List.filter]; try lia.
    destruct (fm_RowsReturned m =? 0); cbn [length]; lia.
  - change (fetches (PublishReport m :: reports)) with (fetches reports).
    change (publishes (PublishReport m :: reports)) with (m :: publishes reports).
    destruct k; unfold sum; cbn [length map foldr]; lia.
Qed.

#[export] Instance worker_summary_Proper w : Proper ((≡ₚ) ==> (=)) (worker_summary w).
Proof.
  intros l l' H. unfold worker_summary.
  assert (Hw : of_worker w l ≡ₚ of_worker w l').
  { unfold of_worker. induction H; cbn; repeat case_match; try done; try by constructor.
    by etransitivity. }
  assert (E : summary_of w (of_worker w l) = summary_of w (of_worker w l')).
  { unfold summary_of. f_equal; [by rewrite Hw|by rewrite Hw| |by rewrite Hw]. f_equal. f_equal.
    generalize dependent (of_worker w l'). generalize (of_worker w l). clear.
    intros ms ms' Hw. induction Hw; cbn; repeat case_match; cbn; lia. }
  rewrite E. destruct (of_worker w l) as [|m ms]; [by apply Permutation_nil_l in Hw as <-|].
  destruct (of_worker w l'); [by apply Permutation_nil_r in Hw|done].
Qed.

Section Recorded.
Context (reports : list Report) (schedule : list nat) (c : MetricsCollector) (ts : list Recorder)
  (Hpositive : Forall (fun m => 0 < fm_Duration m) (fetches reports))
  (Hrun : record_run schedule (NewMetricsCollector, goroutines reports) = Some (c, ts))
  (Hdone : recorded ts).

Lemma recorded_inv : RecordInv reports (c, ts).
Proof.
  destruct (reported_fetches reports) as (E1 & _).
  eapply record_run_inv; [by rewrite E1; apply Forall_fmap|apply record_start_inv|exact Hrun].
Qed.

(** All the operations of a kind are done. *)
Lemma recorded_ops {A} (f : Instr -> option A) l :
  done_ops reports f ts l -> l ≡ₚ reported f reports.
Proof. unfold done_ops. by rewrite pending_recorded, app_nil_r. Qed.

Lemma recorded_counter k : counters c k = wrap64 (sum (reported (adds k) reports)).
Proof.
  destruct (ri_counter _ _ recorded_inv k) as (l & Hl%recorded_ops & H). cbn [fst] in H.
  by rewrite H, Hl.
Qed.

Lemma recorded_workers w : workerStats c !! w = worker_summary w (fetches reports).
Proof.
  destruct (ri_workers _ _ recorded_inv) as (l & Hl%recorded_ops & H). cbn [fst] in H.
  destruct (reported_fetches reports) as (_ & _ & E). by rewrite H, Hl, E.
Qed.
End Recorded.

(** C37: the collector loses no update.  When every reported fetch has a positive
    duration (a duration of zero makes the collector forget its minimum,
    [zero_duration_forgotten]), and however the goroutines that record fetches
    and publishes interleave: once all are done every counter is the sum, at 64
    bits, of what was reported, the extremes are the least and the greatest
    duration, and each worker has the summary of its own fetches. *)
Theorem recording_exact (reports : list Report) (schedule : list nat)
  (c : MetricsCollector) (ts : list Recorder)
  (Hpositive : Forall (fun m => 0 < fm_Duration m) (fetches reports))
  (Hrun : record_run schedule (NewMetricsCollector, goroutines reports) = Some (c, ts))
  (Hdone : recorded ts) :
  let fs := fetches reports in
  let ps := publishes reports in
  (counters c totalFetches = wrap64 (Z.of_nat (length fs))
   /\ counters c totalRows = wrap64 (sum (map fm_RowsReturned fs))
   /\ counters c totalDuration = wrap64 (sum (map fm_Duration fs))
   /\ counters c emptyFetches
      = wrap64 (Z.of_nat (length (List.filter (fun m => fm_RowsReturned m =? 0) fs)))
   /\ counters c totalPublishes = wrap64 (Z.of_nat (length ps))
   /\ counters c totalPublishSuccess = wrap64 (sum (map pm_SuccessCount ps))
   /\ counters c totalPublishFailure = wrap64 (sum (map pm_FailureCount ps))
   /\ counters c totalPublishDuration = wrap64 (sum (map pm_Duration ps)))
  /\ minTxnDuration c = least (map fm_Duration fs)
  /\ maxTxnDuration c = greatest (map fm_Duration fs)
  /\ forall w, workerStats c !! w = worker_summary w fs.
Proof.
  pose proof (recorded_inv _ _ _ _ Hpositive Hrun) as [_ H2 H3 _ _]. cbn [fst snd] in *.
  pose proof (recorded_counter _ _ _ _ Hpositive Hrun Hdone) as Hcounter. cbv zeta.
  destruct (reported_fetches reports) as (E1 & E2 & _).
  split; [rewrite !Hcounter, !reported_sums; by repeat split|].
  destruct H2 as (l2 & Hl2%recorded_ops & H2), H3 as (l3 & Hl3%recorded_ops & H3); [|done..].
  rewrite <- E1 at 1. rewrite <- E2, H2, H3. split; [|split; [by rewrite Hl3|]].
  - symmetry. apply least_perm; [|by rewrite Hl2]. rewrite E1. by apply Forall_fmap.
  - by apply (recorded_workers _ _ _ _ Hpositive Hrun).
Qed.

(** ** Recording ends *)

Section Potential.
(** The goroutines. *)
Variable n : nat.

(** What an operation may cost: one that swaps pays for the loops of the others,
    which it may send back. *)
Definition cost (i : Instr) : nat :=
  match i with LowerMin _ | RaiseMax _ => 2 * n + 3 | _ => 1 end.
Definition costs (l : list Instr) : nat := list_sum (cost <$> l).

(** A loop that loaded the present value has one step less to go, one that
    loaded another value one more. *)
Definition potential (c : MetricsCollector) (t : Recorder) : nat :=
  match loaded t, code t with
  | Some v, LowerMin _ :: _ =>
      if minTxnDuration c =? v then pred (costs (code t)) else S (costs (code t))
  | Some v, RaiseMax _ :: _ =>
      if maxTxnDuration c =? v then pred (costs (code t)) else S (costs (code t))
  | _, _ => costs (code t)
  end.
Definition potentials (c : MetricsCollector) (ts : list Recorder) : nat :=
  list_sum (potential c <$> ts).

Lemma potential_change c c' t : (potential c' t <= potential c t + 2)%nat.
Proof.
  unfold potential. generalize (costs (code t)). intros x.
  destruct (loaded t) as [v|]; [|lia]. destruct (code t) as [|[] l]; try lia.
  - destruct (minTxnDuration c' =? v), (minTxnDuration c =? v); lia.
  - destruct (maxTxnDuration c' =? v), (maxTxnDuration c =? v); lia.
Qed.

Lemma potentials_change c c' ts : (potentials c' ts <= potentials c ts + 2 * length ts)%nat.
Proof.
  induction ts as [|t ts IH]; [done|].
  change (potentials c (t :: ts)) with (potential c t + potentials c ts)%nat.
  change (potentials c' (t :: ts)) with (potential c' t + potentials c' ts)%nat.
  pose proof (potential_change c c' t). cbn [length]. lia.
Qed.

Lemma potentials_split c ts k t :
  ts !! k = Some t ->
  potentials c ts = (potential c t + potentials c (take k ts ++ drop (S k) ts))%nat.
Proof.
  intros H. rewrite <- (take_drop_middle ts k t H) at 1. unfold potentials.
  rewrite !fmap_app, fmap_cons, !list_sum_app. change (list_sum (?x :: ?l)) with (x + list_sum l)%nat. lia.
Qed.

Lemma potentials_insert c ts k t t' :
  ts !! k = Some t ->
  potentials c (<[k := t']> ts) = (potential c t' + potentials c (take k ts ++ drop (S k) ts))%nat.
Proof.
  intros H. assert (Hk : (k < length ts)%nat) by (by eapply lookup_lt_Some).
  rewrite (potentials_split c _ k t') by (by apply list_lookup_insert_eq).
  by rewrite take_insert_ge, drop_insert_lt by lia.
Qed.

(** The step of one goroutine pays for what it does to the others. *)
Lemma recorder_step_pays t c c' t' :
  recorder_step t c = Some (c', t') ->
  (forall others, potentials c' others = potentials c others
     /\ (potential c' t' < potential c t)%nat)
  \/ (potential c' t' + 2 * n + 2 <= potential c t)%nat.
Proof.
  assert (Hsame : forall c1 c2 others, minTxnDuration c1 = minTxnDuration c2 ->
    maxTxnDuration c1 = maxTxnDuration c2 -> potentials c1 others = potentials c2 others).
  { intros c1 c2 others E1 E2. unfold potentials. f_equal. apply list_fmap_ext. intros _ u _.
    unfold potential. by rewrite E1, E2. }
  destruct t as [[|i rest] v]; [done|]. unfold recorder_step. cbn [code loaded].
  destruct i as [k d|d|d|m].
  - intros [= <- <-]. left. intros others. split; [by apply Hsame|].
    unfold potential, costs. cbn. destruct v; cbn; lia.
  - destruct v as [v|].
    + destruct (Z.eqb_spec (minTxnDuration c) v) as [E|E]; intros [= <- <-].
      * right. unfold potential, costs. cbn. rewrite (proj2 (Z.eqb_eq _ _) E). lia.
      * left. intros others. split; [done|]. unfold potential. cbn.
        rewrite (proj2 (Z.eqb_neq _ _) E). lia.
    + destruct (_ || _); intros [= <- <-]; left; intros others; (split; [done|]);
        unfold potential, costs; cbn; rewrite ?Z.eqb_refl; lia.
  - destruct v as [v|].
    + destruct (Z.eqb_spec (maxTxnDuration c) v) as [E|E]; intros [= <- <-].
      * right. unfold potential, costs. cbn. rewrite (proj2 (Z.eqb_eq _ _) E). lia.
      * left. intros others. split; [done|]. unfold potential. cbn.
        rewrite (proj2 (Z.eqb_neq _ _) E). lia.
    + destruct (_ <? _); intros [= <- <-]; left; intros others; (split; [done|]);
        unfold potential, costs; cbn; rewrite ?Z.eqb_refl; lia.
  - intros [= <- <-]. left. intros others. split; [by apply Hsame|].
    unfold potential, costs. cbn. destruct v; cbn; lia.
Qed.

Lemma record_step_decreases k s s' :
  length s.2 = n -> record_step k s = Some s' ->
  length s'.2 = n /\ (potentials s'.1 s'.2 < potentials s.1 s.2)%nat.
Proof.
  destruct s as [c ts]. unfold record_step. cbn [fst snd]. intros Hn.
  destruct (ts !! k) as [t|] eqn:Hk; [|done]. cbn [mbind option_bind].
  destruct (recorder_step t c) as [[c' t']|] eqn:E; [|done]. intros [= <-]. cbn [fst snd].
  split; [by rewrite length_insert|].
  rewrite (potentials_insert c' ts k t t' Hk), (potentials_split c ts k t Hk).
  assert (Hlen : (length (take k ts ++ drop (S k) ts) < n)%nat).
  { apply lookup_lt_Some in Hk. rewrite length_app, length_take, length_drop. lia. }
  destruct (recorder_step_pays t c c' t' E) as [H|H].
  - destruct (H (take k ts ++ drop (S k) ts)) as [-> H']. lia.
  - pose proof (potentials_change c c' (take k ts ++ drop (S k) ts)). lia.
Qed.

Lemma record_run_bounded schedule : forall s s',
  length s.2 = n -> record_run schedule s = Some s' ->
  length s'.2 = n /\ (length schedule + potentials s'.1 s'.2 <= potentials s.1 s.2)%nat.
Proof.
  induction schedule as [|k schedule IH]; cbn; intros s s' Hn; [intros [= <-]; by split|].
  destruct (record_step k s) as [s1|] eqn:E; [|done]. cbn. intros Hrun.
  destruct (record_step_decreases k s s1 Hn E) as [Hn1 Hlt].
  destruct (IH s1 s' Hn1 Hrun) as [H1 H2]. split; [done|lia].
Qed.

(** A goroutine that has something left is never blocked. *)
Lemma record_progress ts c : ~ recorded ts -> exists k s, record_step k (c, ts) = Some s.
Proof.
  intros H. unfold recorded in H.
  apply not_Forall_Exists in H; [|intros t; destruct (code t); [by left|by right]].
  apply Exists_exists in H as (t & Ht & Hcode). apply list_elem_of_lookup_1 in Ht as [k Hk].
  exists k. unfold record_step. cbn. rewrite Hk. cbn. unfold recorder_step.
  unfold compose in Hcode. cbn in Hcode.
  destruct (code t) as [|[] l]; [done|..]; try by eexists.
  - destruct (loaded t); [destruct (_ =? _)|destruct (_ || _)]; by eexists.
  - destruct (loaded t); [destruct (_ =? _)|destruct (_ <? _)]; by eexists.
Qed.

Lemma record_completes m : forall s, length s.2 = n -> (potentials s.1 s.2 <= m)%nat ->
  exists schedule s', record_run schedule s = Some s' /\ recorded s'.2.
Proof.
  induction m as [|m IH]; intros [c ts] Hn Hm;
    (destruct (decide (Forall (fun t => code t = []) ts)) as [Hd|Hd];
      [exists [], (c, ts); by split|]);
    destruct (record_progress ts c Hd) as (k & s & Hs);
    destruct (record_step_decreases k (c, ts) s Hn Hs) as [Hn1 Hlt]; [cbn in *; lia|].
  destruct (IH s Hn1) as (schedule & s' & Hrun & Hdone); [cbn in *; lia|].
  exists (k :: schedule), s'. cbn. by rewrite Hs.
Qed.

Lemma potentials_start reports c :
  (potentials c (goroutines reports) <= length reports * (4 * n + 11))%nat.
Proof.
  induction reports as [|r reports IH]; [done|].
  change (potentials c (goroutines (r :: reports)))
    with (potential c (mkRecorder (report_code r) None) + potentials c (goroutines reports))%nat.
  assert (potential c (mkRecorder (report_code r) None) <= 4 * n + 11)%nat; [|cbn [length]; lia].
  unfold potential, costs. cbn [loaded code]. destruct r as [m|m]; cbn; [|lia].
  destruct (fm_RowsReturned m =? 0); cbn; lia.
Qed.
End Potential.

(** Recording ends.  A failed compare-and-swap was beaten by one that
    succeeded, so [N] goroutines take at most [N * (4 N + 11)] steps together
    however they interleave, and from any point they can all finish. *)
Theorem recording_ends (reports : list Report) (schedule : list nat)
  (s : MetricsCollector * list Recorder)
  (Hrun : record_run schedule (NewMetricsCollector, goroutines reports) = Some s) :
  (length schedule <= length reports * (4 * length reports + 11))%nat
  /\ exists more s', record_run more s = Some s' /\ recorded s'.2.
Proof.
  assert (Hn : length (goroutines reports) = length reports) by apply length_fmap.
  destruct (record_run_bounded (length reports) schedule (NewMetricsCollector, goroutines reports)
              s Hn Hrun) as [Hn' Hb].
  pose proof (potentials_start (length reports) reports NewMetricsCollector). cbn [fst snd] in *.
  split; [lia|]. by apply (record_completes (length reports) (potentials (length reports) s.1 s.2)).
Qed.

(** ** A zero duration *)

(** Zero stands for no minimum yet, so a fetch that took no measurable time is
    forgotten: after durations of 5, 0 and 7 the minimum is 7. *)
Definition quick (d : Z) : Report := FetchReport (mkFetchMetrics 0 d 1 10 1).
Theorem zero_duration_forgotten :
  exists c ts, record_run (concat [replicate 7 0; replicate 7 1; replicate 8 2]%nat)
      (NewMetricsCollector, goroutines [quick 5; quick 0; quick 7]) = Some (c, ts)
    /\ minTxnDuration c = 7.
Proof. do 2 eexists. split; [vm_compute; reflexivity|reflexivity]. Qed.

(** ** The wrappers change nothing *)

Section Transparent.
Context {W : Type} `{!Runtime W} (clock : W -> Z).
Hypothesis now_reads : forall w, time_Now w = (w, Ret (clock w)).
Variables (w : W) (reports : list Report).

(** The answer or the panic, and the world, without the reports. *)
Definition unreported {A} (x : (W * list Report) * outcome A) : W * outcome A := (x.1.1, x.2).

Lemma instrumented_Fetch_transparent `{!BatchOutboxRepository W} workerID ctx limit :
  unreported (instrumented_Fetch workerID ctx limit (w, reports)) = FetchLockAndMarkPublishing ctx limit w.
Proof.
  unfold unreported, instrumented_Fetch, go_lift, time_Since, report, mbind, GoM_bind, mret, GoM_ret.
  cbn. rewrite now_reads. cbn.
  destruct (FetchLockAndMarkPublishing ctx limit w) as [w' [results|why]]; cbn; [|done].
  by rewrite now_reads.
Qed.

Lemma failure_reasons_some results : forall msgs : list Outbox,
  length results = length msgs ->
  exists reasons, failure_reasons results msgs = Some reasons
    /\ length reasons = (length results - length (List.filter Success results))%nat
    /\ (length (List.filter Success results) <= length results)%nat.
Proof.
  induction results as [|result results IH]; intros msgs Hlen; [by exists []|].
  destruct msgs as [|msg msgs]; [done|]. injection Hlen as Hlen.
  destruct (IH msgs Hlen) as (reasons & E & Hn & Hle). cbn. rewrite E.
  destruct (Success result); cbn; eexists; (split; [done|]); cbn; lia.
Qed.
End Transparent.

(** The wrappers of the repository and of the publisher change no answer.
    On a clock that only reads, a wrapped fetch or publish has the effect and
    the answer of the call it wraps, panics included, for a publisher that
    gives one result per message; and it reports one publish, whose successes
    and failures are those of the results. *)
Theorem instrumentation_transparent {W : Type} `{!Runtime W} `{!BatchOutboxRepository W}
  `{!BatchPublisher W} (clock : W -> Z)
  (Hnow : forall w, time_Now w = (w, Ret (clock w)))
  (Hresults : forall ctx msgs w w' results,
     PublishBatch ctx msgs w = (w', Ret results) -> length results = length msgs) :
  forall ctx w reports,
    (forall workerID limit,
       unreported (instrumented_Fetch workerID ctx limit (w, reports))
       = FetchLockAndMarkPublishing ctx limit w)
    /\ forall msgs,
       unreported (instrumented_PublishBatch ctx msgs (w, reports)) = PublishBatch ctx msgs w
       /\ forall w' results, PublishBatch ctx msgs w = (w', Ret results) ->
          exists m, (instrumented_PublishBatch ctx msgs (w, reports)).1.2
              = reports ++ [PublishReport m]
            /\ pm_BatchSize m = Z.of_nat (length msgs)
            /\ pm_SuccessCount m = Z.of_nat (length (List.filter Success results))
            /\ pm_SuccessCount m + pm_FailureCount m = pm_BatchSize m
            /\ Z.of_nat (length (pm_FailureReasons m)) = pm_FailureCount m.
Proof.
  intros ctx w reports. split; [intros; by apply (instrumented_Fetch_transparent clock)|]. intros msgs.
  unfold unreported, instrumented_PublishBatch, go_lift, time_Since, report, mbind, GoM_bind, mret, GoM_ret.
  cbn. rewrite Hnow. cbn.
  destruct (PublishBatch ctx msgs w) as [w' [results|why]] eqn:E; cbn; [|done].
  pose proof (Hresults _ _ _ _ _ E) as Hlen.
  destruct (failure_reasons_some results msgs Hlen) as (reasons & Er & Hn & Hle).
  rewrite Hnow. cbn. rewrite Er. cbn. split; [done|]. intros w1 results1 [= <- <-].
  eexists. split; [done|]. cbn. repeat split; lia.
Qed.

(** ** Witnesses *)

Definition demo_reports : list Report :=
  [quick 5; quick 3; PublishReport (mkPublishMetrics 0 4 2 1 3 ["timeout"%string])].
(** The first two load the empty minimum together; the second swap fails. *)
Definition demo_schedule : list nat :=
  concat [replicate 3 0; replicate 3 1; [0; 1]; replicate 4 0; replicate 5 1; replicate 4 2]%nat.

Lemma demo_measured :
  match record_run demo_schedule (NewMetricsCollector, goroutines demo_reports) with
  | Some (c, ts) => recorded ts /\ minTxnDuration c = 3
  | None => False
  end.
Proof. vm_compute. repeat constructor. Qed.

Lemma recording_exact_witness :
  exists c, counters c totalFetches = 2 /\ counters c totalDuration = 8
    /\ counters c totalPublishFailure = 1 /\ minTxnDuration c = 3 /\ maxTxnDuration c = 5.
Proof.
  pose proof demo_measured as H.
  destruct (record_run demo_schedule _) as [[c ts]|] eqn:E; [|destruct H].
  destruct (recording_exact demo_reports demo_schedule c ts ltac:(repeat constructor) E (proj1 H))
    as ((H1 & _ & H3 & _ & _ & _ & H7 & _) & Hmin & Hmax & _).
  exists c. exact (conj H1 (conj H3 (conj H7 (conj Hmin Hmax)))).
Defined.

Lemma recording_ends_witness :
  (length demo_schedule <= 3 * (4 * 3 + 11))%nat
  /\ exists s, record_run demo_schedule (NewMetricsCollector, goroutines demo_reports) = Some s
       /\ exists more s', record_run more s = Some s' /\ recorded s'.2.
Proof.
  destruct (record_run demo_schedule (NewMetricsCollector, goroutines demo_reports)) as [s|] eqn:E.
  2: { exfalso. pose proof demo_measured as H. rewrite E in H. exact H. }
  destruct (recording_ends demo_reports demo_schedule s E) as [H1 H2].
  split; [exact H1|]. exists s. by split.
Defined.

#[local] Instance unit_runtime : Runtime unit := {| time_Now := fun w => (w, Ret 7) |}.
#[local] Instance unit_publisher : Ports.Publisher unit := {|
  Publish := fun _ _ w => (w, Ret None)
|}.
#[local] Instance unit_batch_publisher : BatchPublisher unit := {|
  PublishBatch := fun _ msgs w =>
    (w, Ret (map (fun m => mkResult (ID m) "m" false (Some (EUser "timeout" None []))) msgs));
  MaxBatchSize := 10
|}.

#[local] Instance unit_repo : OutboxRepository unit :=
  let err := EUser "no database" None [] in {|
  Insert := fun _ _ w => (w, Ret (Err err));
  FetchAndLockToPublishing := fun _ w => (w, Ret (Err err));
  UpdateToPublished := fun _ _ w => (w, Ret (Some err));
  UpdateToFailed := fun _ _ _ w => (w, Ret (Some err));
  UpdateToDead := fun _ _ _ w => (w, Ret (Some err));
  RequeueFailed := fun _ w => (w, Ret (Err err));
  GetByID := fun _ _ w => (w, Ret (Err err));
  GetByIdempotencyKey := fun _ _ _ w => (w, Ret (Err err))
|}.
#[local] Instance unit_batch_repo : BatchOutboxRepository unit := {|
  FetchLockAndMarkPublishing := fun _ _ w => (w, Ret (Ok []));
  UpdateBatchToPublished := fun _ _ w => (w, Ret (Ok 0))
|}.

Lemma unit_results : forall ctx msgs (w w' : unit) results,
  PublishBatch ctx msgs w = (w', Ret results) -> length results = length msgs.
Proof. intros ctx msgs w w' results [= <- <-]. apply length_map. Qed.

Lemma instrumentation_transparent_witness :
  unreported (instrumented_Fetch (W := unit) 1 (mkContext true None []) 10 (tt, []))
  = (tt, Ret (Ok [])).
Proof.
  exact (proj1 (instrumentation_transparent (W := unit) (fun _ => 7) (fun 'tt => eq_refl)
                  unit_results (mkContext true None []) tt []) 1 10).
Defined.
