(* ===== verification/PgMetrics.v ===== *)
(** * The benchmark dispatcher and its PostgreSQL metrics

    examples/app/internal/instrumentation/pg_metrics.go: the snapshots of the
    connection pool and of pg_stat_activity, and what is summed up over them.
    examples/app/cmd/dispatcher-bench: the queues it discovers, its router and
    its configuration. *)

From Stdlib Require Import ZArith Lia Ascii.
From Corelib Require Import SpecFloat.
From stdpp Require Import base option list strings gmap.
From S2P Require Import Prelude Errors Model Dispatcher SqsRouter Consumer Wiring Metrics.

Set Default Goal Selector "!".
Open Scope string_scope.
Open Scope list_scope.
Open Scope Z_scope.

(** ** The pool *)

(** What [pgxpool.Stat] tells. *)
Record PoolStat : Type := mkPoolStat {
  ps_MaxConns : Z;
  ps_TotalConns : Z;
  ps_AcquiredConns : Z;
  ps_IdleConns : Z;
  ps_ConstructingConns : Z;
  ps_AcquireCount : Z;
  ps_AcquireDuration : Z;
  ps_CanceledAcquireCount : Z;
  ps_EmptyAcquireCount : Z
}.

Record PGPoolMetrics : Type := mkPoolMetrics {
  MaxConns : Z;
  TotalConns : Z;
  AcquiredConns : Z;
  IdleConns : Z;
  ConstructingConns : Z;
  AcquireCount : Z;
  AcquireDuration : Z;
  AcquiredConnsCount : Z;
  CanceledAcquireCount : Z;
  EmptyAcquireCount : Z;
  ConnectionUtilization : spec_float;
  AvgAcquireDuration : Z
}.

Definition utilization (acquired max : Z) : spec_float :=
  if 0 <? max
  then f64_mul (f64_div (f64_of_int64 acquired) (f64_of_int64 max)) (f64_of_int64 100)
  else f64_zero.

Definition CollectPoolMetrics (stats : PoolStat) : PGPoolMetrics :=
  mkPoolMetrics (ps_MaxConns stats) (ps_TotalConns stats) (ps_AcquiredConns stats)
    (ps_IdleConns stats) (ps_ConstructingConns stats) (ps_AcquireCount stats)
    (ps_AcquireDuration stats) (ps_AcquiredConns stats) (ps_CanceledAcquireCount stats)
    (ps_EmptyAcquireCount stats)
    (utilization (ps_AcquiredConns stats) (ps_MaxConns stats))
    (if 0 <? ps_AcquireCount stats
     then Z.quot (ps_AcquireDuration stats) (ps_AcquireCount stats) else 0).

Definition pool_bound : Z := 48.

Definition utilization_ok (maxConns acquired : Z) : bool :=
  let u := utilization acquired maxConns in
  SFleb f64_zero u && SFleb u (f64_of_int64 100).

Lemma utilization_checked :
  forallb (fun m => forallb (fun a => utilization_ok (Z.of_nat m) (Z.of_nat a)) (seq 0 (S m)))
    (seq 0 (S (Z.to_nat pool_bound))) = true.
Proof. vm_compute. reflexivity. Qed.

(** In a pool of up to [pool_bound] connections the utilisation is a percentage,
    and the average is between nothing and the whole. *)
Theorem pool_metrics_bounded stats :
  ps_MaxConns stats <= pool_bound ->
  0 <= ps_AcquiredConns stats <= Z.max 0 (ps_MaxConns stats) -> 0 <= ps_AcquireDuration stats ->
  let metrics := CollectPoolMetrics stats in
  SFleb f64_zero (ConnectionUtilization metrics) = true
  /\ SFleb (ConnectionUtilization metrics) (f64_of_int64 100) = true
  /\ 0 <= AvgAcquireDuration metrics <= ps_AcquireDuration stats.
Proof.
  intros Hm Ha Hd metrics.
  assert (Hu : utilization_ok (ps_MaxConns stats) (ps_AcquiredConns stats) = true).
  { destruct (Z.ltb_spec 0 (ps_MaxConns stats)) as [Hpos|Hneg].
    - pose proof utilization_checked as H. rewrite forallb_forall in H.
      specialize (H (Z.to_nat (ps_MaxConns stats))). rewrite forallb_forall in H.
      rewrite <- (Z2Nat.id (ps_MaxConns stats)), <- (Z2Nat.id (ps_AcquiredConns stats)) by lia.
      apply H; apply in_seq; lia.
    - unfold utilization_ok, utilization.
      by rewrite (proj2 (Z.ltb_ge _ _) Hneg). }
  apply andb_true_iff in Hu as [H1 H2]. split; [exact H1|]. split; [exact H2|].
  subst metrics. unfold CollectPoolMetrics; cbn [AvgAcquireDuration].
  destruct (Z.ltb_spec 0 (ps_AcquireCount stats)); [|lia].
  rewrite Z.quot_div_nonneg by lia.
  split; [apply Z.div_pos; lia|apply Z.div_le_upper_bound; nia].
Qed.

(** ** pg_stat_activity *)

(** A group of the query: [None] is NULL. *)
Record ActivityRow : Type := mkActivityRow {
  ar_state : option string;
  ar_wait_event_type : option string;
  ar_count : Z
}.

Record PGActivityMetrics : Type := mkActivity {
  am_Active : Z;
  am_Idle : Z;
  am_IdleInTxn : Z;
  am_Waiting : Z;
  am_WaitLock : Z;
  am_WaitIO : Z;
  am_WaitClient : Z;
  am_WaitOther : Z;
  am_TotalConns : Z
}.

Definition no_activity : PGActivityMetrics := mkActivity 0 0 0 0 0 0 0 0 0.

Definition in_state (s : string) (row : ActivityRow) : bool := bool_decide (ar_state row = Some s).
Definition waits (row : ActivityRow) : bool := bool_decide (is_Some (ar_wait_event_type row)).
Definition waits_for (s : string) (row : ActivityRow) : bool :=
  bool_decide (ar_wait_event_type row = Some s).
Definition waits_other (row : ActivityRow) : bool :=
  waits row && negb (waits_for "Lock" row) && negb (waits_for "IO" row)
  && negb (waits_for "Client" row).

(** [x += count] in the branch [b]. *)
Definition add_if (b : bool) (x count : Z) : Z := if b then wrap64 (x + count) else x.

Definition count_row (m : PGActivityMetrics) (row : ActivityRow) : PGActivityMetrics :=
  let count := ar_count row in
  mkActivity
    (add_if (in_state "active" row) (am_Active m) count)
    (add_if (in_state "idle" row) (am_Idle m) count)
    (add_if (in_state "idle in transaction" row) (am_IdleInTxn m) count)
    (add_if (waits row) (am_Waiting m) count)
    (add_if (waits_for "Lock" row) (am_WaitLock m) count)
    (add_if (waits_for "IO" row) (am_WaitIO m) count)
    (add_if (waits_for "Client" row) (am_WaitClient m) count)
    (add_if (waits_other row) (am_WaitOther m) count)
    (wrap64 (am_TotalConns m + count)).

Record PGMetricsCollector : Type := mkPGCollector {
  totalSnapshots : Z;
  totalWaiting : Z;
  totalActive : Z
}.
Definition NewPGMetricsCollector : PGMetricsCollector := mkPGCollector 0 0 0.

(** The loop over the rows: an error of [Scan] ends it. *)
Fixpoint scan_rows (rows : list (error + ActivityRow)) (m : PGActivityMetrics)
    : PGActivityMetrics * option error :=
  match rows with
  | [] => (m, None)
  | inl err :: _ => (m, Some err)
  | inr row :: rows => scan_rows rows (count_row m row)
  end.

(** [query]: the error of [Query], or its rows and [rows.Err] at their end. *)
Definition CollectActivityMetrics (query : error + list (error + ActivityRow) * option error)
    (c : PGMetricsCollector) : PGMetricsCollector * PGActivityMetrics * option error :=
  match query with
  | inl err => (c, no_activity, Some err)
  | inr (rows, rows_Err) =>
      match scan_rows rows no_activity with
      | (m, Some err) => (c, m, Some err)
      | (m, None) =>
          (mkPGCollector (wrap64 (totalSnapshots c + 1)) (wrap64 (totalWaiting c + am_Waiting m))
             (wrap64 (totalActive c + am_Active m)), m, rows_Err)
      end
  end.

(** What is logged at the end: snapshots, average waiting, average active. *)
Definition LogAggregateStats (c : PGMetricsCollector) : option (Z * spec_float * spec_float) :=
  let snapshots := totalSnapshots c in
  if snapshots =? 0 then None
  else Some (snapshots, f64_div (f64_of_int64 (totalWaiting c)) (f64_of_int64 snapshots),
             f64_div (f64_of_int64 (totalActive c)) (f64_of_int64 snapshots)).

(** What the [select] of the loop takes: [ctx.Done], or a tick and what the
    database answers. *)
Inductive CollectionEvent : Type :=
| CollectionDone
| CollectionTick (stats : PoolStat) (query : error + list (error + ActivityRow) * option error).

(** The collector, and what was logged of each tick. *)
Fixpoint StartPeriodicCollection (events : list CollectionEvent) (c : PGMetricsCollector)
    : PGMetricsCollector * list (PGPoolMetrics * (error + PGActivityMetrics)) :=
  match events with
  | [] | CollectionDone :: _ => (c, [])
  | CollectionTick stats query :: events =>
      let '(c', m, err) := CollectActivityMetrics query c in
      let '(c'', logs) := StartPeriodicCollection events c' in
      (c'', (CollectPoolMetrics stats, match err with Some e => inl e | None => inr m end) :: logs)
  end.

(** *** What is counted *)

Fixpoint sum_where (p : ActivityRow -> bool) (rows : list ActivityRow) : Z :=
  match rows with
  | [] => 0
  | row :: rows => (if p row then ar_count row else 0) + sum_where p rows
  end.

Definition nonnegative (rows : list ActivityRow) : Prop := Forall (fun row => 0 <= ar_count row) rows.

Lemma sum_where_le (p q : ActivityRow -> bool) rows :
  nonnegative rows -> (forall row, p row = true -> q row = true) ->
  0 <= sum_where p rows <= sum_where q rows.
Proof.
  intros H Hpq. induction H as [|row rows Hr _ IH]; [cbn; lia|]. cbn. specialize (Hpq row).
  destruct (p row); [rewrite Hpq by done; lia|]. destruct (q row); lia.
Qed.

(** One field of the metrics. *)
Lemma count_field (f : PGActivityMetrics -> Z) (p : ActivityRow -> bool) rows : forall m,
  (forall m row, f (count_row m row) = add_if (p row) (f m) (ar_count row)) ->
  nonnegative rows -> 0 <= f m -> f m + sum_where (fun _ => true) rows < 2 ^ 63 ->
  f (fold_left count_row rows m) = f m + sum_where p rows.
Proof.
  intros m Hf Hpos. revert m. induction Hpos as [|row rows Hr Hrs IH]; intros m H0 Hmax; cbn in *; [lia|].
  pose proof (sum_where_le p (fun _ => true) rows Hrs ltac:(done)).
  rewrite IH; rewrite Hf; unfold add_if; destruct (p row);
    try (rewrite wrap64_id by (unfold in_int64; lia)); lia.
Qed.

Definition parts_exact (rows : list ActivityRow) (m : PGActivityMetrics) : Prop :=
  am_Active m = sum_where (in_state "active") rows
  /\ am_Idle m = sum_where (in_state "idle") rows
  /\ am_IdleInTxn m = sum_where (in_state "idle in transaction") rows
  /\ am_Waiting m = sum_where waits rows
  /\ am_WaitLock m = sum_where (waits_for "Lock") rows
  /\ am_WaitIO m = sum_where (waits_for "IO") rows
  /\ am_WaitClient m = sum_where (waits_for "Client") rows
  /\ am_WaitOther m = sum_where waits_other rows
  /\ am_TotalConns m = sum_where (fun _ => true) rows.

Lemma parts_counted rows :
  nonnegative rows -> sum_where (fun _ => true) rows < 2 ^ 63 ->
  parts_exact rows (fold_left count_row rows no_activity).
Proof.
  intros Hpos Hmax. unfold parts_exact.
  repeat split; (erewrite count_field; [reflexivity|..]; [done|done|done|exact Hmax]).
Qed.

Lemma wait_cases row (x : Z) :
  (if waits row then x else 0) = (if waits_for "Lock" row then x else 0)
    + (if waits_for "IO" row then x else 0) + (if waits_for "Client" row then x else 0)
    + (if waits_other row then x else 0).
Proof.
  unfold waits_other, waits, waits_for. destruct (ar_wait_event_type row) as [s|].
  - rewrite (bool_decide_eq_true_2 (is_Some (Some s))) by done.
    repeat case_bool_decide; simplify_eq; cbn; lia.
  - rewrite (bool_decide_eq_false_2 (is_Some None)) by apply is_Some_None.
    repeat case_bool_decide; simplify_eq; cbn; lia.
Qed.

Lemma wait_parts rows :
  sum_where waits rows = sum_where (waits_for "Lock") rows + sum_where (waits_for "IO") rows
    + sum_where (waits_for "Client") rows + sum_where waits_other rows.
Proof.
  induction rows as [|row rows IH]; [done|]. cbn [sum_where]. rewrite IH, wait_cases. lia.
Qed.

Lemma state_parts rows :
  nonnegative rows ->
  sum_where (in_state "active") rows + sum_where (in_state "idle") rows
    + sum_where (in_state "idle in transaction") rows <= sum_where (fun _ => true) rows.
Proof.
  intros H. induction H as [|row rows Hr _ IH]; [cbn; lia|]. cbn. unfold in_state in *.
  destruct (ar_state row) as [s|]; repeat case_bool_decide; simplify_eq; lia.
Qed.

Lemma scan_rows_all rows m :
  scan_rows (inr <$> rows) m = (fold_left count_row rows m, None).
Proof. revert m. induction rows as [|row rows IH]; intros m; [done|]. apply IH. Qed.

(** A snapshot counts every connection once: under its state, when it is one of
    the three, and under what it waits for.  One that fails before its end leaves
    the aggregate alone; an error after the last row does not. *)
Theorem snapshot_exact (rows : list ActivityRow) (rows_Err : option error) (c : PGMetricsCollector) :
  nonnegative rows -> sum_where (fun _ => true) rows < 2 ^ 63 ->
  exists m, CollectActivityMetrics (inr (inr <$> rows, rows_Err)) c
    = (mkPGCollector (wrap64 (totalSnapshots c + 1)) (wrap64 (totalWaiting c + am_Waiting m))
         (wrap64 (totalActive c + am_Active m)), m, rows_Err)
  /\ parts_exact rows m
  /\ am_Waiting m = am_WaitLock m + am_WaitIO m + am_WaitClient m + am_WaitOther m
  /\ am_Active m + am_Idle m + am_IdleInTxn m <= am_TotalConns m
  /\ am_Waiting m <= am_TotalConns m.
Proof.
  intros Hpos Hmax. eexists. unfold CollectActivityMetrics. rewrite scan_rows_all.
  split; [reflexivity|]. pose proof (parts_counted rows Hpos Hmax) as Hparts.
  split; [exact Hparts|].
  destruct Hparts as (-> & -> & -> & -> & -> & -> & -> & -> & ->).
  split; [apply wait_parts|]. split; [by apply state_parts|].
  by apply (sum_where_le waits (fun _ => true) rows).
Qed.

Lemma failed_snapshot rows err rest c m :
  scan_rows (rows ++ inl err :: rest) no_activity = (m, Some err) ->
  forall rows_Err, CollectActivityMetrics (inr (rows ++ inl err :: rest, rows_Err)) c = (c, m, Some err).
Proof. intros H rows_Err. unfold CollectActivityMetrics. by rewrite H. Qed.

(** *** Over a run *)

(** The snapshot a tick adds to the aggregate. *)
Definition snapshot_of (e : CollectionEvent) : option PGActivityMetrics :=
  match e with
  | CollectionTick _ (inr (rows, _)) =>
      match scan_rows rows no_activity with (m, None) => Some m | _ => None end
  | _ => None
  end.

Definition add_snapshot (c : PGMetricsCollector) (m : PGActivityMetrics) : PGMetricsCollector :=
  mkPGCollector (wrap64 (totalSnapshots c + 1)) (wrap64 (totalWaiting c + am_Waiting m))
    (wrap64 (totalActive c + am_Active m)).

(** Until it is cancelled the loop logs every tick once, and the aggregate is that
    of the snapshots whose rows were all read. *)
Theorem collection_exact ticks c :
  Forall (fun e => e <> CollectionDone) ticks ->
  forall later, let '(c', logs) := StartPeriodicCollection (ticks ++ CollectionDone :: later) c in
    c' = fold_left add_snapshot (omap snapshot_of ticks) c /\ length logs = length ticks.
Proof.
  intros Hticks later. revert c. induction Hticks as [|e ticks He _ IH]; intros c; [done|].
  destruct e as [|stats query]; [done|]. cbn [app StartPeriodicCollection].
  destruct (CollectActivityMetrics query c) as [[c1 m] err] eqn:E.
  specialize (IH c1). destruct (StartPeriodicCollection _ c1) as [c2 logs]. destruct IH as [-> Hl].
  split; [|cbn; by rewrite Hl]. cbn [omap list_omap snapshot_of]. unfold CollectActivityMetrics in E.
  destruct query as [qerr|[rows rerr]]; [by injection E as <- _ _|].
  destruct (scan_rows rows no_activity) as [m0 [e|]]; injection E as <- _ _; [done|]. reflexivity.
Qed.

(** ** cmd/dispatcher-bench/main.go *)

(** [net/url]: a parsed URL, its parser and [String]. *)
Record URL : Type := mkURL { url_Scheme : string; url_Host : string; url_rest : string }.

Section Bench.
Variables (Parse : string -> option URL) (URL_String : URL -> string).

Definition normalizeQueueURL (queueURL sqsEndpoint : string) : string :=
  match Parse queueURL with
  | None => queueURL
  | Some u =>
      match Parse sqsEndpoint with
      | None => queueURL
      | Some endpointURL =>
          URL_String (mkURL (url_Scheme endpointURL) (url_Host endpointURL) (url_rest u))
      end
  end.

Fixpoint has_slash (s : string) : bool :=
  match s with "" => false | String c s' => Ascii.eqb c "/"%char || has_slash s' end.

(** The last of [strings.Split(queueURL, "/")]. *)
Fixpoint last_segment (s : string) : string :=
  match s with
  | "" => ""
  | String c s' =>
      if has_slash s' then last_segment s' else if Ascii.eqb c "/"%char then s' else s
  end.

(** The queues the client lists, by name. *)
Definition discover (sqsEndpoint : string) (QueueUrls : list string) : gmap string string :=
  fold_left (fun queueURLs queueURL =>
    <[last_segment queueURL := normalizeQueueURL queueURL sqsEndpoint]> queueURLs) QueueUrls ∅.

(** [queueURLs[name]]: the empty string for a queue that is not listed. *)
Definition queue_url (queueURLs : gmap string string) (name : string) : string :=
  default "" (queueURLs !! name).

Definition order_name : string := "o4x-events-order.fifo".
Definition notification_name : string := "o4x-events-notification".
Definition user_name : string := "o4x-events-user".

(** The queue of an event; a single queue is that of the users. *)
Definition bench_queue (queueURLs : gmap string string) (multiQueue : bool) (eventType : string)
    : string :=
  if multiQueue then
    QueueURL (app_router (queue_url queueURLs order_name) (queue_url queueURLs notification_name)
                (queue_url queueURLs user_name)) eventType
  else queue_url queueURLs user_name.

Definition bench_config (workerCount : Z) : Batch.BatchDispatcherConfig :=
  Batch.mkConfig (100 * Millisecond) 0 10 workerCount 0 0 None false (1 * Second) false 0 0 0.

Lemma last_segment_name s : has_slash s = false -> last_segment s = s.
Proof.
  destruct s as [|c s]; [done|]. cbn. destruct (Ascii.eqb c "/"%char); [done|]. cbn. by intros ->.
Qed.

Lemma has_slash_app s t : has_slash (s +:+ t) = has_slash s || has_slash t.
Proof.
  induction s as [|c s IH]; [done|].
  change (String c s +:+ t) with (String c (s +:+ t)). cbn [has_slash]. by rewrite IH, orb_assoc.
Qed.

Lemma last_segment_after base name :
  has_slash name = false -> last_segment (base +:+ "/" +:+ name) = name.
Proof.
  intros Hn. induction base as [|c base IH].
  - change ("" +:+ "/" +:+ name) with (String "/"%char name). cbn. by rewrite Hn.
  - change (String c base +:+ "/" +:+ name) with (String c (base +:+ "/" +:+ name)).
    cbn [last_segment]. replace (has_slash (base +:+ "/" +:+ name)) with true; [exact IH|].
    rewrite has_slash_app. change ("/" +:+ name) with (String "/"%char name). cbn. by rewrite orb_true_r.
Qed.

(** A listed queue is found under its name when no later one has it too. *)
Lemma discover_lookup endpoint urls : forall (m : gmap string string) name,
  fold_left (fun queueURLs queueURL =>
    <[last_segment queueURL := normalizeQueueURL queueURL endpoint]> queueURLs) urls m !! name
  = match List.find (fun u => bool_decide (last_segment u = name)) (reverse urls) with
    | Some u => Some (normalizeQueueURL u endpoint)
    | None => m !! name
    end.
Proof.
  induction urls as [|u urls IH] using rev_ind; intros m name; [done|].
  rewrite fold_left_app, reverse_app. cbn [fold_left].
  change (reverse [u] ++ reverse urls) with (u :: reverse urls). cbn [List.find].
  case_bool_decide as E; [subst name; apply lookup_insert_eq|].
  rewrite lookup_insert_ne by done. apply IH.
Qed.

Lemma discovered endpoint urls url :
  url ∈ urls -> (forall u, u ∈ urls -> last_segment u = last_segment url -> u = url) ->
  queue_url (discover endpoint urls) (last_segment url) = normalizeQueueURL url endpoint.
Proof.
  intros Hin Huniq. unfold queue_url, discover. rewrite discover_lookup.
  destruct (List.find _ _) as [u|] eqn:E.
  - apply find_some in E as [Hu E]. apply list_elem_of_In in Hu. rewrite elem_of_reverse in Hu.
    bool_to_prop. by rewrite (Huniq u Hu E).
  - pose proof (find_none _ _ E url) as Hf. cbn in Hf. rewrite bool_decide_eq_true_2 in Hf by done.
    discriminate Hf. apply list_elem_of_In. by rewrite elem_of_reverse.
Qed.

(** The URLs of the three queues are in the list, with no other of these names. *)
Definition listed (urls : list string) (name url : string) : Prop :=
  url ∈ urls /\ forall u, u ∈ urls -> last_segment u = name <-> u = url.

(** When the queues are listed, the events of the services go in multi-queue mode
    to the queue, under the address of the endpoint, whose consumers have a
    handler for them.  The configuration is that of cmd/dispatcher but for the
    pace of the requeue loop. *)
Theorem bench_routes {W : Type} (handler_for : EventHandler -> Handler W)
  endpoint urls order notification user eventType h :
  listed urls order_name order -> listed urls notification_name notification ->
  listed urls user_name user -> (eventType, h) ∈ service_events ->
  exists group,
    bench_queue (discover endpoint urls) true eventType
      = normalizeQueueURL (pick_queue order notification user group) endpoint
    /\ reaches handler_for group eventType h.
Proof.
  intros [Ho Ho'] [Hn Hn'] [Hu Hu'] Hevent.
  assert (Hq : forall name url, url ∈ urls -> (forall u, u ∈ urls -> last_segment u = name <-> u = url) ->
    queue_url (discover endpoint urls) name = normalizeQueueURL url endpoint).
  { intros name url Hin Hname. pose proof (proj2 (Hname url Hin) eq_refl) as <-.
    apply discovered; [done|]. intros u Hin'. apply Hname, Hin'. }
  unfold bench_queue. rewrite (Hq _ order), (Hq _ notification), (Hq _ user) by done.
  destruct (service_event_routed handler_for (normalizeQueueURL order endpoint)
    (normalizeQueueURL notification endpoint) (normalizeQueueURL user endpoint) eventType h Hevent)
    as (group & Hg & Hr).
  exists group. split; [|done]. rewrite Hg. unfold pick_queue. by repeat case_bool_decide.
Qed.

(** A queue that is not listed has the empty URL, and the dispatcher starts. *)
Lemma bench_missing_queue endpoint urls name :
  Forall (fun u => last_segment u <> name) urls -> queue_url (discover endpoint urls) name = "".
Proof.
  intros H. unfold queue_url, discover. rewrite discover_lookup.
  destruct (List.find _ _) as [u|] eqn:E; [|by rewrite lookup_empty].
  apply find_some in E as [Hu E]. apply list_elem_of_In in Hu. rewrite elem_of_reverse in Hu.
  bool_to_prop. rewrite Forall_forall in H. destruct (H u Hu E).
Qed.
End Bench.

Lemma bench_config_accepted (workerCount : Z) :
  1 <= workerCount ->
  Batch.NewBatchDispatcher 10 (bench_config workerCount)
  = Ok (Batch.mkConfig (100 * Millisecond) (3200 * Millisecond) 10 workerCount (30 * Second)
          (60 * Second) (Some ExitProcess) false (1 * Second) false (1 * Second) (1 * Hour)
          (10 * Second)).
Proof.
  intros Hw. unfold Batch.NewBatchDispatcher, bench_config. cbn -[Z.ltb].
  replace (workerCount <? 0) with false by lia. cbn.
  unfold Batch.adjust, Batch.apply_defaults, Single.or_default. cbn.
  by replace (workerCount =? 0) with false by lia.
Qed.

(** The names in the URLs of the deployment. *)
Example deployment_names :
  last_segment "http://sqs.us-east-1.localhost.localstack.cloud:4566/000000000000/o4x-events-order.fifo"
  = order_name.
Proof. reflexivity. Qed.
