(* ===== verification/MetricsLog.v ===== *)
(** * What the metrics of the example dispatcher log

    [LogStats] and the log line of a fetch in examples/app/internal/instrumentation/metrics.go,
    the log lines of pg_metrics.go, as values: the lines of the workers add up to
    the line of all fetches. *)

From Stdlib Require Import ZArith Lia.
From Corelib Require Import SpecFloat.
From stdpp Require Import base option list functions strings gmap fin_maps.
From S2P Require Import Prelude Errors Model Metrics PgMetrics.

Set Default Goal Selector "!".
Open Scope list_scope.
Open Scope Z_scope.

(** [Duration.Milliseconds] and [Microseconds] drop the rest. *)
Definition in_milliseconds (d : Z) : Z := Z.quot d 1000000.
Definition in_microseconds (d : Z) : Z := Z.quot d 1000.

Definition ratio (x y : Z) : spec_float := f64_div (f64_of_int64 x) (f64_of_int64 y).

(** The line of [RecordFetch]. *)
Definition utilizationPct (m : FetchMetrics) : spec_float :=
  if 0 <? fm_RequestedLimit m
  then f64_mul (ratio (fm_RowsReturned m) (fm_RequestedLimit m)) (f64_of_int64 100)
  else f64_zero.

Record FetchLine : Type := mkFetchLine {
  fl_worker_id : Z;
  fl_duration_ms : Z;
  fl_duration_us : Z;
  fl_rows_returned : Z;
  fl_requested_limit : Z;
  fl_utilization_pct : spec_float
}.
Definition fetch_line (m : FetchMetrics) : FetchLine :=
  mkFetchLine (fm_WorkerID m) (in_milliseconds (fm_Duration m)) (in_microseconds (fm_Duration m))
    (fm_RowsReturned m) (fm_RequestedLimit m) (utilizationPct m).

(** ** [LogStats] *)

Record WorkerLine : Type := mkWorkerLine {
  wl_worker_id : Z;
  wl_total_fetches : Z;
  wl_total_rows : Z;
  wl_empty_fetches : Z;
  wl_avg_duration_ms : spec_float;
  wl_avg_rows : spec_float
}.
Definition worker_line (ws : WorkerStats) : WorkerLine :=
  let some := 0 <? ws_TotalFetches ws in
  mkWorkerLine (ws_WorkerID ws) (ws_TotalFetches ws) (ws_TotalRows ws) (ws_EmptyFetches ws)
    (if some then ratio (in_milliseconds (ws_TotalDuration ws)) (ws_TotalFetches ws) else f64_zero)
    (if some then ratio (ws_TotalRows ws) (ws_TotalFetches ws) else f64_zero).

(** The lines of the fetches and of their durations show the same statistics. *)
Definition LogStats (walk : list (Z * WorkerStats) -> list (Z * WorkerStats))
    (c : MetricsCollector) : FetchStats * PublishStats * list WorkerLine :=
  (GetFetchStats c, GetPublishStats c, worker_line <$> GetWorkerStats walk c).

(** ** pg_metrics.go *)

Record PoolLine : Type := mkPoolLine {
  pl_max_conns : Z;
  pl_total_conns : Z;
  pl_acquired_conns : Z;
  pl_idle_conns : Z;
  pl_constructing_conns : Z;
  pl_connection_utilization_pct : spec_float;
  pl_acquire_count : Z;
  pl_acquire_duration_ms : Z;
  pl_avg_acquire_duration_us : Z;
  pl_canceled_acquire_count : Z;
  pl_empty_acquire_count : Z
}.
Definition pool_line (m : PGPoolMetrics) : PoolLine :=
  mkPoolLine (MaxConns m) (TotalConns m) (AcquiredConns m) (IdleConns m) (ConstructingConns m)
    (ConnectionUtilization m) (AcquireCount m) (in_milliseconds (AcquireDuration m))
    (in_microseconds (AvgAcquireDuration m)) (CanceledAcquireCount m) (EmptyAcquireCount m).

(** ** The lines of the workers add up *)

Section Totals.
Context (f : WorkerStats -> Z).

Definition total (stats : gmap Z WorkerStats) : Z := sum (f <$> (map_to_list stats).*2).

Lemma total_fresh k v stats : stats !! k = None -> total (<[k := v]> stats) = f v + total stats.
Proof. intros H. unfold total. by rewrite (map_to_list_insert stats k v H). Qed.

(** A summary is replaced, or begun at nothing. *)
Lemma total_insert k v zero stats :
  f zero = 0 -> total (<[k := v]> stats) + f (default zero (stats !! k)) = f v + total stats.
Proof.
  intros Hz. unfold default. destruct (stats !! k) as [old|] eqn:E; cbn [from_option id].
  - assert (Hd : forall x, total (<[k := x]> stats) = f x + total (delete k stats)).
    { intros x. rewrite <- insert_delete_eq. by apply total_fresh, lookup_delete_eq. }
    pose proof (Hd old) as Hold. rewrite (insert_id stats k old E) in Hold. rewrite Hd. lia.
  - rewrite total_fresh by done. lia.
Qed.

(** An update adds [d m], at 64 bits. *)
Context (d : FetchMetrics -> Z).
Hypothesis Hzero : forall w, f (mkWorkerStats w 0 0 0 0) = 0.
Hypothesis Hupdate : forall m stats, exists s,
  update_worker m stats = <[fm_WorkerID m := s]> stats
  /\ f s = wrap64 (f (default (mkWorkerStats (fm_WorkerID m) 0 0 0 0) (stats !! fm_WorkerID m)) + d m).

Lemma total_update m stats : wrap64 (total (update_worker m stats)) = wrap64 (total stats + d m).
Proof.
  destruct (Hupdate m stats) as (s & -> & Hs).
  pose proof (total_insert (fm_WorkerID m) s _ stats (Hzero (fm_WorkerID m))) as H.
  rewrite Hs in H.
  match goal with H : _ + ?old = _ |- _ => set (o := old) in * end.
  replace (total (<[fm_WorkerID m:=s]> stats)) with (wrap64 (o + d m) + (total stats - o)) by lia.
  rewrite wrap64_add. f_equal. lia.
Qed.

Lemma total_updates ms : wrap64 (total (foldr update_worker ∅ ms)) = wrap64 (sum (d <$> ms)).
Proof.
  induction ms as [|m ms IH]; [done|]. cbn [foldr fmap list_fmap].
  rewrite total_update, <- wrap64_add, IH, wrap64_add. f_equal. unfold sum. cbn. lia.
Qed.
End Totals.

Lemma updates_summary ms : forall w, foldr update_worker ∅ ms !! w = worker_summary w ms.
Proof. induction ms as [|m ms IH]; [done|]. intros w. by apply update_worker_summary. Qed.

Lemma sum_ones {A} (l : list A) : sum ((fun _ => 1) <$> l) = Z.of_nat (length l).
Proof. induction l as [|x l IH]; [done|]. unfold sum in *. cbn [fmap list_fmap foldr length]. lia. Qed.

(** However the goroutines that record interleave and in whatever order Go walks the
    map, once all are done the fetches and the rows of the worker lines add up, at
    64 bits, to those of the line of all fetches. *)
Theorem worker_lines_add_up (reports : list Report) (schedule : list nat)
  (c : MetricsCollector) (ts : list Recorder)
  (walk : list (Z * WorkerStats) -> list (Z * WorkerStats))
  (Hwalk : forall l, walk l ≡ₚ l)
  (Hpositive : Forall (fun m => 0 < fm_Duration m) (fetches reports))
  (Hrun : record_run schedule (NewMetricsCollector, goroutines reports) = Some (c, ts))
  (Hdone : recorded ts) :
  let '(fetched, _, workers) := LogStats walk c in
  total_fetches fetched = wrap64 (sum (wl_total_fetches <$> workers))
  /\ total_rows fetched = wrap64 (sum (wl_total_rows <$> workers)).
Proof.
  unfold LogStats, GetFetchStats, GetWorkerStats. cbn [total_fetches total_rows].
  assert (E : workerStats c = foldr update_worker ∅ (fetches reports)).
  { apply map_eq. intros w. rewrite updates_summary. by apply (recorded_workers _ _ _ _ Hpositive Hrun). }
  rewrite <- !list_fmap_compose, !(recorded_counter _ _ _ _ Hpositive Hrun Hdone), !reported_sums, Hwalk.
  pose proof (total_updates ws_TotalFetches (fun _ => 1) (fun _ => eq_refl)
    (fun m stats => ex_intro _ _ (conj eq_refl eq_refl)) (fetches reports)) as H1.
  pose proof (total_updates ws_TotalRows fm_RowsReturned (fun _ => eq_refl)
    (fun m stats => ex_intro _ _ (conj eq_refl eq_refl)) (fetches reports)) as H2.
  rewrite sum_ones in H1. unfold total in H1, H2. rewrite <- E, <- list_fmap_compose in H1, H2.
  by split.
Qed.
