(* ===== verification/Benchmark.v ===== *)
(** * The load generator

    examples/app/benchmark: the requests it sends, the workers that share a
    channel of requests and the counters, step by step, and the statistics of
    the latencies. *)

From Stdlib Require Import ZArith Lia.
From Corelib Require Import SpecFloat.
From stdpp Require Import base option list strings pretty gmap sorting.
From S2P Require Import Prelude Model AppStore Metrics.

Set Default Goal Selector "!".
Open Scope string_scope.
Open Scope list_scope.
Open Scope Z_scope.

(** ** The latencies *)

(** [if latencies[j] > latencies[j+1] { swap }] *)
Definition swap_step (l : list Z) (j : nat) : list Z :=
  match l !! j, l !! S j with
  | Some a, Some b => if b <? a then <[j := b]> (<[S j := a]> l) else l
  | _, _ => l
  end.

(** [for j := 0; j < m; j++] *)
Definition inner_pass (m : nat) (l : list Z) : list Z := fold_left swap_step (seq 0 m) l.

Definition sortLatencies (latencies : list Z) : list Z :=
  let n := length latencies in
  fold_left (fun l i => inner_pass (n - i - 1) l) (seq 0 (n - 1)) latencies.

Definition calculateAvgLatency (latencies : list Z) : Z :=
  Z.quot (fold_left (fun total latency => wrap64 (total + latency)) latencies 0)
    (Z.of_nat (length latencies)).

(** [int(f)] for a float within the range of an [int]. *)
Definition f64_to_int (f : spec_float) : Z :=
  match f with
  | S754_finite s m e =>
      let v := if 0 <=? e then Zpos m * 2 ^ e else Zpos m / 2 ^ (- e) in
      if s then - v else v
  | _ => 0
  end.

(** The literals 0.50, 0.95 and 0.99: the nearest floats. *)
Definition percent (k : Z) : spec_float := f64_div (f64_of_int64 k) (f64_of_int64 100).

(** [None]: the index is out of range. *)
Definition calculatePercentile (sortedLatencies : list Z) (percentile : spec_float) : option Z :=
  let n := Z.of_nat (length sortedLatencies) in
  let index := f64_to_int (f64_mul (f64_of_int64 n) percentile) in
  let index := if n <=? index then n - 1 else index in
  if index <? 0 then None else sortedLatencies !! Z.to_nat index.

Record LatencyStats : Type := mkLatencyStats {
  MinLatency : Z;
  MaxLatency : Z;
  AvgLatency : Z;
  P50Latency : Z;
  P95Latency : Z;
  P99Latency : Z
}.

(** The statistics of a run with latencies; [None]: it panics. *)
Definition latency_stats (latencies : list Z) : option LatencyStats :=
  let l := sortLatencies latencies in
  min ← l !! 0%nat; max ← l !! (length l - 1)%nat;
  p50 ← calculatePercentile l (percent 50);
  p95 ← calculatePercentile l (percent 95);
  p99 ← calculatePercentile l (percent 99);
  Some (mkLatencyStats min max (calculateAvgLatency l) p50 p95 p99).

(** ** The sort *)

(** One pass on a list, element by element. *)
Fixpoint carry (a : Z) (l : list Z) : list Z :=
  match l with
  | [] => [a]
  | b :: l' => if b <? a then b :: carry a l' else a :: carry b l'
  end.

Lemma swap_step_app pre a b l :
  swap_step (pre ++ a :: b :: l) (length pre)
  = pre ++ (if b <? a then b :: a :: l else a :: b :: l).
Proof.
  unfold swap_step. rewrite !lookup_app_r by lia.
  replace (S (length pre) - length pre)%nat with 1%nat by lia. rewrite Nat.sub_diag. cbn.
  destruct (b <? a); [|done].
  rewrite insert_app_r_alt by lia. replace (S (length pre) - length pre)%nat with 1%nat by lia.
  by rewrite insert_app_r_alt, Nat.sub_diag by lia.
Qed.

Lemma pass_carry : forall l pre a rest,
  fold_left swap_step (seq (length pre) (length l)) (pre ++ a :: l ++ rest)
  = pre ++ carry a l ++ rest.
Proof.
  induction l as [|b l IH]; intros pre a rest; [done|].
  cbn [length seq fold_left app carry]. rewrite swap_step_app.
  destruct (b <? a).
  - specialize (IH (pre ++ [b]) a rest). rewrite length_app, Nat.add_1_r, <- !app_assoc in IH.
    exact IH.
  - specialize (IH (pre ++ [a]) b rest). rewrite length_app, Nat.add_1_r, <- !app_assoc in IH.
    exact IH.
Qed.

(** A pass moves a greatest element to the end. *)
Lemma carry_spec l : forall a, exists l' m,
  carry a l = l' ++ [m] /\ Permutation (l' ++ [m]) (a :: l) /\ Forall (fun x => x <= m) (a :: l).
Proof.
  induction l as [|b l IH]; intros a; cbn [carry].
  { exists [], a. split; [done|]. split; [done|]. by repeat constructor. }
  destruct (Z.ltb_spec b a).
  - destruct (IH a) as (l' & m & -> & Hp & Hm). exists (b :: l'), m. split; [done|].
    apply Forall_cons in Hm as [Ha Hl]. split.
    + cbn. rewrite Hp. constructor.
    + repeat constructor; [done|lia|done].
  - destruct (IH b) as (l' & m & -> & Hp & Hm). exists (a :: l'), m. split; [done|].
    apply Forall_cons in Hm as [Hb Hl]. split; [cbn; by rewrite Hp|].
    repeat constructor; [lia|done|done].
Qed.

(** After [i] passes the last [i] elements are in their place. *)
Definition sorted_tail (l0 : list Z) (i : nat) (l : list Z) : Prop :=
  exists front tail, l = front ++ tail /\ length tail = i /\ Permutation l l0
    /\ StronglySorted Z.le tail /\ Forall (fun x => Forall (Z.le x) tail) front.

Lemma pass_sorted_tail l0 i l :
  (i < length l0)%nat -> sorted_tail l0 i l ->
  sorted_tail l0 (S i) (inner_pass (length l0 - i - 1) l).
Proof.
  intros Hi (front & tail & -> & Hlen & Hperm & Hsorted & Hle).
  pose proof (Permutation_length Hperm) as Hl. rewrite length_app in Hl.
  destruct front as [|a front]; [cbn in Hl; lia|]. unfold inner_pass.
  replace (length l0 - i - 1)%nat with (length front) by (cbn in Hl; lia).
  pose proof (pass_carry front [] a tail) as E. cbn [length app] in E |- *. rewrite E.
  destruct (carry_spec front a) as (l' & m & -> & Hp & Hm). exists l', (m :: tail).
  split; [by rewrite <- app_assoc|]. split; [cbn; lia|]. split; [|split].
  - rewrite Hp. exact Hperm.
  - constructor; [done|]. rewrite Forall_forall in Hle. apply Hle. rewrite <- Hp.
    apply elem_of_app. right. by left.
  - apply Forall_forall. intros x Hx.
    assert (Hin : x ∈ a :: front) by (rewrite <- Hp; apply elem_of_app; by left).
    constructor; [rewrite Forall_forall in Hm; by apply Hm|].
    rewrite Forall_forall in Hle. by apply Hle.
Qed.

(** The bubble sort sorts. *)
Lemma sortLatencies_sorts latencies :
  StronglySorted Z.le (sortLatencies latencies) /\ Permutation (sortLatencies latencies) latencies.
Proof.
  assert (H : forall k, (k <= length latencies - 1)%nat ->
    sorted_tail latencies k (fold_left (fun l i => inner_pass (length latencies - i - 1) l)
      (seq 0 k) latencies)).
  { induction k as [|k IH]; intros Hk.
    - exists latencies, []. rewrite app_nil_r. split; [done|]. split; [done|]. split; [done|].
      split; [constructor|]. apply Forall_forall. intros x _. constructor.
    - rewrite seq_S, fold_left_app. cbn [fold_left]. apply pass_sorted_tail; [lia|apply IH; lia]. }
  destruct (H (length latencies - 1)%nat (Nat.le_refl _)) as (front & tail & E & Hlen & Hperm & Hs & Hle).
  unfold sortLatencies. split; [|exact Hperm]. rewrite E.
  pose proof (Permutation_length Hperm) as Hl. rewrite E, length_app in Hl.
  destruct front as [|a [|b front]]; [done| |cbn in Hl; lia].
  constructor; [done|]. by apply Forall_cons in Hle as [? _].
Qed.

(** ** The statistics *)

Definition percentile_index (n : Z) (percentile : spec_float) : Z :=
  let index := f64_to_int (f64_mul (f64_of_int64 n) percentile) in
  if n <=? index then n - 1 else index.

(** The three indexes are in range and in order, in binary64; checked for every
    number of latencies up to the default number of requests. *)
Definition indexes_ok (n : Z) : bool :=
  (0 <=? percentile_index n (percent 50))
  && (percentile_index n (percent 50) <=? percentile_index n (percent 95))
  && (percentile_index n (percent 95) <=? percentile_index n (percent 99))
  && (percentile_index n (percent 99) <? n).

Definition bench_bound : nat := 1000.

Lemma indexes_checked :
  forallb indexes_ok ((fun n => Z.of_nat n) <$> seq 1 bench_bound) = true.
Proof. vm_compute. reflexivity. Qed.

Lemma indexes_in_range n :
  (0 < n <= bench_bound)%nat -> indexes_ok (Z.of_nat n) = true.
Proof.
  intros Hn. pose proof indexes_checked as H. rewrite forallb_forall in H. apply H.
  apply list_elem_of_In, (list_elem_of_fmap_2 (fun n => Z.of_nat n)), elem_of_seq. lia.
Qed.

Lemma sorted_lookup l : StronglySorted Z.le l -> forall i j x y,
  (i <= j)%nat -> l !! i = Some x -> l !! j = Some y -> x <= y.
Proof.
  induction 1 as [|a l _ IH Ha]; intros i j x y Hij Hi Hj; [done|].
  destruct i as [|i], j as [|j]; cbn in *; [injection Hi; injection Hj; lia| |lia|].
  - injection Hi as <-. rewrite Forall_lookup in Ha. by apply (Ha j).
  - apply (IH i j); [lia|done|done].
Qed.

Lemma percentile_lookup l k :
  0 <= percentile_index (Z.of_nat (length l)) (percent k) < Z.of_nat (length l) ->
  exists x, calculatePercentile l (percent k) = Some x
    /\ l !! Z.to_nat (percentile_index (Z.of_nat (length l)) (percent k)) = Some x.
Proof.
  intros Hk. unfold calculatePercentile. fold (percentile_index (Z.of_nat (length l)) (percent k)).
  destruct (lookup_lt_is_Some_2 l (Z.to_nat (percentile_index (Z.of_nat (length l)) (percent k))))
    as [x Hx]; [lia|].
  exists x. by rewrite (proj2 (Z.ltb_ge _ 0)) by lia.
Qed.

(** A sum that stays in range. *)
Lemma sum_in_range l lo hi : forall total,
  0 <= lo -> Forall (fun x => lo <= x <= hi) l -> 0 <= total ->
  total + Z.of_nat (length l) * hi < 2 ^ 63 ->
  let sum := fold_left (fun total latency => wrap64 (total + latency)) l total in
  total + Z.of_nat (length l) * lo <= sum <= total + Z.of_nat (length l) * hi.
Proof.
  induction l as [|x l IH]; intros total Hlo Hl Ht Hr; cbn [fold_left length]; [lia|].
  apply Forall_cons in Hl as [Hx Hl]. cbn [length] in Hr.
  assert (0 <= hi) by lia. rewrite wrap64_id by (unfold in_int64; nia).
  destruct (IH (total + x) Hlo Hl ltac:(lia) ltac:(nia)). split; nia.
Qed.

(** The statistics of a benchmark of up to [bench_bound] requests, whose
    latencies add up to less than 292 years: there is no panic, the least and the
    greatest are among the latencies, and everything is between them, in order. *)
Theorem latency_stats_ordered (latencies : list Z)
  (Hlen : (0 < length latencies <= bench_bound)%nat)
  (Hpos : Forall (fun x => 0 <= x) latencies)
  (Hrange : forall x, x ∈ latencies -> Z.of_nat (length latencies) * x < 2 ^ 63) :
  exists s, latency_stats latencies = Some s
    /\ MinLatency s ∈ latencies /\ MaxLatency s ∈ latencies
    /\ Forall (fun x => MinLatency s <= x <= MaxLatency s) latencies
    /\ MinLatency s <= P50Latency s <= P95Latency s
    /\ P95Latency s <= P99Latency s <= MaxLatency s
    /\ MinLatency s <= AvgLatency s <= MaxLatency s.
Proof.
  destruct (sortLatencies_sorts latencies) as [Hs Hp]. set (l := sortLatencies latencies) in *.
  pose proof (Permutation_length Hp) as Hl.
  pose proof (indexes_in_range (length l) ltac:(lia)) as Hidx. unfold indexes_ok in Hidx.
  bool_to_prop. set (n := Z.of_nat (length l)) in *.
  destruct (lookup_lt_is_Some_2 l 0) as [lo Hlo]; [lia|].
  destruct (lookup_lt_is_Some_2 l (length l - 1)) as [hi Hhi]; [lia|].
  destruct (percentile_lookup l 50) as (p50 & E50 & H50); [fold n; lia|].
  destruct (percentile_lookup l 95) as (p95 & E95 & H95); [fold n; lia|].
  destruct (percentile_lookup l 99) as (p99 & E99 & H99); [fold n; lia|].
  fold n in H50, H95, H99.
  assert (Hall : Forall (fun x => lo <= x <= hi) l).
  { apply Forall_lookup. intros i x Hx. pose proof (lookup_lt_Some _ _ _ Hx).
    split; [by apply (sorted_lookup l Hs 0 i); [lia|..]|].
    by apply (sorted_lookup l Hs i (length l - 1)); [lia|..]. }
  assert (Hin : forall i x, l !! i = Some x -> x ∈ latencies)
    by (intros i x Hx; rewrite <- Hp; by eapply list_elem_of_lookup_2).
  exists (mkLatencyStats lo hi (calculateAvgLatency l) p50 p95 p99).
  unfold latency_stats. fold l. rewrite Hlo, Hhi, E50, E95, E99. cbn [mbind option_bind].
  split; [done|]. cbn [MinLatency MaxLatency AvgLatency P50Latency P95Latency P99Latency].
  split; [by apply (Hin 0%nat)|]. split; [by eapply Hin|]. split; [by rewrite <- Hp|].
  set (i50 := Z.to_nat (percentile_index n (percent 50))) in *.
  set (i95 := Z.to_nat (percentile_index n (percent 95))) in *.
  set (i99 := Z.to_nat (percentile_index n (percent 99))) in *.
  split; [split; [apply (sorted_lookup l Hs 0 i50)|apply (sorted_lookup l Hs i50 i95)];
    first [done|lia]|].
  split; [split; [apply (sorted_lookup l Hs i95 i99)|apply (sorted_lookup l Hs i99 (length l - 1))];
    first [done|lia]|].
  assert (Hlo0 : 0 <= lo) by (rewrite Forall_forall in Hpos; apply Hpos; by eapply Hin).
  pose proof (Hrange hi (Hin _ _ Hhi)) as Hr. rewrite <- Hl in Hr. fold n in Hr.
  pose proof (sum_in_range l lo hi 0 Hlo0 Hall ltac:(lia) ltac:(lia)) as Hsum. cbv zeta in Hsum.
  unfold calculateAvgLatency. fold n in Hsum |- *.
  split; [apply Z.quot_le_lower_bound; [lia|]|apply Z.quot_le_upper_bound; [lia|]].
  - rewrite Z.add_0_l in Hsum. apply Hsum.
  - rewrite !Z.add_0_l in Hsum. apply Hsum.
Qed.

(** ** The requests *)

Definition pad3 (n : Z) : string :=
  let digits := pretty n in
  String.append (if n <? 10 then "00" else if n <? 100 then "0" else "") digits.

(** [int(time.Now().UnixNano())] is read for each field. *)
Definition new_order_request (userID : UUID) (nano1 nano2 nano3 : Z) : CreateOrderRequest :=
  mkCreateOrderRequest userID ("product-" +:+ pad3 (1 + Z.rem nano1 5)) (1 + Z.rem nano2 10)
    (1000 + Z.rem nano3 9000).

(** [id] is [uuid.New().String()]. *)
Definition user_request (id : UUID) (nano : Z) : CreateUserRequest :=
  mkCreateUserRequest ("user-" +:+ String.substring 0 8 id +:+ "@example.com")
    ("User " +:+ pretty (Z.rem nano 10000)).

Definition notifTypes : list NotificationType :=
  [NotificationTypeEmail; NotificationTypeSMS; NotificationTypePush].

(** [None]: the index is out of range. *)
Definition notification_request (id : UUID) (nano : Z) : option SendNotificationRequest :=
  let i := Z.rem nano 3 in
  if i <? 0 then None
  else type ← notifTypes !! Z.to_nat i;
    Some (mkSendNotificationRequest type ("user-" +:+ String.substring 0 8 id +:+ "@example.com")
            "Benchmark Test Notification" "This is a benchmark test notification.").

(** On a clock after 1970 the requests are well formed: a seeded product, a
    quantity from one to ten, a type of notification that has a handler. *)
Lemma requests_well_formed userID id nano1 nano2 nano3 :
  0 <= nano1 -> 0 <= nano2 -> 0 <= nano3 ->
  co_ProductID (new_order_request userID nano1 nano2 nano3)
    ∈ ["product-001"; "product-002"; "product-003"; "product-004"; "product-005"]
  /\ 1 <= co_Quantity (new_order_request userID nano1 nano2 nano3) <= 10
  /\ 1000 <= co_TotalPrice (new_order_request userID nano1 nano2 nano3) < 10000
  /\ exists req, notification_request id nano1 = Some req /\ sn_Type req ∈ notifTypes.
Proof.
  intros H1 H2 H3. unfold new_order_request; cbn [co_ProductID co_Quantity co_TotalPrice].
  pose proof (Z.rem_bound_pos nano2 10). pose proof (Z.rem_bound_pos nano3 9000).
  split; [|split; [lia|split; [lia|]]].
  - pose proof (Z.rem_bound_pos nano1 5 H1 ltac:(lia)).
    assert (Hc : Z.rem nano1 5 = 0 \/ Z.rem nano1 5 = 1 \/ Z.rem nano1 5 = 2 \/ Z.rem nano1 5 = 3
      \/ Z.rem nano1 5 = 4) by lia.
    destruct Hc as [E|[E|[E|[E|E]]]]; rewrite E; apply (bool_decide_unpack _); vm_compute; exact I.
  - unfold notification_request. pose proof (Z.rem_bound_pos nano1 3 H1 ltac:(lia)).
    rewrite (proj2 (Z.ltb_ge _ 0)) by lia.
    destruct (lookup_lt_is_Some_2 notifTypes (Z.to_nat (Z.rem nano1 3))) as [type E]; [cbn; lia|].
    rewrite E. eexists. split; [reflexivity|]. cbn. by eapply list_elem_of_lookup_2.
Qed.

(** The answer of the API to a posted request: its status code, or the error of
    the call. *)
Definition posted (resp : string + Z) : option string :=
  match resp with
  | inl err => Some err
  | inr StatusCode =>
      if StatusCode =? 201 then None else Some ("unexpected status code: " +:+ pretty StatusCode)
  end.

(** ** The output *)

(** [json], [csv], [text]: the rendered result, or the error of the renderer;
    [write]: the error of [os.WriteFile].  The answer: what is written where, or
    the error. *)
Inductive Destination : Type := ToFile (path : string) | ToStdout.

Definition outputResults (json csv : string + string) (text : string)
    (write : string -> string -> option string) (format outputPath : string)
    : string + (Destination * string) :=
  let output :=
    if String.eqb format "json" then
      match json with inl e => inl ("failed to marshal JSON: " +:+ e) | inr o => inr o end
    else if String.eqb format "csv" then
      match csv with inl e => inl ("failed to generate CSV: " +:+ e) | inr o => inr o end
    else if String.eqb format "text" then inr text
    else inl ("unsupported format: " +:+ format) in
  match output with
  | inl e => inl e
  | inr output =>
      if negb (String.eqb outputPath "") then
        match write outputPath output with
        | Some e => inl ("failed to write file: " +:+ e)
        | None => inr (ToFile outputPath, output)
        end
      else inr (ToStdout, output)
  end.

(** A result is shown exactly when the format is one of the three, its renderer
    succeeds, and the file, if one is named, can be written. *)
Lemma outputResults_ok json csv text write format outputPath to output :
  outputResults json csv text write format outputPath = inr (to, output) <->
  (format = "json" /\ json = inr output \/ format = "csv" /\ csv = inr output
   \/ format = "text" /\ text = output)
  /\ (outputPath = "" /\ to = ToStdout
      \/ outputPath <> "" /\ to = ToFile outputPath /\ write outputPath output = None).
Proof.
  unfold outputResults.
  destruct (String.eqb_spec format "json") as [->|?]; [destruct json|];
    (destruct (String.eqb_spec format "csv") as [->|?] || idtac); try destruct csv;
    (destruct (String.eqb_spec format "text") as [->|?] || idtac);
    destruct (String.eqb_spec outputPath "") as [->|?]; cbn;
    try (destruct (write _ _) eqn:?); intuition congruence.
Qed.

(** ** The workers *)

(** Where a worker is: waiting for a request, sending it, with its latency
    appended, with the request counted in the total, returned.  [failed]: the
    request failed. *)
Inductive BenchWorker : Type :=
| BIdle
| BSending
| BAppended (failed : bool)
| BTotal (failed : bool)
| BExit.

(** The loop of [runBenchmark]: [n] requests to send; a look at the clock; a send
    of the timed loop; [wg.Wait]; the result. *)
Inductive BenchMain : Type :=
| MCount (n : nat)
| MClock
| MTimedSend
| MWait
| MReturned.

Record Bench : Type := mkBench {
  bn_main : BenchMain;
  bn_buffered : nat;
  bn_closed : bool;
  bn_workers : list BenchWorker;
  totalRequests : nat;
  successRequests : nat;
  failedRequests : nat;
  bn_latencies : nat
}.

Inductive BenchEvent : Type :=
| BMain (before : bool)
| BWork (k : nat) (failed : bool).

Section Bench.
(** The capacity of the channel, and whether the request type is known. *)
Variables (numRequests : nat) (known : bool).

Definition set_worker (k : nat) (w : BenchWorker) (b : Bench) : Bench :=
  mkBench (bn_main b) (bn_buffered b) (bn_closed b) (<[k := w]> (bn_workers b))
    (totalRequests b) (successRequests b) (failedRequests b) (bn_latencies b).

Definition set_channel (main : BenchMain) (buffered : nat) (closed : bool) (b : Bench) : Bench :=
  mkBench main buffered closed (bn_workers b) (totalRequests b) (successRequests b)
    (failedRequests b) (bn_latencies b).

(** One step of the worker at [w]; [None]: it waits, or has returned. *)
Definition worker_step (k : nat) (w : BenchWorker) (failed : bool) (b : Bench) : option Bench :=
  match w with
  | BIdle =>
      match bn_buffered b with
      | S n => Some (set_worker k (if known then BSending else BExit)
                       (set_channel (bn_main b) n (bn_closed b) b))
      | O => if bn_closed b then Some (set_worker k BExit b) else None
      end
  | BSending =>
      Some (set_worker k (BAppended failed)
              (mkBench (bn_main b) (bn_buffered b) (bn_closed b) (bn_workers b) (totalRequests b)
                 (successRequests b) (failedRequests b) (S (bn_latencies b))))
  | BAppended f =>
      Some (set_worker k (BTotal f)
              (mkBench (bn_main b) (bn_buffered b) (bn_closed b) (bn_workers b)
                 (S (totalRequests b)) (successRequests b) (failedRequests b) (bn_latencies b)))
  | BTotal f =>
      Some (set_worker k BIdle
              (mkBench (bn_main b) (bn_buffered b) (bn_closed b) (bn_workers b) (totalRequests b)
                 (if f then successRequests b else S (successRequests b))
                 (if f then S (failedRequests b) else failedRequests b) (bn_latencies b)))
  | BExit => None
  end.

(** [requests <- struct{}{}] on a channel whose capacity is not 0. *)
Definition send (main : BenchMain) (b : Bench) : option Bench :=
  if (bn_buffered b <? numRequests)%nat
  then Some (set_channel main (S (bn_buffered b)) (bn_closed b) b) else None.

(** [before]: [time.Now().Before(endTime)]. *)
Definition main_step (before : bool) (b : Bench) : option Bench :=
  match bn_main b with
  | MCount (S n) => send (MCount n) b
  | MCount O => Some (set_channel MWait (bn_buffered b) true b)
  | MClock =>
      if before then Some (set_channel MTimedSend (bn_buffered b) (bn_closed b) b)
      else Some (set_channel MWait (bn_buffered b) true b)
  | MTimedSend => send MClock b
  | MWait =>
      if forallb (fun w => match w with BExit => true | _ => false end) (bn_workers b)
      then Some (set_channel MReturned (bn_buffered b) (bn_closed b) b) else None
  | MReturned => None
  end.

Definition bench_step (e : BenchEvent) (b : Bench) : option Bench :=
  match e with
  | BMain before => main_step before b
  | BWork k failed => w ← bn_workers b !! k; worker_step k w failed b
  end.

Fixpoint bench_run (es : list BenchEvent) (b : Bench) : option Bench :=
  match es with
  | [] => Some b
  | e :: es' => b' ← bench_step e b; bench_run es' b'
  end.

(** [timed]: [config.Duration > 0]. *)
Definition bench_start (concurrency : nat) (timed : bool) : Bench :=
  mkBench (if timed then MClock else MCount numRequests) 0 false (replicate concurrency BIdle)
    0 0 0 0.

(** *** Accounting *)

Definition is_sending (w : BenchWorker) : nat := match w with BSending => 1 | _ => 0 end.
Definition is_appended (w : BenchWorker) : nat := match w with BAppended _ => 1 | _ => 0 end.
Definition is_total (w : BenchWorker) : nat := match w with BTotal _ => 1 | _ => 0 end.

Fixpoint wsum (f : BenchWorker -> nat) (ws : list BenchWorker) : nat :=
  match ws with [] => 0 | w :: ws' => f w + wsum f ws' end.

Definition tally (f : BenchWorker -> nat) (b : Bench) : nat := wsum f (bn_workers b).

Definition to_send (b : Bench) : nat := match bn_main b with MCount n => n | _ => 0 end.

Record Accounts (b : Bench) : Prop := {
  ac_requests : (to_send b + bn_buffered b + tally is_sending b + bn_latencies b = numRequests)%nat;
  ac_total : (totalRequests b + tally is_appended b = bn_latencies b)%nat;
  ac_outcome : (successRequests b + failedRequests b + tally is_total b = totalRequests b)%nat;
  ac_main : match bn_main b with MCount _ => bn_closed b = false
            | MWait | MReturned => bn_closed b = true | _ => False end;
  ac_exit : BExit ∈ bn_workers b -> bn_closed b = true /\ bn_buffered b = 0%nat;
  ac_done : bn_main b = MReturned -> Forall (fun w => w = BExit) (bn_workers b)
}.

Lemma tally_insert f (ws : list BenchWorker) k w w' :
  ws !! k = Some w ->
  (wsum f (<[k := w']> ws) + f w = wsum f ws + f w')%nat.
Proof.
  revert k; induction ws as [|v ws IH]; intros k Hk; [done|]. destruct k as [|k]; simpl in Hk |- *.
  - injection Hk as ->. lia.
  - specialize (IH k Hk). lia.
Qed.

Lemma exit_insert (ws : list BenchWorker) k w :
  w <> BExit -> BExit ∈ <[k := w]> ws -> BExit ∈ ws.
Proof.
  intros Hw H. apply list_elem_of_lookup in H as [j Hj].
  destruct (decide (j = k)) as [->|Hne].
  - destruct (decide (k < length ws)%nat).
    + rewrite list_lookup_insert_eq in Hj by done. congruence.
    + rewrite list_insert_ge in Hj by lia. by eapply list_elem_of_lookup_2.
  - rewrite list_lookup_insert_ne in Hj by done. by eapply list_elem_of_lookup_2.
Qed.

Lemma tally_replicate f n : wsum f (replicate n BIdle) = (n * f BIdle)%nat.
Proof. induction n as [|n IH]; simpl; [done|]. rewrite IH. lia. Qed.

Lemma accounts_start concurrency : Accounts (bench_start concurrency false).
Proof.
  split; cbn; unfold tally; cbn; rewrite ?tally_replicate; cbn; try lia; try done.
  intros Hin. by apply elem_of_replicate in Hin as [? _].
Qed.

Lemma all_exited ws :
  forallb (fun w => match w with BExit => true | _ => false end) ws = true ->
  Forall (fun w => w = BExit) ws.
Proof.
  intros H. apply Forall_forall. intros w Hw. rewrite forallb_forall in H.
  specialize (H w (proj1 (list_elem_of_In _ _) Hw)). by destruct w.
Qed.

Lemma accounts_main before b b' : Accounts b -> main_step before b = Some b' -> Accounts b'.
Proof.
  intros [Hr Ht Ho Hm He Hd] Hs. unfold main_step, send in Hs. unfold to_send in Hr.
  destruct (bn_main b) as [[|n]| | | |] eqn:E; try done.
  - injection Hs as <-. split; cbn; try done. intros Hin.
    destruct (He Hin) as [Hc _]. congruence.
  - destruct (_ <? _)%nat; [|done]. injection Hs as <-.
    split; cbn; try done; [unfold tally in *; cbn in *; lia|].
    intros Hin. destruct (He Hin) as [Hc _]. congruence.
  - destruct (forallb _ _) eqn:Ef; [|done]. injection Hs as <-.
    split; cbn; try done. intros _. by apply all_exited.
Qed.

(** A step of a worker when the main routine has not returned. *)
Lemma accounts_worker k failed b b' w :
  known = true -> Accounts b -> bn_workers b !! k = Some w ->
  worker_step k w failed b = Some b' -> Accounts b'.
Proof.
  intros Hknown [Hr Ht Ho Hm He Hd] Hw Hs.
  assert (Hrun : bn_main b = MReturned -> w = BExit).
  { intros E. eapply (Forall_lookup_1 _ _ _ _ (Hd E)), Hw. }
  pose proof (fun f w' => tally_insert f _ k w w' Hw) as Htally. unfold tally in *.
  assert (Hsame : bn_main b' = bn_main b /\ bn_closed b' = bn_closed b).
  { destruct w; cbn in Hs; try done;
      [destruct (bn_buffered b); [destruct (bn_closed b) eqn:?|]|..]; try done;
      injection Hs as <-; cbn; by rewrite ?Heqb0. }
  destruct Hsame as [Em Ec].
  assert (Hd' : bn_main b' = MReturned -> Forall (fun w => w = BExit) (bn_workers b')).
  { rewrite Em. intros E. rewrite (Hrun E) in Hs. done. }
  assert (Hm' : match bn_main b' with MCount _ => bn_closed b' = false
            | MWait | MReturned => bn_closed b' = true | _ => False end) by by rewrite Em, Ec.
  assert (Hts : to_send b' = to_send b) by (unfold to_send; by rewrite Em).
  destruct w; cbn in Hs; rewrite ?Hknown in Hs; try done;
    [destruct (bn_buffered b) eqn:Eb; [destruct (bn_closed b) eqn:Ecl; [|done]|]|..];
    injection Hs as <-; split; try done; rewrite ?Hts; unfold tally; cbn in *;
    try (match goal with |- context [<[k := ?w']> _] =>
      pose proof (Htally is_sending w'); pose proof (Htally is_appended w');
      pose proof (Htally is_total w') end; cbn in *;
      repeat case_match; lia);
    try (intros Hin; apply exit_insert in Hin; [|done]; destruct (He Hin); split; [done|lia]).
Qed.

(** *** The end of the count mode *)

Definition main_rank (m : BenchMain) : nat :=
  match m with MCount n => 5 * n + 2 | MWait => 1 | _ => 0 end.

Definition worker_rank (w : BenchWorker) : nat :=
  match w with BSending => 4 | BAppended _ => 3 | BTotal _ => 2 | BIdle => 1 | BExit => 0 end.

(** The steps that are left, at most. *)
Definition bench_rank (b : Bench) : nat :=
  main_rank (bn_main b) + 4 * bn_buffered b + tally worker_rank b.

Lemma bench_rank_step e b b' :
  Accounts b -> bench_step e b = Some b' -> (bench_rank b' < bench_rank b)%nat.
Proof.
  intros HA Hs. pose proof (ac_main b HA) as Hm. unfold bench_rank, tally. destruct e as [before|k failed].
  - cbn in Hs. unfold main_step, send in Hs.
    destruct (bn_main b) as [[|n]| | | |]; try done.
    + injection Hs as <-. cbn. lia.
    + destruct (_ <? _)%nat; [|done]. injection Hs as <-. cbn. lia.
    + destruct (forallb _ _); [|done]. injection Hs as <-. cbn. lia.
  - cbn in Hs. destruct (bn_workers b !! k) as [w|] eqn:Hw; [|done]. cbn in Hs.
    pose proof (fun w' => tally_insert worker_rank _ k w w' Hw) as Htally.
    destruct w; cbn in Hs; try done;
      [destruct (bn_buffered b) eqn:Eb; [destruct (bn_closed b); [|done]|destruct known]|..];
      injection Hs as <-; cbn;
      match goal with |- context [<[k := ?w']> _] => specialize (Htally w') end; cbn in Htally; lia.
Qed.

Lemma accounts_run es b b' :
  known = true -> Accounts b -> bench_run es b = Some b' ->
  Accounts b' /\ length (bn_workers b') = length (bn_workers b)
  /\ (length es + bench_rank b' <= bench_rank b)%nat.
Proof.
  intros Hk. revert b. induction es as [|e es IH]; intros b HA Hr; cbn in Hr.
  - injection Hr as <-. split; [done|]. split; [done|]. cbn. lia.
  - destruct (bench_step e b) as [b1|] eqn:E; [|done].
    pose proof (bench_rank_step e b b1 HA E) as Hlt.
    assert (HA1 : Accounts b1 /\ length (bn_workers b1) = length (bn_workers b)).
    { destruct e as [before|k failed]; cbn in E.
      - split; [by eapply accounts_main|]. unfold main_step, send in E.
        repeat case_match; simplify_eq; done.
      - destruct (bn_workers b !! k) as [w|] eqn:Hw; [|done]. cbn in E.
        split; [by eapply accounts_worker|]. unfold worker_step in E.
        repeat case_match; simplify_eq; cbn; by rewrite length_insert. }
    destruct HA1 as [HA1 Hl1]. destruct (IH b1 HA1 Hr) as (HA' & Hl & Hle).
    split; [done|]. split; [congruence|]. cbn. lia.
Qed.

Lemma wsum_zero f (ws : list BenchWorker) :
  Forall (fun w => w = BExit) ws -> f BExit = 0%nat -> wsum f ws = 0%nat.
Proof. intros H Hf. induction H as [|w ws -> _ IH]; [done|]. simpl. rewrite Hf. lia. Qed.

(** While the main routine has not returned, someone can move. *)
Lemma bench_progress b :
  Accounts b -> (0 < length (bn_workers b))%nat -> bn_main b <> MReturned ->
  exists e b', bench_step e b = Some b'.
Proof.
  intros HA Hlen Hm. pose proof (ac_main b HA) as Hc.
  destruct (bn_main b) as [[|n]| | | |] eqn:E; try done.
  - exists (BMain true). eexists. cbn. unfold main_step. rewrite E. reflexivity.
  - exists (BMain true). cbn. unfold main_step, send. rewrite E.
    pose proof (ac_requests b HA) as Hr. unfold to_send in Hr. rewrite E in Hr.
    rewrite (proj2 (Nat.ltb_lt _ _)) by lia. by eexists.
  - destruct (forallb (fun w => match w with BExit => true | _ => false end) (bn_workers b)) eqn:Ef.
    + exists (BMain true). eexists. cbn. unfold main_step. rewrite E, Ef. reflexivity.
    + assert (Hx : exists w, w ∈ bn_workers b /\ w <> BExit).
      { clear -Ef. induction (bn_workers b) as [|w ws IH]; [done|]. destruct w; cbn in Ef;
          try (eexists; split; [by apply list_elem_of_here|done]).
        destruct (IH Ef) as (w & Hw & Hne). exists w. split; [by apply list_elem_of_further|done]. }
      destruct Hx as (w & Hin & Hne). apply list_elem_of_lookup in Hin as [k Hk].
      exists (BWork k false). cbn. rewrite Hk. cbn. unfold worker_step. rewrite Hc.
      destruct w; try done; [destruct (bn_buffered b)|..]; by eexists.
Qed.

(** With a known type and at least one worker, the count mode cannot run for ever
    or block, and the result it returns counts every request once: in the total,
    in the latencies, and either as a success or as a failure. *)
Theorem benchmark_ends concurrency es b :
  known = true -> (0 < concurrency)%nat ->
  bench_run es (bench_start concurrency false) = Some b ->
  (length es <= 5 * numRequests + concurrency + 2)%nat
  /\ (bn_main b <> MReturned -> exists e b', bench_step e b = Some b')
  /\ (bn_main b = MReturned ->
     totalRequests b = numRequests /\ bn_latencies b = numRequests
     /\ (successRequests b + failedRequests b = numRequests)%nat).
Proof.
  intros Hk Hc Hr.
  destruct (accounts_run es _ b Hk (accounts_start concurrency) Hr) as (HA & Hl & Hle).
  split; [|split].
  - revert Hle. unfold bench_rank at 2, tally. cbn. rewrite tally_replicate. cbn. lia.
  - intros Hm. apply bench_progress; [done| |done]. rewrite Hl. cbn. by rewrite length_replicate.
  - intros Hm. destruct HA as [Hreq Ht Ho Hmain He Hd]. specialize (Hd Hm).
    assert (Hexit : BExit ∈ bn_workers b).
    { cbn in Hl. rewrite length_replicate in Hl. destruct (bn_workers b) as [|w ws]; [cbn in Hl; lia|].
      apply Forall_cons in Hd as [-> _]. by apply list_elem_of_here. }
    destruct (He Hexit) as [_ Hbuf].
    unfold to_send, tally in *. rewrite Hm in Hreq.
    rewrite (wsum_zero is_sending) in Hreq by done.
    rewrite (wsum_zero is_appended) in Ht by done.
    rewrite (wsum_zero is_total) in Ho by done. lia.
Qed.
End Bench.

(** An unknown type in the timed mode: two workers return on their first request,
    the channel of two fills, and nobody can move: the benchmark never returns. *)
Example unknown_type_deadlocks :
  exists b,
    bench_run 2 false
      [BMain true; BMain true; BWork 0 false; BMain true; BMain true; BWork 1 false;
       BMain true; BMain true; BMain true; BMain true; BMain true]
      (bench_start 2 2 true) = Some b
    /\ bn_main b = MTimedSend /\ forall e, bench_step 2 false e b = None.
Proof.
  eexists. split; [vm_compute; reflexivity|]. split; [reflexivity|].
  intros [before|[|[|k]] failed]; reflexivity.
Qed.
