(* ===== verification/BenchReport.v ===== *)
(** * The report of the load generator

    examples/app/benchmark: the result of a run, its text and its CSV, with the
    parts of [fmt], [time] and [encoding/csv] they use, and the program.  JSON,
    RFC 3339 times and the HTTP client are parameters. *)

From Stdlib Require Import ZArith Lia Ascii.
From Corelib Require Import SpecFloat.
From stdpp Require Import base option list strings pretty.
From S2P Require Import Prelude Model AppStore Metrics Benchmark.

Set Default Goal Selector "!".
Open Scope string_scope.
Open Scope list_scope.
Open Scope Z_scope.

(** ** Durations and floats *)

Definition Milliseconds (d : Z) : Z := Z.quot d 1000000.
Definition Microseconds (d : Z) : Z := Z.quot d 1000.

Definition f64_add : spec_float -> spec_float -> spec_float := SFadd 53 1024.

(** [time.Duration.Seconds] *)
Definition Seconds (d : Z) : spec_float :=
  f64_add (f64_of_int64 (Z.quot d 1000000000))
    (f64_div (f64_of_int64 (Z.rem d 1000000000)) (f64_of_int64 1000000000)).

(** [float64(d.Microseconds()) / 1000.0] *)
Definition latency_ms (d : Z) : spec_float := f64_div (f64_of_int64 (Microseconds d)) (f64_of_int64 1000).

(** *** [%.2f] *)

Definition pad2 (n : Z) : string := (if n <? 10 then "0" else "") +:+ pretty n.

(** [num / den], [den > 0], to the nearest integer, a tie to the even one. *)
Definition round_even (num den : Z) : Z :=
  let q := num / den in
  let r := num mod den in
  if 2 * r <? den then q else if den <? 2 * r then q + 1 else if Z.even q then q else q + 1.

(** [m * 2 ^ e] in hundredths. *)
Definition hundredths (m : positive) (e : Z) : Z :=
  if 0 <=? e then Zpos m * 2 ^ e * 100 else round_even (Zpos m * 100) (2 ^ (- e)).

Definition show_hundredths (h : Z) : string := pretty (h / 100) +:+ "." +:+ pad2 (h mod 100).

Definition fixed2 (f : spec_float) : string :=
  match f with
  | S754_nan => "NaN"
  | S754_infinity s => (if s then "-" else "+") +:+ "Inf"
  | S754_zero s => (if s then "-" else "") +:+ "0.00"
  | S754_finite s m e => (if s then "-" else "") +:+ show_hundredths (hundredths m e)
  end.

Lemma round_even_nearest num den :
  0 < den -> 2 * Z.abs (num - round_even num den * den) <= den.
Proof.
  intros Hd. unfold round_even. pose proof (Z.div_mod num den ltac:(lia)) as E.
  pose proof (Z.mod_pos_bound num den Hd) as Hr. set (q := num / den) in *. set (r := num mod den) in *.
  destruct (Z.ltb_spec (2 * r) den); [nia|]. destruct (Z.ltb_spec den (2 * r)); [nia|].
  destruct (Z.even q); nia.
Qed.

(** The printed number is the float's to within half a hundredth. *)
Lemma fixed2_nearest s m e :
  exists h, fixed2 (S754_finite s m e) = (if s then "-" else "") +:+ show_hundredths h
    /\ 0 <= h
    /\ 2 * Z.abs (Zpos m * 2 ^ Z.max e 0 * 100 - h * 2 ^ Z.max (- e) 0) <= 2 ^ Z.max (- e) 0.
Proof.
  exists (hundredths m e). split; [done|]. unfold hundredths. destruct (Z.leb_spec 0 e) as [He|He].
  - rewrite Z.max_l, Z.max_r by lia. pose proof (Z.pow_pos_nonneg 2 e ltac:(lia) He).
    rewrite Z.pow_0_r. split; [nia|]. rewrite Z.mul_1_r, Z.sub_diag. cbn. lia.
  - rewrite (Z.max_r e), (Z.max_l (- e)) by lia. rewrite Z.pow_0_r, Z.mul_1_r.
    pose proof (Z.pow_pos_nonneg 2 (- e) ltac:(lia) ltac:(lia)) as Hd.
    split; [|by apply round_even_nearest].
    unfold round_even. pose proof (Z.div_pos (Zpos m * 100) (2 ^ (- e)) ltac:(lia) Hd).
    repeat case_match; lia.
Qed.

(** *** time.Duration.String *)

(** The digits of [v / 10^prec] after the point, least significant first, without
    trailing zeros; [print]: a digit that is not zero has been seen. *)
Fixpoint frac_digits (prec : nat) (v : Z) (print : bool) (acc : string) : string :=
  match prec with
  | O => if print then "." +:+ acc else acc
  | S prec =>
      let digit := v mod 10 in
      let print := print || negb (digit =? 0) in
      frac_digits prec (v / 10) print (if print then pretty digit +:+ acc else acc)
  end.
Definition fmtFrac (prec : nat) (v : Z) : string := frac_digits prec v false "".

Definition duration_String (d : Z) : string :=
  let u := Z.abs d in
  let text :=
    if u =? 0 then "0s"
    else if u <? 1000 then pretty u +:+ "ns"
    else if u <? 1000000 then pretty (u / 1000) +:+ fmtFrac 3 u +:+ "µs"
    else if u <? 1000000000 then pretty (u / 1000000) +:+ fmtFrac 6 u +:+ "ms"
    else
      let secs := u / 1000000000 in
      let mins := secs / 60 in
      let hours := mins / 60 in
      (if 0 <? hours then pretty hours +:+ "h" else "")
        +:+ (if 0 <? mins then pretty (mins mod 60) +:+ "m" else "")
        +:+ pretty (secs mod 60) +:+ fmtFrac 9 u +:+ "s" in
  (if d <? 0 then "-" else "") +:+ text.

Example durations :
  duration_String <$> [0; 999; 1500; 2000000; 1500000000; 3600000000000; - 61001000000]
  = ["0s"; "999ns"; "1.5µs"; "2ms"; "1.5s"; "1h0m0s"; "-1m1.001s"].
Proof. reflexivity. Qed.

Example floats :
  fixed2 <$> [latency_ms 1234567; f64_div (f64_of_int64 1) (f64_of_int64 8);
              f64_div (f64_of_int64 3) (f64_of_int64 8); f64_div (f64_of_int64 1) f64_zero]
  = ["1.23"; "0.12"; "0.38"; "+Inf"].
Proof. reflexivity. Qed.

(** ** The result *)

Record SystemInfo : Type := mkSystemInfo {
  OS : string;
  Arch : string;
  NumCPU : Z;
  GoVersion : string
}.

Record BenchmarkConfig : Type := mkBenchmarkConfig {
  APIEndpoint : string;
  NumRequests : Z;
  Concurrency : Z;
  RequestType : string;
  bc_Duration : Z
}.

Record LatenciesMs : Type := mkLatenciesMs {
  MinLatencyMs : spec_float;
  MaxLatencyMs : spec_float;
  AvgLatencyMs : spec_float;
  P50LatencyMs : spec_float;
  P95LatencyMs : spec_float;
  P99LatencyMs : spec_float
}.

Record BenchmarkResult : Type := mkBenchmarkResult {
  Timestamp : Z;
  System : SystemInfo;
  Config : BenchmarkConfig;
  TotalRequests : Z;
  SuccessRequests : Z;
  FailedRequests : Z;
  Duration : Z;
  DurationMs : Z;
  RequestsPerSec : spec_float;
  r_Latency : LatencyStats;
  r_LatencyMs : LatenciesMs
}.

Definition no_latency : LatencyStats := mkLatencyStats 0 0 0 0 0 0.
Definition no_latency_ms : LatenciesMs :=
  mkLatenciesMs f64_zero f64_zero f64_zero f64_zero f64_zero f64_zero.

Definition latencies_ms (s : LatencyStats) : LatenciesMs :=
  mkLatenciesMs (latency_ms (MinLatency s)) (latency_ms (MaxLatency s)) (latency_ms (AvgLatency s))
    (latency_ms (P50Latency s)) (latency_ms (P95Latency s)) (latency_ms (P99Latency s)).

(** The end of [runBenchmark]: the counters and latencies of the run, which took
    [duration]; [None]: it panics. *)
Definition benchmark_result (startTime duration : Z) (system : SystemInfo) (config : BenchmarkConfig)
    (total success failed : Z) (latencies : list Z) : option BenchmarkResult :=
  let result := mkBenchmarkResult startTime system config total success failed duration
    (Milliseconds duration) (f64_div (f64_of_int64 total) (Seconds duration)) in
  match latencies with
  | [] => Some (result no_latency no_latency_ms)
  | _ => stats ← latency_stats latencies; Some (result stats (latencies_ms stats))
  end.

(** ** The text *)

Section Report.
(** [time.Time.Format(time.RFC3339)] in the local time zone. *)
Variable rfc3339 : Z -> string.
Implicit Types (result : BenchmarkResult).

Definition both (d : Z) (ms : spec_float) : string :=
  duration_String d +:+ " (" +:+ fixed2 ms +:+ "ms)".

Definition formatTextOutput result : string :=
  let sys := System result in let cfg := Config result in
  let lat := r_Latency result in let ms := r_LatencyMs result in "
=== System Info ===
OS:                 " +:+ OS sys +:+ "
Arch:               " +:+ Arch sys +:+ "
CPU:                " +:+ pretty (NumCPU sys) +:+ " cores
Go:                 " +:+ GoVersion sys +:+ "

=== Benchmark Config ===
Timestamp:          " +:+ rfc3339 (Timestamp result) +:+ "
Request Type:       " +:+ RequestType cfg +:+ "
Endpoint:           " +:+ APIEndpoint cfg +:+ "
Concurrency:        " +:+ pretty (Concurrency cfg) +:+ "

=== Results ===
Total Requests:     " +:+ pretty (TotalRequests result) +:+ "
Success Requests:   " +:+ pretty (SuccessRequests result) +:+ "
Failed Requests:    " +:+ pretty (FailedRequests result) +:+ "
Duration:           " +:+ duration_String (Duration result) +:+ "
Requests/sec:       " +:+ fixed2 (RequestsPerSec result) +:+ "

=== Latency ===
Min:                " +:+ both (MinLatency lat) (MinLatencyMs ms) +:+ "
Avg:                " +:+ both (AvgLatency lat) (AvgLatencyMs ms) +:+ "
Max:                " +:+ both (MaxLatency lat) (MaxLatencyMs ms) +:+ "
P50:                " +:+ both (P50Latency lat) (P50LatencyMs ms) +:+ "
P95:                " +:+ both (P95Latency lat) (P95LatencyMs ms) +:+ "
P99:                " +:+ both (P99Latency lat) (P99LatencyMs ms) +:+ "
".

(** ** encoding/csv *)

Definition quote : ascii := "034".
Definition comma : ascii := ",".
Definition lf : ascii := "010".
Definition cr : ascii := "013".

Fixpoint has_special (s : string) : bool :=
  match s with
  | EmptyString => false
  | String c s =>
      Ascii.eqb c lf || Ascii.eqb c cr || Ascii.eqb c quote || Ascii.eqb c comma
      || has_special s
  end.

(** [unicode.IsSpace] of the first rune, in UTF-8. *)
Definition starts_with_space (s : string) : bool :=
  let code c := Z.of_N (N_of_ascii c) in
  let within lo hi c := (lo <=? code c) && (code c <=? hi) in
  match s with
  | EmptyString => false
  | String a s =>
      within 9 13 a || (code a =? 32)
      || match s with
         | EmptyString => false
         | String b s =>
             (code a =? 194) && ((code b =? 133) || (code b =? 160))
             || match s with
                | EmptyString => false
                | String c _ =>
                    (code a =? 225) && (code b =? 154) && (code c =? 128)
                    || (code a =? 226) && (code b =? 128)
                       && (within 128 138 c || within 168 169 c || (code c =? 175))
                    || (code a =? 226) && (code b =? 129) && (code c =? 159)
                    || (code a =? 227) && (code b =? 128) && (code c =? 128)
                end
         end
  end.

Definition fieldNeedsQuotes (field : string) : bool :=
  if String.eqb field "" then false
  else String.eqb field "\." || has_special field || starts_with_space field.

Fixpoint double_quotes (s : string) : string :=
  match s with
  | EmptyString => EmptyString
  | String c s =>
      if Ascii.eqb c quote then String quote (String quote (double_quotes s))
      else String c (double_quotes s)
  end.

Definition csv_field (field : string) : string :=
  if fieldNeedsQuotes field
  then String quote (double_quotes field +:+ String quote "")
  else field.

(** [Writer.Write] of a record with these fields. *)
Fixpoint csv_record (fields : list string) : string :=
  match fields with
  | [] => String lf ""
  | [field] => csv_field field +:+ String lf ""
  | field :: fields => csv_field field +:+ String comma (csv_record fields)
  end.

(** ** generateCSV *)

Definition csv_header : list string :=
  ["timestamp"; "os"; "arch"; "num_cpu"; "go_version";
   "request_type"; "endpoint"; "concurrency";
   "total_requests"; "success_requests"; "failed_requests";
   "duration_ms"; "requests_per_sec";
   "min_latency_ms"; "avg_latency_ms"; "max_latency_ms";
   "p50_latency_ms"; "p95_latency_ms"; "p99_latency_ms"].

Definition csv_values result : list string :=
  let sys := System result in let cfg := Config result in let ms := r_LatencyMs result in
  [rfc3339 (Timestamp result); OS sys; Arch sys; pretty (NumCPU sys); GoVersion sys;
   RequestType cfg; APIEndpoint cfg; pretty (Concurrency cfg);
   pretty (TotalRequests result); pretty (SuccessRequests result); pretty (FailedRequests result);
   pretty (DurationMs result); fixed2 (RequestsPerSec result);
   fixed2 (MinLatencyMs ms); fixed2 (AvgLatencyMs ms); fixed2 (MaxLatencyMs ms);
   fixed2 (P50LatencyMs ms); fixed2 (P95LatencyMs ms); fixed2 (P99LatencyMs ms)].

(** Writing to a buffer does not fail. *)
Definition generateCSV result : string := csv_record csv_header +:+ csv_record (csv_values result).
End Report.

(** ** Reading CSV back

    A reader of RFC 4180: where it is in a record. *)
Inductive CsvState : Type := FieldStart | Unquoted | Quoted | QuoteSeen.

Fixpoint csv_read (st : CsvState) (field : string) (record : list string) (s : string)
    : option (list (list string)) :=
  match s with
  | EmptyString =>
      match st, record with FieldStart, [] => Some [] | _, _ => None end
  | String c s =>
      let ends (field : string) :=
        if Ascii.eqb c comma then Some (csv_read FieldStart "" (record ++ [field]) s)
        else if Ascii.eqb c lf then Some (cons (record ++ [field]) <$> csv_read FieldStart "" [] s)
        else None in
      let more st' := csv_read st' (field +:+ String c "") record s in
      match st with
      | FieldStart =>
          if Ascii.eqb c quote then csv_read Quoted "" record s
          else match ends "" with Some r => r | None => more Unquoted end
      | Unquoted =>
          if Ascii.eqb c quote then None
          else match ends field with Some r => r | None => more Unquoted end
      | Quoted =>
          if Ascii.eqb c quote then csv_read QuoteSeen field record s else more Quoted
      | QuoteSeen =>
          if Ascii.eqb c quote then more Quoted
          else match ends field with Some r => r | None => None end
      end
  end.

Lemma str_cons_app c (s t : string) : String c s +:+ t = String c (s +:+ t).
Proof. reflexivity. Qed.

Lemma str_nil_app (s : string) : "" +:+ s = s.
Proof. reflexivity. Qed.

Lemma str_app_assoc (s t u : string) : (s +:+ t) +:+ u = s +:+ (t +:+ u).
Proof. induction s as [|c s IH]; [done|]. rewrite !str_cons_app. by f_equal. Qed.

Lemma str_app_nil (s : string) : s +:+ "" = s.
Proof. induction s as [|c s IH]; [done|]. rewrite str_cons_app. by f_equal. Qed.

(** What a delimiter does after a complete field. *)
Definition field_read (field : string) (record : list string) (d : ascii) (rest : string)
    : option (list (list string)) :=
  if Ascii.eqb d comma then csv_read FieldStart "" (record ++ [field]) rest
  else cons (record ++ [field]) <$> csv_read FieldStart "" [] rest.

Definition delimiter (d : ascii) : Prop := d = comma \/ d = lf.

Lemma read_unquoted s : forall field record d rest,
  delimiter d -> has_special s = false ->
  csv_read Unquoted field record (s +:+ String d rest) = field_read (field +:+ s) record d rest.
Proof.
  induction s as [|c s IH]; intros field record d rest Hd Hs; cbn [has_special] in Hs.
  { rewrite str_app_nil. by destruct Hd as [-> | ->]. }
  apply orb_false_iff in Hs as [[[[Hn _]%orb_false_iff Hq]%orb_false_iff Hc]%orb_false_iff Hs].
  rewrite ?str_cons_app, ?str_nil_app; cbn [csv_read]. rewrite Hq, Hc, Hn. rewrite IH by done. by rewrite str_app_assoc, ?str_cons_app, ?str_nil_app.
Qed.

Lemma read_quoted s : forall field record rest,
  csv_read Quoted field record (double_quotes s +:+ String quote rest)
  = csv_read QuoteSeen (field +:+ s) record rest.
Proof.
  induction s as [|c s IH]; intros field record rest; cbn [double_quotes].
  { by rewrite str_app_nil. }
  destruct (Ascii.eqb_spec c quote) as [->|Hc]; rewrite ?str_cons_app, ?str_nil_app; cbn [csv_read].
  - rewrite Ascii.eqb_refl, IH, str_app_assoc. done.
  - rewrite (proj2 (Ascii.eqb_neq c quote)), IH, str_app_assoc by done. done.
Qed.

Lemma read_field field record d rest :
  delimiter d ->
  csv_read FieldStart "" record (csv_field field +:+ String d rest) = field_read field record d rest.
Proof.
  intros Hd. unfold csv_field. destruct (fieldNeedsQuotes field) eqn:Eq.
  - rewrite ?str_cons_app, ?str_nil_app; cbn [csv_read]. rewrite Ascii.eqb_refl, str_app_assoc, str_cons_app,
      str_nil_app, read_quoted.
    by destruct Hd as [-> | ->].
  - destruct field as [|c s]; [by destruct Hd as [-> | ->]|].
    unfold fieldNeedsQuotes in Eq. cbn [String.eqb] in Eq.
    apply orb_false_iff in Eq as [[_ Hs]%orb_false_iff _]. cbn [has_special] in Hs.
    apply orb_false_iff in Hs as [[[[Hn _]%orb_false_iff Hq]%orb_false_iff Hc]%orb_false_iff Hs].
    rewrite ?str_cons_app, ?str_nil_app; cbn [csv_read]. rewrite Hq, Hc, Hn. by apply (read_unquoted s (String c "")).
Qed.

Lemma read_record fields : forall record rest, fields <> [] ->
  csv_read FieldStart "" record (csv_record fields +:+ rest)
  = cons (record ++ fields) <$> csv_read FieldStart "" [] rest.
Proof.
  induction fields as [|field fields IH]; intros record rest Hne; [done|].
  destruct fields as [|field' fields]; cbn [csv_record].
  - rewrite str_app_assoc. apply (read_field field record lf rest). by right.
  - rewrite str_app_assoc. rewrite ?str_cons_app. rewrite read_field by (by left).
    unfold field_read. rewrite Ascii.eqb_refl, IH by done. by rewrite <- app_assoc.
Qed.

(** The CSV of a result reads back as the header and its values, whatever the
    flags and the system put into them. *)
Theorem generateCSV_reads_back (rfc3339 : Z -> string) (result : BenchmarkResult) :
  csv_read FieldStart "" [] (generateCSV rfc3339 result) = Some [csv_header; csv_values rfc3339 result]
  /\ length csv_header = length (csv_values rfc3339 result).
Proof.
  split; [|done]. unfold generateCSV. rewrite read_record by done.
  rewrite <- (str_app_nil (csv_record (csv_values _ _))), read_record by done. done.
Qed.

(** ** Sending a request *)

Section Send.
(** [json.Marshal], and [client.Post] to a URL: the error of the call or the
    status code of the answer. *)
Context {A : Type} (marshal : A -> string + string) (Post : string -> string -> string + Z).

Definition send_json (url : string) (req : A) : option string :=
  match marshal req with
  | inl err => Some err
  | inr body => posted (Post url body)
  end.
End Send.

Section Requests.
Context (marshal_order : CreateOrderRequest -> string + string)
  (marshal_user : CreateUserRequest -> string + string)
  (marshal_notification : SendNotificationRequest -> string + string)
  (Post : string -> string -> string + Z).

Definition sendOrderRequest (endpoint : string) (userID : UUID) (nano1 nano2 nano3 : Z) : option string :=
  send_json marshal_order Post (endpoint +:+ "/api/orders") (new_order_request userID nano1 nano2 nano3).

Definition sendUserRequest (endpoint : string) (id : UUID) (nano : Z) : option string :=
  send_json marshal_user Post (endpoint +:+ "/api/users") (user_request id nano).

(** The outer [None]: the index of the type is out of range. *)
Definition sendNotificationRequest (endpoint : string) (id : UUID) (nano : Z) : option (option string) :=
  send_json marshal_notification Post (endpoint +:+ "/api/notifications") <$> notification_request id nano.

(** The [switch] of the worker: [None] for an unknown type, which ends it; the
    readings of the clock and the new UUID are arguments. *)
Definition send_request (config : BenchmarkConfig) (id : UUID) (nano1 nano2 nano3 : Z)
    : option (option string) :=
  if String.eqb (RequestType config) "order"
  then Some (sendOrderRequest (APIEndpoint config) id nano1 nano2 nano3)
  else if String.eqb (RequestType config) "user"
  then Some (sendUserRequest (APIEndpoint config) id nano1)
  else if String.eqb (RequestType config) "notification"
  then sendNotificationRequest (APIEndpoint config) id nano1
  else None.

(** The type a worker of Benchmark.v knows. *)
Definition known_type (type : string) : bool :=
  String.eqb type "order" || String.eqb type "user" || String.eqb type "notification".

(** After 1970 a worker sends exactly the requests of a known type, and counts a
    request as a success exactly when it was marshalled, answered, and answered
    with 201. *)
Lemma send_request_spec config id nano1 nano2 nano3 :
  0 <= nano1 ->
  is_Some (send_request config id nano1 nano2 nano3) <-> known_type (RequestType config) = true.
Proof.
  intros H. unfold send_request, known_type.
  destruct (String.eqb _ "order"); [by split; eauto|]. destruct (String.eqb _ "user"); [by split; eauto|].
  destruct (String.eqb _ "notification"); [|by split; [intros []|]].
  destruct (requests_well_formed id id nano1 nano1 nano1 H H H) as (_ & _ & _ & req & E & _).
  unfold sendNotificationRequest. rewrite E. by split; eauto.
Qed.
End Requests.

Lemma send_json_ok {A} (marshal : A -> string + string) Post url req :
  send_json marshal Post url req = None <->
  exists body, marshal req = inr body /\ Post url body = inr 201.
Proof.
  unfold send_json, posted. destruct (marshal req) as [err|body]; [by split; [|intros (? & ? & _)]|].
  destruct (Post url body) as [err|code] eqn:E.
  - split; [done|]. intros (b & [= <-] & Hb). congruence.
  - destruct (Z.eqb_spec code 201) as [->|Hne]; split; try done.
    + by exists body.
    + intros (b & [= <-] & Hb). congruence.
Qed.

(** ** The program *)

Section Main.
Variables (rfc3339 : Z -> string) (json : BenchmarkResult -> string + string)
  (write : string -> string -> option string).

(** [main] after [runBenchmark]: what it prints or writes, and its exit code. *)
Definition bench_main (result : BenchmarkResult) (format output : string)
    : option (Destination * string) * Z :=
  match outputResults (json result) (inr (generateCSV rfc3339 result)) (formatTextOutput rfc3339 result)
          write format output with
  | inl _ => (None, 1)
  | inr out => (Some out, 0)
  end.

(** The exit code says whether the result is somewhere: it is 0 exactly when the
    renderer of the format has succeeded and the file, if any, was written. *)
Lemma bench_main_code result format output :
  (bench_main result format output).2 = 0 <->
  exists text, (format = "json" /\ json result = inr text
      \/ format = "csv" /\ generateCSV rfc3339 result = text
      \/ format = "text" /\ formatTextOutput rfc3339 result = text)
    /\ (output = "" \/ output <> "" /\ write output text = None).
Proof.
  unfold bench_main. destruct (outputResults _ _ _ _ _ _) as [err|[to text]] eqn:E.
  - split; [done|]. intros (text & Hf & Ho).
    assert (Hok : exists to, outputResults (json result) (inr (generateCSV rfc3339 result))
      (formatTextOutput rfc3339 result) write format output = inr (to, text)).
    { destruct Ho as [->|[Hne Hw]]; eexists; apply outputResults_ok; split; try (by left);
        try (by right; eauto); destruct Hf as [[-> ->]|[[-> <-]|[-> <-]]]; eauto. }
    destruct Hok as [to Hto]. congruence.
  - apply outputResults_ok in E as [Hf Ho]. split; [intros _|done]. exists text. split.
    + destruct Hf as [H|[[-> [= <-]]|H]]; auto.
    + destruct Ho as [[-> _]|(Hne & _ & Hw)]; auto.
Qed.
End Main.

(** ** An example *)

Definition demo_result : option BenchmarkResult :=
  benchmark_result 0 2000000000 (mkSystemInfo "linux" "amd64" 8 "go1.24")
    (mkBenchmarkConfig "http://localhost:8000" 3 1 "order, twice" 0) 3 2 1 [3000000; 1500000; 9999].

Example demo_csv :
  generateCSV (fun _ => "2024-01-01T00:00:00Z") <$> demo_result
  = Some ("timestamp,os,arch,num_cpu,go_version,request_type,endpoint,concurrency,total_requests,success_requests,failed_requests,duration_ms,requests_per_sec,min_latency_ms,avg_latency_ms,max_latency_ms,p50_latency_ms,p95_latency_ms,p99_latency_ms
2024-01-01T00:00:00Z,linux,amd64,8,go1.24," +:+ String quote "order, twice" +:+ String quote ",http://localhost:8000,1,3,2,1,2000,1.50,0.01,1.50,3.00,1.50,3.00,3.00
").
Proof. vm_compute. reflexivity. Qed.
